(* ===== verification/_CoqProject ===== *)
-Q . S2P
Prelude.v
GoStrings.v
Slices.v
RpcWorkers.v
K8s.v
Conditions.v
Lib.v
Reference.v
Api.v
Webhook.v
GoMonad.v
Pods.v
External.v
ImageProbe.v
ExternalSecrets.v
ServiceConfig.v
Delete.v
Init.v
Inputs.v
Rollout.v
Reconcile.v
Watches.v
Main.v
Startup.v
Frame.v
Safety.v
Replay.v
Rotation.v
Endpoints.v
Samples.v
Guarantees.v
Protocol.v
Emits.v
Refinement.v
Healthy.v
Convergence.v
Liveness.v
Lease.v
Readiness.v
Witnesses.v
Witnesses2.v
