(* ===== verification/Prelude.v ===== *)
(** * neutron-operator: a verification development

    neutron-operator is a Kubernetes operator: it watches [NeutronAPI] objects
    and brings the OpenStack networking service they describe about (database,
    messaging, configuration Secrets, db-sync Job, Deployments, Services, Keystone
    registration).  This library models its Go code and proves what makes the
    operator correct.

    ** The program and its model

    - The resource: [src/api/v1beta1/neutronapi_types.go], [conditions.go] and
      [src/internal/neutronapi/const.go].  [Api] has the spec, the status and the
      methods on them as records and functions; [Conditions] the condition types
      and messages; [RpcWorkers] the parser [GetRPCWorkers], on [GoStrings], the Go
      string and number functions it uses.
    - The webhooks: [src/api/v1beta1/neutronapi_webhook.go] and
      [src/internal/webhook/v1beta1/neutronapi_webhook.go] are [Webhook].
    - The workloads: [volumes.go], [deployment.go], [workers.go], [dbsync.go] and
      [imageprobe.go] of [src/internal/neutronapi] are [Pods] (the builders) and
      [ImageProbe] ([IsWSGIEffective], and the transition system it takes part
      in).
    - The controller: [src/internal/controller/neutronapi_controller.go].
      [ExternalSecrets] has the Secrets of the agents outside the cluster,
      [ServiceConfig] [generateServiceSecrets] and [createHashOfInputHashes],
      [Delete] [reconcileDelete], [Init] [ensureDB] and [reconcileInit], [Inputs]
      and [Rollout] the two halves of [reconcileNormal], [Reconcile] the entry
      point with its deferred patch, [Watches] [SetupWithManager] and the functions
      that map events to requests.
    - The process: [src/cmd/main.go] is [Main], from the parsed flags to the
      running manager, with [SetupNeutronAPIWebhookWithManager] and
      [SetupNeutronAPIDefaults] of the webhook packages.  [main] builds the TLS
      options of two servers from one slice, so [Slices] models slices with their
      backing arrays on a heap.

    Definitions have the names of the Go functions and types.  A long function is
    cut into one definition per block, named in lower case, which the function
    composes in the order of the source.  A method of a type that also exists on
    another type has the type in front ([NeutronAPI_ValidateCreate]).

    ** How Go is modelled

    [GoMonad]: a function body is a computation on a state that goes on, returns
    early or panics; [call_fn] is the boundary of a call and [deferred] a deferred
    function.  A nil map is [None] of [gomap] and a write to it panics; a nil
    pointer is [None] and its dereference ([force]) panics.  Errors are values of
    [error], with wrapping.  The NeutronAPI is passed by pointer in the source: it
    is a component of the state ([St.inst]), as are [secretVars] ([St.vars]).
    Machine integers are [Z]; their width matters only to [strconv.Atoi], whose
    range is written out.  Logging is left out.

    [External]: every call to the API server, made directly or by a library helper,
    is a constructor of [Call], indexed by the type of its answer.  What answers it
    is a parameter, a [handler] with a state of its own, and the state of a
    reconcile keeps the trace of calls and answers.  Theorems on the controller
    hold for every handler; what some of them rely on is the class [Cluster] (what
    two library helpers report), [DatabaseHelper] (a database that was created has
    its account and Secret loaded), [SecretRotation] (a rotation moves on only when
    the workload is ready) and [SecretFinalizers] for the theorems on credentials,
    and, for the watches, [CacheLaws] and [ManagerLaws].

    [Lib]: the pure functions of lib-common, apimachinery and the sibling operators
    are operations of classes, one per package, with their documented behaviour as
    classes of laws; [K8s] has the structs they and the operator share.  [Reference]
    is an instance that satisfies all laws, [Samples] a cluster that satisfies
    [Cluster] and runs whole reconciles by evaluation, and [Witnesses] and [Witnesses2]
    apply the theorems to them.

    ** What is proved

    - A reconcile as a whole.  [Rotation]: no credential that the status records
      is given up, by a rotation, a removal or the pruning, before the Deployments
      run with its successor.  [Readiness]: a reconcile that reports
      Ready has seen the db-sync Job finished and every Deployment rolled out.
      [Safety]: it does not panic, but for extra volumes that do not convert.
      [Guarantees]: what precedes the application of a Deployment, that the status is
      patched on every path, that the finalizer is persisted before anything is
      created, which worker Deployments exist under which strategy, and that a
      missing TLS Secret cuts the initialisation short but not the reconcile.
    - Its calls.  [Protocol] states the order of stages that a reconcile goes
      through, with the calls each may make and how many; [Emits] is the judgement
      for it and [Refinement] shows that [Reconcile] implements it, and with it the
      bound on the number of calls, the namespace of the objects it names and the
      selectors of the Deployments.
    - Reconciles in sequence.  [Lease]: the messaging Secret that the Deployments
      were last applied with keeps the operator's consumer finalizer, in all states
      reachable by reconciles, however each ends, and by changes of others that
      leave consumer finalizers alone, as long as the two buses do not share a
      Secret (where they do it can lose the finalizer, as an example shows).
      [Replay] interprets the calls of a trace for it, and is the judgement that the
      recorded Secrets stay.  [Liveness]: on a healthy cluster ([Healthy]) two reconciles make a
      NeutronAPI Ready and it stays so, and one ends a deletion; [Convergence] has
      the blocks.
    - Its parts.  [Delete]: deletion releases every reference or keeps the
      finalizer.  [ServiceConfig]: the configuration is complete and consistent with
      what was read, parameter by parameter, or not written; the files the pods mount are in it.
      [ExternalSecrets]: each agent's Secret follows its inputs.  [Endpoints]: the
      registered endpoints and the bookkeeping of the rotation.  [Watches]: an event
      requests exactly the NeutronAPIs that it concerns.
    - [ImageProbe]: the fallback to Eventlet is sound and is reached, over all
      interleavings of reconciles whose calls may fail, completions and failures of
      the Job, deletions that complete later and image changes.
    - [Pods]: mounts and volumes agree, the configuration hash reaches every
      container, and exactly when a builder panics.
    - [Startup]: the calls of a start-up, in order, and its exit code; the TLS
      options of the two servers.
    - [Webhook] and [RpcWorkers]: defaulting, admission, route annotations; the
      parser against a declarative reading, its round trip and its range.

    [Frame] and the judgements [wp], [wpc], [safe], [emits] and [goes] are the
    proof infrastructure: a judgement follows the program text block by block, and the theorems compose the
    judgements of the blocks.

    ** Fuel and bounds

    All definitions are total.  Two functions of [GoStrings] take fuel: trimming,
    which removes at least one byte per step and has the length of its input, and
    decimal printing, which has the binary logarithm of the number plus one;
    [TrimSpace_spec] and [parse_print_udec] show that this is enough.  No other
    bound is set.

    ** What is not modelled

    The deep copies (generated; values here are immutable), the registration of
    the API group with the scheme (package variables and library calls), the
    parsing of the command line and logging.  The templates under [src/templates]
    are named by the keys under which their output is stored, not rendered.  Time
    enters only as requeue delays and as the transition times of conditions, which
    the condition library keeps.

    ** Plan

    The leases of the notifications and application credential Secrets over
    sequences of reconciles, as that of the messaging Secret; convergence from a
    cluster on which a Deployment has not rolled out yet. *)

From stdpp Require Export gmap strings.

Declare Scope go_scope.
Delimit Scope go_scope with go.

(** ** Errors

    A Go [error] value is modelled by how it was built: an API server status
    error with its reason, a sentinel made by [errors.New], or a wrapper made
    by [fmt.Errorf] with one [%w] verb.  A nil error is [None]. *)

Inductive StatusReason :=
| ReasonNotFound
| ReasonOther (code : string).

Inductive error :=
| APIError (reason : StatusReason) (msg : string)
| NewError (msg : string)
| Errorf (pre : string) (wrapped : error) (post : string).

#[export] Instance StatusReason_eq_dec : EqDecision StatusReason.
Proof. solve_decision. Defined.

#[export] Instance error_eq_dec : EqDecision error.
Proof. solve_decision. Defined.

(** [err.Error()] *)
Fixpoint Error (e : error) : string :=
  match e with
  | APIError _ msg => msg
  | NewError msg => msg
  | Errorf pre e post => pre +:+ Error e +:+ post
  end.

(** [k8s_errors.IsNotFound(err)], which looks through wrapped errors. *)
Fixpoint IsNotFound (e : error) : bool :=
  match e with
  | APIError ReasonNotFound _ => true
  | APIError (ReasonOther _) _ => false
  | NewError _ => false
  | Errorf _ e _ => IsNotFound e
  end.

(** [errors.Is(err, target)] *)
Fixpoint errors_Is (e target : error) : bool :=
  bool_decide (e = target) ||
  match e with
  | Errorf _ e' _ => errors_Is e' target
  | _ => false
  end.

(** [fmt.Errorf("pre%w", err)] for a wrapper with nothing after the verb. *)
Definition Wrap (pre : string) (e : error) : error := Errorf pre e "".

(** ** Controller results *)

Record Result := mkResult { Requeue : bool; RequeueAfter : Z }.

#[export] Instance Result_eq_dec : EqDecision Result.
Proof. solve_decision. Defined.

(** [ctrl.Result{}] *)
Definition Result0 : Result := mkResult false 0.

(** [time.Duration(n) * time.Second], in nanoseconds. *)
Definition seconds (n : Z) : Z := (n * 1000000000)%Z.

(** [ctrl.Result{RequeueAfter: time.Duration(n) * time.Second}] *)
Definition requeue_after (n : Z) : Result := mkResult false (seconds n).

(** ** Machine integers *)

Definition int64_min : Z := (-9223372036854775808)%Z.
Definition int64_max : Z := 9223372036854775807%Z.

Definition in_int64 (z : Z) : bool := (int64_min <=? z)%Z && (z <=? int64_max)%Z.

(** ** Maps

    A Go map variable is nil or a reference to a map.  Reading or deleting a
    key of a nil map is allowed, writing to one panics. *)

Abbreviation gomap V := (option (gmap string V)) (only parsing).

Definition map_read {V} (m : gomap V) (k : string) : option V := m ≫= (.!! k).

Definition map_delete {V} (k : string) (m : gomap V) : gomap V := delete k <$> m.

(** [m[k] = v]; [None] when [m] is nil, where Go panics. *)
Definition map_write {V} (k : string) (v : V) (m : gomap V) : option (gomap V) :=
  match m with
  | Some m => Some (Some (<[k := v]> m))
  | None => None
  end.

(** The value [m[k]] of a [map[string]string], "" for a missing key. *)
Definition map_index (m : gomap string) (k : string) : string :=
  default "" (map_read m k).

(** ** Lemmas and automation shared by the components *)

Create HintDb go discriminated.

Lemma map_read_write {V} k (v : V) m m' :
  map_write k v m = Some m' → map_read m' k = Some v.
Proof. destruct m; simpl; intros [= <-]. apply lookup_insert_eq. Qed.

Lemma map_read_write_ne {V} k k' (v : V) m m' :
  k ≠ k' → map_write k v m = Some m' → map_read m' k' = map_read m k'.
Proof. destruct m; simpl; intros Hk [= <-]. by apply lookup_insert_ne. Qed.

Lemma map_read_delete {V} k (m : gomap V) : map_read (map_delete k m) k = None.
Proof. destruct m; simpl; [apply lookup_delete_eq | done]. Qed.

Lemma map_read_delete_ne {V} k k' (m : gomap V) :
  k ≠ k' → map_read (map_delete k m) k' = map_read m k'.
Proof. destruct m; simpl; intros ?; [by apply lookup_delete_ne | done]. Qed.

Lemma map_delete_is_Some {V} k (m : gomap V) : is_Some (map_delete k m) ↔ is_Some m.
Proof. unfold map_delete. by rewrite fmap_is_Some. Qed.

Lemma map_write_is_Some {V} k (v : V) m : is_Some (map_write k v m) ↔ is_Some m.
Proof. destruct m; simpl; split; intros [? [=]]; eauto. Qed.

#[export] Hint Resolve map_read_write map_read_delete : go.

Lemma errors_Is_refl e : errors_Is e e = true.
Proof. destruct e; simpl; by rewrite bool_decide_eq_true_2. Qed.

Lemma errors_Is_wrap pre e post target :
  errors_Is e target = true → errors_Is (Errorf pre e post) target = true.
Proof. simpl. intros ->. by rewrite orb_true_r. Qed.

Lemma IsNotFound_wrap pre e post : IsNotFound (Errorf pre e post) = IsNotFound e.
Proof. done. Qed.
