(* ===== verification/GoStrings.v ===== *)
(** * Go string functions

    The operations of the packages [strings] and [strconv] (and the [%d] verb
    of [fmt]) that the operator uses, on byte strings: [strings.Split],
    [SplitN], [TrimSpace], [HasPrefix], [HasSuffix], [ReplaceAll],
    [strconv.Atoi] on 64-bit [int], and decimal printing. *)

From Stdlib Require Import Ascii.
From S2P Require Import Prelude.

Abbreviation bytes := (list ascii) (only parsing).

(** The bytes of a Go string constant. *)
Definition B (s : string) : bytes := String.list_ascii_of_string s.
Definition to_string (s : bytes) : string := String.string_of_list_ascii s.

(** ** Prefixes and suffixes *)

Fixpoint prefixb (p s : bytes) : bool :=
  match p, s with
  | [], _ => true
  | a :: p, c :: s => bool_decide (a = c) && prefixb p s
  | _ :: _, [] => false
  end.

(** [strings.HasPrefix(s, p)] *)
Definition HasPrefix (s p : bytes) : bool := prefixb p s.

(** [strings.HasSuffix(s, p)] *)
Definition HasSuffix (s p : bytes) : bool := prefixb (reverse p) (reverse s).

(** ** Splitting *)

(** [strings.Split(s, sep)] for a one-byte separator. *)
Fixpoint Split (s : bytes) (sep : ascii) : list bytes :=
  match s with
  | [] => [[]]
  | c :: s =>
      let r := Split s sep in
      if bool_decide (c = sep) then [] :: r
      else match r with
           | l :: ls => (c :: l) :: ls
           | [] => [[c]]
           end
  end.

(** [strings.SplitN(s, sep, 2)] for a one-byte separator: one piece when the
    separator does not occur, otherwise the text before and after its first
    occurrence. *)
Fixpoint SplitN2 (s : bytes) (sep : ascii) : bytes * option bytes :=
  match s with
  | [] => ([], None)
  | c :: s =>
      if bool_decide (c = sep) then ([], Some s)
      else let '(l, r) := SplitN2 s sep in (c :: l, r)
  end.

(** [strings.ReplaceAll(s, c, "")] for a one-byte [c]. *)
Definition RemoveAll (s : bytes) (c : ascii) : bytes := filter (λ x, x ≠ c) s.

(** ** White space

    The UTF-8 encodings of the code points with [unicode.IsSpace]:
    U+0009..U+000D, U+0020, U+0085, U+00A0, U+1680, U+2000..U+200A, U+2028,
    U+2029, U+202F, U+205F and U+3000. *)
Definition byte_of (n : N) : ascii := ascii_of_N n.

Definition utf8 (l : list N) : bytes := byte_of <$> l.

Definition spaces : list bytes :=
  utf8 <$>
  ([[9]; [10]; [11]; [12]; [13]; [32];
    [0xC2; 0x85]; [0xC2; 0xA0]; [0xE1; 0x9A; 0x80];
    [0xE2; 0x80; 0x80]; [0xE2; 0x80; 0x81]; [0xE2; 0x80; 0x82];
    [0xE2; 0x80; 0x83]; [0xE2; 0x80; 0x84]; [0xE2; 0x80; 0x85];
    [0xE2; 0x80; 0x86]; [0xE2; 0x80; 0x87]; [0xE2; 0x80; 0x88];
    [0xE2; 0x80; 0x89]; [0xE2; 0x80; 0x8A]; [0xE2; 0x80; 0xA8];
    [0xE2; 0x80; 0xA9]; [0xE2; 0x80; 0xAF]; [0xE2; 0x81; 0x9F];
    [0xE3; 0x80; 0x80]])%N.

(** Drops occurrences of the words of [ws] at the front, [fuel] of them at
    most; every word is non-empty, so the length of [s] is enough. *)
Fixpoint strip (fuel : nat) (ws : list bytes) (s : bytes) : bytes :=
  match fuel with
  | O => s
  | S fuel =>
      match List.find (λ w, prefixb w s) ws with
      | Some w => strip fuel ws (drop (length w) s)
      | None => s
      end
  end.

Definition trim_left (s : bytes) : bytes := strip (length s) spaces s.

Definition trim_right (s : bytes) : bytes :=
  reverse (strip (length s) (reverse <$> spaces) (reverse s)).

(** [strings.TrimSpace(s)] *)
Definition TrimSpace (s : bytes) : bytes := trim_right (trim_left s).

(** ** Integers *)

Definition digit_val (c : ascii) : option Z :=
  let n := Z.of_N (N_of_ascii c) in
  if (48 <=? n)%Z && (n <=? 57)%Z then Some (n - 48)%Z else None.

Fixpoint digits_val (acc : Z) (s : bytes) : option Z :=
  match s with
  | [] => Some acc
  | c :: s => d ← digit_val c; digits_val (acc * 10 + d)%Z s
  end.

(** An unsigned decimal numeral: at least one digit. *)
Definition parse_udec (s : bytes) : option Z :=
  match s with [] => None | _ => digits_val 0 s end.

Definition parse_dec (s : bytes) : option Z :=
  match s with
  | c :: t =>
      if bool_decide (c = "-"%char) then Z.opp <$> parse_udec t
      else if bool_decide (c = "+"%char) then parse_udec t
      else parse_udec s
  | [] => None
  end.

(** [strconv.Atoi(s)] on a 64-bit platform; [None] is its non-nil error
    (invalid syntax or out of range). *)
Definition Atoi (s : bytes) : option Z :=
  z ← parse_dec s; if in_int64 z then Some z else None.

Definition digit_of (d : Z) : ascii := ascii_of_N (Z.to_N (48 + d)).

Fixpoint print_digits (fuel : nat) (n : Z) (acc : bytes) : bytes :=
  match fuel with
  | O => acc
  | S fuel =>
      let acc := digit_of (n mod 10) :: acc in
      if (n <? 10)%Z then acc else print_digits fuel (n / 10) acc
  end.

Definition print_udec (n : Z) : bytes := print_digits (S (Z.to_nat (Z.log2 n))) n [].

(** [fmt.Sprintf("%d", z)] *)
Definition Itoa (z : Z) : bytes :=
  if (z <? 0)%Z then "-"%char :: print_udec (- z) else print_udec z.

(** ** Lemmas on splitting *)

Lemma byte_not_in (c : ascii) (s : bytes) : bool_decide (c ∈ s) = false → c ∉ s.
Proof. apply bool_decide_eq_false_1. Qed.

Lemma Split_nonempty s sep : Split s sep ≠ [].
Proof. destruct s; simpl; [done|]. case_bool_decide; [done|]. by destruct Split. Qed.

Lemma Split_app l s sep :
  sep ∉ l → Split (l ++ sep :: s) sep = l :: Split s sep.
Proof.
  induction l as [|c l IH]; intros Hl; simpl.
  - by rewrite bool_decide_eq_true_2.
  - apply not_elem_of_cons in Hl as [Hc Hl].
    rewrite bool_decide_eq_false_2 by done. by rewrite IH.
Qed.

Lemma Split_last l sep : sep ∉ l → Split l sep = [l].
Proof.
  induction l as [|c l IH]; intros Hl; simpl; [done|].
  apply not_elem_of_cons in Hl as [Hc Hl].
  rewrite bool_decide_eq_false_2 by done. by rewrite IH.
Qed.

Lemma SplitN2_app k v sep : sep ∉ k → SplitN2 (k ++ sep :: v) sep = (k, Some v).
Proof.
  induction k as [|c k IH]; intros Hk; simpl.
  - by rewrite bool_decide_eq_true_2.
  - apply not_elem_of_cons in Hk as [Hc Hk].
    rewrite bool_decide_eq_false_2 by done. by rewrite IH.
Qed.

Lemma RemoveAll_id s c : c ∉ s → RemoveAll s c = s.
Proof.
  unfold RemoveAll. induction s as [|x s IH]; intros Hs; [done|].
  apply not_elem_of_cons in Hs as [Hx Hs].
  rewrite filter_cons_True by congruence. by rewrite IH.
Qed.

Lemma RemoveAll_app s1 s2 c : RemoveAll (s1 ++ s2) c = RemoveAll s1 c ++ RemoveAll s2 c.
Proof. apply filter_app. Qed.

Lemma RemoveAll_all s c : Forall (λ x, x = c) s → RemoveAll s c = [].
Proof.
  unfold RemoveAll. induction 1 as [|x s -> _ IH]; [done|].
  rewrite filter_cons_False; naive_solver.
Qed.

(** ** Lemmas on white space *)

Lemma prefixb_spec p s : prefixb p s = true ↔ p `prefix_of` s.
Proof.
  revert s. induction p as [|a p IH]; intros s; simpl.
  - split; [intros _; by exists s | done].
  - destruct s as [|c s].
    + split; [done | intros H; by apply prefix_nil_inv in H].
    + rewrite andb_true_iff, bool_decide_eq_true, IH. split.
      * intros [-> H]. by apply prefix_cons.
      * intros H. split; [by eapply prefix_cons_inv_1 | by eapply prefix_cons_inv_2].
Qed.

(** No word of [ws] starts [s]. *)
Definition no_prefix (ws : list bytes) (s : bytes) : Prop :=
  Forall (λ w, ¬ w `prefix_of` s) ws.

Lemma no_prefix_find ws s :
  no_prefix ws s ↔ List.find (λ w, prefixb w s) ws = None.
Proof.
  unfold no_prefix. rewrite Forall_forall. split.
  - intros H. destruct (List.find _ ws) as [w|] eqn:E; [|done].
    apply List.find_some in E as [Hw Hp]. apply list_elem_of_In in Hw.
    by destruct (H w Hw); apply prefixb_spec.
  - intros E w Hw Hp. apply list_elem_of_In in Hw.
    pose proof (List.find_none _ _ E _ Hw) as Hf. simpl in Hf.
    by rewrite (proj2 (prefixb_spec _ _) Hp) in Hf.
Qed.

Lemma strip_id fuel ws s : no_prefix ws s → strip fuel ws s = s.
Proof. intros H. destruct fuel; simpl; [done|]. by rewrite (proj1 (no_prefix_find _ _) H). Qed.

Lemma strip_split fuel ws s :
  ∃ pre, s = concat pre ++ strip fuel ws s ∧ Forall (.∈ ws) pre.
Proof.
  revert s. induction fuel as [|fuel IH]; intros s; simpl; [by exists []|].
  destruct (List.find _ ws) as [w|] eqn:E; [|by exists []].
  apply List.find_some in E as [Hw Hp]. apply list_elem_of_In in Hw.
  apply prefixb_spec in Hp as [t ->].
  rewrite drop_app_length. destruct (IH t) as (pre & Ht & Hpre).
  exists (w :: pre). simpl. rewrite <- app_assoc, <- Ht. auto.
Qed.

Lemma strip_no_prefix fuel ws s :
  Forall (λ w, w ≠ []) ws → length s ≤ fuel → no_prefix ws (strip fuel ws s).
Proof.
  intros Hws. revert s. induction fuel as [|fuel IH]; intros s Hs; simpl.
  - destruct s; [|simpl in Hs; lia]. eapply Forall_impl; [exact Hws|].
    intros w Hw Hp. by apply prefix_nil_inv in Hp.
  - destruct (List.find _ ws) as [w|] eqn:E; [|by apply no_prefix_find].
    apply List.find_some in E as [Hw Hp]. apply list_elem_of_In in Hw.
    rewrite Forall_forall in Hws. specialize (Hws w Hw).
    apply prefixb_spec in Hp as [t ->]. rewrite drop_app_length. apply IH.
    rewrite length_app in Hs. destruct w; [done|]. simpl in Hs. lia.
Qed.

Lemma spaces_nonempty : Forall (λ w, w ≠ []) spaces.
Proof. by apply (bool_decide_eq_true_1 (Forall (λ w, w ≠ []) spaces)); vm_compute. Qed.

Lemma rev_spaces_nonempty : Forall (λ w, w ≠ []) (reverse <$> spaces).
Proof.
  apply Forall_fmap. eapply Forall_impl; [apply spaces_nonempty|].
  intros w Hw Hr. simpl in Hr. by apply (f_equal reverse) in Hr; rewrite reverse_involutive in Hr.
Qed.

(** A string that neither starts nor ends with white space. *)
Definition trimmed (s : bytes) : Prop :=
  no_prefix spaces s ∧ no_prefix (reverse <$> spaces) (reverse s).

Lemma TrimSpace_id s : trimmed s → TrimSpace s = s.
Proof.
  intros [H1 H2]. unfold TrimSpace, trim_left, trim_right.
  rewrite (strip_id _ _ s) by done. rewrite strip_id by done. apply reverse_involutive.
Qed.

Lemma no_prefix_app ws s t : no_prefix ws (s ++ t) → no_prefix ws s.
Proof.
  unfold no_prefix. intros H. eapply Forall_impl; [exact H|].
  intros w Hw Hp. apply Hw. by apply prefix_app_r.
Qed.

(** [TrimSpace] removes exactly the white space at both ends. *)
Lemma TrimSpace_spec s :
  ∃ pre post, s = concat pre ++ TrimSpace s ++ concat post ∧
    Forall (.∈ spaces) pre ∧ Forall (.∈ spaces) post ∧ trimmed (TrimSpace s).
Proof.
  destruct (strip_split (length s) spaces s) as (pre & Hs & Hpre).
  fold (trim_left s) in Hs.
  destruct (strip_split (length (trim_left s)) (reverse <$> spaces) (reverse (trim_left s)))
    as (post & Ht & Hpost).
  assert (trim_left s = TrimSpace s ++ concat (reverse (reverse <$> post))) as Hl.
  { unfold TrimSpace, trim_right. apply (f_equal reverse) in Ht.
    rewrite reverse_involutive, reverse_app in Ht. rewrite Ht at 1. f_equal.
    clear. induction post as [|w post IH]; simpl; [done|].
    rewrite reverse_app, IH, reverse_cons, concat_app. simpl. by rewrite app_nil_r. }
  exists pre, (reverse (reverse <$> post)). split_and!.
  - by rewrite <- Hl.
  - done.
  - apply Forall_reverse, Forall_fmap. eapply Forall_impl; [exact Hpost|].
    intros w Hw. apply list_elem_of_fmap in Hw as (w' & -> & Hw'). simpl.
    by rewrite reverse_involutive.
  - split.
    + eapply no_prefix_app. rewrite <- Hl. apply strip_no_prefix; [apply spaces_nonempty | done].
    + unfold TrimSpace, trim_right. rewrite reverse_involutive.
      apply strip_no_prefix; [apply rev_spaces_nonempty | by rewrite length_reverse].
Qed.

Lemma TrimSpace_idemp s : TrimSpace (TrimSpace s) = TrimSpace s.
Proof. destruct (TrimSpace_spec s) as (? & ? & _ & _ & _ & H). by apply TrimSpace_id. Qed.

(** ** Lemmas on decimal numerals *)

Lemma digit_cases d : (0 ≤ d < 10)%Z →
  d ∈ [0; 1; 2; 3; 4; 5; 6; 7; 8; 9]%Z.
Proof. intros H. rewrite !elem_of_cons. lia. Qed.

Lemma digit_val_of d : (0 ≤ d < 10)%Z → digit_val (digit_of d) = Some d.
Proof.
  intros H. apply digit_cases in H. revert d H. apply Forall_forall.
  by repeat constructor.
Qed.

Definition is_digit (c : ascii) : Prop := is_Some (digit_val c).

Lemma is_digit_of d : (0 ≤ d < 10)%Z → is_digit (digit_of d).
Proof. intros H. exists d. by apply digit_val_of. Qed.

Lemma log2_div10 n : (10 ≤ n)%Z → (Z.log2 (n / 10) < Z.log2 n)%Z.
Proof.
  intros H. assert (1 ≤ n / 10)%Z by (apply Z.div_le_lower_bound; lia).
  assert (2 * (n / 10) ≤ n)%Z as H2 by (pose proof (Z.mul_div_le n 10); lia).
  apply Z.log2_le_mono in H2. rewrite Z.log2_double in H2; lia.
Qed.

Lemma digits_val_print fuel n acc :
  (0 ≤ n)%Z → Z.to_nat (Z.log2 n) < fuel →
  digits_val 0 (print_digits fuel n acc) = digits_val n acc.
Proof.
  revert n acc. induction fuel as [|fuel IH]; intros n acc Hn Hf; [lia|]. simpl.
  pose proof (Z.mod_pos_bound n 10). destruct (Z.ltb_spec n 10).
  - simpl. rewrite digit_val_of by lia. simpl. by rewrite Z.mod_small by lia.
  - pose proof (log2_div10 n). pose proof (Z.log2_nonneg (n / 10)).
    assert (0 ≤ n / 10)%Z by (apply Z.div_pos; lia).
    rewrite IH by lia. simpl. rewrite digit_val_of by lia. simpl.
    f_equal. rewrite (Z.div_mod n 10) at 3; lia.
Qed.

Lemma print_digits_digits fuel n acc :
  (0 ≤ n)%Z → Forall is_digit acc → Forall is_digit (print_digits fuel n acc).
Proof.
  revert n acc. induction fuel as [|fuel IH]; intros n acc Hn Hacc; simpl; [done|].
  pose proof (Z.mod_pos_bound n 10).
  assert (Forall is_digit (digit_of (n mod 10) :: acc)).
  { constructor; [apply is_digit_of; lia | done]. }
  destruct (n <? 10)%Z; [done|]. apply IH; [apply Z.div_pos; lia | done].
Qed.

Lemma print_digits_nonempty fuel n acc : acc ≠ [] → print_digits fuel n acc ≠ [].
Proof.
  revert n acc. induction fuel as [|fuel IH]; intros n acc Hacc; simpl; [done|].
  destruct (n <? 10)%Z; [done|]. by apply IH.
Qed.

Lemma print_udec_nonempty n : print_udec n ≠ [].
Proof. unfold print_udec. simpl. destruct (n <? 10)%Z; [done|]. by apply print_digits_nonempty. Qed.

Lemma print_udec_digits n : (0 ≤ n)%Z → Forall is_digit (print_udec n).
Proof. intros. by apply print_digits_digits. Qed.

Lemma parse_print_udec n : (0 ≤ n)%Z → parse_udec (print_udec n) = Some n.
Proof.
  intros Hn. unfold parse_udec. destruct (print_udec n) eqn:E.
  - by apply print_udec_nonempty in E.
  - rewrite <- E. unfold print_udec. rewrite digits_val_print by lia. done.
Qed.

Lemma digit_not_sign c : is_digit c → c ≠ "-"%char ∧ c ≠ "+"%char.
Proof. intros [d Hd]; split; intros ->; done. Qed.

Lemma parse_dec_Itoa z : parse_dec (Itoa z) = Some z.
Proof.
  unfold Itoa. destruct (Z.ltb_spec z 0).
  - simpl. rewrite parse_print_udec by lia. simpl. f_equal. lia.
  - pose proof (print_udec_digits z ltac:(lia)) as Hd.
    pose proof (parse_print_udec z ltac:(lia)) as Hp.
    destruct (print_udec z) as [|c t]; [done|].
    apply Forall_cons in Hd as [Hc _]. apply digit_not_sign in Hc as [Hm Hs].
    unfold parse_dec. by rewrite !bool_decide_eq_false_2.
Qed.

(** Printing then parsing an [int] is the identity. *)
Lemma Atoi_Itoa z : in_int64 z = true → Atoi (Itoa z) = Some z.
Proof. intros Hz. unfold Atoi. rewrite parse_dec_Itoa. simpl. by rewrite Hz. Qed.

Lemma Atoi_Itoa_out z : in_int64 z = false → Atoi (Itoa z) = None.
Proof. intros Hz. unfold Atoi. rewrite parse_dec_Itoa. simpl. by rewrite Hz. Qed.

#[export] Instance Itoa_inj : Inj (=) (=) Itoa.
Proof. intros x y H. apply (f_equal parse_dec) in H. rewrite !parse_dec_Itoa in H. congruence. Qed.

Lemma Atoi_int64 s z : Atoi s = Some z → (int64_min ≤ z ≤ int64_max)%Z.
Proof.
  unfold Atoi, in_int64. destruct (parse_dec s) as [z'|]; simpl; [|done].
  destruct (_ && _) eqn:E; [|done]. intros [= <-].
  apply andb_prop in E as [E1 E2]. lia.
Qed.

(** Characters of a printed integer. *)
Lemma Itoa_chars z : Forall (λ c, is_digit c ∨ c = "-"%char) (Itoa z).
Proof.
  unfold Itoa. destruct (Z.ltb_spec z 0).
  - constructor; [by right|]. eapply Forall_impl; [apply print_udec_digits; lia | auto].
  - eapply Forall_impl; [apply print_udec_digits; lia | auto].
Qed.

Lemma Itoa_nonempty z : Itoa z ≠ [].
Proof. unfold Itoa. destruct (z <? 0)%Z; [done | apply print_udec_nonempty]. Qed.

(** The first bytes of the encodings of white space, and the last ones. *)
Definition space_edge (c : ascii) : Prop :=
  c ∈ omap head spaces ∨ c ∈ omap last spaces.

#[export] Instance space_edge_dec c : Decision (space_edge c).
Proof. unfold space_edge. apply _. Defined.

Lemma no_prefix_head ws c s :
  c ∉ omap head ws → Forall (λ w, w ≠ []) ws → no_prefix ws (c :: s).
Proof.
  intros Hc Hws. unfold no_prefix. rewrite !Forall_forall in *. intros w Hw Hp.
  destruct w as [|a w]; [by apply (Hws []) |].
  apply prefix_cons_inv_1 in Hp as ->. apply Hc. apply list_elem_of_omap.
  by exists (c :: w).
Qed.

Lemma no_suffix_last ws s d :
  last s = Some d → d ∉ omap last ws → Forall (λ w, w ≠ []) (reverse <$> ws) →
  no_prefix (reverse <$> ws) (reverse s).
Proof.
  intros E Hl Hne. apply last_Some in E as [l ->].
  rewrite reverse_snoc. apply no_prefix_head; [|done].
  intros Hd. apply Hl. apply list_elem_of_omap in Hd as (w & Hw & Hh).
  apply list_elem_of_fmap in Hw as (w' & -> & Hw'). apply list_elem_of_omap.
  exists w'. split; [done|]. by rewrite head_reverse in Hh.
Qed.

(** A string whose first and last bytes are not those of white space. *)
Lemma trimmed_edges c s d :
  ¬ space_edge c → last (c :: s) = Some d → ¬ space_edge d → trimmed (c :: s).
Proof.
  intros Hc Hl Hd. split.
  - apply no_prefix_head; [intros ?; apply Hc; by left | apply spaces_nonempty].
  - apply (no_suffix_last _ _ d Hl); [intros ?; apply Hd; by right | apply rev_spaces_nonempty].
Qed.

Lemma not_space_edge c : bool_decide (space_edge c) = false → ¬ space_edge c.
Proof. apply bool_decide_eq_false_1. Qed.

(** ** Printed integers have no white space at their ends *)

Lemma numeral_not_space c : is_digit c ∨ c = "-"%char → ¬ space_edge c.
Proof.
  intros H. apply not_space_edge.
  assert (bool_decide (is_Some (digit_val c)) || bool_decide (c = "-"%char) = true) as Hb.
  { rewrite orb_true_iff, !bool_decide_eq_true. exact H. }
  clear H. destruct c as [[] [] [] [] [] [] [] []]; vm_compute in Hb |- *; done.
Qed.

Lemma Itoa_trimmed z : trimmed (Itoa z).
Proof.
  pose proof (Itoa_chars z) as Hc. pose proof (Itoa_nonempty z) as Hne.
  destruct (Itoa z) as [|c t] eqn:E; [done|].
  destruct (last (c :: t)) as [d|] eqn:Hl; [|by apply last_None in Hl].
  rewrite Forall_forall in Hc. apply (trimmed_edges c t d).
  - apply numeral_not_space, Hc. by left.
  - done.
  - apply numeral_not_space, Hc. apply last_Some in Hl as [l ->]. set_solver.
Qed.

Lemma TrimSpace_space_l t : trimmed t → TrimSpace (" "%char :: t) = t.
Proof.
  intros [H1 H2]. unfold TrimSpace.
  assert (trim_left (" "%char :: t) = t) as ->.
  { transitivity (strip (length t) spaces t); [reflexivity|]. by apply strip_id. }
  unfold trim_right. rewrite strip_id by done. apply reverse_involutive.
Qed.
