(* ===== verification/Slices.v ===== *)
(** * Go slices

    A slice is a view of an array: two slices may share one, and [append] writes
    into the spare capacity of the array when there is any, where every other
    slice of it sees the write.  The capacity of the array that [append]
    allocates is a parameter: the language only promises that it is enough. *)

From S2P Require Import Prelude.

Module Slice.
Record t := mk { array : nat; len : nat; cap : nat }.
Definition nil : t := mk 0 0 0.
End Slice.

Module Heap.
(** The cells of all arrays, and the number of the next array. *)
Record t (T : Type) := mk { cells : gmap (nat * nat) T; next : nat }.
Arguments mk {_} _ _.
Arguments cells {_} _.
Arguments next {_} _.
Definition empty {T} : t T := mk ∅ 1.
End Heap.

Lemma mapM_ext_in {A B} (f g : A → option B) l :
  (∀ x, x ∈ l → f x = g x) → mapM f l = mapM g l.
Proof.
  induction l as [|x l IH]; intros H; simpl; [done|]. rewrite H by (by left).
  destruct (g x); simpl; [|done]. rewrite IH; [done|]. intros y Hy. apply H. by right.
Qed.

Lemma mapM_snoc {A B} (f : A → option B) l x ys y :
  mapM f l = Some ys → f x = Some y → mapM f (l ++ [x]) = Some (ys ++ [y]).
Proof.
  intros Hl Hx. apply mapM_Some in Hl. apply mapM_Some, Forall2_app; [done|]. by constructor.
Qed.

Section slices.
Context {T : Type} (growslice : nat → nat → nat).

(** The elements of a slice. *)
Definition contents (h : Heap.t T) (s : Slice.t) : option (list T) :=
  mapM (λ k, Heap.cells h !! (Slice.array s, k)) (seq 0 (Slice.len s)).

(** The elements of [l] as the array [a], from index [k] on. *)
Fixpoint write_array (a k : nat) (l : list T) (cells : gmap (nat * nat) T) : gmap (nat * nat) T :=
  match l with
  | [] => cells
  | x :: l => <[(a, k) := x]> (write_array a (S k) l cells)
  end.

(** [append(s, x)]; [None] is a slice that does not point at its elements. *)
Definition append (h : Heap.t T) (s : Slice.t) (x : T) : option (Heap.t T * Slice.t) :=
  let n := S (Slice.len s) in
  if Slice.len s <? Slice.cap s then
    Some (Heap.mk (<[(Slice.array s, Slice.len s) := x]> (Heap.cells h)) (Heap.next h),
          Slice.mk (Slice.array s) n (Slice.cap s))
  else
    l ← contents h s;
    Some (Heap.mk (write_array (Heap.next h) 0 (l ++ [x]) (Heap.cells h)) (S (Heap.next h)),
          Slice.mk (Heap.next h) n (growslice (Slice.cap s) n)).

(** The slice holds [l] and its array was allocated. *)
Definition holds (h : Heap.t T) (s : Slice.t) (l : list T) : Prop :=
  contents h s = Some l ∧ Slice.array s < Heap.next h.

Lemma holds_len h s l : holds h s l → length l = Slice.len s.
Proof. intros [H _]. unfold contents in H. apply length_mapM in H. rewrite length_seq in H. lia. Qed.

Lemma contents_ext h h' s :
  (∀ k, k < Slice.len s → Heap.cells h' !! (Slice.array s, k) = Heap.cells h !! (Slice.array s, k)) →
  contents h' s = contents h s.
Proof.
  intros H. unfold contents. apply mapM_ext_in. intros k Hk. apply elem_of_seq in Hk. apply H. lia.
Qed.

Lemma write_array_other a k l cells b j :
  b ≠ a ∨ j < k → write_array a k l cells !! (b, j) = cells !! (b, j).
Proof.
  revert k. induction l as [|x l IH]; intros k H; simpl; [done|].
  rewrite lookup_insert_ne; [apply IH; lia|]. intros [= -> ->]. lia.
Qed.

Lemma write_array_lookup a l cells k j :
  write_array a k l cells !! (a, k + j) = match l !! j with Some x => Some x | None => cells !! (a, k + j) end.
Proof.
  revert k j. induction l as [|x l IH]; intros k [|j]; simpl; [done..| |].
  - by rewrite Nat.add_0_r, lookup_insert_eq.
  - rewrite lookup_insert_ne by (intros [= E]; lia).
    replace (k + S j) with (S k + j) by lia. apply IH.
Qed.
Lemma contents_snoc h s a k l x :
  contents (Heap.mk (<[(Slice.array s, Slice.len s) := x]> (Heap.cells h)) k) s = Some l →
  a = Slice.array s →
  contents (Heap.mk (<[(a, Slice.len s) := x]> (Heap.cells h)) k)
    (Slice.mk a (S (Slice.len s)) (Slice.cap s)) = Some (l ++ [x]).
Proof.
  intros H ->. unfold contents in *. cbn [Slice.array Slice.len] in *.
  rewrite seq_S. apply mapM_snoc; [exact H|]. apply lookup_insert_eq.
Qed.

(** [append] appends, and the slice it returns is good. *)
Lemma append_holds h s l x :
  holds h s l → ∃ h' s', append h s x = Some (h', s') ∧ holds h' s' (l ++ [x]).
Proof.
  intros Hl. pose proof (holds_len _ _ _ Hl) as Hlen. destruct Hl as [Hc Ha]. unfold append.
  destruct (Slice.len s <? Slice.cap s).
  - eexists _, _. split; [done|]. split; [|exact Ha].
    eapply (contents_snoc h s (Slice.array s) (Heap.next h)); [|done]. rewrite <-Hc. apply contents_ext. intros k Hk. cbn [Heap.cells].
    rewrite lookup_insert_ne; [done|]. intros [= E]. lia.
  - rewrite Hc. eexists _, _. split; [done|]. split; [|simpl; lia].
    unfold contents. cbn [Heap.cells Slice.array Slice.len].
    apply mapM_Some. apply Forall2_same_length_lookup. split.
    { rewrite length_app, length_seq, Hlen. simpl. lia. }
    intros k y z Hk Hz. apply lookup_seq in Hk as [-> Hk]. simpl in *.
    pose proof (write_array_lookup (Heap.next h) (l ++ [x]) (Heap.cells h) 0 k) as Hw.
    simpl in Hw. by rewrite Hw, Hz.
Qed.

(** A slice sees an [append] on another one only through spare capacity that it
    covers itself. *)
Lemma append_keeps h s x h' s' s2 l2 :
  holds h s2 l2 → append h s x = Some (h', s') →
  Slice.array s2 ≠ Slice.array s ∨ Slice.cap s ≤ Slice.len s ∨ Slice.len s2 ≤ Slice.len s →
  holds h' s2 l2.
Proof.
  intros [Hc Ha] Happ Hor. unfold append in Happ. destruct (Slice.len s <? Slice.cap s) eqn:E.
  - apply Nat.ltb_lt in E. injection Happ as <- <-. split; [|exact Ha]. rewrite <-Hc.
    apply contents_ext. intros k Hk. cbn [Heap.cells]. rewrite lookup_insert_ne; [done|].
    intros [= E1 E2]. lia.
  - destruct (contents h s) as [l|]; [|done]. injection Happ as <- <-. split; [|simpl; lia].
    rewrite <-Hc. apply contents_ext. intros k Hk. cbn [Heap.cells].
    apply write_array_other. left. lia.
Qed.

Lemma append_full h s x h' s' :
  Slice.cap s ≤ Slice.len s → append h s x = Some (h', s') →
  s' = Slice.mk (Heap.next h) (S (Slice.len s)) (growslice (Slice.cap s) (S (Slice.len s))) ∧
  Heap.next h' = S (Heap.next h).
Proof.
  intros Hfull H. unfold append in H. apply Nat.ltb_ge in Hfull. rewrite Hfull in H.
  destruct (contents h s); [|done]. by injection H as <- <-.
Qed.

End slices.
