(* ===== verification/RpcWorkers.v ===== *)
(** * rpc_workers in customServiceConfig

    [GetRPCWorkers] of [api/v1beta1/neutronapi_types.go]: the scan of the
    custom service configuration for an explicit [rpc_workers] in the
    [DEFAULT] section.  The loop is proved equal to a declarative reading of
    the configuration as a list of (section, key, value) items. *)

From Stdlib Require Import Ascii.
From S2P Require Import Prelude GoStrings.

Definition newline : ascii := "010"%char.

(** One iteration of the loop on a line: the section that holds afterwards and
    the value the loop returns, if it returns here. *)
Definition rpc_line (section : bytes) (line : bytes) : bytes * option Z :=
  let trimmed := TrimSpace line in
  if bool_decide (trimmed = []) || HasPrefix trimmed (B "#") then (section, None)
  else if HasPrefix trimmed (B "[") && HasSuffix trimmed (B "]") then
    (* trimmed[1 : len(trimmed)-1] *)
    (TrimSpace (take (length trimmed - 2) (drop 1 trimmed)), None)
  else if negb (bool_decide (section = B "DEFAULT")) then (section, None)
  else
    let '(tok, value) := SplitN2 trimmed "="%char in
    let token := RemoveAll tok " "%char in
    match value with
    | Some v => if bool_decide (token = B "rpc_workers")
                then (section, Atoi (TrimSpace v)) else (section, None)
    | None => (section, None)
    end.

Fixpoint rpc_lines (section : bytes) (lines : list bytes) : Z :=
  match lines with
  | [] => (-1)%Z
  | line :: lines =>
      match rpc_line section line with
      | (_, Some val) => val
      | (section, None) => rpc_lines section lines
      end
  end.

(** [GetRPCWorkers(customServiceConfig)] *)
Definition GetRPCWorkers (customServiceConfig : string) : Z :=
  rpc_lines (B "DEFAULT") (Split (B customServiceConfig) newline).

(** ** Reading a configuration as items *)

Inductive ini_line :=
| IniSkip
| IniSection (name : bytes)
| IniItem (key value : bytes).

(** What a line says, whatever section it stands in. *)
Definition classify (line : bytes) : ini_line :=
  let trimmed := TrimSpace line in
  if bool_decide (trimmed = []) || HasPrefix trimmed (B "#") then IniSkip
  else if HasPrefix trimmed (B "[") && HasSuffix trimmed (B "]") then
    IniSection (TrimSpace (take (length trimmed - 2) (drop 1 trimmed)))
  else match SplitN2 trimmed "="%char with
       | (k, Some v) => IniItem (RemoveAll k " "%char) (TrimSpace v)
       | (_, None) => IniSkip
       end.

Fixpoint ini_items (section : bytes) (lines : list ini_line) : list (bytes * bytes * bytes) :=
  match lines with
  | [] => []
  | IniSkip :: ls => ini_items section ls
  | IniSection s :: ls => ini_items s ls
  | IniItem k v :: ls => (section, k, v) :: ini_items section ls
  end.

(** The items of a configuration text; text before any header is in
    [DEFAULT]. *)
Definition parse_ini (cfg : string) : list (bytes * bytes * bytes) :=
  ini_items (B "DEFAULT") (classify <$> Split (B cfg) newline).

(** The settings of [rpc_workers] in [DEFAULT] that are integers, in order. *)
Definition rpc_settings (items : list (bytes * bytes * bytes)) : list Z :=
  omap (λ '(s, k, v),
          if bool_decide (s = B "DEFAULT") && bool_decide (k = B "rpc_workers")
          then Atoi v else None) items.

(** ** The loop reads the first setting *)

Lemma rpc_line_classify section line :
  rpc_line section line =
  match classify line with
  | IniSkip => (section, None)
  | IniSection s => (s, None)
  | IniItem k v =>
      (section, if bool_decide (section = B "DEFAULT") && bool_decide (k = B "rpc_workers")
                then Atoi v else None)
  end.
Proof.
  unfold rpc_line, classify. destruct (_ || _); [done|]. destruct (_ && _); [done|].
  destruct (SplitN2 _ _) as [tok [v|]]; destruct (bool_decide (section = _)); simpl; try done.
  by destruct (bool_decide _).
Qed.

Lemma rpc_lines_items section lines :
  rpc_lines section lines =
  default (-1)%Z (head (rpc_settings (ini_items section (classify <$> lines)))).
Proof.
  revert section. induction lines as [|line lines IH]; intros section; [done|].
  simpl. rewrite rpc_line_classify. destruct (classify line) as [|s|k v]; [apply IH..|].
  unfold rpc_settings. simpl. rewrite IH. by case_match.
Qed.

(** The items of two texts joined by a newline are those of the first followed
    by those of the second, read in the section the first ends in. *)
Fixpoint ini_section (section : bytes) (lines : list ini_line) : bytes :=
  match lines with
  | [] => section
  | IniSection s :: ls => ini_section s ls
  | _ :: ls => ini_section section ls
  end.

Lemma ini_items_app section l1 l2 :
  ini_items section (l1 ++ l2) =
  ini_items section l1 ++ ini_items (ini_section section l1) l2.
Proof.
  revert section. induction l1 as [|[|s|k v] l1 IH]; intros section; simpl; [done|..];
    by rewrite ?IH.
Qed.

Lemma Split_snoc s1 s2 c :
  Split (s1 ++ c :: s2) c = Split s1 c ++ Split s2 c.
Proof.
  induction s1 as [|x s1 IH]; simpl; [by rewrite bool_decide_eq_true_2|].
  rewrite IH. case_bool_decide; [done|].
  pose proof (Split_nonempty s1 c). by destruct (Split s1 c).
Qed.

Lemma rpc_settings_app i1 i2 :
  rpc_settings (i1 ++ i2) = rpc_settings i1 ++ rpc_settings i2.
Proof. unfold rpc_settings. apply omap_app. Qed.

Lemma list_ascii_app s1 s2 : B (s1 +:+ s2) = B s1 ++ B s2.
Proof. induction s1 as [|c s1 IH]; [done|]. unfold B in *. simpl. by rewrite <- IH. Qed.

(** ** Properties *)

(** C32: [GetRPCWorkers] returns the first integer setting of [rpc_workers] in
    the DEFAULT section of the configuration (text before any section header
    counts as DEFAULT), and -1 when there is none: the line-by-line loop with
    its early return agrees with reading the whole text as items. *)
Theorem GetRPCWorkers_first_setting (cfg : string) :
  GetRPCWorkers cfg = default (-1)%Z (head (rpc_settings (parse_ini cfg))).
Proof. apply rpc_lines_items. Qed.


(** ** A written setting is read back *)

(** The line [rpc_workers = n]. *)
Definition rpc_setting_line (n : Z) : bytes := B "rpc_workers = " ++ Itoa n.

Lemma rpc_setting_line_trimmed n : trimmed (rpc_setting_line n).
Proof.
  pose proof (Itoa_chars n) as Hc. pose proof (Itoa_nonempty n) as Hne.
  destruct (last (Itoa n)) as [d|] eqn:Hl; [|by apply last_None in Hl].
  assert (last (rpc_setting_line n) = Some d) as Hl'.
  { unfold rpc_setting_line. by rewrite last_app, Hl. }
  apply (trimmed_edges "r"%char _ d); [by apply not_space_edge; vm_compute | exact Hl' |].
  rewrite Forall_forall in Hc. apply numeral_not_space, Hc.
  apply last_Some in Hl as [l ->]. set_solver.
Qed.

Lemma classify_rpc_setting n :
  classify (rpc_setting_line n) = IniItem (B "rpc_workers") (Itoa n).
Proof.
  unfold classify. rewrite TrimSpace_id by apply rpc_setting_line_trimmed.
  assert (rpc_setting_line n = B "rpc_workers " ++ "="%char :: " "%char :: Itoa n) as -> by done.
  rewrite SplitN2_app by (apply byte_not_in; reflexivity).
  rewrite TrimSpace_space_l by apply Itoa_trimmed. by vm_compute.
Qed.

Lemma newline_not_in_setting n : newline ∉ rpc_setting_line n.
Proof.
  unfold rpc_setting_line. rewrite elem_of_app. intros [H|H].
  - revert H. apply byte_not_in. reflexivity.
  - pose proof (Itoa_chars n) as Hc. rewrite Forall_forall in Hc.
    by destruct (Hc _ H) as [[d Hd]|Hd].
Qed.

Lemma B_to_string s : B (to_string s) = s.
Proof. apply String.list_ascii_of_string_of_list_ascii. Qed.

Lemma rpc_settings_int64 items : Forall (λ z, (int64_min ≤ z ≤ int64_max)%Z) (rpc_settings items).
Proof.
  apply Forall_forall. intros z Hz. unfold rpc_settings in Hz.
  apply list_elem_of_omap in Hz as ([[s k] v] & _ & Hv).
  case_match; [by eapply Atoi_int64 | done].
Qed.

Lemma parse_ini_app pre post :
  parse_ini (pre +:+ String newline post) =
  parse_ini pre ++
  ini_items (ini_section (B "DEFAULT") (classify <$> Split (B pre) newline))
            (classify <$> Split (B post) newline).
Proof.
  unfold parse_ini. rewrite list_ascii_app.
  change (B (String newline post)) with (newline :: B post).
  by rewrite Split_snoc, fmap_app, ini_items_app.
Qed.

Lemma Split_rpc_setting n post :
  classify <$> Split (B (to_string (rpc_setting_line n) +:+ String newline post)) newline =
  IniItem (B "rpc_workers") (Itoa n) :: (classify <$> Split (B post) newline).
Proof.
  rewrite list_ascii_app, B_to_string.
  change (B (String newline post)) with (newline :: B post).
  rewrite Split_app by apply newline_not_in_setting. simpl. by rewrite classify_rpc_setting.
Qed.

Lemma Split_default_header rest :
  classify <$> Split (B ("[DEFAULT]" +:+ String newline rest)) newline =
  IniSection (B "DEFAULT") :: (classify <$> Split (B rest) newline).
Proof.
  rewrite list_ascii_app. change (B (String newline rest)) with (newline :: B rest).
  rewrite Split_app by (apply byte_not_in; reflexivity). by rewrite fmap_cons.
Qed.

(** An [rpc_workers] item right after the DEFAULT header comes first. *)
Lemma rpc_settings_default s0 v ls :
  rpc_settings (ini_items s0 (IniSection (B "DEFAULT") :: IniItem (B "rpc_workers") v :: ls)) =
  match Atoi v with
  | Some z => z :: rpc_settings (ini_items (B "DEFAULT") ls)
  | None => rpc_settings (ini_items (B "DEFAULT") ls)
  end.
Proof. reflexivity. Qed.

(** C40: the result is an [int], and a numeral that is no [int] is skipped
    rather than truncated or clamped: the line that sets [rpc_workers] to it in
    DEFAULT counts for nothing, so that (with no integer setting before it) the
    value returned is the one the text after it would give on its own. *)
Theorem GetRPCWorkers_bounds (cfg : string) :
  (int64_min ≤ GetRPCWorkers cfg ≤ int64_max)%Z ∧
  ∀ pre post n,
    cfg = pre +:+ String newline ("[DEFAULT]" +:+ String newline
            (to_string (rpc_setting_line n) +:+ String newline post)) →
    rpc_settings (parse_ini pre) = [] →
    in_int64 n = false → GetRPCWorkers cfg = GetRPCWorkers post.
Proof.
  unfold GetRPCWorkers. setoid_rewrite rpc_lines_items. split.
  - pose proof (rpc_settings_int64 (parse_ini cfg)) as H. unfold parse_ini in H.
    destruct (rpc_settings _) as [|z l]; simpl; [done|].
    by apply Forall_cons in H as [H _].
  - intros pre post n -> Hpre Hn.
    match goal with |- context [Split (B (?c +:+ ?r)) newline] => fold (parse_ini (c +:+ r)) end.
    rewrite parse_ini_app, rpc_settings_app, Hpre, app_nil_l, Split_default_header,
      Split_rpc_setting.
    by rewrite rpc_settings_default, Atoi_Itoa_out.
Qed.

(** C33: a worker count written in the DEFAULT section is the count read back,
    whatever precedes it without setting an integer [rpc_workers] of DEFAULT
    and whatever follows it. *)
Theorem GetRPCWorkers_roundtrip (pre post : string) (n : Z) :
  rpc_settings (parse_ini pre) = [] →
  in_int64 n = true →
  GetRPCWorkers
    (pre +:+ String newline ("[DEFAULT]" +:+ String newline
      (to_string (rpc_setting_line n) +:+ String newline post))) = n.
Proof.
  intros Hpre Hn. unfold GetRPCWorkers. rewrite rpc_lines_items.
  match goal with |- context [Split (B ?c) newline] => fold (parse_ini c) end.
  rewrite parse_ini_app, rpc_settings_app, Hpre, app_nil_l, Split_default_header,
    Split_rpc_setting.
  rewrite rpc_settings_default. by rewrite Atoi_Itoa.
Qed.

Lemma GetRPCWorkers_roundtrip_witness :
  rpc_settings (parse_ini "[ovs]") = [] ∧
  GetRPCWorkers ("[ovs]" +:+ String newline ("[DEFAULT]" +:+ String newline
      (to_string (rpc_setting_line 0) +:+ String newline "rpc_workers=4"))) = 0%Z.
Proof.
  split; [by vm_compute|].
  apply (GetRPCWorkers_roundtrip "[ovs]" "rpc_workers=4" 0); by vm_compute.
Defined.

Lemma GetRPCWorkers_bounds_witness :
  in_int64 (2 ^ 63) = false ∧
  GetRPCWorkers ("[ovs]" +:+ String newline ("[DEFAULT]" +:+ String newline
      (to_string (rpc_setting_line (2 ^ 63)) +:+ String newline "rpc_workers=4"))) = 4%Z.
Proof.
  split; [by vm_compute|].
  refine (eq_trans (proj2 (GetRPCWorkers_bounds _) "[ovs]" "rpc_workers=4" (2 ^ 63)%Z _ _ _) _);
    by vm_compute.
Defined.
