(* ===== verification/K8s.v ===== *)
(** * Kubernetes and sibling-operator objects

    The structs of [k8s.io/api], [controller-runtime] and of the sibling
    operators' API packages that the operator builds or reads, with the fields
    it builds or reads.  An object that other code fills and the operator only
    hands on carries the rest of its contents in a field [rest].  The methods of
    these types are not here: they are the parameters of [Lib]. *)

From S2P Require Import Prelude.

(** ** Names *)

Module NamespacedName.
Record t := mk { Name : string; Namespace : string }.
#[export] Instance eq_dec : EqDecision t.
Proof. solve_decision. Defined.
End NamespacedName.
#[export] Existing Instance NamespacedName.eq_dec.

(** [service.Endpoint] with its two values. *)
Abbreviation Endpoint := string (only parsing).
Definition EndpointPublic : Endpoint := "public".
Definition EndpointInternal : Endpoint := "internal".

(** ** Volumes *)

Inductive VolumeSource :=
| VSSecret (DefaultMode : option Z) (SecretName : string)
| VSOther (rest : string).

Module Volume.
Record t := mk { Name : string; Source : VolumeSource }.
End Volume.

Module VolumeMount.
Record t := mk { Name : string; MountPath : string; SubPath : string; ReadOnly : bool }.
#[export] Instance eq_dec : EqDecision t.
Proof. solve_decision. Defined.
End VolumeMount.
#[export] Existing Instance VolumeMount.eq_dec.

(** [storage.VolMounts]: a group of volumes and mounts and the services they
    are destined to. *)
Abbreviation PropagationType := string (only parsing).

Module ExtraVolume.
Record t := mk { Name : string; Source : string }.
End ExtraVolume.

Module VolMounts.
Record t := mk {
  Propagation : list PropagationType;
  ExtraVolType : string;
  Volumes : list ExtraVolume.t;
  Mounts : list VolumeMount.t }.
End VolMounts.

(** ** TLS *)

(** [tls.GenericService] *)
Module GenericService.
Record t := mk { SecretName : option string }.
End GenericService.

(** [tls.Service] *)
Module TlsService.
Record t := mk {
  SecretName : string;
  CertMount : option string;
  KeyMount : option string;
  CaMount : option string }.
End TlsService.

(** [tls.APIService] *)
Module APIService.
Record t := mk { Internal : GenericService.t; Public : GenericService.t }.
End APIService.

(** [tls.Ca] *)
Module Ca.
Record t := mk { CaBundleSecretName : string }.
End Ca.

(** ** Containers and pods *)

Module EnvVar.
Record t := mk { Name : string; Value : string }.
#[export] Instance eq_dec : EqDecision t.
Proof. solve_decision. Defined.
End EnvVar.
#[export] Existing Instance EnvVar.eq_dec.

(** [env.Setter]: a function that changes an [EnvVar]. *)
Abbreviation Setter := (EnvVar.t → EnvVar.t) (only parsing).

(** [pod.RestrictiveSecurityContext(uid, gid)] and
    [pod.RestrictivePodSecurityContext(uid, gid)], kept as terms. *)
Inductive SecurityContext :=
| RestrictiveSecurityContext (uid gid : Z).

Inductive PodSecurityContext :=
| RestrictivePodSecurityContext (uid gid : Z).

(** [affinity.DistributePods(key, values, topologyKey)], kept as a term. *)
Inductive Affinity :=
| DistributePods (selectorKey : string) (values : list string) (topologyKey : string).

Inductive URIScheme := URISchemeHTTP | URISchemeHTTPS.

Module Probe.
Record t := mk {
  TimeoutSeconds : Z;
  PeriodSeconds : Z;
  InitialDelaySeconds : Z;
  HTTPPath : string;
  HTTPPort : Z;
  HTTPScheme : option URIScheme }.
End Probe.

Module ResourceRequirements.
Record t := mk { Limits : gmap string string; Requests : gmap string string }.
End ResourceRequirements.

Inductive TerminationMessagePolicy :=
| TerminationMessageDefault
| TerminationMessageFallbackToLogsOnError.

Module Container.
Record t := mk {
  Name : string;
  Command : list string;
  Args : list string;
  Image : string;
  SecurityContext : SecurityContext;
  Env : list EnvVar.t;
  VolumeMounts : list VolumeMount.t;
  Resources : ResourceRequirements.t;
  LivenessProbe : option Probe.t;
  ReadinessProbe : option Probe.t;
  TerminationMessagePolicy : TerminationMessagePolicy }.
End Container.

Inductive RestartPolicy := RestartPolicyDefault | RestartPolicyOnFailure | RestartPolicyNever.

Module PodSpec.
Record t := mk {
  RestartPolicy : RestartPolicy;
  SecurityContext : PodSecurityContext;
  ServiceAccountName : string;
  AutomountServiceAccountToken : option bool;
  Containers : list Container.t;
  Volumes : list Volume.t;
  NodeSelector : gomap string;
  Affinity : option Affinity }.
End PodSpec.

Module PodTemplateSpec.
Record t := mk {
  Annotations : gomap string;
  Labels : gomap string;
  Spec : PodSpec.t }.
End PodTemplateSpec.

(** A Deployment: metadata, spec and the status fields the controller reads. *)
Module Deployment.
Record t := mk {
  Name : string;
  Namespace : string;
  MatchLabels : gomap string;
  Replicas : option Z;
  Template : PodTemplateSpec.t;
  Generation : Z;
  ObservedGeneration : Z;
  ReadyReplicas : Z }.
End Deployment.

Module Job.
Record t := mk {
  Name : string;
  Namespace : string;
  Annotations : gomap string;
  Labels : gomap string;
  BackoffLimit : option Z;
  Template : PodTemplateSpec.t;
  Succeeded : Z;
  Failed : Z }.
End Job.

(** ** Objects of the sibling operators *)

(** [rabbitmqv1.RabbitMqConfig] *)
Module RabbitMqConfig.
Record t := mk { User : string; Vhost : string; Cluster : string }.
End RabbitMqConfig.

Module TransportURL.
Record t := mk {
  Name : string;
  Namespace : string;
  RabbitmqClusterName : string;
  Username : string;
  Vhost : string;
  SecretName : string;
  rest : string }.
End TransportURL.

(** [topologyv1.TopoRef] *)
Module TopoRef.
Record t := mk { Name : string; Namespace : string }.
#[export] Instance eq_dec : EqDecision t.
Proof. solve_decision. Defined.
End TopoRef.
#[export] Existing Instance TopoRef.eq_dec.

Module Topology.
Record t := mk { Name : string; Namespace : string; rest : string }.
End Topology.

Module Memcached.
Record t := mk { Name : string; MTLSCert : string; rest : string }.
End Memcached.

(** [mariadbv1.MariaDBAccount], of which the user name is read. *)
Module MariaDBAccount.
Record t := mk { Name : string; UserName : string }.
End MariaDBAccount.

(** [mariadbv1.Database]: what [NewDatabaseForAccount] was given and what the
    mariadb helpers have filled in since. *)
Module Database.
Record t := mk {
  DatabaseInstance : string;
  DatabaseName : string;
  CRName : string;
  AccountName : string;
  Namespace : string;
  rest : string }.
End Database.

(** A Keystone service or endpoint CR of which only the finalizers matter. *)
Module KeystoneObject.
Record t := mk { Name : string; Namespace : string; Finalizers : list string; rest : string }.
End KeystoneObject.

Module KeystoneServiceSpec.
Record t := mk {
  ServiceType : string;
  ServiceName : string;
  ServiceDescription : string;
  Enabled : bool;
  ServiceUser : string;
  Secret : string;
  PasswordSelector : string }.
End KeystoneServiceSpec.

Module KeystoneEndpointSpec.
Record t := mk { ServiceName : string; Endpoints : gmap string string }.
End KeystoneEndpointSpec.

Module KeystoneAPI.
Record t := mk { rest : string }.
End KeystoneAPI.

Module OVNDBCluster.
Record t := mk { rest : string }.
End OVNDBCluster.

Inductive OVNDBType := NBDBType | SBDBType.

(** [corev1.Secret]: the data, as Go strings. *)
Module Secret.
Record t := mk { Data : gmap string string }.
End Secret.

Module NetworkAttachmentDefinition.
Record t := mk { Name : string; Namespace : string; rest : string }.
End NetworkAttachmentDefinition.

(** [service.OverrideSpec] and [service.RoutedOverrideSpec]. *)
Module OverrideSpec.
Record t := mk { EmbeddedLabelsAnnotations : option string; rest : string }.
End OverrideSpec.

Module RoutedOverrideSpec.
Record t := mk { OverrideSpec : OverrideSpec.t; EndpointURL : option string }.
(** The zero value, which a Go map returns for a missing key. *)
Definition zero : t := mk (OverrideSpec.mk None "") None.
End RoutedOverrideSpec.

(** [service.GenericServiceDetails] *)
Module GenericServiceDetails.
Record t := mk {
  Name : string;
  Namespace : string;
  Labels : gmap string string;
  Selector : gmap string string;
  PortName : string;
  Port : Z;
  Protocol : string }.
End GenericServiceDetails.

Inductive ServiceType := ServiceTypeClusterIP | ServiceTypeLoadBalancer | ServiceTypeOther.

(** [service.Protocol] *)
Inductive ServiceProtocol := ProtocolHTTP | ProtocolHTTPS.

(** The [service.Service] helper object: what it was made from, the annotations
    added since, and what its last [CreateOrPatch] filled in. *)
Module KService.
Record t := mk {
  Details : GenericServiceDetails.t;
  Override : OverrideSpec.t;
  Annotations : gmap string string;
  rest : string }.
End KService.

(** ** Validation errors ([field.Path], [field.Error]) *)

Abbreviation Path := (list string) (only parsing).

Module FieldError.
Record t := mk { Field : Path; BadValue : string; Detail : string }.
End FieldError.

(** [common_webhook.DeprecatedFieldUpdate] and [DeprecatedField]. *)
Module DeprecatedFieldUpdate.
Record t := mk {
  DeprecatedFieldName : string;
  NewFieldPath : list string;
  OldDeprecatedValue : option string;
  NewDeprecatedValue : option string;
  NewValue : option string }.
End DeprecatedFieldUpdate.

Module DeprecatedField.
Record t := mk {
  DeprecatedFieldName : string;
  NewFieldPath : list string;
  DeprecatedValue : option string;
  NewValue : option string }.
End DeprecatedField.

(** [rbacv1.PolicyRule] *)
Module PolicyRule.
Record t := mk {
  APIGroups : list string;
  ResourceNames : list string;
  Resources : list string;
  Verbs : list string }.
End PolicyRule.

(** The validators of [secret.VerifySecretFields] the controller uses. *)
Inductive Validator := NoOpValidator | PasswordValidator.

(** ** Templates of generated secrets ([util.Template]) *)

Inductive TemplateType := TemplateTypeNone | TemplateTypeConfig.

(** The values put in a [map[string]any] of template parameters. *)
Inductive Param :=
| PStr (s : string)
| PBool (b : bool)
| PInt (z : Z)
| PMap (m : gmap string (gmap string (string + bool))).

Module Template.
Record t := mk {
  Name : string;
  Namespace : string;
  Type_ : TemplateType;
  InstanceType : string;
  CustomData : gmap string string;
  Labels : gmap string string;
  ConfigOptions : gmap string Param;
  AdditionalTemplate : gmap string string;
  CommonTemplates : list string }.
End Template.
