(* ===== verification/Conditions.v ===== *)
(** * Status conditions

    [api/v1beta1/conditions.go] (the operator's own condition types and
    messages) and the interface of the package
    [lib-common/modules/common/condition] as the controller uses it: the class
    [CondLib] lists its functions, [CondLaws] what the controller relies on.
    [RefCond] is an instance on association lists that shows the laws can hold
    together and lets the controller be run on concrete inputs. *)

From S2P Require Import Prelude.

(** ** Condition types

    The constants of type [condition.Type] the controller names; those of
    lib-common and mariadb-operator are kept by name, the kuttl assertions of
    the repository list their (pairwise distinct) values. *)
Inductive CondType :=
| ReadyCondition
| DBReadyCondition
| DBSyncReadyCondition
| CreateServiceReadyCondition
| RabbitMqTransportURLReadyCondition
| MemcachedReadyCondition
| InputReadyCondition
| ServiceConfigReadyCondition
| DeploymentReadyCondition
| KeystoneServiceReadyCondition
| KeystoneEndpointReadyCondition
| NetworkAttachmentsReadyCondition
| ServiceAccountReadyCondition
| RoleReadyCondition
| RoleBindingReadyCondition
| NotificationBusInstanceReadyCondition
| TLSInputReadyCondition
| TopologyReadyCondition
| MariaDBAccountReadyCondition
| NeutronExternalConfigsReady
| NeutronRPCReadyCondition
| NeutronWorkerReadyCondition
| OtherCondition (name : string).

#[export] Instance CondType_eq_dec : EqDecision CondType.
Proof. solve_decision. Defined.

(** The string values of the condition types the operator itself defines. *)
Definition neutron_condition_name (t : CondType) : option string :=
  match t with
  | NeutronExternalConfigsReady => Some "Neutron External Configs Ready"
  | NeutronRPCReadyCondition => Some "NeutronRPCReady"
  | NeutronWorkerReadyCondition => Some "NeutronWorkerReady"
  | _ => None
  end.

Definition NeutronExternalConfigsInitMessage : string :=
  "Neutron external configs generation is not started".
Definition NeutronExternalConfigsErrorMessage : string :=
  "Neutron external configs generation error occurred %s".
Definition NeutronRPCReadyMessage : string := "NeutronRPC ready".
Definition NeutronRPCDisabledMessage : string :=
  "NeutronRPC disabled by rpc_workers=0 in customServiceConfig".
Definition NeutronRPCReadyRunningMessage : string := "NeutronRPC deployment in progress".
Definition NeutronRPCReadyErrorMessage : string := "NeutronRPC error occurred %s".
Definition NeutronWorkerReadyMessage : string := "NeutronWorker ready".
Definition NeutronWorkerReadyRunningMessage : string := "NeutronWorker deployment in progress".
Definition NeutronWorkerReadyErrorMessage : string := "NeutronWorker error occurred %s".

(** ** Conditions *)

Inductive CondStatus := ConditionTrue | ConditionFalse | ConditionUnknown.

#[export] Instance CondStatus_eq_dec : EqDecision CondStatus.
Proof. solve_decision. Defined.

Inductive CondReason := InitReason | RequestedReason | ErrorReason | OtherReason (r : string).
Inductive CondSeverity := SeverityNone | SeverityInfo | SeverityWarning | SeverityError.

Module Condition.
Record t := mk {
  Type_ : CondType;
  Status : CondStatus;
  Reason : CondReason;
  Severity : CondSeverity;
  Message : string;
  LastTransitionTime : Z }.
End Condition.

(** [condition.Conditions], a slice. *)
Abbreviation Conditions := (list Condition.t) (only parsing).

(** ** The interface of the condition package *)

Class CondLib := {
  (** the value of the message constant of that name of lib-common *)
  condition_msg : string → string;
  UnknownCondition : CondType → CondReason → string → Condition.t;
  FalseCondition : CondType → CondReason → CondSeverity → string → list string → Condition.t;
  CreateList : list Condition.t → Conditions;
  Get : Conditions → CondType → option Condition.t;
  Set_ : Conditions → Condition.t → Conditions;
  Remove : Conditions → CondType → Conditions;
  MarkTrue : Conditions → CondType → string → Conditions;
  Init : Conditions → Conditions → Conditions;
  Mirror : Conditions → CondType → option Condition.t;
  IsTrue : Conditions → CondType → bool;
  IsUnknown : Conditions → CondType → bool;
  AllSubConditionIsTrue : Conditions → bool;
  CredentialRotationGuardReady : bool → Conditions → bool;
  RestoreLastTransitionTimes : Conditions → Conditions → Conditions;
}.

(** The status of a condition type, [None] when it is absent. *)
Definition cond_status `{CondLib} (cs : Conditions) (t : CondType) : option CondStatus :=
  Condition.Status <$> Get cs t.

(** What the controller's comments and tests document of the package:
    [Set], [MarkTrue] and [Remove] act on one type, [Init] puts the listed
    conditions in their initial state and makes no other condition up, [Mirror] reports the worst condition (so
    true only when all are), [AllSubConditionIsTrue] ignores absent conditions,
    the rotation guard requires every sub-condition to be true. *)
Class CondLaws (L : CondLib) : Prop := {
  UnknownCondition_type t r m : Condition.Type_ (UnknownCondition t r m) = t;
  UnknownCondition_status t r m :
    Condition.Status (UnknownCondition t r m) = ConditionUnknown;
  FalseCondition_type t r s m a : Condition.Type_ (FalseCondition t r s m a) = t;
  FalseCondition_status t r s m a :
    Condition.Status (FalseCondition t r s m a) = ConditionFalse;
  status_Set cs c t :
    cond_status (Set_ cs c) t =
      if decide (Condition.Type_ c = t) then Some (Condition.Status c) else cond_status cs t;
  status_Remove cs t t' :
    cond_status (Remove cs t) t' = if decide (t = t') then None else cond_status cs t';
  status_MarkTrue cs t m t' :
    cond_status (MarkTrue cs t m) t' =
      if decide (t = t') then Some ConditionTrue else cond_status cs t';
  status_Init cs l c :
    NoDup (Condition.Type_ <$> l) → c ∈ l →
    cond_status (Init cs (CreateList l)) (Condition.Type_ c) = Some (Condition.Status c);
  status_Init_other cs l t st :
    t ∉ Condition.Type_ <$> l → cond_status (Init cs (CreateList l)) t = Some st →
    cond_status cs t = Some st;
  Mirror_type cs t c : Mirror cs t = Some c → Condition.Type_ c = t;
  Mirror_true cs c :
    Mirror cs ReadyCondition = Some c → Condition.Status c = ConditionTrue →
    ∀ t st, t ≠ ReadyCondition → cond_status cs t = Some st → st = ConditionTrue;
  IsTrue_spec cs t : IsTrue cs t = true ↔ cond_status cs t = Some ConditionTrue;
  IsUnknown_spec cs t : cond_status cs t = Some ConditionUnknown → IsUnknown cs t = true;
  IsUnknown_not_true cs t : IsUnknown cs t = true → cond_status cs t ≠ Some ConditionTrue;
  AllSubConditionIsTrue_spec cs :
    AllSubConditionIsTrue cs = true ↔
    ∀ t st, t ≠ ReadyCondition → cond_status cs t = Some st → st = ConditionTrue;
  Guard_spec b cs :
    CredentialRotationGuardReady b cs = true →
    b = true ∧ AllSubConditionIsTrue cs = true;
  status_Restore cs saved t :
    cond_status (RestoreLastTransitionTimes cs saved) t = cond_status cs t;
}.

(** ** A reference instance *)

Module RefCond.

Definition get (cs : Conditions) (t : CondType) : option Condition.t :=
  List.find (λ c, bool_decide (Condition.Type_ c = t)) cs.

Fixpoint set (cs : Conditions) (c : Condition.t) : Conditions :=
  match cs with
  | [] => [c]
  | c' :: cs =>
      if bool_decide (Condition.Type_ c' = Condition.Type_ c) then c :: cs
      else c' :: set cs c
  end.

Definition remove (cs : Conditions) (t : CondType) : Conditions :=
  filter (λ c, Condition.Type_ c ≠ t) cs.

Definition is_true (c : Condition.t) : bool :=
  bool_decide (Condition.Status c = ConditionTrue).

Definition all_sub (cs : Conditions) : bool :=
  forallb (λ c, bool_decide (Condition.Type_ c = ReadyCondition)
                || bool_decide (Condition.Status <$> get cs (Condition.Type_ c) = Some ConditionTrue)) cs.

Definition mark_true (cs : Conditions) (t : CondType) (m : string) : Conditions :=
  set cs (Condition.mk t ConditionTrue InitReason SeverityNone m 0).

Definition mirror (cs : Conditions) (t : CondType) : option Condition.t :=
  match List.find (λ c, negb (bool_decide (Condition.Type_ c = ReadyCondition)) && negb (is_true c)) cs with
  | Some c => Some (Condition.mk t (Condition.Status c) (Condition.Reason c)
                      (Condition.Severity c) (Condition.Message c) 0)
  | None => Some (Condition.mk t ConditionTrue InitReason SeverityNone "" 0)
  end.

#[export] Instance lib : CondLib := {|
  condition_msg n := n;
  UnknownCondition t r m := Condition.mk t ConditionUnknown r SeverityNone m 0;
  FalseCondition t r s m _ := Condition.mk t ConditionFalse r s m 0;
  CreateList l := l;
  Get := get;
  Set_ := set;
  Remove := remove;
  MarkTrue := mark_true;
  Init cs l := foldl set cs l;
  Mirror := mirror;
  IsTrue cs t := bool_decide (Condition.Status <$> get cs t = Some ConditionTrue);
  IsUnknown cs t := bool_decide (Condition.Status <$> get cs t = Some ConditionUnknown);
  AllSubConditionIsTrue := all_sub;
  CredentialRotationGuardReady b cs := b && all_sub cs;
  RestoreLastTransitionTimes cs _ := cs;
|}.

Lemma get_set cs c t :
  get (set cs c) t = if decide (Condition.Type_ c = t) then Some c else get cs t.
Proof.
  induction cs as [|c' cs IH]; simpl; [repeat case_decide; by repeat case_bool_decide|].
  unfold get in *.
  case_bool_decide as E; simpl; case_decide; repeat case_bool_decide; try congruence.
Qed.

Lemma get_remove cs t t' :
  get (remove cs t) t' = if decide (t = t') then None else get cs t'.
Proof.
  unfold get, remove. induction cs as [|c cs IH]; simpl; [by case_decide|].
  destruct (decide (Condition.Type_ c ≠ t)) as [E|E].
  - rewrite filter_cons_True by done. simpl. rewrite IH.
    case_bool_decide; case_decide; congruence.
  - rewrite filter_cons_False by done. rewrite IH.
    case_bool_decide; case_decide; try done. exfalso. apply E. congruence.
Qed.

Lemma get_foldl_set l cs c :
  NoDup (Condition.Type_ <$> l) → c ∈ l → get (foldl set cs l) (Condition.Type_ c) = Some c.
Proof.
  revert cs. induction l as [|d l IH]; intros cs Hl Hc; [by apply not_elem_of_nil in Hc|].
  simpl in *. apply NoDup_cons in Hl as [Hd Hl].
  apply elem_of_cons in Hc as [->|Hc]; [|by apply IH].
  clear IH Hl. assert (get (set cs d) (Condition.Type_ d) = Some d) as Hg.
  { rewrite get_set. by rewrite decide_True. }
  revert Hg. generalize (set cs d) as cs'. induction l as [|e l IH]; intros cs' Hg; [done|].
  simpl in *. apply not_elem_of_cons in Hd as [He Hd]. apply IH; [done|].
  rewrite get_set. rewrite decide_False by congruence. done.
Qed.

Lemma get_foldl_other l cs t :
  t ∉ Condition.Type_ <$> l → get (foldl set cs l) t = get cs t.
Proof.
  revert cs. induction l as [|d l IH]; intros cs Ht; [done|]. simpl in *.
  apply not_elem_of_cons in Ht as [Hd Ht]. rewrite IH by done. rewrite get_set.
  by rewrite decide_False by congruence.
Qed.

Lemma get_type cs t c : get cs t = Some c → Condition.Type_ c = t ∧ c ∈ cs.
Proof.
  intros H. apply List.find_some in H as [Hin H]. apply bool_decide_eq_true_1 in H.
  split; [done | by apply list_elem_of_In].
Qed.

Lemma all_sub_spec cs :
  all_sub cs = true ↔
  ∀ t st, t ≠ ReadyCondition → Condition.Status <$> get cs t = Some st → st = ConditionTrue.
Proof.
  unfold all_sub. rewrite forallb_forall. split.
  - intros H t st Ht Hst. destruct (get cs t) as [c|] eqn:E; [|done].
    pose proof (get_type _ _ _ E) as [Hc Hin]. apply list_elem_of_In in Hin.
    specialize (H c Hin). simpl in H. rewrite Hc in H.
    rewrite bool_decide_eq_false_2 in H by done. simpl in H.
    apply bool_decide_eq_true_1 in H. rewrite E in H. simpl in *. congruence.
  - intros H c Hin. simpl. case_bool_decide as E; [done|]. simpl.
    apply bool_decide_eq_true_2. destruct (get cs (Condition.Type_ c)) as [c'|] eqn:E'.
    + simpl. f_equal. apply (H (Condition.Type_ c)); [done|]. by rewrite E'.
    + unfold get in E'. pose proof (List.find_none _ _ E' _ Hin) as Hf. simpl in Hf.
      by rewrite bool_decide_eq_true_2 in Hf.
Qed.

Lemma mirror_true cs c :
  mirror cs ReadyCondition = Some c → Condition.Status c = ConditionTrue →
  ∀ t st, t ≠ ReadyCondition → Condition.Status <$> get cs t = Some st → st = ConditionTrue.
Proof.
  unfold mirror. destruct (List.find _ cs) as [c'|] eqn:E; intros [= <-]; simpl.
  - intros H. apply List.find_some in E as [_ E]. apply andb_prop in E as [_ E].
    unfold is_true in E. by rewrite H, bool_decide_eq_true_2 in E.
  - intros _ t st Ht Hst. destruct (get cs t) as [c|] eqn:Hg; [|done]. injection Hst as <-.
    apply get_type in Hg as [<- Hin]. apply list_elem_of_In in Hin.
    pose proof (List.find_none _ _ E _ Hin) as Hf. simpl in Hf.
    rewrite bool_decide_eq_false_2 in Hf by done. simpl in Hf. apply negb_false_iff in Hf.
    by apply bool_decide_eq_true_1 in Hf.
Qed.

#[export] Instance laws : CondLaws lib.
Proof.
  split; try done; unfold cond_status; simpl.
  - intros. rewrite get_set. by case_decide.
  - intros. rewrite get_remove. by case_decide.
  - intros. unfold mark_true. rewrite get_set. simpl. by case_decide.
  - intros. rewrite get_foldl_set by done. done.
  - intros cs l t st Ht. by rewrite get_foldl_other.
  - intros cs t c. unfold mirror. destruct List.find; intros [= <-]; done.
  - apply mirror_true.
  - intros. apply bool_decide_eq_true.
  - intros cs t H. by apply bool_decide_eq_true.
  - intros cs t H. apply bool_decide_eq_true_1 in H. by rewrite H.
  - apply all_sub_spec.
  - intros b cs H. by apply andb_prop in H.
Qed.

End RefCond.

(** ** Lemmas on statuses *)

Section status.
Context `{CL : CondLib} `{!CondLaws CL}.

Lemma status_set_false cs t r s m a t' :
  cond_status (Set_ cs (FalseCondition t r s m a)) t' =
    if decide (t = t') then Some ConditionFalse else cond_status cs t'.
Proof. by rewrite status_Set, FalseCondition_type, FalseCondition_status. Qed.

Lemma guard_sub_true b cs t st :
  CredentialRotationGuardReady b cs = true → t ≠ ReadyCondition →
  cond_status cs t = Some st → st = ConditionTrue.
Proof.
  intros [_ H]%Guard_spec Ht Hst. by eapply AllSubConditionIsTrue_spec.
Qed.

End status.
