(* ===== verification/Lib.v ===== *)
(** * The libraries the operator calls

    One class per package of lib-common, infra-operator, keystone-operator,
    mariadb-operator, ovn-operator and apimachinery whose pure functions and
    methods the sources call, with a class of laws where a theorem relies on
    their documented behaviour.  [Lib] bundles them.  Calls that talk to the API
    server are not here but in [External]. *)

From S2P Require Import Prelude K8s Conditions.

(** ** storage, volume *)

Class StorageLib := {
  (** the constant [storage.DBSync] *)
  DBSync : PropagationType;
  (** [(v *storage.VolMounts) Propagate(svc)] *)
  VolMounts_Propagate : VolMounts.t → list PropagationType → list VolMounts.t;
  (** [(v *Volume) ToCoreVolumeSource()], [None] for a nil pointer *)
  ToCoreVolumeSource : ExtraVolume.t → option VolumeSource;
}.

(** [Propagate] filters: what it returns is the group itself. *)
Class StorageLaws (L : StorageLib) : Prop := {
  VolMounts_Propagate_filter gv svc g : g ∈ VolMounts_Propagate gv svc → g = gv;
}.

Class VolumeLib := {
  RunHttpdVolumeName : string;
  RunHttpdMountPath : string;
  WritableDirVolume : string → Volume.t;
  WritableDirVolumeMount : string → string → VolumeMount.t;
}.

Class VolumeLaws (L : VolumeLib) : Prop := {
  WritableDirVolume_Name n : Volume.Name (WritableDirVolume n) = n;
  WritableDirVolumeMount_Name n p : VolumeMount.Name (WritableDirVolumeMount n p) = n;
}.

(** ** tls *)

Class TlsLib := {
  CABundleKey : string;
  Ca_CreateVolume : Ca.t → Volume.t;
  (** [CreateVolumeMounts(nil)] *)
  Ca_CreateVolumeMounts : Ca.t → list VolumeMount.t;
  GenericService_Enabled : GenericService.t → bool;
  GenericService_ToService : GenericService.t → error + TlsService.t;
  APIService_Enabled : APIService.t → Endpoint → bool;
  TlsService_CreateVolume : TlsService.t → string → Volume.t;
  TlsService_CreateVolumeMounts : TlsService.t → string → list VolumeMount.t;
}.

(** An enabled service names its secret; the mounts a helper creates refer to
    the volume it creates. *)
Class TlsLaws (L : TlsLib) : Prop := {
  Enabled_SecretName g :
    GenericService_Enabled g = true → is_Some (GenericService.SecretName g);
  Ca_mounts c m :
    m ∈ Ca_CreateVolumeMounts c → VolumeMount.Name m = Volume.Name (Ca_CreateVolume c);
  TlsService_mounts s id m :
    m ∈ TlsService_CreateVolumeMounts s id →
    VolumeMount.Name m = Volume.Name (TlsService_CreateVolume s id);
}.

(** ** memcached *)

Class MemcachedLib := {
  CertPathDst : string;
  KeyPathDst : string;
  CertMountPath : string;
  KeyMountPath : string;
  CaMountPath : string;
  Memcached_IsReady : Memcached.t → bool;
  CreateMTLSVolume : Memcached.t → Volume.t;
  CreateMTLSVolumeMounts : Memcached.t → option string → option string → list VolumeMount.t;
  GetMemcachedServerListString : Memcached.t → string;
  GetMemcachedServerListWithInetString : Memcached.t → string;
  GetMemcachedTLSSupport : Memcached.t → bool;
  GetMemcachedMTLSSecret : Memcached.t → string;
}.

Class MemcachedLaws (L : MemcachedLib) : Prop := {
  MTLS_mounts mc c k m :
    m ∈ CreateMTLSVolumeMounts mc c k → VolumeMount.Name m = Volume.Name (CreateMTLSVolume mc);
}.

(** ** env, hashes, labels *)

Class EnvLib := {
  (** [env.SetValue(v)] *)
  SetValue : string → Setter;
  (** [env.MergeEnvs(envs, newEnvs)] *)
  MergeEnvs : list EnvVar.t → gmap string Setter → list EnvVar.t;
}.

(** A setter changes the value; merging into no variables applies each setter
    to a variable of its name. *)
Class EnvLaws (L : EnvLib) : Prop := {
  SetValue_spec v e : SetValue v e = EnvVar.mk (EnvVar.Name e) v;
  MergeEnvs_elem m e :
    e ∈ MergeEnvs [] m ↔ ∃ k f, m !! k = Some f ∧ e = f (EnvVar.mk k "");
}.

Class HashLib := {
  InputHashName : string;
  ObjectHash : list EnvVar.t → error + string;
  (** [util.SetHash(hashMap, name, hash)]: the map and whether it changed *)
  SetHash : gomap string → string → string → gomap string * bool;
}.

(** [SetHash] stores the hash and reports whether the entry was different. *)
Class HashLaws (L : HashLib) : Prop := {
  SetHash_spec m k h m' b :
    SetHash m k h = (m', b) →
    if b then map_read m' k = Some h ∧ is_Some m' ∧
              ∀ k', k ≠ k' → map_read m' k' = map_read m k'
    else map_read m k = Some h;
}.

Class LabelsLib := {
  AppSelector : string;
  LabelHostname : string;
  NeutronUID : Z;
  NeutronGID : Z;
  (** [labels.GetLabels(obj, labels.GetGroupLabel(service), custom)] for an
      object of that name *)
  GetLabels : string → string → gmap string string → gmap string string;
  MergeStringMaps : gmap string string → gmap string string → gmap string string;
  (** [(t *Topology) ApplyTo(template)] *)
  Topology_ApplyTo : Topology.t → PodTemplateSpec.t → PodTemplateSpec.t;
}.

(** A Topology sets scheduling constraints and leaves the pod's containers,
    volumes and metadata alone. *)
Class LabelsLaws (L : LabelsLib) : Prop := {
  ApplyTo_containers t tpl :
    PodSpec.Containers (PodTemplateSpec.Spec (Topology_ApplyTo t tpl)) =
    PodSpec.Containers (PodTemplateSpec.Spec tpl);
  ApplyTo_volumes t tpl :
    PodSpec.Volumes (PodTemplateSpec.Spec (Topology_ApplyTo t tpl)) =
    PodSpec.Volumes (PodTemplateSpec.Spec tpl);
  ApplyTo_labels t tpl :
    PodTemplateSpec.Labels (Topology_ApplyTo t tpl) = PodTemplateSpec.Labels tpl;
}.

(** ** service, keystone, mariadb, ovn *)

Class ServiceLib := {
  AnnotationEndpointKey : string;
  AnnotationIngressCreateKey : string;
  AnnotationHostnameKey : string;
  EmptyLabelsAnnotations : string;
  NewService : GenericServiceDetails.t → Z → OverrideSpec.t → error + KService.t;
  Service_AddAnnotation : KService.t → gmap string string → KService.t;
  Service_GetServiceType : KService.t → ServiceType;
  Service_GetServiceHostname : KService.t → string;
  Service_GetAPIEndpoint :
    KService.t → option string → option ServiceProtocol → string → error + string;
}.

(** An override does not change what a Service selects nor where it is, and an
    annotation changes nothing else. *)
Class ServiceLaws (L : ServiceLib) : Prop := {
  NewService_selector d t o svc :
    NewService d t o = inr svc →
    GenericServiceDetails.Selector (KService.Details svc) = GenericServiceDetails.Selector d ∧
    GenericServiceDetails.Namespace (KService.Details svc) = GenericServiceDetails.Namespace d;
  AddAnnotation_details svc a : KService.Details (Service_AddAnnotation svc a) = KService.Details svc;
}.

Class ObjectsLib := {
  TransportURL_IsReady : TransportURL.t → bool;
  Database_GetHostname : Database.t → string;
  Database_GetClientConfig : Database.t → option TlsService.t → string;
  (** [GetAccount()], [GetSecret()]: nil until a helper has loaded them *)
  Database_GetAccount : Database.t → option MariaDBAccount.t;
  Database_GetSecret : Database.t → option Secret.t;
  DatabasePasswordSelector : string;
  ACIDSecretKey : string;
  ACSecretSecretKey : string;
  KeystoneAPI_GetEndpoint : KeystoneAPI.t → Endpoint → error + string;
  KeystoneAPI_GetRegion : KeystoneAPI.t → string;
  OVN_GetInternalEndpoint : OVNDBCluster.t → error + string;
  OVN_GetExternalEndpoint : OVNDBCluster.t → error + string;
  EnsureNetworksAnnotation : list NetworkAttachmentDefinition.t → error + gmap string string;
  Deployment_IsReady : Deployment.t → bool;
  (** the sentinels [util.ErrInvalidStatus], [util.ErrPodsInterfaces] and
      [util.ErrNotFound] *)
  ErrInvalidStatus : error;
  ErrPodsInterfaces : error;
  ErrNotFound : error;
  MariaDBAccountReadyMessage : string;
  MariaDBAccountNotReadyMessage : string;
}.

(** ** finalizers *)

Class FinalizerLib := {
  (** [helper.GetFinalizer()] of a helper for an object of that kind *)
  GetFinalizer : string → string;
  (** [controllerutil.AddFinalizer] and [RemoveFinalizer] on the finalizers of
      an object: the new list and whether it changed *)
  AddFinalizer : list string → string → list string * bool;
  RemoveFinalizer : list string → string → list string * bool;
}.

Class FinalizerLaws (L : FinalizerLib) : Prop := {
  AddFinalizer_elem l f x : x ∈ (AddFinalizer l f).1 ↔ x ∈ l ∨ x = f;
  AddFinalizer_changed l f : (AddFinalizer l f).2 = bool_decide (f ∉ l);
  RemoveFinalizer_elem l f x : x ∈ (RemoveFinalizer l f).1 ↔ x ∈ l ∧ x ≠ f;
  RemoveFinalizer_changed l f : (RemoveFinalizer l f).2 = bool_decide (f ∈ l);
}.

(** ** webhook validation *)

Class ValidationLib := {
  ValidateRoutedOverrides : Path → gmap string RoutedOverrideSpec.t → list FieldError.t;
  ValidateTopologyRef : option TopoRef.t → Path → string → list FieldError.t;
  ValidateDeprecatedFieldsCreate : list DeprecatedField.t → Path → list string;
  ValidateDeprecatedFieldsUpdate :
    list DeprecatedFieldUpdate.t → Path → list string * list FieldError.t;
}.

(** [ValidateRoutedOverrides] accepts exactly the endpoint types;
    [ValidateTopologyRef] refuses another namespace. *)
Class ValidationLaws (L : ValidationLib) : Prop := {
  ValidateRoutedOverrides_ok p m :
    ValidateRoutedOverrides p m = [] ↔
    ∀ k, is_Some (m !! k) → k = EndpointPublic ∨ k = EndpointInternal;
  ValidateTopologyRef_refuses t p ns :
    TopoRef.Namespace t ≠ "" → TopoRef.Namespace t ≠ ns →
    ValidateTopologyRef (Some t) p ns ≠ [];
  ValidateTopologyRef_nil p ns : ValidateTopologyRef None p ns = [];
  ValidateTopologyRef_same t p :
    ValidateTopologyRef (Some t) p (TopoRef.Namespace t) = [];
}.

(** ** The bundle *)

Class Lib := {
  lib_cond :: CondLib;
  lib_storage :: StorageLib;
  lib_volume :: VolumeLib;
  lib_tls :: TlsLib;
  lib_memcached :: MemcachedLib;
  lib_env :: EnvLib;
  lib_hash :: HashLib;
  lib_labels :: LabelsLib;
  lib_service :: ServiceLib;
  lib_objects :: ObjectsLib;
  lib_finalizer :: FinalizerLib;
  lib_validation :: ValidationLib;
}.

Class LibLaws (L : Lib) : Prop := {
  laws_cond :: CondLaws lib_cond;
  laws_storage :: StorageLaws lib_storage;
  laws_volume :: VolumeLaws lib_volume;
  laws_tls :: TlsLaws lib_tls;
  laws_memcached :: MemcachedLaws lib_memcached;
  laws_env :: EnvLaws lib_env;
  laws_hash :: HashLaws lib_hash;
  laws_labels :: LabelsLaws lib_labels;
  laws_service :: ServiceLaws lib_service;
  laws_finalizer :: FinalizerLaws lib_finalizer;
  laws_validation :: ValidationLaws lib_validation;
}.
