(* ===== verification/Reference.v ===== *)
(** * A reference instance of the libraries

    Small concrete functions for every parameter of [Lib], with the proof that
    they satisfy [LibLaws]: the laws are consistent, and the models can be
    evaluated.  The theorems of the development do not depend on it. *)

From S2P Require Import Prelude K8s Conditions Lib.

Definition ref_storage : StorageLib := {|
  DBSync := "DBSync";
  VolMounts_Propagate gv svc :=
    if bool_decide (VolMounts.Propagation gv = []) ||
       existsb (λ p, bool_decide (p ∈ svc)) (VolMounts.Propagation gv)
    then [gv] else [];
  ToCoreVolumeSource v :=
    if bool_decide (ExtraVolume.Source v = "") then None
    else Some (VSOther (ExtraVolume.Source v));
|}.

Definition ref_volume : VolumeLib := {|
  RunHttpdVolumeName := "run-httpd";
  RunHttpdMountPath := "/run/httpd";
  WritableDirVolume n := Volume.mk n (VSOther "emptyDir");
  WritableDirVolumeMount n p := VolumeMount.mk n p "" false;
|}.

Definition opt_mount (name : string) (path : option string) (sub : string) : list VolumeMount.t :=
  match path with
  | Some p => [VolumeMount.mk name p sub true]
  | None => []
  end.

Definition enabled (g : GenericService.t) : bool :=
  match GenericService.SecretName g with
  | Some n => bool_decide (n ≠ "")
  | None => false
  end.

Definition ref_tls : TlsLib := {|
  CABundleKey := "tls-ca-bundle.pem";
  Ca_CreateVolume _ := Volume.mk "combined-ca-bundle" (VSOther "ca");
  Ca_CreateVolumeMounts _ :=
    [VolumeMount.mk "combined-ca-bundle" "/etc/pki/ca-trust/extracted/pem/tls-ca-bundle.pem"
       "tls-ca-bundle.pem" true];
  GenericService_Enabled := enabled;
  GenericService_ToService g :=
    match GenericService.SecretName g with
    | Some n => inr (TlsService.mk n None None None)
    | None => inl (NewError "no secret name")
    end;
  APIService_Enabled a e :=
    if bool_decide (e = EndpointPublic) then enabled (APIService.Public a)
    else if bool_decide (e = EndpointInternal) then enabled (APIService.Internal a)
    else false;
  TlsService_CreateVolume s id := Volume.mk (id +:+ "-tls-certs") (VSSecret (Some 256%Z) (TlsService.SecretName s));
  TlsService_CreateVolumeMounts s id :=
    opt_mount (id +:+ "-tls-certs") (TlsService.CertMount s) "tls.crt" ++
    opt_mount (id +:+ "-tls-certs") (TlsService.KeyMount s) "tls.key" ++
    opt_mount (id +:+ "-tls-certs") (TlsService.CaMount s) "ca.crt";
|}.

Definition ref_memcached : MemcachedLib := {|
  CertPathDst := "/etc/pki/tls/certs/mtls.crt";
  KeyPathDst := "/etc/pki/tls/private/mtls.key";
  CertMountPath := "/etc/pki/tls/certs/mtls.crt";
  KeyMountPath := "/etc/pki/tls/private/mtls.key";
  CaMountPath := "/etc/pki/tls/certs/mtls-ca.crt";
  Memcached_IsReady m := bool_decide (Memcached.rest m = "ready");
  CreateMTLSVolume m := Volume.mk (Memcached.MTLSCert m) (VSSecret None (Memcached.MTLSCert m));
  CreateMTLSVolumeMounts m c k :=
    opt_mount (Memcached.MTLSCert m) c "tls.crt" ++ opt_mount (Memcached.MTLSCert m) k "tls.key";
  GetMemcachedServerListString m := Memcached.Name m +:+ ":11211";
  GetMemcachedServerListWithInetString m := "inet:[" +:+ Memcached.Name m +:+ "]:11211";
  GetMemcachedTLSSupport m := false;
  GetMemcachedMTLSSecret m := Memcached.MTLSCert m;
|}.

Definition ref_env : EnvLib := {|
  SetValue v e := EnvVar.mk (EnvVar.Name e) v;
  MergeEnvs envs m := envs ++ ((λ '(k, f), f (EnvVar.mk k "")) <$> map_to_list m);
|}.

Definition ref_hash : HashLib := {|
  InputHashName := "input";
  ObjectHash l := inr (foldr (λ e acc, EnvVar.Name e +:+ "=" +:+ EnvVar.Value e +:+ ";" +:+ acc) "" l);
  SetHash m k h :=
    if bool_decide (map_read m k = Some h) then (m, false)
    else (Some (<[k := h]> (default ∅ m)), true);
|}.

Definition ref_labels : LabelsLib := {|
  AppSelector := "service";
  LabelHostname := "kubernetes.io/hostname";
  NeutronUID := 42435;
  NeutronGID := 42435;
  GetLabels name group custom := <["owner" := name]> (<["group" := group]> custom);
  MergeStringMaps base extra := base ∪ extra;
  Topology_ApplyTo t tpl := tpl;
|}.

Definition ref_service : ServiceLib := {|
  AnnotationEndpointKey := "endpoint";
  AnnotationIngressCreateKey := "core.openstack.org/ingress_create";
  AnnotationHostnameKey := "dnsmasq.network.openstack.org/hostname";
  EmptyLabelsAnnotations := "";
  NewService d _ o := inr (KService.mk d o ∅ "");
  Service_AddAnnotation s a :=
    KService.mk (KService.Details s) (KService.Override s) (a ∪ KService.Annotations s) (KService.rest s);
  Service_GetServiceType s :=
    if bool_decide (OverrideSpec.rest (KService.Override s) = "LoadBalancer")
    then ServiceTypeLoadBalancer else ServiceTypeClusterIP;
  Service_GetServiceHostname s :=
    GenericServiceDetails.Name (KService.Details s) +:+ "." +:+
    GenericServiceDetails.Namespace (KService.Details s) +:+ ".svc";
  Service_GetAPIEndpoint s url proto path :=
    inr (default ((match proto with Some ProtocolHTTPS => "https://" | _ => "http://" end) +:+
                  GenericServiceDetails.Name (KService.Details s) +:+ path) url);
|}.

Definition ref_objects : ObjectsLib := {|
  TransportURL_IsReady t := bool_decide (TransportURL.rest t = "ready");
  Database_GetHostname d := "hostname-for-" +:+ Database.DatabaseInstance d;
  Database_GetClientConfig d t := "[client]";
  Database_GetAccount d :=
    if bool_decide (Database.rest d = "") then None
    else Some (MariaDBAccount.mk (Database.AccountName d) (Database.AccountName d));
  Database_GetSecret d :=
    if bool_decide (Database.rest d = "") then None
    else Some (Secret.mk {[ "DatabasePassword" := "pw" ]});
  DatabasePasswordSelector := "DatabasePassword";
  ACIDSecretKey := "AC_ID";
  ACSecretSecretKey := "AC_SECRET";
  KeystoneAPI_GetEndpoint k e := inr ("http://keystone-" +:+ e);
  KeystoneAPI_GetRegion k := "regionOne";
  OVN_GetInternalEndpoint c := inr "tcp:10.1.1.1:6641";
  OVN_GetExternalEndpoint c := inr "tcp:10.1.1.2:6641";
  EnsureNetworksAnnotation l := inr ∅;
  Deployment_IsReady d := bool_decide (0 < Deployment.ReadyReplicas d)%Z;
  ErrInvalidStatus := NewError "invalid status";
  ErrPodsInterfaces := NewError "not all pods have interfaces";
  ErrNotFound := NewError "object not found in";
  MariaDBAccountReadyMessage := "MariaDBAccount ready";
  MariaDBAccountNotReadyMessage := "MariaDBAccount not ready: %s";
|}.

Definition ref_finalizer : FinalizerLib := {|
  GetFinalizer k := "openstack.org/" +:+ k;
  AddFinalizer l f := if bool_decide (f ∈ l) then (l, false) else (l ++ [f], true);
  RemoveFinalizer l f := (filter (λ x, x ≠ f) l, bool_decide (f ∈ l));
|}.

Definition bad_endpoint (k : string) : bool :=
  negb (bool_decide (k = EndpointPublic)) && negb (bool_decide (k = EndpointInternal)).

Definition ref_validation : ValidationLib := {|
  ValidateRoutedOverrides p m :=
    (λ k, FieldError.mk p k "invalid endpoint type") <$>
    filter (λ k, bad_endpoint k = true) (map_to_list m).*1;
  ValidateTopologyRef r p ns :=
    match r with
    | Some t => if bool_decide (TopoRef.Namespace t = "") || bool_decide (TopoRef.Namespace t = ns)
                then [] else [FieldError.mk p (TopoRef.Namespace t) "namespace"]
    | None => []
    end;
  ValidateDeprecatedFieldsCreate fs p := [];
  ValidateDeprecatedFieldsUpdate fs p := ([], []);
|}.

#[export] Instance RefLib : Lib := {|
  lib_cond := RefCond.lib;
  lib_storage := ref_storage;
  lib_volume := ref_volume;
  lib_tls := ref_tls;
  lib_memcached := ref_memcached;
  lib_env := ref_env;
  lib_hash := ref_hash;
  lib_labels := ref_labels;
  lib_service := ref_service;
  lib_objects := ref_objects;
  lib_finalizer := ref_finalizer;
  lib_validation := ref_validation;
|}.

(** ** The laws *)

Lemma opt_mount_Name name p sub m : m ∈ opt_mount name p sub → VolumeMount.Name m = name.
Proof. destruct p; simpl; intros H; [apply list_elem_of_singleton in H as -> | apply not_elem_of_nil in H]; done. Qed.

#[local] Instance ref_storage_laws : StorageLaws ref_storage.
Proof.
  split. intros gv svc g. simpl. case_match; [|by intros ?%not_elem_of_nil].
  by intros ->%list_elem_of_singleton.
Qed.

#[local] Instance ref_tls_laws : TlsLaws ref_tls.
Proof.
  split; simpl.
  - intros [[n|]]; simpl; [by eexists | done].
  - intros c m ->%list_elem_of_singleton. done.
  - intros s id m. rewrite !elem_of_app. intros [H|[H|H]]; by apply opt_mount_Name in H.
Qed.

#[local] Instance ref_memcached_laws : MemcachedLaws ref_memcached.
Proof.
  split; simpl. intros mc c k m. rewrite elem_of_app.
  intros [H|H]; by apply opt_mount_Name in H.
Qed.

#[local] Instance ref_env_laws : EnvLaws ref_env.
Proof.
  split; simpl; [done|]. intros m e. rewrite list_elem_of_fmap. split.
  - intros ([k f] & -> & H). apply elem_of_map_to_list in H. by exists k, f.
  - intros (k & f & H & ->). exists (k, f). by rewrite elem_of_map_to_list.
Qed.

#[local] Instance ref_hash_laws : HashLaws ref_hash.
Proof.
  split; simpl. intros m k h m' b. case_bool_decide as E; intros [= <- <-]; [done|].
  split_and!; [apply lookup_insert_eq | by eexists|].
  intros k' Hk. simpl. rewrite lookup_insert_ne by done. by destruct m.
Qed.

#[local] Instance ref_service_laws : ServiceLaws ref_service.
Proof. split; simpl; [by intros d t o svc [= <-]|done]. Qed.

#[local] Instance ref_finalizer_laws : FinalizerLaws ref_finalizer.
Proof.
  split; intros l f; simpl.
  - intros x. case_bool_decide; simpl; [|rewrite elem_of_app, list_elem_of_singleton; tauto].
    split; [tauto|]. by intros [? | ->].
  - case_bool_decide; simpl; symmetry; [apply bool_decide_eq_false_2|apply bool_decide_eq_true_2]; tauto.
  - intros x. rewrite list_elem_of_filter. tauto.
  - done.
Qed.

#[local] Instance ref_validation_laws : ValidationLaws ref_validation.
Proof.
  split; simpl.
  - intros p m. split.
    + intros H%fmap_nil_inv k [v Hv]. destruct (bad_endpoint k) eqn:E.
      * exfalso. assert (k ∈ filter (λ k, bad_endpoint k = true) (map_to_list m).*1) as Hin.
        { apply list_elem_of_filter. split; [done|]. apply list_elem_of_fmap.
          exists (k, v). by rewrite elem_of_map_to_list. }
        rewrite H in Hin. by apply not_elem_of_nil in Hin.
      * unfold bad_endpoint in E. repeat case_bool_decide; try done; auto.
    + intros H. destruct (filter _ _) as [|k l] eqn:E; [done|]. exfalso.
      assert (k ∈ filter (λ k, bad_endpoint k = true) (map_to_list m).*1) as Hin
        by (rewrite E; by left).
      apply list_elem_of_filter in Hin as [Hb Hin].
      apply list_elem_of_fmap in Hin as ([k' v] & -> & Hin). apply elem_of_map_to_list in Hin.
      destruct (H k' (mk_is_Some _ _ Hin)) as [-> | ->]; done.
  - intros t p ns H1 H2. by rewrite !bool_decide_eq_false_2.
  - done.
  - intros t p. rewrite (bool_decide_eq_true_2 (TopoRef.Namespace t = TopoRef.Namespace t)) by done.
    by rewrite orb_true_r.
Qed.

#[export] Instance RefLaws : LibLaws RefLib.
Proof.
  split;
    [ apply RefCond.laws | apply ref_storage_laws | by split | apply ref_tls_laws
    | apply ref_memcached_laws | apply ref_env_laws | apply ref_hash_laws | by split
    | apply ref_service_laws | apply ref_finalizer_laws | apply ref_validation_laws ].
Qed.
