(* ===== verification/Api.v ===== *)
(** * The NeutronAPI resource

    [api/v1beta1/neutronapi_types.go]: the spec and status of the custom
    resource and the methods defined on them, except [GetRPCWorkers], which is
    in [RpcWorkers].  Constants of [internal/neutronapi/const.go] are at the
    end. *)

From S2P Require Import Prelude K8s Conditions Lib.

(** ** Constants *)

Definition DbSyncHash : string := "dbsync".
Definition DeploymentHash : string := "deployment".
Definition NeutronAPIContainerImage : string :=
  "quay.io/openstack-s2i-containers/openstack-neutron-server:master-latest".
Definition NeutronWSGILabel : string := "neutron.openstack.org/wsgi".

(** ** Spec *)

Module NeutronExtraVolMounts.
Record t := mk { Name : string; Region : string; VolMounts : list VolMounts.t }.
End NeutronExtraVolMounts.

Module NeutronApiTLS.
Record t := mk { API : APIService.t; CA : Ca.t; Ovn : GenericService.t }.
End NeutronApiTLS.

(** [NeutronAPISpecCore]; [Override] is the map of [APIOverrideSpec],
    [PasswordSelectors] and [Auth] are the one field of their struct. *)
Module SpecCore.
Record t := mk {
  APITimeout : Z;
  ServiceUser : string;
  DatabaseInstance : string;
  DatabaseAccount : string;
  RabbitMqClusterName : string;
  MessagingBus : RabbitMqConfig.t;
  NotificationsBus : option RabbitMqConfig.t;
  MemcachedInstance : string;
  Replicas : option Z;
  Secret : string;
  PasswordSelectors_Service : string;
  NodeSelector : option (gmap string string);
  PreserveJobs : bool;
  CorePlugin : string;
  Ml2MechanismDrivers : list string;
  CustomServiceConfig : string;
  DefaultConfigOverwrite : gmap string string;
  Resources : ResourceRequirements.t;
  NetworkAttachments : list string;
  ExtraMounts : list NeutronExtraVolMounts.t;
  Override_Service : gmap string RoutedOverrideSpec.t;
  TLS : NeutronApiTLS.t;
  Auth_ApplicationCredentialSecret : string;
  TopologyRef : option TopoRef.t;
  NotificationsBusInstance : option string }.

Definition set_APITimeout (v : Z) (s : t) : t :=
  mk v (ServiceUser s) (DatabaseInstance s) (DatabaseAccount s) (RabbitMqClusterName s)
     (MessagingBus s) (NotificationsBus s) (MemcachedInstance s) (Replicas s) (Secret s)
     (PasswordSelectors_Service s) (NodeSelector s) (PreserveJobs s) (CorePlugin s)
     (Ml2MechanismDrivers s) (CustomServiceConfig s) (DefaultConfigOverwrite s)
     (Resources s) (NetworkAttachments s) (ExtraMounts s) (Override_Service s) (TLS s)
     (Auth_ApplicationCredentialSecret s) (TopologyRef s) (NotificationsBusInstance s).

Definition set_MessagingBus (v : RabbitMqConfig.t) (s : t) : t :=
  mk (APITimeout s) (ServiceUser s) (DatabaseInstance s) (DatabaseAccount s)
     (RabbitMqClusterName s) v (NotificationsBus s) (MemcachedInstance s) (Replicas s)
     (Secret s) (PasswordSelectors_Service s) (NodeSelector s) (PreserveJobs s)
     (CorePlugin s) (Ml2MechanismDrivers s) (CustomServiceConfig s)
     (DefaultConfigOverwrite s) (Resources s) (NetworkAttachments s) (ExtraMounts s)
     (Override_Service s) (TLS s) (Auth_ApplicationCredentialSecret s) (TopologyRef s)
     (NotificationsBusInstance s).
End SpecCore.

Module Spec.
Record t := mk { Core : SpecCore.t; ContainerImage : string }.
End Spec.

(** ** Status *)

(** [NeutronAPIStatus]; [Conditions] and the maps may be nil. *)
Module Status.
Record t := mk {
  ReadyCount : Z;
  Hash : gomap string;
  Conditions : option (list Condition.t);
  DatabaseHostname : string;
  TransportURLSecret : string;
  NetworkAttachments : gomap (list string);
  ApplicationCredentialSecret : string;
  ObservedGeneration : Z;
  LastAppliedTopology : option TopoRef.t;
  NotificationsTransportURLSecret : option string;
  RPCReadyCount : Z;
  WorkerReadyCount : Z }.

Definition set_ReadyCount (v : Z) (s : t) : t :=
  mk v (Hash s) (Conditions s) (DatabaseHostname s) (TransportURLSecret s)
     (NetworkAttachments s) (ApplicationCredentialSecret s) (ObservedGeneration s)
     (LastAppliedTopology s) (NotificationsTransportURLSecret s) (RPCReadyCount s)
     (WorkerReadyCount s).
Definition set_Hash (v : gomap string) (s : t) : t :=
  mk (ReadyCount s) v (Conditions s) (DatabaseHostname s) (TransportURLSecret s)
     (NetworkAttachments s) (ApplicationCredentialSecret s) (ObservedGeneration s)
     (LastAppliedTopology s) (NotificationsTransportURLSecret s) (RPCReadyCount s)
     (WorkerReadyCount s).
Definition set_Conditions (v : option (list Condition.t)) (s : t) : t :=
  mk (ReadyCount s) (Hash s) v (DatabaseHostname s) (TransportURLSecret s)
     (NetworkAttachments s) (ApplicationCredentialSecret s) (ObservedGeneration s)
     (LastAppliedTopology s) (NotificationsTransportURLSecret s) (RPCReadyCount s)
     (WorkerReadyCount s).
Definition set_DatabaseHostname (v : string) (s : t) : t :=
  mk (ReadyCount s) (Hash s) (Conditions s) v (TransportURLSecret s)
     (NetworkAttachments s) (ApplicationCredentialSecret s) (ObservedGeneration s)
     (LastAppliedTopology s) (NotificationsTransportURLSecret s) (RPCReadyCount s)
     (WorkerReadyCount s).
Definition set_TransportURLSecret (v : string) (s : t) : t :=
  mk (ReadyCount s) (Hash s) (Conditions s) (DatabaseHostname s) v
     (NetworkAttachments s) (ApplicationCredentialSecret s) (ObservedGeneration s)
     (LastAppliedTopology s) (NotificationsTransportURLSecret s) (RPCReadyCount s)
     (WorkerReadyCount s).
Definition set_NetworkAttachments (v : gomap (list string)) (s : t) : t :=
  mk (ReadyCount s) (Hash s) (Conditions s) (DatabaseHostname s) (TransportURLSecret s)
     v (ApplicationCredentialSecret s) (ObservedGeneration s)
     (LastAppliedTopology s) (NotificationsTransportURLSecret s) (RPCReadyCount s)
     (WorkerReadyCount s).
Definition set_ApplicationCredentialSecret (v : string) (s : t) : t :=
  mk (ReadyCount s) (Hash s) (Conditions s) (DatabaseHostname s) (TransportURLSecret s)
     (NetworkAttachments s) v (ObservedGeneration s)
     (LastAppliedTopology s) (NotificationsTransportURLSecret s) (RPCReadyCount s)
     (WorkerReadyCount s).
Definition set_ObservedGeneration (v : Z) (s : t) : t :=
  mk (ReadyCount s) (Hash s) (Conditions s) (DatabaseHostname s) (TransportURLSecret s)
     (NetworkAttachments s) (ApplicationCredentialSecret s) v
     (LastAppliedTopology s) (NotificationsTransportURLSecret s) (RPCReadyCount s)
     (WorkerReadyCount s).
Definition set_LastAppliedTopology (v : option TopoRef.t) (s : t) : t :=
  mk (ReadyCount s) (Hash s) (Conditions s) (DatabaseHostname s) (TransportURLSecret s)
     (NetworkAttachments s) (ApplicationCredentialSecret s) (ObservedGeneration s)
     v (NotificationsTransportURLSecret s) (RPCReadyCount s) (WorkerReadyCount s).
Definition set_NotificationsTransportURLSecret (v : option string) (s : t) : t :=
  mk (ReadyCount s) (Hash s) (Conditions s) (DatabaseHostname s) (TransportURLSecret s)
     (NetworkAttachments s) (ApplicationCredentialSecret s) (ObservedGeneration s)
     (LastAppliedTopology s) v (RPCReadyCount s) (WorkerReadyCount s).
Definition set_RPCReadyCount (v : Z) (s : t) : t :=
  mk (ReadyCount s) (Hash s) (Conditions s) (DatabaseHostname s) (TransportURLSecret s)
     (NetworkAttachments s) (ApplicationCredentialSecret s) (ObservedGeneration s)
     (LastAppliedTopology s) (NotificationsTransportURLSecret s) v (WorkerReadyCount s).
Definition set_WorkerReadyCount (v : Z) (s : t) : t :=
  mk (ReadyCount s) (Hash s) (Conditions s) (DatabaseHostname s) (TransportURLSecret s)
     (NetworkAttachments s) (ApplicationCredentialSecret s) (ObservedGeneration s)
     (LastAppliedTopology s) (NotificationsTransportURLSecret s) (RPCReadyCount s) v.
End Status.

(** ** The resource *)

(** [NeutronAPI] with the metadata the operator reads; [DeletionTimestamp] is
    [None] when it is zero. *)
Module NeutronAPI.
Record t := mk {
  Kind : string;
  Name : string;
  Namespace : string;
  Generation : Z;
  DeletionTimestamp : option Z;
  Annotations : gomap string;
  Finalizers : list string;
  Spec : Spec.t;
  Status : Status.t }.

Definition set_Finalizers (v : list string) (i : t) : t :=
  mk (Kind i) (Name i) (Namespace i) (Generation i) (DeletionTimestamp i)
     (Annotations i) v (Spec i) (Status i).
Definition set_Spec (v : Spec.t) (i : t) : t :=
  mk (Kind i) (Name i) (Namespace i) (Generation i) (DeletionTimestamp i)
     (Annotations i) (Finalizers i) v (Status i).
Definition set_Status (v : Status.t) (i : t) : t :=
  mk (Kind i) (Name i) (Namespace i) (Generation i) (DeletionTimestamp i)
     (Annotations i) (Finalizers i) (Spec i) v.

(** [instance.Spec.<field of the embedded core>] *)
Definition core (i : t) : SpecCore.t := Spec.Core (Spec i).
End NeutronAPI.

(** ** Methods *)

Section methods.
Context `{L : Lib}.

(** [instance.Status.Conditions], a nil slice read as the empty one. *)
Definition conds (i : NeutronAPI.t) : Conditions :=
  default [] (Status.Conditions (NeutronAPI.Status i)).

Definition set_conds (cs : Conditions) (i : NeutronAPI.t) : NeutronAPI.t :=
  NeutronAPI.set_Status (Status.set_Conditions (Some cs) (NeutronAPI.Status i)) i.

(** [IsReady] *)
Definition IsReady (i : NeutronAPI.t) : bool := IsTrue (conds i) ReadyCondition.

(** [(c *NeutronExtraVolMounts) Propagate(svc)] *)
Definition Propagate (c : NeutronExtraVolMounts.t) (svc : list PropagationType)
  : list VolMounts.t :=
  foldl (λ vl gv, vl ++ VolMounts_Propagate gv svc) [] (NeutronExtraVolMounts.VolMounts c).

(** [RbacConditionsSet]: the receiver is a copy that shares the backing array
    of the conditions, so updating a condition the slice already holds is
    visible to the caller. *)
Definition RbacConditionsSet (i : NeutronAPI.t) (c : Condition.t) : NeutronAPI.t :=
  set_conds (Set_ (conds i) c) i.

Definition RbacNamespace (i : NeutronAPI.t) : string := NeutronAPI.Namespace i.

Definition RbacResourceName (i : NeutronAPI.t) : string := "neutron-" +:+ NeutronAPI.Name i.

(** [IsWSGI] *)
Definition IsWSGI (i : NeutronAPI.t) : bool :=
  match map_read (NeutronAPI.Annotations i) NeutronWSGILabel with
  | Some v => bool_decide (v = "true")
  | None => true
  end.

(** [IsOVNEnabled] *)
Definition IsOVNEnabled (i : NeutronAPI.t) : bool :=
  existsb (λ driver, bool_decide (driver = "ovn"))
          (SpecCore.Ml2MechanismDrivers (NeutronAPI.core i)).

(** [ValidateTopology] *)
Definition ValidateTopology (spec : SpecCore.t) (basePath : Path) (namespace : string)
  : list FieldError.t :=
  [] ++ ValidateTopologyRef (SpecCore.TopologyRef spec) (basePath ++ ["topologyRef"]) namespace.

End methods.

(** ** Constants of the neutronapi package *)

Definition ServiceName : string := "neutron".
Definition ServiceType : string := "network".
Definition DatabaseName : string := "neutron".
Definition DatabaseCRName : string := "neutron".
Definition DatabaseUsernamePrefix : string := "neutron".
Definition NeutronPublicPort : Z := 9696.
Definition NeutronInternalPort : Z := 9696.
Definition NeutronExtraVolTypeUndefined : string := "Undefined".
Definition PropagationNeutronAPI : PropagationType := "NeutronAPI".
Definition PropagationNeutron : PropagationType := "Neutron".
Definition NeutronOVNMetadataAgentSecretKey : string := "10-neutron-metadata.conf".
Definition NeutronOVNAgentSecretKey : string := "10-neutron-ovn.conf".
Definition NeutronSriovAgentSecretKey : string := "10-neutron-sriov.conf".
Definition NeutronDhcpAgentSecretKey : string := "10-neutron-dhcp.conf".
Definition TransportConsumerFinalizer : string := "openstack.org/neutron-transport-consumer".
Definition ACConsumerFinalizer : string := "openstack.org/neutronapi-ac-consumer".
Definition RPCDeploymentSuffix : string := "rpc".
Definition WorkerDeploymentSuffix : string := "worker".

Definition DbsyncPropagation `{Lib} : list PropagationType := [DBSync].
Definition NeutronAPIPropagation : list PropagationType :=
  [PropagationNeutron; PropagationNeutronAPI].

(** ** Lemmas *)

Lemma IsOVNEnabled_spec i :
  IsOVNEnabled i = true ↔ "ovn" ∈ SpecCore.Ml2MechanismDrivers (NeutronAPI.core i).
Proof.
  unfold IsOVNEnabled. rewrite existsb_exists. setoid_rewrite bool_decide_eq_true.
  rewrite list_elem_of_In. naive_solver.
Qed.

Lemma Propagate_elem `{L : Lib} c svc g :
  g ∈ Propagate c svc ↔
  ∃ gv, gv ∈ NeutronExtraVolMounts.VolMounts c ∧ g ∈ VolMounts_Propagate gv svc.
Proof.
  unfold Propagate. generalize (NeutronExtraVolMounts.VolMounts c) as l.
  assert (∀ l acc, g ∈ foldl (λ vl gv, vl ++ VolMounts_Propagate gv svc) acc l ↔
    g ∈ acc ∨ ∃ gv, gv ∈ l ∧ g ∈ VolMounts_Propagate gv svc) as H.
  { induction l as [|gv l IH]; intros acc; simpl; [set_solver|].
    rewrite IH. set_solver. }
  intros l. rewrite H. set_solver.
Qed.
