(* ===== verification/Webhook.v ===== *)
(** * Admission webhooks

    [api/v1beta1/neutronapi_webhook.go] (defaulting, validation, route
    annotations), the defaults set up by [SetupDefaults] of
    [neutronapi_types.go], and the adapters of
    [internal/webhook/v1beta1/neutronapi_webhook.go] that the webhook server
    calls with untyped objects. *)

From S2P Require Import Prelude GoStrings K8s Conditions Lib Api.

(** ** Defaults *)

Module NeutronAPIDefaults.
Record t := mk { ContainerImageURL : string; APITimeout : Z }.
End NeutronAPIDefaults.

(** [SetupDefaults]: the value it gives the package variable
    [neutronAPIDefaults]; [GetEnvVar] is [util.GetEnvVar] of lib-common. *)
Definition SetupDefaults (GetEnvVar : string → string → string) : NeutronAPIDefaults.t :=
  NeutronAPIDefaults.mk
    (GetEnvVar "RELATED_IMAGE_NEUTRON_API_IMAGE_URL_DEFAULT" NeutronAPIContainerImage) 120.

Section webhook.
Context `{L : Lib}.

(** The package variable [neutronAPIDefaults]. *)
Variable neutronAPIDefaults : NeutronAPIDefaults.t.

(** [(spec *NeutronAPISpecCore) Default()] *)
Definition SpecCore_Default (spec : SpecCore.t) : SpecCore.t :=
  let spec := if bool_decide (SpecCore.APITimeout spec = 0%Z)
              then SpecCore.set_APITimeout (NeutronAPIDefaults.APITimeout neutronAPIDefaults) spec
              else spec in
  let bus := SpecCore.MessagingBus spec in
  if bool_decide (RabbitMqConfig.Cluster bus = "")
  then SpecCore.set_MessagingBus
         (RabbitMqConfig.mk (RabbitMqConfig.User bus) (RabbitMqConfig.Vhost bus) "rabbitmq") spec
  else spec.

(** [(spec *NeutronAPISpec) Default()] *)
Definition Spec_Default (spec : Spec.t) : Spec.t :=
  let image := if bool_decide (Spec.ContainerImage spec = "")
               then NeutronAPIDefaults.ContainerImageURL neutronAPIDefaults
               else Spec.ContainerImage spec in
  Spec.mk (SpecCore_Default (Spec.Core spec)) image.

(** [(r *NeutronAPI) Default()] *)
Definition NeutronAPI_Default (r : NeutronAPI.t) : NeutronAPI.t :=
  NeutronAPI.set_Spec (Spec_Default (NeutronAPI.Spec r)) r.

(** ** Validation *)

(** The body of the loop of [ValidateDefaultConfigOverwrite] on the keys in the
    order the map iteration yields them. *)
Definition overwrite_errors (basePath : Path) (keys : list string) : list FieldError.t :=
  foldl (λ errors requested,
           if bool_decide (requested ≠ "policy.yaml")
           then errors ++ [FieldError.mk (basePath ++ ["defaultConfigOverwrite"]) requested
                             "Only the following keys are valid: policy.yaml"]
           else errors) [] keys.

(** [ValidateDefaultConfigOverwrite]; Go leaves the iteration order of a map
    open, [overwrite_errors_perm] shows it only permutes the errors. *)
Definition ValidateDefaultConfigOverwrite (basePath : Path) (m : gmap string string)
  : list FieldError.t :=
  overwrite_errors basePath (map_to_list m).*1.

(** [(spec *NeutronAPISpecCore) getDeprecatedFields(old)] *)
Definition getDeprecatedFields (spec : SpecCore.t) (old : option SpecCore.t)
  : list DeprecatedFieldUpdate.t :=
  let newNotifBusCluster := RabbitMqConfig.Cluster <$> SpecCore.NotificationsBus spec in
  [ DeprecatedFieldUpdate.mk "rabbitMqClusterName" ["messagingBus"; "cluster"]
      (SpecCore.RabbitMqClusterName <$> old)
      (Some (SpecCore.RabbitMqClusterName spec))
      (Some (RabbitMqConfig.Cluster (SpecCore.MessagingBus spec)));
    DeprecatedFieldUpdate.mk "notificationsBusInstance" ["notificationsBus"; "cluster"]
      (old ≫= SpecCore.NotificationsBusInstance)
      (SpecCore.NotificationsBusInstance spec)
      newNotifBusCluster ].

(** [validateDeprecatedFieldsCreate] *)
Definition validateDeprecatedFieldsCreate (spec : SpecCore.t) (basePath : Path)
  : list string * list FieldError.t :=
  let deprecatedFields :=
    (λ df, DeprecatedField.mk
             (DeprecatedFieldUpdate.DeprecatedFieldName df)
             (DeprecatedFieldUpdate.NewFieldPath df)
             (DeprecatedFieldUpdate.NewDeprecatedValue df)
             (DeprecatedFieldUpdate.NewValue df)) <$> getDeprecatedFields spec None in
  (ValidateDeprecatedFieldsCreate deprecatedFields basePath, []).

(** [validateDeprecatedFieldsUpdate] *)
Definition validateDeprecatedFieldsUpdate (spec old : SpecCore.t) (basePath : Path)
  : list string * list FieldError.t :=
  ValidateDeprecatedFieldsUpdate (getDeprecatedFields spec (Some old)) basePath.

(** [(r *NeutronAPISpecCore) ValidateCreate(basePath, namespace)] *)
Definition SpecCore_ValidateCreate (r : SpecCore.t) (basePath : Path) (namespace : string)
  : list string * list FieldError.t :=
  let allErrs := ValidateRoutedOverrides (basePath ++ ["override"] ++ ["service"])
                   (SpecCore.Override_Service r) in
  let allErrs := allErrs ++
                 ValidateDefaultConfigOverwrite basePath (SpecCore.DefaultConfigOverwrite r) in
  let allErrs := allErrs ++ ValidateTopology r basePath namespace in
  ([], allErrs).

(** [(spec *NeutronAPISpecCore) ValidateUpdate(old, basePath, namespace)] *)
Definition SpecCore_ValidateUpdate (spec old : SpecCore.t) (basePath : Path)
    (namespace : string) : list string * list FieldError.t :=
  let '(allWarns, allErrs) := validateDeprecatedFieldsUpdate spec old basePath in
  let allErrs := allErrs ++ ValidateRoutedOverrides (basePath ++ ["override"] ++ ["service"])
                              (SpecCore.Override_Service spec) in
  let allErrs := allErrs ++
                 ValidateDefaultConfigOverwrite basePath (SpecCore.DefaultConfigOverwrite spec) in
  let allErrs := allErrs ++ ValidateTopology spec basePath namespace in
  (allWarns, allErrs).

(** The error an admission webhook answers with: [apierrors.NewInvalid] with
    the field errors, [apierrors.NewInternalError], or a plain error. *)
Inductive AdmissionError :=
| Invalid (kind name : string) (errs : list FieldError.t)
| InternalError (e : error)
| PlainError (e : error).

(** [runtime.Object] as the handlers receive it: a (possibly nil) [*NeutronAPI]
    or a value of another type. *)
Inductive Object :=
| ObjNeutronAPI (p : option NeutronAPI.t)
| ObjOther (type : string).

Definition basePath0 : Path := ["spec"].

(** [(r *NeutronAPI) ValidateCreate()] *)
Definition NeutronAPI_ValidateCreate (r : NeutronAPI.t)
  : list string * option AdmissionError :=
  let '(allWarns, allErrs) :=
    SpecCore_ValidateCreate (NeutronAPI.core r) basePath0 (NeutronAPI.Namespace r) in
  match allErrs with
  | [] => (allWarns, None)
  | _ => (allWarns, Some (Invalid "NeutronAPI" (NeutronAPI.Name r) allErrs))
  end.

(** [(r *NeutronAPI) ValidateUpdate(old)] *)
Definition NeutronAPI_ValidateUpdate (r : NeutronAPI.t) (old : Object)
  : list string * option AdmissionError :=
  match old with
  | ObjOther _ | ObjNeutronAPI None =>
      ([], Some (InternalError (NewError "unable to convert existing object")))
  | ObjNeutronAPI (Some oldNeutronAPI) =>
      let '(allWarns, allErrs) :=
        SpecCore_ValidateUpdate (NeutronAPI.core r) (NeutronAPI.core oldNeutronAPI)
          basePath0 (NeutronAPI.Namespace r) in
      match allErrs with
      | [] => (allWarns, None)
      | _ => (allWarns, Some (Invalid "NeutronAPI" (NeutronAPI.Name r) allErrs))
      end
  end.

(** [(r *NeutronAPI) ValidateDelete()] *)
Definition NeutronAPI_ValidateDelete (r : NeutronAPI.t)
  : list string * option AdmissionError := ([], None).

(** ** The handlers of internal/webhook/v1beta1

    [None] is a panic: a method call through a nil [*NeutronAPI]. *)

Definition ErrInvalidObject : error := NewError "invalid object type".

Definition not_neutronapi (what : string) (type : string) : error :=
  Errorf "" ErrInvalidObject (what +:+ type).

(** [(d *NeutronAPICustomDefaulter) Default(ctx, obj)]: the object afterwards
    and the error. *)
Definition CustomDefaulter_Default (obj : Object) : option (Object * option error) :=
  match obj with
  | ObjOther ty =>
      Some (obj, Some (not_neutronapi ": expected an NeutronAPI object but got " ty))
  | ObjNeutronAPI None => None
  | ObjNeutronAPI (Some neutronapi) =>
      Some (ObjNeutronAPI (Some (NeutronAPI_Default neutronapi)), None)
  end.

(** [(v *NeutronAPICustomValidator) ValidateCreate(ctx, obj)] *)
Definition CustomValidator_ValidateCreate (obj : Object)
  : option (list string * option AdmissionError) :=
  match obj with
  | ObjOther ty =>
      Some ([], Some (PlainError (not_neutronapi ": expected a NeutronAPI object but got " ty)))
  | ObjNeutronAPI None => None
  | ObjNeutronAPI (Some neutronapi) => Some (NeutronAPI_ValidateCreate neutronapi)
  end.

(** [(v *NeutronAPICustomValidator) ValidateUpdate(ctx, oldObj, newObj)] *)
Definition CustomValidator_ValidateUpdate (oldObj newObj : Object)
  : option (list string * option AdmissionError) :=
  match newObj with
  | ObjOther ty =>
      Some ([], Some (PlainError
        (not_neutronapi ": expected a NeutronAPI object for the newObj but got " ty)))
  | ObjNeutronAPI None => None
  | ObjNeutronAPI (Some neutronapi) => Some (NeutronAPI_ValidateUpdate neutronapi oldObj)
  end.

(** [(v *NeutronAPICustomValidator) ValidateDelete(ctx, obj)] *)
Definition CustomValidator_ValidateDelete (obj : Object)
  : option (list string * option AdmissionError) :=
  match obj with
  | ObjOther ty =>
      Some ([], Some (PlainError (not_neutronapi ": expected a NeutronAPI object but got " ty)))
  | ObjNeutronAPI None => None
  | ObjNeutronAPI (Some neutronapi) => Some (NeutronAPI_ValidateDelete neutronapi)
  end.

(** ** Route annotations *)

Definition haProxyAnno : string := "haproxy.router.openshift.io/timeout".
Definition neutronAnno : string := "api.neutron.openstack.org/timeout".

(** [fmt.Sprintf("%ds", n)] *)
Definition timeout_string (n : Z) : string := to_string (Itoa n) +:+ "s".

(** [GetDefaultRouteAnnotations] *)
Definition GetDefaultRouteAnnotations : gmap string string :=
  {[ haProxyAnno := timeout_string (NeutronAPIDefaults.APITimeout neutronAPIDefaults) ]}.

End webhook.

(** [SetDefaultRouteAnnotations]: the map it mutates, afterwards; [None] is the
    panic of a write to a nil map. *)
Definition SetDefaultRouteAnnotations (spec : SpecCore.t) (annotations : gomap string)
  : option (gomap string) :=
  let valNeutronAPI := map_read annotations neutronAnno in
  let valHAProxy := map_read annotations haProxyAnno in
  let set_both :=
    let timeout := timeout_string (SpecCore.APITimeout spec) in
    annotations ← map_write neutronAnno timeout annotations;
    map_write haProxyAnno timeout annotations in
  match valNeutronAPI, valHAProxy with
  | None, Some _ => Some annotations
  | Some valNeutronAPI, Some valHAProxy =>
      if bool_decide (valNeutronAPI ≠ valHAProxy)
      then Some (map_delete neutronAnno annotations)
      else set_both
  | _, None => set_both
  end.

(** ** Lemmas *)

Lemma overwrite_errors_app p keys acc :
  foldl (λ errors requested,
           if bool_decide (requested ≠ "policy.yaml")
           then errors ++ [FieldError.mk (p ++ ["defaultConfigOverwrite"]) requested
                             "Only the following keys are valid: policy.yaml"]
           else errors) acc keys = acc ++ overwrite_errors p keys.
Proof.
  unfold overwrite_errors. revert acc.
  induction keys as [|k keys IH]; intros acc; simpl; [by rewrite app_nil_r|].
  rewrite IH. symmetry. rewrite IH. symmetry. rewrite app_assoc. f_equal.
  case_bool_decide; [done | by rewrite app_nil_r].
Qed.

Lemma overwrite_errors_cons p k keys :
  overwrite_errors p (k :: keys) =
  (if bool_decide (k ≠ "policy.yaml")
   then [FieldError.mk (p ++ ["defaultConfigOverwrite"]) k
           "Only the following keys are valid: policy.yaml"]
   else []) ++ overwrite_errors p keys.
Proof.
  unfold overwrite_errors at 1. simpl. rewrite overwrite_errors_app.
  by case_bool_decide.
Qed.

(** Another iteration order of the map permutes the errors. *)
Lemma overwrite_errors_perm p keys keys' :
  keys ≡ₚ keys' → overwrite_errors p keys ≡ₚ overwrite_errors p keys'.
Proof.
  induction 1; rewrite ?overwrite_errors_cons; [done | by f_equiv | | by etrans].
  rewrite !app_assoc. f_equiv. apply Permutation_app_comm.
Qed.

Lemma overwrite_errors_nil p keys :
  overwrite_errors p keys = [] ↔ Forall (λ k, k = "policy.yaml") keys.
Proof.
  induction keys as [|k keys IH]; [by split|].
  rewrite overwrite_errors_cons, app_nil, Forall_cons, IH. f_equiv.
  case_bool_decide; naive_solver.
Qed.

Lemma ValidateDefaultConfigOverwrite_nil p m :
  ValidateDefaultConfigOverwrite p m = [] ↔ ∀ k, is_Some (m !! k) → k = "policy.yaml".
Proof.
  unfold ValidateDefaultConfigOverwrite. rewrite overwrite_errors_nil, Forall_forall.
  split; intros H k Hk; apply H.
  - destruct Hk as [v Hv]. apply list_elem_of_fmap. exists (k, v).
    by rewrite elem_of_map_to_list.
  - apply list_elem_of_fmap in Hk as ([k' v] & -> & Hk).
    apply elem_of_map_to_list in Hk. by exists v.
Qed.

(** Service overrides keyed by endpoint types, no overwrite but [policy.yaml]. *)
Definition spec_valid (spec : SpecCore.t) : Prop :=
  (∀ k, is_Some (SpecCore.Override_Service spec !! k) → k = EndpointPublic ∨ k = EndpointInternal) ∧
  (∀ k, is_Some (SpecCore.DefaultConfigOverwrite spec !! k) → k = "policy.yaml").

(** The errors of the checks that creation and update share. *)
Definition shared_errors `{Lib} (spec : SpecCore.t) (namespace : string) : list FieldError.t :=
  (ValidateRoutedOverrides (basePath0 ++ ["override"] ++ ["service"])
     (SpecCore.Override_Service spec) ++
   ValidateDefaultConfigOverwrite basePath0 (SpecCore.DefaultConfigOverwrite spec)) ++
  ValidateTopology spec basePath0 namespace.

Lemma shared_errors_nil `{L : Lib} `{!LibLaws L} spec ns :
  shared_errors spec ns = [] ↔
  spec_valid spec ∧
  ValidateTopologyRef (SpecCore.TopologyRef spec) (basePath0 ++ ["topologyRef"]) ns = [].
Proof.
  unfold shared_errors, spec_valid, ValidateTopology. simpl ([] ++ _).
  rewrite !app_nil, ValidateRoutedOverrides_ok, ValidateDefaultConfigOverwrite_nil. done.
Qed.

Lemma shared_errors_create `{Lib} r :
  (NeutronAPI_ValidateCreate r).2 = None ↔
  shared_errors (NeutronAPI.core r) (NeutronAPI.Namespace r) = [].
Proof.
  unfold NeutronAPI_ValidateCreate, SpecCore_ValidateCreate.
  fold (shared_errors (NeutronAPI.core r) (NeutronAPI.Namespace r)).
  by destruct (shared_errors _ _).
Qed.

Lemma shared_errors_update `{Lib} r old :
  (NeutronAPI_ValidateUpdate r (ObjNeutronAPI (Some old))).2 = None ↔
  (validateDeprecatedFieldsUpdate (NeutronAPI.core r) (NeutronAPI.core old) basePath0).2 = [] ∧
  shared_errors (NeutronAPI.core r) (NeutronAPI.Namespace r) = [].
Proof.
  unfold NeutronAPI_ValidateUpdate, SpecCore_ValidateUpdate.
  destruct (validateDeprecatedFieldsUpdate _ _ _) as [w e]; simpl.
  rewrite <- !app_assoc. unfold shared_errors. rewrite <- app_assoc. simpl.
  rewrite <- app_nil. destruct (e ++ _) eqn:E; simpl; naive_solver.
Qed.

Lemma topology_other_namespace `{L : Lib} `{!LibLaws L} spec ns t :
  SpecCore.TopologyRef spec = Some t →
  TopoRef.Namespace t ≠ "" → TopoRef.Namespace t ≠ ns → shared_errors spec ns ≠ [].
Proof.
  intros Ht Hn1 Hn2 [_ H]%shared_errors_nil. rewrite Ht in H.
  by eapply ValidateTopologyRef_refuses in H.
Qed.

(** ** Properties *)

(** C36: defaulting.  Nothing but the Spec changes; the container image, the API
    timeout and the cluster of the messaging bus become the configured image, the
    configured timeout and "rabbitmq" where they are empty and keep the user's
    value otherwise (the bus's user and virtual host always do); every other
    field of the Spec, the notifications bus among them, is the user's.  Once
    defaulted nothing is empty, and defaulting again changes nothing (the
    mutating webhook runs on every create and update). *)
Theorem NeutronAPI_Default_spec (d : NeutronAPIDefaults.t) (r : NeutronAPI.t) :
  NeutronAPIDefaults.ContainerImageURL d ≠ "" →
  NeutronAPIDefaults.APITimeout d ≠ 0%Z →
  let r' := NeutronAPI_Default d r in
  let core := NeutronAPI.core r in
  let core' := NeutronAPI.core r' in
  let or_default {A} `{EqDecision A} (empty v fallback : A) :=
    if decide (v = empty) then fallback else v in
  NeutronAPI.set_Spec (NeutronAPI.Spec r) r' = r ∧
  Spec.ContainerImage (NeutronAPI.Spec r') =
    or_default "" (Spec.ContainerImage (NeutronAPI.Spec r))
      (NeutronAPIDefaults.ContainerImageURL d) ∧
  SpecCore.APITimeout core' =
    or_default 0%Z (SpecCore.APITimeout core) (NeutronAPIDefaults.APITimeout d) ∧
  SpecCore.MessagingBus core' =
    RabbitMqConfig.mk (RabbitMqConfig.User (SpecCore.MessagingBus core))
      (RabbitMqConfig.Vhost (SpecCore.MessagingBus core))
      (or_default "" (RabbitMqConfig.Cluster (SpecCore.MessagingBus core)) "rabbitmq") ∧
  SpecCore.set_APITimeout (SpecCore.APITimeout core)
    (SpecCore.set_MessagingBus (SpecCore.MessagingBus core) core') = core ∧
  (Spec.ContainerImage (NeutronAPI.Spec r') ≠ "" ∧ SpecCore.APITimeout core' ≠ 0%Z ∧
   RabbitMqConfig.Cluster (SpecCore.MessagingBus core') ≠ "") ∧
  NeutronAPI_Default d r' = r'.
Proof.
  intros Hi Ht. destruct r as [? ? ? ? ? ? ? [[] ?] ?], d.
  match goal with b : RabbitMqConfig.t |- _ => destruct b end. simpl in *.
  unfold NeutronAPI_Default, Spec_Default, SpecCore_Default, NeutronAPI.core,
    NeutronAPI.set_Spec. simpl.
  repeat case_bool_decide; simpl in *; split_and!; try done;
    repeat case_bool_decide; repeat case_decide; simpl in *; simplify_eq; try done.
Qed.

(** C34: the create webhook accepts a NeutronAPI exactly when its service
    overrides are keyed by endpoint types, its [defaultConfigOverwrite] has no
    key but [policy.yaml] and its topology reference validates; in particular a
    topology of another namespace is refused. *)
Theorem ValidateCreate_accepts `{L : Lib} `{!LibLaws L} (r : NeutronAPI.t) :
  ((NeutronAPI_ValidateCreate r).2 = None ↔
   spec_valid (NeutronAPI.core r) ∧
   ValidateTopologyRef (SpecCore.TopologyRef (NeutronAPI.core r))
     (basePath0 ++ ["topologyRef"]) (NeutronAPI.Namespace r) = []) ∧
  (∀ t, SpecCore.TopologyRef (NeutronAPI.core r) = Some t →
        TopoRef.Namespace t ≠ "" → TopoRef.Namespace t ≠ NeutronAPI.Namespace r →
        (NeutronAPI_ValidateCreate r).2 ≠ None).
Proof.
  split; [by rewrite shared_errors_create, shared_errors_nil|].
  intros t Ht H1 H2 H%shared_errors_create. by eapply topology_other_namespace.
Qed.

(** C35: the update webhook refuses an old object that is nil or of another
    type, and otherwise accepts exactly when the deprecated-field check finds
    no error and the checks of creation pass on the new spec. *)
Theorem ValidateUpdate_accepts `{L : Lib} `{!LibLaws L} (r : NeutronAPI.t) (oldObj : Object) :
  (NeutronAPI_ValidateUpdate r oldObj).2 = None ↔
  ∃ old, oldObj = ObjNeutronAPI (Some old) ∧
    (validateDeprecatedFieldsUpdate (NeutronAPI.core r) (NeutronAPI.core old) basePath0).2 = [] ∧
    (NeutronAPI_ValidateCreate r).2 = None.
Proof.
  setoid_rewrite shared_errors_create. destruct oldObj as [[old|]|ty].
  - rewrite shared_errors_update. naive_solver.
  - naive_solver.
  - naive_solver.
Qed.

Lemma anno_ne : neutronAnno ≠ haProxyAnno.
Proof. done. Qed.

#[local] Opaque neutronAnno haProxyAnno timeout_string.

(** A human set the timeout: the operator's flag goes. *)
Lemma route_human spec a v :
  a !! haProxyAnno = Some v → a !! neutronAnno ≠ Some v →
  SetDefaultRouteAnnotations spec (Some a) = Some (Some (delete neutronAnno a)).
Proof.
  unfold SetDefaultRouteAnnotations, map_read. simpl. intros -> Hn.
  destruct (a !! neutronAnno) as [n|] eqn:En.
  - by rewrite bool_decide_eq_true_2 by congruence.
  - by rewrite delete_id.
Qed.

(** The operator owns the timeout: both annotations follow the spec. *)
Lemma route_owned spec a :
  a !! haProxyAnno = None ∨ a !! haProxyAnno = a !! neutronAnno →
  SetDefaultRouteAnnotations spec (Some a) = Some (Some
    (<[haProxyAnno := timeout_string (SpecCore.APITimeout spec)]>
      (<[neutronAnno := timeout_string (SpecCore.APITimeout spec)]> a))).
Proof.
  unfold SetDefaultRouteAnnotations, map_read. simpl. intros [H|H].
  - rewrite H. by destruct (a !! neutronAnno).
  - rewrite <- H. destruct (a !! haProxyAnno); [|done].
    by rewrite bool_decide_eq_false_2 by naive_solver.
Qed.

Lemma route_cases (a : gmap string string) :
  (∃ v, a !! haProxyAnno = Some v ∧ a !! neutronAnno ≠ Some v) ∨
  (a !! haProxyAnno = None ∨ a !! haProxyAnno = a !! neutronAnno).
Proof.
  destruct (a !! haProxyAnno) as [v|] eqn:E; [|by right; left].
  destruct (decide (a !! neutronAnno = Some v)); [right; right; congruence | left; by exists v].
Qed.

(** C37: route timeout annotations.  On a nil map, where neither annotation can
    be set, the function panics, and only there.  On a map, a HAProxy timeout set
    by a human (the operator's flag is missing or differs) is kept, and the
    operator gives up its flag; otherwise both annotations become the spec's
    timeout.  No other annotation changes and a second run changes nothing. *)
Theorem SetDefaultRouteAnnotations_spec (spec : SpecCore.t) (annotations : gomap string) :
  let timeout := timeout_string (SpecCore.APITimeout spec) in
  (SetDefaultRouteAnnotations spec annotations = None ↔ annotations = None) ∧
  ∀ a, annotations = Some a →
  ∃ a', SetDefaultRouteAnnotations spec annotations = Some (Some a') ∧
    (∀ v, a !! haProxyAnno = Some v → a !! neutronAnno ≠ Some v →
          a' !! haProxyAnno = Some v ∧ a' !! neutronAnno = None) ∧
    (a !! haProxyAnno = None ∨ a !! haProxyAnno = a !! neutronAnno →
          a' !! haProxyAnno = Some timeout ∧ a' !! neutronAnno = Some timeout) ∧
    (∀ k, k ≠ haProxyAnno → k ≠ neutronAnno → a' !! k = a !! k) ∧
    SetDefaultRouteAnnotations spec (Some a') = Some (Some a').
Proof.
  pose proof anno_ne as Hne. intros timeout.
  destruct annotations as [a|]; [|split; [done|by intros ? [=]]].
  destruct (route_cases a) as [(v & Hv & Hn)|H].
  - rewrite (route_human spec a v) by done. split; [done|]. intros ? [= <-].
    eexists. split; [done|]. split_and!.
    + intros v' Hv' _. by rewrite lookup_delete_ne, lookup_delete_eq by done.
    + intros [H|H]; congruence.
    + intros k H1 H2. by rewrite lookup_delete_ne by done.
    + rewrite (route_human _ _ v);
        rewrite ?lookup_delete_ne, ?lookup_delete_eq by done; try done.
      by rewrite delete_delete_eq.
  - rewrite (route_owned spec a H). split; [done|]. intros ? [= <-].
    eexists. split; [done|]. split_and!.
    + intros v Hv Hn. destruct H; congruence.
    + by rewrite lookup_insert_eq, lookup_insert_ne, lookup_insert_eq by done.
    + intros k H1 H2. by rewrite !lookup_insert_ne by done.
    + rewrite route_owned.
      * do 2 f_equal. apply map_eq. intros k. by repeat (rewrite lookup_insert; case_decide).
      * right. by rewrite lookup_insert_eq, lookup_insert_ne, lookup_insert_eq by done.
Qed.
