(* ===== verification/GoMonad.v ===== *)
(** * Go functions as state transformers

    A Go function body is a computation on a state that goes on with a value,
    returns early from the function, or panics.  [call_fn] is the boundary of a
    function call: it turns an early return of the callee into the value of the
    call.  [wp] and [keeps] are the small program logic used by the
    controller's theorems. *)

From S2P Require Import Prelude.

Inductive outcome (R A : Type) :=
| Cont (a : A)
| Ret (r : R)
| Panic.
Arguments Cont {_ _} _.
Arguments Ret {_ _} _.
Arguments Panic {_ _}.

Definition M (S R A : Type) : Type := S → outcome R A * S.

#[export] Instance M_ret S R : MRet (M S R) := λ A a s, (Cont a, s).

#[export] Instance M_bind S R : MBind (M S R) := λ A B f m s,
  match m s with
  | (Cont a, s') => f a s'
  | (Ret r, s') => (Ret r, s')
  | (Panic, s') => (Panic, s')
  end.

Section combinators.
Context {S R : Type}.

(** [return r] *)
Definition return_ {A} (r : R) : M S R A := λ s, (Ret r, s).

Definition panic {A} : M S R A := λ s, (Panic, s).

Definition get : M S R S := λ s, (Cont s, s).

Definition modify (f : S → S) : M S R unit := λ s, (Cont (), f s).

(** A call of a function with result type [R']. *)
Definition call_fn {R'} (f : M S R' R') : M S R R' := λ s,
  match f s with
  | (Cont r, s') => (Cont r, s')
  | (Ret r, s') => (Cont r, s')
  | (Panic, s') => (Panic, s')
  end.

(** A function body with a deferred call that gets the result; a panic of the
    body goes on past the deferred call, which re-panics. *)
Definition deferred (body : M S R R) (d : R → M S R R) : M S R R := λ s,
  match body s with
  | (Cont r, s') => d r s'
  | (Ret r, s') => d r s'
  | (Panic, s') => (Panic, s')
  end.

(** What a function returns and the state it leaves; [None] when it panics. *)
Definition returns (f : M S R R) (s : S) : option (R * S) :=
  match f s with
  | (Cont r, s') => Some (r, s')
  | (Ret r, s') => Some (r, s')
  | (Panic, _) => None
  end.

(** A pure expression that may panic. *)
Definition force {A} (o : option A) : M S R A :=
  match o with Some a => mret a | None => panic end.

(** [if c { body }] *)
Definition when (c : bool) (body : M S R unit) : M S R unit :=
  if c then body else mret ().

(** [for _, x := range l { body }] *)
Fixpoint for_each {X} (l : list X) (body : X → M S R unit) : M S R unit :=
  match l with
  | [] => mret ()
  | x :: l => body x;; for_each l body
  end.

End combinators.

(** ** Weakest preconditions *)

Section wp.
Context {S R : Type}.

Definition wp {A} (m : M S R A) (Q : outcome R A → S → Prop) (s : S) : Prop :=
  Q (m s).1 (m s).2.

Lemma wp_mono {A} (m : M S R A) (Q Q' : outcome R A → S → Prop) s :
  wp m Q s → (∀ o s', Q o s' → Q' o s') → wp m Q' s.
Proof. unfold wp. auto. Qed.

Lemma wp_ret {A} (a : A) Q s : Q (Cont a) s → wp (mret a) Q s.
Proof. done. Qed.

Lemma wp_return {A} (r : R) (Q : outcome R A → S → Prop) s :
  Q (Ret r) s → wp (return_ r) Q s.
Proof. done. Qed.

Lemma wp_panic {A} (Q : outcome R A → S → Prop) s : Q Panic s → wp panic Q s.
Proof. done. Qed.

Lemma wp_get Q s : Q (Cont s) s → wp get Q s.
Proof. done. Qed.

Lemma wp_modify f Q s : Q (Cont ()) (f s) → wp (modify f) Q s.
Proof. done. Qed.

Lemma wp_bind {A B} (m : M S R A) (k : A → M S R B) Q s :
  wp m (λ o s', match o with
                | Cont a => wp (k a) Q s'
                | Ret r => Q (Ret r) s'
                | Panic => Q Panic s'
                end) s →
  wp (m ≫= k) Q s.
Proof.
  unfold wp, mbind, M_bind. destruct (m s) as [[a|r|] s'] eqn:E; simpl; auto.
Qed.

(** A total specification of a function: it does not panic and what it returns
    satisfies [P]. *)
Definition post (P : R → S → Prop) (o : outcome R R) (s : S) : Prop :=
  match o with Cont r => P r s | Ret r => P r s | Panic => False end.

Definition fn_spec (f : M S R R) (P : R → S → Prop) (s : S) : Prop := wp f (post P) s.

Lemma fn_spec_returns (f : M S R R) (P : R → S → Prop) (s : S) :
  fn_spec f P s ↔ ∃ r s', returns f s = Some (r, s') ∧ P r s'.
Proof.
  unfold fn_spec, wp, returns, post.
  destruct (f s) as [[r|r|] s'] eqn:E; simpl; naive_solver.
Qed.

Lemma fn_spec_mono (f : M S R R) (P P' : R → S → Prop) (s : S) :
  fn_spec f P s → (∀ r s', P r s' → P' r s') → fn_spec f P' s.
Proof. intros H HP. eapply wp_mono; [exact H|]. intros [r|r|] s'; simpl; auto. Qed.

Lemma fn_spec_and (f : M S R R) (P P' : R → S → Prop) (s : S) :
  fn_spec f P s → fn_spec f P' s → fn_spec f (λ r s', P r s' ∧ P' r s') s.
Proof.
  unfold fn_spec, wp, post. destruct (f s) as [[r|r|] s']; simpl; auto.
Qed.

Lemma wp_deferred (body : M S R R) d Q s :
  wp body (λ o s', match o with
                   | Cont r => wp (d r) Q s'
                   | Ret r => wp (d r) Q s'
                   | Panic => Q Panic s'
                   end) s →
  wp (deferred body d) Q s.
Proof. unfold wp, deferred. destruct (body s) as [[r|r|] s'] eqn:E; simpl; auto. Qed.

Lemma wp_when c body Q s :
  (c = true → wp body Q s) → (c = false → Q (Cont ()) s) → wp (when c body) Q s.
Proof. intros H1 H2. destruct c; [by apply H1 | by apply H2]. Qed.

(** ** Invariants

    [keeps I m]: whatever the outcome of [m], it keeps [I]. *)

Definition keeps {A} (I : S → Prop) (m : M S R A) : Prop := ∀ s, I s → I (m s).2.

Lemma keeps_wp {A} I (m : M S R A) s : keeps I m → I s → wp m (λ _, I) s.
Proof. intros H Hs. by apply H. Qed.

Lemma wp_keeps {A} I (m : M S R A) : (∀ s, I s → wp m (λ _, I) s) → keeps I m.
Proof. done. Qed.

Lemma keeps_ret {A} I (a : A) : keeps I (mret a).
Proof. intros s H. exact H. Qed.

Lemma keeps_return {A} I r : keeps I (return_ (A:=A) r).
Proof. intros s H. exact H. Qed.

Lemma keeps_panic {A} I : keeps I (panic (A:=A)).
Proof. intros s H. exact H. Qed.

Lemma keeps_get I : keeps I get.
Proof. intros s H. exact H. Qed.

Lemma keeps_force {A} I (o : option A) : keeps I (force o).
Proof. destruct o; intros s H; exact H. Qed.

Lemma keeps_modify (I : S → Prop) f : (∀ s, I s → I (f s)) → keeps I (modify f).
Proof. intros H s. apply H. Qed.

Lemma keeps_bind {A B} I (m : M S R A) (k : A → M S R B) :
  keeps I m → (∀ a, keeps I (k a)) → keeps I (m ≫= k).
Proof.
  intros Hm Hk s Hs. unfold mbind, M_bind. specialize (Hm s Hs).
  destruct (m s) as [[a|r|] s'] eqn:E; simpl in *; [by apply Hk | done..].
Qed.

Lemma keeps_when I c body : keeps I body → keeps I (when c body).
Proof. intros H. destruct c; [exact H | intros s Hs; exact Hs]. Qed.

Lemma keeps_for_each {X} I (l : list X) body :
  (∀ x, x ∈ l → keeps I (body x)) → keeps I (for_each l body).
Proof.
  induction l as [|x l IH]; intros H; simpl; [apply keeps_ret|].
  apply keeps_bind; [apply H; by left|]. intros _. apply IH. intros y Hy. apply H. by right.
Qed.

Lemma keeps_and {A} I J (m : M S R A) :
  keeps I m → keeps J m → keeps (λ s, I s ∧ J s) m.
Proof. intros HI HJ s [? ?]. split; [by apply HI | by apply HJ]. Qed.

End wp.

Lemma wp_call_fn {S R R'} (f : M S R' R') (Q : outcome R R' → S → Prop) s :
  wp f (λ o s', match o with
                | Cont r => Q (Cont r) s'
                | Ret r => Q (Cont r) s'
                | Panic => Q Panic s'
                end) s →
  wp (call_fn f) Q s.
Proof. unfold wp, call_fn. destruct (f s) as [[a|r|] s'] eqn:E; simpl; auto. Qed.

Lemma wp_call_spec {S R R'} (f : M S R' R') P (Q : outcome R R' → S → Prop) s :
  fn_spec f P s → (∀ r s', P r s' → Q (Cont r) s') → wp (call_fn f) Q s.
Proof.
  intros H HP. apply wp_call_fn. eapply wp_mono; [exact H|]. intros [r|r|] s'; simpl; auto; done.
Qed.

Lemma keeps_call_fn {S R R'} I (f : M S R' R') : keeps I f → keeps (R:=R) I (call_fn f).
Proof.
  intros Hf s Hs. unfold call_fn. specialize (Hf s Hs).
  by destruct (f s) as [[a|r|] s'].
Qed.

(** ** What holds where a piece goes on

    [wpc m P s]: if [m] goes on with [a], then [P a] holds of its state. *)

Definition wpc {S R A} (m : M S R A) (P : A → S → Prop) (s : S) : Prop :=
  wp m (λ o s', match o with Cont a => P a s' | _ => True end) s.

Section wpc.
Context {S R : Type}.

Lemma wpc_ret {A} (a : A) (P : A → S → Prop) s : P a s → wpc (R:=R) (mret a) P s.
Proof. done. Qed.

Lemma wpc_return {A} (r : R) (P : A → S → Prop) s : wpc (return_ r) P s.
Proof. done. Qed.

Lemma wpc_bind {A B} (m : M S R A) (k : A → M S R B) P s :
  wpc m (λ a s', wpc (k a) P s') s → wpc (m ≫= k) P s.
Proof.
  unfold wpc, wp, mbind, M_bind. by destruct (m s) as [[a|r|] s'].
Qed.

Lemma wpc_mono {A} (m : M S R A) (P P' : A → S → Prop) s :
  wpc m P s → (∀ a s', P a s' → P' a s') → wpc m P' s.
Proof. unfold wpc, wp. destruct (m s) as [[a|r|] s']; simpl; auto. Qed.

Lemma wpc_and {A} (m : M S R A) (P P' : A → S → Prop) s :
  wpc m P s → wpc m P' s → wpc m (λ a s', P a s' ∧ P' a s') s.
Proof. unfold wpc, wp. destruct (m s) as [[a|r|] s']; simpl; auto. Qed.

Lemma wpc_when c (body : M S R unit) P s :
  (c = true → wpc body P s) → (c = false → P () s) → wpc (when c body) P s.
Proof. intros H1 H2. destruct c; [by apply H1|by apply H2]. Qed.

Lemma wpc_force {A} (o : option A) (P : A → S → Prop) s :
  (∀ a, o = Some a → P a s) → wpc (R:=R) (force o) P s.
Proof. destruct o; intros H; [by apply H|done]. Qed.

End wpc.

Create HintDb keeps discriminated.
#[export] Hint Resolve keeps_ret keeps_return keeps_panic keeps_get keeps_force
  keeps_call_fn : keeps.

(** Decomposes an invariant goal along the program text; leaves the steps that
    change the state to the hints of [keeps]. *)
Ltac keeps_step :=
  lazymatch goal with
  | |- keeps _ (mbind _ _) => apply keeps_bind; [|intros ?]
  | |- keeps _ (call_fn _) => apply keeps_call_fn
  | |- keeps _ (when _ _) => apply keeps_when
  | |- keeps _ (for_each _ _) => apply keeps_for_each; intros ? ?
  | |- keeps _ (let '_ := ?x in _) => destruct x
  | |- keeps _ (match ?x with _ => _ end) => destruct x eqn:?
  | |- keeps _ (if ?x then _ else _) => destruct x eqn:?
  | |- keeps _ _ => solve [auto 2 with keeps]
  end.

Ltac keeps := repeat (cbv zeta; keeps_step).

(** Symbolic execution of a [wp] goal, one construct at a time. *)
Ltac wp_step :=
  lazymatch goal with
  | |- wp (mbind _ _) _ _ => apply wp_bind
  | |- wp (mret _) _ _ => apply wp_ret
  | |- wp (return_ _) _ _ => apply wp_return
  | |- wp panic _ _ => apply wp_panic
  | |- wp get _ _ => apply wp_get
  | |- wp (modify _) _ _ => apply wp_modify
  | |- wp (call_fn _) _ _ => apply wp_call_fn
  | |- wp (when _ _) _ _ => apply wp_when; intros ?
  | |- wp (let '_ := ?x in _) _ _ => destruct x
  | |- wp (match ?x with _ => _ end) _ _ => destruct x eqn:?
  | |- wp (if ?x then _ else _) _ _ => destruct x eqn:?
  end.
