(* ===== verification/Pods.v ===== *)
(** * Workloads

    [internal/neutronapi]: the volumes and mounts ([volumes.go]), the API
    Deployment with its de-duplication of mounts and its placement
    ([deployment.go]), the neutron-rpc and neutron-worker Deployments
    ([workers.go]), the db-sync Job ([dbsync.go]) and the image-probe Job
    ([imageprobe.go]).  A builder that dereferences a pointer returns [option]:
    [None] is the panic on a nil pointer. *)

From S2P Require Import Prelude K8s Conditions Lib Api.

Definition DbSyncCommand : string :=
  "neutron-db-manage --config-dir /etc/neutron/neutron.conf.d upgrade heads".
Definition NeutronAPICommand : string :=
  "neutron-server --config-file /usr/share/neutron/neutron-dist.conf " +:+
  "--config-file /etc/neutron/neutron.conf --config-dir /etc/neutron/neutron.conf.d".
Definition NeutronHttpdCommand : string := "httpd -DFOREGROUND".
Definition NeutronRPCCommand : string :=
  "neutron-rpc-server --config-dir /etc/neutron/neutron.conf.d".
Definition NeutronPeriodicWorkersCommand : string :=
  "neutron-periodic-workers --config-dir /etc/neutron/neutron.conf.d".
Definition NeutronOVNMaintenanceCommand : string :=
  "neutron-ovn-maintenance-worker --config-dir /etc/neutron/neutron.conf.d".
Definition NeutronServerBinaryPath : string := "/usr/bin/neutron-server".
Definition ImageProbeCommand : string := "test ! -f " +:+ NeutronServerBinaryPath.

(** [configMode], octal 0440 *)
Definition configMode : Z := 288.

Section pods.
Context `{L : Lib}.

(** ** Volumes *)

Definition config_volume (volume secret : string) : Volume.t :=
  Volume.mk volume (VSSecret (Some configMode) secret).

Definition convert_volume (v : ExtraVolume.t) : option Volume.t :=
  volumeSource ← ToCoreVolumeSource v;
  Some (Volume.mk (ExtraVolume.Name v) volumeSource).

(** The volumes the triple loop of [GetVolumes] appends. *)
Definition extra_volumes (extraVol : list NeutronExtraVolMounts.t)
    (svc : list PropagationType) : option (list Volume.t) :=
  mapM convert_volume
    (exv ← extraVol; vol ← Propagate exv svc; VolMounts.Volumes vol).

(** [GetVolumes(name, extraVol, svc)] *)
Definition GetVolumes (name : string) (extraVol : list NeutronExtraVolMounts.t)
    (svc : list PropagationType) : option (list Volume.t) :=
  let res := [config_volume "config" (name +:+ "-config");
              config_volume "httpd-config" (name +:+ "-httpd-config")] in
  extra ← extra_volumes extraVol svc;
  Some (res ++ extra).

(** The mounts of the config secret. *)
Definition config_mounts (policyOverwrite : bool) : list VolumeMount.t :=
  let res :=
    [VolumeMount.mk "config" "/etc/neutron/neutron.conf.d/01-neutron.conf" "01-neutron.conf" true;
     VolumeMount.mk "config" "/etc/neutron/neutron.conf.d/02-neutron-custom.conf"
       "02-neutron-custom.conf" true;
     VolumeMount.mk "config" "/etc/my.cnf" "my.cnf" true] in
  if policyOverwrite
  then res ++ [VolumeMount.mk "config" "/etc/neutron/policy.yaml" "policy.yaml" true]
  else res.

(** [GetVolumeMounts(extraVol, svc, policyOverwrite)] *)
Definition GetVolumeMounts (extraVol : list NeutronExtraVolMounts.t)
    (svc : list PropagationType) (policyOverwrite : bool) : list VolumeMount.t :=
  config_mounts policyOverwrite ++
  (exv ← extraVol; vol ← Propagate exv svc; VolMounts.Mounts vol).

(** [GetHttpdVolumeMount()] *)
Definition GetHttpdVolumeMount : list VolumeMount.t :=
  [VolumeMount.mk "httpd-config" "/etc/httpd/conf/httpd.conf" "httpd.conf" true;
   VolumeMount.mk "httpd-config" "/etc/httpd/conf.d/10-neutron.conf" "10-neutron-httpd.conf" true;
   VolumeMount.mk "httpd-config" "/etc/httpd/conf.d/ssl.conf" "ssl.conf" true;
   WritableDirVolumeMount RunHttpdVolumeName RunHttpdMountPath].

(** ** Placement and de-duplication *)

(** The loop of [dedupeVolumeMountsByPath] with its set of seen paths. *)
Fixpoint dedupe_loop (seen : gset string) (mounts : list VolumeMount.t) : list VolumeMount.t :=
  match mounts with
  | [] => []
  | m :: mounts =>
      if bool_decide (VolumeMount.MountPath m ∈ seen) then dedupe_loop seen mounts
      else m :: dedupe_loop ({[VolumeMount.MountPath m]} ∪ seen) mounts
  end.

(** [dedupeVolumeMountsByPath(mounts)] *)
Definition dedupeVolumeMountsByPath (mounts : list VolumeMount.t) : list VolumeMount.t :=
  dedupe_loop ∅ mounts.

Definition with_template (f : PodTemplateSpec.t → PodTemplateSpec.t) (d : Deployment.t)
  : Deployment.t :=
  Deployment.mk (Deployment.Name d) (Deployment.Namespace d) (Deployment.MatchLabels d)
    (Deployment.Replicas d) (f (Deployment.Template d)) (Deployment.Generation d)
    (Deployment.ObservedGeneration d) (Deployment.ReadyReplicas d).

Definition with_podspec (f : PodSpec.t → PodSpec.t) (t : PodTemplateSpec.t)
  : PodTemplateSpec.t :=
  PodTemplateSpec.mk (PodTemplateSpec.Annotations t) (PodTemplateSpec.Labels t)
    (f (PodTemplateSpec.Spec t)).

Definition set_NodeSelector (n : gmap string string) (p : PodSpec.t) : PodSpec.t :=
  PodSpec.mk (PodSpec.RestartPolicy p) (PodSpec.SecurityContext p)
    (PodSpec.ServiceAccountName p) (PodSpec.AutomountServiceAccountToken p)
    (PodSpec.Containers p) (PodSpec.Volumes p) (Some n) (PodSpec.Affinity p).

Definition set_Affinity (a : Affinity) (p : PodSpec.t) : PodSpec.t :=
  PodSpec.mk (PodSpec.RestartPolicy p) (PodSpec.SecurityContext p)
    (PodSpec.ServiceAccountName p) (PodSpec.AutomountServiceAccountToken p)
    (PodSpec.Containers p) (PodSpec.Volumes p) (PodSpec.NodeSelector p) (Some a).

(** [applyPlacement(instance, deployment, topology)], on the deployment it
    mutates. *)
Definition applyPlacement (i : NeutronAPI.t) (deployment : Deployment.t)
    (topology : option Topology.t) : Deployment.t :=
  let deployment :=
    match SpecCore.NodeSelector (NeutronAPI.core i) with
    | Some n => with_template (with_podspec (set_NodeSelector n)) deployment
    | None => deployment
    end in
  match topology with
  | Some t => with_template (Topology_ApplyTo t) deployment
  | None =>
      with_template (with_podspec (set_Affinity
        (DistributePods AppSelector [Deployment.Name deployment] LabelHostname))) deployment
  end.

(** ** Containers *)

Definition policyOverwrite (i : NeutronAPI.t) : bool :=
  match SpecCore.DefaultConfigOverwrite (NeutronAPI.core i) !! "policy.yaml" with
  | Some text => bool_decide (text ≠ "")
  | None => false
  end.

(** A container of the service image, run by [/bin/bash -c command]. *)
Definition neutron_container (i : NeutronAPI.t) (name command : string)
    (env : gmap string Setter) (mounts : list VolumeMount.t)
    (readiness liveness : option Probe.t) : Container.t :=
  Container.mk name ["/bin/bash"] ["-c"; command]
    (Spec.ContainerImage (NeutronAPI.Spec i))
    (RestrictiveSecurityContext NeutronUID NeutronGID)
    (MergeEnvs [] env) mounts
    (SpecCore.Resources (NeutronAPI.core i)) liveness readiness
    TerminationMessageFallbackToLogsOnError.

(** The Deployment literal the three builders share. *)
Definition neutron_deployment (i : NeutronAPI.t) (name : string)
    (labels annotations : gomap string) (replicas : option Z)
    (containers : list Container.t) (volumes : list Volume.t) : Deployment.t :=
  Deployment.mk name (NeutronAPI.Namespace i) labels replicas
    (PodTemplateSpec.mk annotations labels
       (PodSpec.mk RestartPolicyDefault
          (RestrictivePodSecurityContext NeutronUID NeutronGID)
          (RbacResourceName i) (Some false) containers volumes None None))
    0 0 0.

(** The OVN database client certificate, when OVN and its TLS are enabled;
    [None] is the dereference of a nil secret name. *)
Definition ovn_service (i : NeutronAPI.t) : option (option TlsService.t) :=
  let ovn := NeutronApiTLS.Ovn (SpecCore.TLS (NeutronAPI.core i)) in
  if IsOVNEnabled i && GenericService_Enabled ovn then
    secret ← GenericService.SecretName ovn;
    Some (Some (TlsService.mk secret (Some "/etc/pki/tls/certs/ovndb.crt")
                  (Some "/etc/pki/tls/private/ovndb.key")
                  (Some "/etc/pki/tls/certs/ovndbca.crt")))
  else Some None.

Definition ovn_volumes (svc : option TlsService.t) : list Volume.t :=
  match svc with Some s => [TlsService_CreateVolume s "ovndb"] | None => [] end.
Definition ovn_mounts (svc : option TlsService.t) : list VolumeMount.t :=
  match svc with Some s => TlsService_CreateVolumeMounts s "ovndb" | None => [] end.

(** The CA bundle, when the spec names one. *)
Definition has_ca (i : NeutronAPI.t) : bool :=
  bool_decide (Ca.CaBundleSecretName (NeutronApiTLS.CA (SpecCore.TLS (NeutronAPI.core i))) ≠ "").
Definition ca_volumes (i : NeutronAPI.t) : list Volume.t :=
  if has_ca i then [Ca_CreateVolume (NeutronApiTLS.CA (SpecCore.TLS (NeutronAPI.core i)))] else [].
Definition ca_mounts (i : NeutronAPI.t) : list VolumeMount.t :=
  if has_ca i then Ca_CreateVolumeMounts (NeutronApiTLS.CA (SpecCore.TLS (NeutronAPI.core i))) else [].

(** The memcached client certificate, when memcached uses mTLS. *)
Definition has_mtls (mc : Memcached.t) : bool := bool_decide (Memcached.MTLSCert mc ≠ "").
Definition mtls_volumes (mc : Memcached.t) : list Volume.t :=
  if has_mtls mc then [CreateMTLSVolume mc] else [].
Definition mtls_mounts (mc : Memcached.t) : list VolumeMount.t :=
  if has_mtls mc then CreateMTLSVolumeMounts mc (Some CertPathDst) (Some KeyPathDst) else [].

(** The [for] loop of [Deployment] over the endpoints: volumes and httpd mounts
    of the enabled ones, or the error of [ToService]. *)
Fixpoint endpoint_certs (api : APIService.t) (endpts : list Endpoint)
  : error + (list Volume.t * list VolumeMount.t) :=
  match endpts with
  | [] => inr ([], [])
  | endpt :: endpts =>
      if APIService_Enabled api endpt then
        let tlsEndptCfg :=
          if bool_decide (endpt = EndpointPublic) then APIService.Public api
          else if bool_decide (endpt = EndpointInternal) then APIService.Internal api
          else GenericService.mk None in
        match GenericService_ToService tlsEndptCfg with
        | inl err => inl err
        | inr svc =>
            let svc := TlsService.mk (TlsService.SecretName svc)
                         (Some ("/etc/pki/tls/certs/" +:+ endpt +:+ ".crt"))
                         (Some ("/etc/pki/tls/private/" +:+ endpt +:+ ".key"))
                         (TlsService.CaMount svc) in
            match endpoint_certs api endpts with
            | inl err => inl err
            | inr (volumes, mounts) =>
                inr (TlsService_CreateVolume svc endpt :: volumes,
                     TlsService_CreateVolumeMounts svc endpt ++ mounts)
            end
        end
      else endpoint_certs api endpts
  end.

(** Liveness and readiness probe of the API Deployment. *)
Definition api_probe (i : NeutronAPI.t) : Probe.t :=
  Probe.mk 30 30 5 "/" NeutronPublicPort
    (if APIService_Enabled (NeutronApiTLS.API (SpecCore.TLS (NeutronAPI.core i))) EndpointPublic
     then Some URISchemeHTTPS else None).

Definition config_hash_env (configHash : string) : gmap string Setter :=
  {[ "CONFIG_HASH" := SetValue configHash ]}.

(** The variables that tell the WSGI, RPC and worker processes where their
    configuration is. *)
Definition config_files_env (env : gmap string Setter) : gmap string Setter :=
  <["OS_NEUTRON_CONFIG_FILES" := SetValue "01-neutron.conf"]>
    (<["OS_NEUTRON_CONFIG_DIR" := SetValue "/etc/neutron/neutron.conf.d"]> env).

(** The mounts of the API process and of httpd. *)
Definition api_mounts (i : NeutronAPI.t) (mc : Memcached.t) (ovn : option TlsService.t)
  : list VolumeMount.t :=
  GetVolumeMounts (SpecCore.ExtraMounts (NeutronAPI.core i)) NeutronAPIPropagation
    (policyOverwrite i) ++ ca_mounts i ++ mtls_mounts mc ++ ovn_mounts ovn.

Definition httpd_mounts (i : NeutronAPI.t) (certs : list VolumeMount.t) : list VolumeMount.t :=
  GetHttpdVolumeMount ++ ca_mounts i ++ certs.

(** ** The API Deployment *)

(** [Deployment(instance, configHash, labels, annotations, topology, memcached,
    wsgi)] *)
Definition Deployment_ (i : NeutronAPI.t) (configHash : string)
    (labels annotations : gomap string) (topology : option Topology.t)
    (memcached : Memcached.t) (wsgi : bool) : option (error + Deployment.t) :=
  let core := NeutronAPI.core i in
  let livenessProbe := Some (api_probe i) in
  let readinessProbe := Some (api_probe i) in
  base ← GetVolumes (NeutronAPI.Name i) (SpecCore.ExtraMounts core) NeutronAPIPropagation;
  match endpoint_certs (NeutronApiTLS.API (SpecCore.TLS core)) [EndpointInternal; EndpointPublic] with
  | inl err => Some (inl err)
  | inr (certVolumes, certMounts) =>
      ovn ← ovn_service i;
      let volumes := base ++ [WritableDirVolume RunHttpdVolumeName] ++ ca_volumes i ++
                     mtls_volumes memcached ++ certVolumes ++ ovn_volumes ovn in
      let apiVolumeMounts := api_mounts i memcached ovn in
      let httpdVolumeMounts := httpd_mounts i certMounts in
      let httpdContainerVolumeMounts :=
        if wsgi then dedupeVolumeMountsByPath (httpdVolumeMounts ++ apiVolumeMounts)
        else httpdVolumeMounts in
      let envVars := if wsgi then config_files_env (config_hash_env configHash)
                     else config_hash_env configHash in
      let containers :=
        (if wsgi then []
         else [neutron_container i (ServiceName +:+ "-api") NeutronAPICommand envVars
                 apiVolumeMounts None livenessProbe]) ++
        [neutron_container i (ServiceName +:+ "-httpd") NeutronHttpdCommand envVars
           httpdContainerVolumeMounts readinessProbe livenessProbe] in
      Some (inr (applyPlacement i
        (neutron_deployment i ServiceName labels annotations (SpecCore.Replicas core)
           containers volumes) topology))
  end.

(** ** The neutron-rpc and neutron-worker Deployments *)

(** [workerVolumesAndMounts(instance, memcached)] *)
Definition workerVolumesAndMounts (i : NeutronAPI.t) (memcached : Memcached.t)
  : option (list Volume.t * list VolumeMount.t) :=
  base ← GetVolumes (NeutronAPI.Name i) (SpecCore.ExtraMounts (NeutronAPI.core i))
           NeutronAPIPropagation;
  ovn ← ovn_service i;
  Some (base ++ ca_volumes i ++ mtls_volumes memcached ++ ovn_volumes ovn,
        GetVolumeMounts (SpecCore.ExtraMounts (NeutronAPI.core i)) NeutronAPIPropagation
          (policyOverwrite i) ++ ca_mounts i ++ mtls_mounts memcached ++ ovn_mounts ovn).

Definition rpc_name : string := ServiceName +:+ "-" +:+ RPCDeploymentSuffix.
Definition worker_name : string := ServiceName +:+ "-" +:+ WorkerDeploymentSuffix.

(** [RPCDeployment(...)] *)
Definition RPCDeployment (i : NeutronAPI.t) (configHash : string)
    (labels annotations : gomap string) (topology : option Topology.t)
    (memcached : Memcached.t) : option Deployment.t :=
  '(volumes, volumeMounts) ← workerVolumesAndMounts i memcached;
  let envVars := config_files_env (config_hash_env configHash) in
  Some (applyPlacement i
    (neutron_deployment i rpc_name labels annotations (Some 1%Z)
       [neutron_container i rpc_name NeutronRPCCommand envVars volumeMounts None None]
       volumes) topology).

(** [WorkerDeployment(...)] *)
Definition WorkerDeployment (i : NeutronAPI.t) (configHash : string)
    (labels annotations : gomap string) (topology : option Topology.t)
    (memcached : Memcached.t) : option Deployment.t :=
  '(volumes, volumeMounts) ← workerVolumesAndMounts i memcached;
  let envVars := config_files_env (config_hash_env configHash) in
  let containers :=
    [neutron_container i (ServiceName +:+ "-periodic-workers") NeutronPeriodicWorkersCommand
       envVars volumeMounts None None] ++
    (if IsOVNEnabled i
     then [neutron_container i (ServiceName +:+ "-ovn-maintenance-worker")
             NeutronOVNMaintenanceCommand envVars volumeMounts None None]
     else []) in
  Some (applyPlacement i
    (neutron_deployment i worker_name labels annotations (Some 1%Z) containers volumes) topology).

(** ** Jobs *)

(** A Job of one container of the service image without resources. *)
Definition job_container (i : NeutronAPI.t) (name command : string) (env : list EnvVar.t)
    (mounts : list VolumeMount.t) : Container.t :=
  Container.mk name ["/bin/bash"] ["-c"; command]
    (Spec.ContainerImage (NeutronAPI.Spec i))
    (RestrictiveSecurityContext NeutronUID NeutronGID) env mounts
    (ResourceRequirements.mk ∅ ∅) None None TerminationMessageDefault.

Definition job_template (i : NeutronAPI.t) (restart : RestartPolicy) (c : Container.t)
    (volumes : list Volume.t) : PodTemplateSpec.t :=
  PodTemplateSpec.mk None None
    (PodSpec.mk restart (RestrictivePodSecurityContext NeutronUID NeutronGID)
       (RbacResourceName i) (Some false) [c] volumes
       (SpecCore.NodeSelector (NeutronAPI.core i)) None).

(** [DbSyncJob(cr, labels, annotations)] *)
Definition DbSyncJob (cr : NeutronAPI.t) (labels annotations : gomap string) : option Job.t :=
  let dbSyncExtraMounts := SpecCore.ExtraMounts (NeutronAPI.core cr) in
  base ← GetVolumes (NeutronAPI.Name cr) dbSyncExtraMounts DbsyncPropagation;
  let volumes := base ++ ca_volumes cr in
  let volumeMounts := GetVolumeMounts dbSyncExtraMounts DbsyncPropagation false ++ ca_mounts cr in
  let name := NeutronAPI.Name cr +:+ "-db-sync" in
  Some (Job.mk name (NeutronAPI.Namespace cr) annotations labels None
    (job_template cr RestartPolicyOnFailure
       (job_container cr name DbSyncCommand (MergeEnvs [] ∅) volumeMounts) volumes) 0 0).

(** [ImageProbeJobName(cr)] *)
Definition ImageProbeJobName (cr : NeutronAPI.t) : string :=
  NeutronAPI.Name cr +:+ "-image-probe".

(** [ImageProbeJob(cr, labels, annotations)] *)
Definition ImageProbeJob (cr : NeutronAPI.t) (labels annotations : gomap string) : Job.t :=
  let name := ImageProbeJobName cr in
  Job.mk name (NeutronAPI.Namespace cr) annotations labels (Some 0%Z)
    (job_template cr RestartPolicyNever (job_container cr name ImageProbeCommand [] []) []) 0 0.

End pods.

(** ** De-duplication *)

Abbreviation paths l := (VolumeMount.MountPath <$> l).

Lemma dedupe_loop_elem seen l p :
  p ∈ paths (dedupe_loop seen l) ↔ p ∈ paths l ∧ p ∉ seen.
Proof.
  revert seen. induction l as [|m l IH]; intros seen; simpl; [set_solver|].
  case_bool_decide; simpl; rewrite ?elem_of_cons, IH; [set_solver|].
  destruct (decide (p = VolumeMount.MountPath m)); set_solver.
Qed.

Lemma dedupe_loop_NoDup seen l : NoDup (paths (dedupe_loop seen l)).
Proof.
  revert seen. induction l as [|m l IH]; intros seen; simpl; [constructor|].
  case_bool_decide; [apply IH|]. simpl. constructor; [|apply IH].
  rewrite dedupe_loop_elem. set_solver.
Qed.

Lemma dedupe_loop_sublist seen l : dedupe_loop seen l `sublist_of` l.
Proof.
  revert seen. induction l as [|m l IH]; intros seen; simpl; [done|].
  case_bool_decide; [by apply sublist_cons | by apply sublist_skip].
Qed.

Lemma dedupe_loop_first seen l m :
  m ∈ dedupe_loop seen l →
  ∃ l1 l2, l = l1 ++ m :: l2 ∧ VolumeMount.MountPath m ∉ paths l1.
Proof.
  revert seen. induction l as [|x l IH]; intros seen Hm; simpl in *; [by apply not_elem_of_nil in Hm|].
  case_bool_decide as Hx.
  - pose proof (proj1 (dedupe_loop_elem seen l (VolumeMount.MountPath m))
      (list_elem_of_fmap_2 _ _ _ Hm)) as [_ Hs].
    destruct (IH _ Hm) as (l1 & l2 & -> & H1). exists (x :: l1), l2. split; [done|].
    simpl. apply not_elem_of_cons. split; [congruence | done].
  - apply elem_of_cons in Hm as [->|Hm]; [by exists [], l; split; [|apply not_elem_of_nil]|].
    pose proof (proj1 (dedupe_loop_elem _ l (VolumeMount.MountPath m))
      (list_elem_of_fmap_2 _ _ _ Hm)) as [_ Hs].
    destruct (IH _ Hm) as (l1 & l2 & -> & H1). exists (x :: l1), l2. split; [done|].
    simpl. apply not_elem_of_cons. split; [set_solver | done].
Qed.

Lemma dedupe_loop_id seen l :
  NoDup (paths l) → (∀ p, p ∈ paths l → p ∉ seen) → dedupe_loop seen l = l.
Proof.
  revert seen. induction l as [|m l IH]; intros seen Hl Hs; simpl in *; [done|].
  apply NoDup_cons in Hl as [Hm Hl]. rewrite bool_decide_eq_false_2 by set_solver.
  f_equal. apply IH; set_solver.
Qed.

(** ** Volumes and mounts *)

(** A pod in which every mount of every container names a volume of the pod,
    as the API server requires. *)
Definition mounts_closed (p : PodSpec.t) : Prop :=
  ∀ c m, c ∈ PodSpec.Containers p → m ∈ Container.VolumeMounts c →
         VolumeMount.Name m ∈ Volume.Name <$> PodSpec.Volumes p.

(** Extra mounts whose groups mount only their own volumes. *)
Definition extra_closed (ev : list NeutronExtraVolMounts.t) : Prop :=
  ∀ exv gv m, exv ∈ ev → gv ∈ NeutronExtraVolMounts.VolMounts exv → m ∈ VolMounts.Mounts gv →
              VolumeMount.Name m ∈ ExtraVolume.Name <$> VolMounts.Volumes gv.

Section lemmas.
Context `{L : Lib} `{!LibLaws L}.

Lemma convert_volume_Name v w : convert_volume v = Some w → Volume.Name w = ExtraVolume.Name v.
Proof. unfold convert_volume. destruct (ToCoreVolumeSource v); simpl; intros [= <-]. done. Qed.

Lemma mapM_convert_names vs ws :
  mapM convert_volume vs = Some ws → Volume.Name <$> ws = ExtraVolume.Name <$> vs.
Proof.
  intros H. apply mapM_Some in H. induction H as [|v w vs ws Hv _ IH]; [done|].
  rewrite !fmap_cons. by rewrite IH, (convert_volume_Name v w).
Qed.

Lemma GetVolumes_names name ev svc vs :
  GetVolumes name ev svc = Some vs →
  Volume.Name <$> vs =
  ["config"; "httpd-config"] ++
  (ExtraVolume.Name <$> (exv ← ev; vol ← Propagate exv svc; VolMounts.Volumes vol)).
Proof.
  unfold GetVolumes, extra_volumes. destruct (mapM _ _) as [ws|] eqn:E; simpl; intros [= <-].
  by rewrite !fmap_cons, (mapM_convert_names _ _ E).
Qed.

Lemma config_mounts_Name b m : m ∈ config_mounts b → VolumeMount.Name m = "config".
Proof. revert m. apply Forall_forall. destruct b; by repeat constructor. Qed.

Lemma GetVolumeMounts_closed name ev svc b vs m :
  extra_closed ev → GetVolumes name ev svc = Some vs → m ∈ GetVolumeMounts ev svc b →
  VolumeMount.Name m ∈ Volume.Name <$> vs.
Proof.
  intros Hev Hvs Hm. rewrite (GetVolumes_names _ _ _ _ Hvs).
  unfold GetVolumeMounts in Hm. apply elem_of_app in Hm as [Hm|Hm].
  - apply elem_of_app. left.
    rewrite (config_mounts_Name b m Hm). by left.
  - apply elem_of_app. right. apply list_elem_of_bind in Hm as (exv & Hm & Hexv).
    apply list_elem_of_bind in Hm as (g & Hm & Hg).
    pose proof Hg as Hg'. apply Propagate_elem in Hg as (gv & Hgv & Hp).
    apply VolMounts_Propagate_filter in Hp as ->.
    pose proof (Hev exv gv m Hexv Hgv Hm) as Hn.
    apply list_elem_of_fmap in Hn as (v & -> & Hv). apply list_elem_of_fmap_2.
    apply list_elem_of_bind. exists exv. split; [|done].
    apply list_elem_of_bind. by exists gv.
Qed.

Lemma ca_closed i m : m ∈ ca_mounts i → VolumeMount.Name m ∈ Volume.Name <$> ca_volumes i.
Proof.
  unfold ca_mounts, ca_volumes. case_match; [|by intros ?%not_elem_of_nil].
  intros Hm. rewrite (Ca_mounts _ _ Hm). by left.
Qed.

Lemma mtls_closed mc m : m ∈ mtls_mounts mc → VolumeMount.Name m ∈ Volume.Name <$> mtls_volumes mc.
Proof.
  unfold mtls_mounts, mtls_volumes. case_match; [|by intros ?%not_elem_of_nil].
  intros Hm. rewrite (MTLS_mounts _ _ _ _ Hm). by left.
Qed.

Lemma ovn_closed svc m : m ∈ ovn_mounts svc → VolumeMount.Name m ∈ Volume.Name <$> ovn_volumes svc.
Proof.
  destruct svc; simpl; [|by intros ?%not_elem_of_nil].
  intros Hm. rewrite (TlsService_mounts _ _ _ Hm). by left.
Qed.

Lemma endpoint_certs_closed api es vs ms m :
  endpoint_certs api es = inr (vs, ms) → m ∈ ms → VolumeMount.Name m ∈ Volume.Name <$> vs.
Proof.
  revert vs ms. induction es as [|e es IH]; intros vs ms; simpl.
  - by intros [= <- <-] ?%not_elem_of_nil.
  - destruct (APIService_Enabled api e); [|by apply IH].
    destruct (GenericService_ToService _) as [|s]; [done|].
    destruct (endpoint_certs api es) as [|[vs' ms']]; [done|].
    intros [= <- <-]. rewrite elem_of_app. intros [Hm|Hm].
    + rewrite (TlsService_mounts _ _ _ Hm). by left.
    + right. by eapply IH.
Qed.

(** Placement changes neither containers nor volumes. *)
Lemma applyPlacement_containers i d t :
  PodSpec.Containers (PodTemplateSpec.Spec (Deployment.Template (applyPlacement i d t))) =
  PodSpec.Containers (PodTemplateSpec.Spec (Deployment.Template d)).
Proof.
  unfold applyPlacement. destruct (SpecCore.NodeSelector _), t; simpl;
    rewrite ?ApplyTo_containers; done.
Qed.

Lemma applyPlacement_volumes i d t :
  PodSpec.Volumes (PodTemplateSpec.Spec (Deployment.Template (applyPlacement i d t))) =
  PodSpec.Volumes (PodTemplateSpec.Spec (Deployment.Template d)).
Proof.
  unfold applyPlacement. destruct (SpecCore.NodeSelector _), t; simpl;
    rewrite ?ApplyTo_volumes; done.
Qed.

(** The mounts shared by the API, RPC and worker processes are closed in any
    list of volumes that holds theirs. *)
Lemma api_mounts_closed i mc ovn base (vs : list Volume.t) m :
  extra_closed (SpecCore.ExtraMounts (NeutronAPI.core i)) →
  GetVolumes (NeutronAPI.Name i) (SpecCore.ExtraMounts (NeutronAPI.core i)) NeutronAPIPropagation
    = Some base →
  (∀ v, v ∈ base ++ ca_volumes i ++ mtls_volumes mc ++ ovn_volumes ovn → v ∈ vs) →
  m ∈ api_mounts i mc ovn → VolumeMount.Name m ∈ Volume.Name <$> vs.
Proof.
  intros Hev Hb Hvs Hm.
  assert (VolumeMount.Name m ∈
    Volume.Name <$> (base ++ ca_volumes i ++ mtls_volumes mc ++ ovn_volumes ovn)) as Hn.
  { rewrite !fmap_app, !elem_of_app. unfold api_mounts in Hm. rewrite !elem_of_app in Hm.
    destruct Hm as [Hm|[Hm|[Hm|Hm]]]; [left|right;left|do 2 right;left|do 3 right].
    - by eapply GetVolumeMounts_closed.
    - by apply ca_closed.
    - by apply mtls_closed.
    - by apply ovn_closed. }
  apply list_elem_of_fmap in Hn as (v & -> & Hv). by apply list_elem_of_fmap_2, Hvs.
Qed.
End lemmas.

(** ** What the builders return *)

#[local] Arguments endpoint_certs : simpl never.
#[local] Arguments config_mounts : simpl never.
#[local] Arguments GetVolumeMounts : simpl never.
#[local] Arguments GetHttpdVolumeMount : simpl never.

Section builders.
Context `{L : Lib} `{!LibLaws L}.

Lemma Deployment_inv i h ls an t mc wsgi d :
  Deployment_ i h ls an t mc wsgi = Some (inr d) →
  ∃ base cv cm ovn,
    GetVolumes (NeutronAPI.Name i) (SpecCore.ExtraMounts (NeutronAPI.core i))
      NeutronAPIPropagation = Some base ∧
    endpoint_certs (NeutronApiTLS.API (SpecCore.TLS (NeutronAPI.core i)))
      [EndpointInternal; EndpointPublic] = inr (cv, cm) ∧
    ovn_service i = Some ovn ∧
    let p := PodTemplateSpec.Spec (Deployment.Template d) in
    let env := if wsgi then config_files_env (config_hash_env h) else config_hash_env h in
    PodSpec.Volumes p = base ++ [WritableDirVolume RunHttpdVolumeName] ++ ca_volumes i ++
                        mtls_volumes mc ++ cv ++ ovn_volumes ovn ∧
    PodSpec.Containers p =
      (if wsgi then []
       else [neutron_container i (ServiceName +:+ "-api") NeutronAPICommand env
               (api_mounts i mc ovn) None (Some (api_probe i))]) ++
      [neutron_container i (ServiceName +:+ "-httpd") NeutronHttpdCommand env
         (if wsgi then dedupeVolumeMountsByPath (httpd_mounts i cm ++ api_mounts i mc ovn)
          else httpd_mounts i cm) (Some (api_probe i)) (Some (api_probe i))].
Proof.
  unfold Deployment_. cbv zeta. destruct (GetVolumes _ _ _) as [base|]; [|done]. simpl.
  destruct (endpoint_certs _ _) as [|[cv cm]]; [done|].
  destruct (ovn_service i) as [ovn|]; [|done]. simpl. intros [= <-].
  exists base, cv, cm, ovn. split_and!; try done;
    by rewrite ?applyPlacement_volumes, ?applyPlacement_containers.
Qed.

Lemma worker_inv i mc vs ms :
  workerVolumesAndMounts i mc = Some (vs, ms) →
  ∃ base ovn,
    GetVolumes (NeutronAPI.Name i) (SpecCore.ExtraMounts (NeutronAPI.core i))
      NeutronAPIPropagation = Some base ∧
    vs = base ++ ca_volumes i ++ mtls_volumes mc ++ ovn_volumes ovn ∧
    ms = api_mounts i mc ovn.
Proof.
  unfold workerVolumesAndMounts. destruct (GetVolumes _ _ _) as [base|]; [|done].
  destruct (ovn_service i) as [ovn|]; simpl; intros [= <- <-]. by exists base, ovn.
Qed.

Lemma RPCDeployment_inv i h ls an t mc d :
  RPCDeployment i h ls an t mc = Some d →
  ∃ vs ms, workerVolumesAndMounts i mc = Some (vs, ms) ∧
    let p := PodTemplateSpec.Spec (Deployment.Template d) in
    PodSpec.Volumes p = vs ∧
    PodSpec.Containers p =
      [neutron_container i rpc_name NeutronRPCCommand (config_files_env (config_hash_env h))
         ms None None].
Proof.
  unfold RPCDeployment. destruct (workerVolumesAndMounts i mc) as [[vs ms]|]; simpl; intros [= <-].
  exists vs, ms. split; [done|]. cbv zeta.
  by rewrite applyPlacement_volumes, applyPlacement_containers.
Qed.

Lemma WorkerDeployment_inv i h ls an t mc d :
  WorkerDeployment i h ls an t mc = Some d →
  ∃ vs ms, workerVolumesAndMounts i mc = Some (vs, ms) ∧
    let p := PodTemplateSpec.Spec (Deployment.Template d) in
    PodSpec.Volumes p = vs ∧
    PodSpec.Containers p =
      [neutron_container i (ServiceName +:+ "-periodic-workers") NeutronPeriodicWorkersCommand
         (config_files_env (config_hash_env h)) ms None None] ++
      (if IsOVNEnabled i
       then [neutron_container i (ServiceName +:+ "-ovn-maintenance-worker")
               NeutronOVNMaintenanceCommand (config_files_env (config_hash_env h)) ms None None]
       else []).
Proof.
  unfold WorkerDeployment.
  destruct (workerVolumesAndMounts i mc) as [[vs ms]|]; simpl; intros [= <-].
  exists vs, ms. split; [done|]. cbv zeta.
  by rewrite applyPlacement_volumes, applyPlacement_containers.
Qed.

Lemma Deployment_closed i h ls an t mc wsgi d :
  extra_closed (SpecCore.ExtraMounts (NeutronAPI.core i)) →
  Deployment_ i h ls an t mc wsgi = Some (inr d) →
  mounts_closed (PodTemplateSpec.Spec (Deployment.Template d)).
Proof.
  intros Hev Hd. apply Deployment_inv in Hd as (base & cv & cm & ovn & Hb & Hc & Ho & Hv & Hcs).
  assert (∀ m, m ∈ api_mounts i mc ovn →
    VolumeMount.Name m ∈ Volume.Name <$> PodSpec.Volumes (PodTemplateSpec.Spec (Deployment.Template d)))
    as Hapi.
  { intros m. apply (api_mounts_closed i mc ovn base); [done..|]. rewrite Hv. set_solver. }
  assert (∀ m, m ∈ httpd_mounts i cm →
    VolumeMount.Name m ∈ Volume.Name <$> PodSpec.Volumes (PodTemplateSpec.Spec (Deployment.Template d)))
    as Hhttpd.
  { intros m. rewrite Hv, !fmap_app, (GetVolumes_names _ _ _ _ Hb). unfold httpd_mounts.
    rewrite !elem_of_app. intros [Hm|[Hm|Hm]].
    - unfold GetHttpdVolumeMount in Hm. rewrite !elem_of_cons in Hm.
      destruct Hm as [-> |[-> |[-> |[-> |Hm]]]]; [set_solver..| |by apply not_elem_of_nil in Hm].
      right; left. simpl. rewrite WritableDirVolumeMount_Name, WritableDirVolume_Name. by left.
    - do 2 right; left. by apply ca_closed.
    - do 4 right; left. by eapply endpoint_certs_closed. }
  intros c m Hc' Hm. rewrite Hcs in Hc'. apply elem_of_app in Hc' as [Hc'|Hc'].
  - destruct wsgi; [by apply not_elem_of_nil in Hc'|].
    apply list_elem_of_singleton in Hc' as ->. by apply Hapi.
  - apply list_elem_of_singleton in Hc' as ->.
    cbn [neutron_container Container.VolumeMounts] in Hm. destruct wsgi; [|by apply Hhttpd].
    apply (sublist_subseteq _ _ (dedupe_loop_sublist ∅ _)), elem_of_app in Hm as [Hm|Hm]; auto.
Qed.

Lemma worker_closed i mc vs ms m :
  extra_closed (SpecCore.ExtraMounts (NeutronAPI.core i)) →
  workerVolumesAndMounts i mc = Some (vs, ms) → m ∈ ms →
  VolumeMount.Name m ∈ Volume.Name <$> vs.
Proof.
  intros Hev Hw Hm. apply worker_inv in Hw as (base & ovn & Hb & -> & ->).
  by apply (api_mounts_closed i mc ovn base).
Qed.

Lemma RPCDeployment_closed i h ls an t mc d :
  extra_closed (SpecCore.ExtraMounts (NeutronAPI.core i)) →
  RPCDeployment i h ls an t mc = Some d →
  mounts_closed (PodTemplateSpec.Spec (Deployment.Template d)).
Proof.
  intros Hev (vs & ms & Hw & Hv & Hc)%RPCDeployment_inv c m Hin Hm.
  rewrite Hc in Hin. apply list_elem_of_singleton in Hin as ->. rewrite Hv.
  by eapply worker_closed.
Qed.

Lemma WorkerDeployment_closed i h ls an t mc d :
  extra_closed (SpecCore.ExtraMounts (NeutronAPI.core i)) →
  WorkerDeployment i h ls an t mc = Some d →
  mounts_closed (PodTemplateSpec.Spec (Deployment.Template d)).
Proof.
  intros Hev (vs & ms & Hw & Hv & Hc)%WorkerDeployment_inv c m Hin Hm. rewrite Hv.
  rewrite Hc in Hin. eapply worker_closed; [done..|].
  apply elem_of_app in Hin as [Hin|Hin]; [by apply list_elem_of_singleton in Hin as ->|].
  destruct (IsOVNEnabled i); [by apply list_elem_of_singleton in Hin as -> | by apply not_elem_of_nil in Hin].
Qed.

Lemma DbSyncJob_closed i ls an j :
  extra_closed (SpecCore.ExtraMounts (NeutronAPI.core i)) →
  DbSyncJob i ls an = Some j → mounts_closed (PodTemplateSpec.Spec (Job.Template j)).
Proof.
  unfold DbSyncJob. cbv zeta. destruct (GetVolumes _ _ _) as [base|] eqn:Hb; cbn [mbind option_bind]; [|done].
  intros Hev Hj c m Hc Hm. apply (inj Some) in Hj as <-.
  cbn [Job.Template job_template PodTemplateSpec.Spec PodSpec.Containers PodSpec.Volumes] in *.
  apply list_elem_of_singleton in Hc as ->.
  cbn [job_container Container.VolumeMounts] in Hm. rewrite fmap_app. apply elem_of_app. apply elem_of_app in Hm as [Hm|Hm].
  - left. by eapply GetVolumeMounts_closed.
  - right. by apply ca_closed.
Qed.

(** ** Environment *)

Lemma config_hash_in h : EnvVar.mk "CONFIG_HASH" h ∈ MergeEnvs [] (config_hash_env h).
Proof.
  apply MergeEnvs_elem. exists "CONFIG_HASH", (SetValue h). split; [by vm_compute|].
  by rewrite SetValue_spec.
Qed.

Lemma config_files_hash_in h :
  EnvVar.mk "CONFIG_HASH" h ∈ MergeEnvs [] (config_files_env (config_hash_env h)).
Proof.
  apply MergeEnvs_elem. exists "CONFIG_HASH", (SetValue h). split; [by vm_compute|].
  by rewrite SetValue_spec.
Qed.

Lemma config_files_value h v :
  EnvVar.mk "OS_NEUTRON_CONFIG_FILES" v ∈ MergeEnvs [] (config_files_env (config_hash_env h)) ↔
  v = "01-neutron.conf".
Proof.
  rewrite MergeEnvs_elem. split.
  - intros (k & f & Hk & He). unfold config_files_env, config_hash_env in Hk.
    rewrite !lookup_insert, lookup_singleton in Hk.
    repeat case_decide; simplify_eq; rewrite SetValue_spec in He; simpl in He; congruence.
  - intros ->. exists "OS_NEUTRON_CONFIG_FILES", (SetValue "01-neutron.conf").
    split; [by vm_compute|]. by rewrite SetValue_spec.
Qed.

(** ** Panics *)

Lemma GetVolumes_Some name ev svc :
  is_Some (GetVolumes name ev svc) ↔
  ∀ exv vol v, exv ∈ ev → vol ∈ Propagate exv svc → v ∈ VolMounts.Volumes vol →
               is_Some (ToCoreVolumeSource v).
Proof.
  unfold GetVolumes, extra_volumes.
  transitivity (is_Some (mapM convert_volume
    (exv ← ev; vol ← Propagate exv svc; VolMounts.Volumes vol))).
  { destruct (mapM _ _); simpl; split; intros [? [=]]; eauto. }
  rewrite mapM_is_Some, Forall_forall. setoid_rewrite list_elem_of_bind.
  setoid_rewrite list_elem_of_bind. unfold convert_volume. split.
  - intros H exv vol v H1 H2 H3. destruct (H v) as [w Hw]; [eauto 10|]. simpl in Hw.
    destruct (ToCoreVolumeSource v); [eauto | done].
  - intros H v (exv & (vol & Hv & Hvol) & Hexv).
    destruct (H exv vol v Hexv Hvol Hv) as [src Hs]. simpl. rewrite Hs. simpl. eauto.
Qed.

Lemma ovn_service_Some i : is_Some (ovn_service i).
Proof.
  unfold ovn_service. destruct (IsOVNEnabled i); simpl; [|eauto].
  destruct (GenericService_Enabled _) eqn:E; [|eauto].
  apply Enabled_SecretName in E as [n ->]. simpl. eauto.
Qed.
End builders.

(** ** Properties *)

(** De-duplicating mounts keeps exactly the first mount of every path, in
    order: the paths of the result are distinct, they are the paths of the
    input, every kept mount is the first with its path, and a list without
    duplicates (so also the result itself) is left as it is. *)
Theorem dedupeVolumeMountsByPath_spec (l : list VolumeMount.t) :
  let l' := dedupeVolumeMountsByPath l in
  NoDup (paths l') ∧
  (∀ p, p ∈ paths l' ↔ p ∈ paths l) ∧
  l' `sublist_of` l ∧
  (∀ m, m ∈ l' → ∃ l1 l2, l = l1 ++ m :: l2 ∧ VolumeMount.MountPath m ∉ paths l1) ∧
  (NoDup (paths l) → l' = l) ∧
  dedupeVolumeMountsByPath l' = l'.
Proof.
  unfold dedupeVolumeMountsByPath. split_and!.
  - apply dedupe_loop_NoDup.
  - intros p. rewrite dedupe_loop_elem. set_solver.
  - apply dedupe_loop_sublist.
  - intros m. apply dedupe_loop_first.
  - intros H. apply dedupe_loop_id; [done | set_solver].
  - apply dedupe_loop_id; [apply dedupe_loop_NoDup | set_solver].
Qed.

(** C25: the containers of the API Deployment.  Under the WSGI strategy there is
    the httpd container alone, its mount paths are distinct and cover every
    path the API process and httpd need; under the Eventlet strategy there are
    the API container with the API mounts and the httpd container with its
    own. *)
Theorem Deployment_containers `{L : Lib} `{!LibLaws L} i h ls an t mc wsgi d :
  Deployment_ i h ls an t mc wsgi = Some (inr d) →
  ∃ cv cm ovn,
    endpoint_certs (NeutronApiTLS.API (SpecCore.TLS (NeutronAPI.core i)))
      [EndpointInternal; EndpointPublic] = inr (cv, cm) ∧
    ovn_service i = Some ovn ∧
    let cs := PodSpec.Containers (PodTemplateSpec.Spec (Deployment.Template d)) in
    if wsgi then
      ∃ httpd, cs = [httpd] ∧ Container.Name httpd = "neutron-httpd" ∧
        NoDup (paths (Container.VolumeMounts httpd)) ∧
        ∀ p, p ∈ paths (Container.VolumeMounts httpd) ↔
             p ∈ paths (httpd_mounts i cm) ∨ p ∈ paths (api_mounts i mc ovn)
    else
      ∃ api httpd, cs = [api; httpd] ∧
        Container.Name api = "neutron-api" ∧ Container.Name httpd = "neutron-httpd" ∧
        Container.VolumeMounts api = api_mounts i mc ovn ∧
        Container.VolumeMounts httpd = httpd_mounts i cm.
Proof.
  intros (base & cv & cm & ovn & _ & Hcert & Hovn & _ & Hc)%Deployment_inv.
  exists cv, cm, ovn. split; [done|]. split; [done|]. cbv zeta in *. rewrite Hc. destruct wsgi.
  - eexists. split_and!; [done | done | apply dedupe_loop_NoDup |].
    intros p. cbn [neutron_container Container.VolumeMounts].
    unfold dedupeVolumeMountsByPath. rewrite dedupe_loop_elem, fmap_app. set_solver.
  - do 2 eexists. by split_and!.
Qed.

(** C23: every pod the operator builds (API, RPC and worker Deployments, db-sync
    Job) only mounts volumes it declares, when each group of extra mounts
    mounts its own volumes. *)
Theorem workloads_mounts_closed `{L : Lib} `{!LibLaws L} i h ls an t mc :
  extra_closed (SpecCore.ExtraMounts (NeutronAPI.core i)) →
  (∀ wsgi d, Deployment_ i h ls an t mc wsgi = Some (inr d) →
             mounts_closed (PodTemplateSpec.Spec (Deployment.Template d))) ∧
  (∀ d, RPCDeployment i h ls an t mc = Some d →
        mounts_closed (PodTemplateSpec.Spec (Deployment.Template d))) ∧
  (∀ d, WorkerDeployment i h ls an t mc = Some d →
        mounts_closed (PodTemplateSpec.Spec (Deployment.Template d))) ∧
  (∀ j, DbSyncJob i ls an = Some j → mounts_closed (PodTemplateSpec.Spec (Job.Template j))).
Proof.
  intros Hev. split_and!; intros.
  - by eapply Deployment_closed.
  - by eapply RPCDeployment_closed.
  - by eapply WorkerDeployment_closed.
  - by eapply DbSyncJob_closed.
Qed.

(** The Deployments by name. *)
Lemma deployment_names `{L : Lib} i h ls an t mc wsgi d :
  (Deployment_ i h ls an t mc wsgi = Some (inr d) → Deployment.Name d = ServiceName) ∧
  (RPCDeployment i h ls an t mc = Some d → Deployment.Name d = rpc_name) ∧
  (WorkerDeployment i h ls an t mc = Some d → Deployment.Name d = worker_name).
Proof.
  assert (∀ d, Deployment.Name (applyPlacement i d t) = Deployment.Name d) as Hp.
  { intros d'. unfold applyPlacement. by destruct (SpecCore.NodeSelector _), t. }
  split_and!.
  - unfold Deployment_. cbv zeta. destruct (GetVolumes _ _ _); [|done]. simpl.
    destruct (endpoint_certs _ _) as [|[? ?]]; [done|].
    destruct (ovn_service i); [|done]. simpl. intros [= <-]. by rewrite Hp.
  - unfold RPCDeployment. destruct (workerVolumesAndMounts i mc) as [[? ?]|]; simpl; [|done].
    intros [= <-]. by rewrite Hp.
  - unfold WorkerDeployment. destruct (workerVolumesAndMounts i mc) as [[? ?]|]; simpl; [|done].
    intros [= <-]. by rewrite Hp.
Qed.

Lemma deployments_env `{L : Lib} `{!LibLaws L} i h ls an t mc d (wsgi : bool) :
  (Deployment_ i h ls an t mc wsgi = Some (inr d) ∨
   RPCDeployment i h ls an t mc = Some d ∨ WorkerDeployment i h ls an t mc = Some d) →
  ∀ c, c ∈ PodSpec.Containers (PodTemplateSpec.Spec (Deployment.Template d)) →
    EnvVar.mk "CONFIG_HASH" h ∈ Container.Env c ∧
    (wsgi = true →
     ∀ v, EnvVar.mk "OS_NEUTRON_CONFIG_FILES" v ∈ Container.Env c ↔ v = "01-neutron.conf").
Proof.
  assert (∀ c, Container.Env c = MergeEnvs [] (config_files_env (config_hash_env h)) →
    EnvVar.mk "CONFIG_HASH" h ∈ Container.Env c ∧
    (wsgi = true →
     ∀ v, EnvVar.mk "OS_NEUTRON_CONFIG_FILES" v ∈ Container.Env c ↔ v = "01-neutron.conf"))
    as Hfiles.
  { intros c ->. split; [apply config_files_hash_in | intros _ v; apply config_files_value]. }
  intros [H|[H|H]] c Hc.
  - apply Deployment_inv in H as (? & ? & ? & ? & _ & _ & _ & _ & Hcs). rewrite Hcs in Hc.
    destruct wsgi.
    + apply list_elem_of_singleton in Hc as ->. by apply Hfiles.
    + split; [|done]. apply elem_of_cons in Hc as [->|Hc%list_elem_of_singleton]; [|subst c];
        apply config_hash_in.
  - apply RPCDeployment_inv in H as (? & ? & _ & _ & Hcs). rewrite Hcs in Hc.
    apply list_elem_of_singleton in Hc as ->. by apply Hfiles.
  - apply WorkerDeployment_inv in H as (? & ? & _ & _ & Hcs). rewrite Hcs in Hc.
    apply elem_of_cons in Hc as [->|Hc]; [by apply Hfiles|].
    destruct (IsOVNEnabled i); [apply list_elem_of_singleton in Hc as ->; by apply Hfiles|].
    by apply not_elem_of_nil in Hc.
Qed.

(** C26: a change of the configuration hash reaches every pod: each container of
    the three Deployments carries it in CONFIG_HASH.  The containers that run
    WSGI, RPC or worker processes name 01-neutron.conf, and no other file, in
    OS_NEUTRON_CONFIG_FILES. *)
Theorem deployments_config_env `{L : Lib} `{!LibLaws L} i h ls an t mc d (wsgi : bool) :
  (Deployment_ i h ls an t mc wsgi = Some (inr d) ∨
   RPCDeployment i h ls an t mc = Some d ∨ WorkerDeployment i h ls an t mc = Some d) →
  ∀ c, c ∈ PodSpec.Containers (PodTemplateSpec.Spec (Deployment.Template d)) →
    EnvVar.mk "CONFIG_HASH" h ∈ Container.Env c ∧
    (wsgi = true →
     ∀ v, EnvVar.mk "OS_NEUTRON_CONFIG_FILES" v ∈ Container.Env c ↔ v = "01-neutron.conf").
Proof. apply deployments_env. Qed.

(** Every extra volume that is propagated to [svc] converts. *)
Definition extra_converts `{L : Lib} (i : NeutronAPI.t) (svc : list PropagationType) : Prop :=
  ∀ exv vol v,
    exv ∈ SpecCore.ExtraMounts (NeutronAPI.core i) → vol ∈ Propagate exv svc →
    v ∈ VolMounts.Volumes vol → is_Some (ToCoreVolumeSource v).

Lemma extra_converts_volumes `{L : Lib} name i svc :
  extra_converts i svc → is_Some (GetVolumes name (SpecCore.ExtraMounts (NeutronAPI.core i)) svc).
Proof. apply GetVolumes_Some. Qed.

(** C27: the builders dereference two pointers.  The OVN secret name is never
    nil where it is used; the volume source of an extra volume is nil when its
    conversion fails, whose error is dropped: the API, RPC and worker builders
    panic exactly when an extra volume that is propagated to the API does not
    convert, the db-sync builder exactly when one that is propagated to db-sync
    does not. *)
Theorem deployments_panic_iff `{L : Lib} `{!LibLaws L} i h ls an t mc (wsgi : bool) :
  (is_Some (Deployment_ i h ls an t mc wsgi) ↔ extra_converts i NeutronAPIPropagation) ∧
  (is_Some (RPCDeployment i h ls an t mc) ↔ extra_converts i NeutronAPIPropagation) ∧
  (is_Some (WorkerDeployment i h ls an t mc) ↔ extra_converts i NeutronAPIPropagation) ∧
  (is_Some (DbSyncJob i ls an) ↔ extra_converts i DbsyncPropagation).
Proof.
  unfold extra_converts. rewrite <- !(GetVolumes_Some (NeutronAPI.Name i)).
  unfold Deployment_, RPCDeployment, WorkerDeployment, workerVolumesAndMounts, DbSyncJob. cbv zeta.
  destruct (ovn_service_Some i) as [ovn ->]. split_and!.
  4: { destruct (GetVolumes _ _ DbsyncPropagation); split; intros [? [=]]; by eexists. }
  all: destruct (GetVolumes _ _ NeutronAPIPropagation) as [base|]; cbn [mbind option_bind];
    [|split; intros [? [=]]]; repeat case_match; split; intros _; by eexists.
Qed.
