(* ===== verification/External.v ===== *)
(** * Calls to the API server and the controller's state

    Every call the controller makes outside the process, directly through its
    client or through a library helper, is a constructor of [Call] indexed by
    the type of its answer.  What answers it is a parameter, [handler], with a
    state of its own: the controller's theorems hold for every behaviour of the
    cluster, or name what they assume of it.

    The state of a reconcile is the NeutronAPI instance it holds (the Go code
    passes one pointer around), the input hashes [secretVars], the state of the
    cluster, and the trace of the calls made so far with their answers, latest
    first. *)

From S2P Require Import Prelude K8s Conditions Lib Api GoMonad.

(** [controllerutil.OperationResult] *)
Inductive OperationResult :=
| OperationResultNone | OperationResultCreated | OperationResultUpdated.

(** A lib-common [job.Job] run: requeue result, error, whether the hash changed
    and the hash. *)
Module JobRun.
Record t := mk { result : Result; err : option error; HasChanged : bool; Hash : string }.
End JobRun.

(** The kinds of objects that are updated or deleted by name. *)
Inductive DeletedKind := KindSecret | KindDeployment | KindTransportURL.

(** A selector of a List call. *)
Inductive Selector :=
| InNamespace (ns : string)
| FieldEquals (field value ns : string).

Inductive Call : Type → Type :=
(* the NeutronAPI itself *)
| GetNeutronAPI (nn : NamespacedName.t) : Call (error + NeutronAPI.t)
| NewHelper (name : string) : Call (option error)
| PatchInstance (i : NeutronAPI.t) : Call (option error)
| ListNeutronAPI (sel : Selector) : Call (error + list NeutronAPI.t)
(* generic client calls *)
| DeleteObject (kind : DeletedKind) (nn : NamespacedName.t) : Call (option error)
| GetSecret (name ns : string) : Call (error + Secret.t)
| VerifySecretFields (nn : NamespacedName.t) (fields : gmap string Validator) (timeout : Z)
  : Call (string * Result * option error)
| EnsureSecrets (templates : list Template.t) (env : gmap string Setter)
  : Call (gmap string Setter * option error)
| ReconcileRbac (name ns : string) (rules : list PolicyRule.t)
  : Call (list Condition.t * Result * option error)
(* consumer finalizers of credential secrets *)
| ManageSecretConsumerFinalizer (ns secret finalizer : string) : Call (option error)
| RemoveSecretConsumerFinalizer (ns secret finalizer : string) : Call (option error)
| PruneSecretConsumerFinalizers (ns finalizer : string) (keep : list string)
  : Call (option error)
| FinalizeSecretRotation (ns old current finalizer : string) (ready : bool)
  : Call (error + string)
(* TransportURL *)
| CreateOrUpdateTransportURL (nn : NamespacedName.t) (spec : RabbitMqConfig.t) (owner : string)
  : Call (TransportURL.t * OperationResult * option error)
| GetTransportURLObject (nn : NamespacedName.t) : Call (error + TransportURL.t)
(* memcached, keystone, ovn, topology, network attachments *)
| GetMemcachedByName (name ns : string) : Call (error + Memcached.t)
| GetKeystoneAPI (ns : string) : Call (error + KeystoneAPI.t)
| GetDBClusterByType (ns : string) (type : OVNDBType) : Call (error + OVNDBCluster.t)
| KeystoneService_CreateOrPatch (spec : KeystoneServiceSpec.t) (ns : string)
    (labels : gmap string string) (timeout : Z)
  : Call (list Condition.t * Result * option error)
| KeystoneEndpoint_CreateOrPatch (name ns : string) (spec : KeystoneEndpointSpec.t)
    (labels : gmap string string) (timeout : Z)
  : Call (list Condition.t * Result * option error)
| GetKeystoneEndpointWithName (name ns : string) : Call (error + KeystoneObject.t)
| GetKeystoneServiceWithName (name ns : string) : Call (error + KeystoneObject.t)
| UpdateKeystoneEndpoint (o : KeystoneObject.t) : Call (option error)
| UpdateKeystoneService (o : KeystoneObject.t) : Call (option error)
| EnsureServiceTopology (ref last : option TopoRef.t) (name : string) (selector : gmap string string)
  : Call (error + option Topology.t)
| EnsureDeletedTopologyRef (ref : option TopoRef.t) (name : string)
  : Call (Result * option error)
| GetNADWithName (name ns : string) : Call (error + option NetworkAttachmentDefinition.t)
| VerifyNetworkStatusFromAnnotation (attachments : list string) (labels : gmap string string)
    (readyCount : Z) : Call (error + (bool * gomap (list string)))
(* TLS inputs *)
| ValidateCACertSecret (nn : NamespacedName.t) : Call (error + string)
| ValidateCertSecrets (api : APIService.t) (ns : string) : Call (error + string)
| ValidateCertSecret (svc : GenericService.t) (ns : string) : Call (error + string)
(* database *)
| GetDatabaseByNameAndAccount (name account ns : string) : Call (error + Database.t)
| Database_DeleteFinalizer (db : Database.t) : Call (option error)
| EnsureMariaDBAccount (account ns : string) (requireTLS : bool) (prefix : string)
  : Call (option error)
| Database_CreateOrPatchAll (db : Database.t) : Call (Database.t * Result * option error)
| WaitForDBCreatedWithTimeout (db : Database.t) (timeout : Z)
  : Call (Database.t * Result * option error)
| DeleteUnusedMariaDBAccountFinalizers (name account ns : string) : Call (option error)
(* workloads *)
| DoJob (job : Job.t) (type : string) (preserve : bool) (timeout : Z) (hash : string)
  : Call JobRun.t
| GetJob (nn : NamespacedName.t) : Call (error + Job.t)
| DeleteJob (name ns : string) : Call (option error)
| Service_CreateOrPatch (svc : KService.t) : Call (KService.t * Result * option error)
| Deployment_CreateOrPatch (d : Deployment.t) (timeout : Z)
  : Call (Deployment.t * Result * option error)
| IsReadyForInput (nn : NamespacedName.t) (inputHash : string) : Call (error + bool).

(** An answer to every call from a cluster where nothing exists and nothing can
    be reached; concrete handlers override it call by call. *)
Definition unavailable : error := APIError (ReasonOther "ServiceUnavailable") "unavailable".
Definition not_found : error := APIError ReasonNotFound "not found".

Definition no_answer (R : Type) (c : Call R) : R :=
  match c in Call R return R with
  | GetNeutronAPI _ => inl unavailable
  | NewHelper _ => Some unavailable
  | PatchInstance _ => Some unavailable
  | ListNeutronAPI _ => inl unavailable
  | DeleteObject _ _ => Some unavailable
  | GetSecret _ _ => inl unavailable
  | VerifySecretFields _ _ _ => ("", Result0, Some unavailable)
  | EnsureSecrets _ env => (env, Some unavailable)
  | ReconcileRbac _ _ _ => ([], Result0, Some unavailable)
  | ManageSecretConsumerFinalizer _ _ _ => Some unavailable
  | RemoveSecretConsumerFinalizer _ _ _ => Some unavailable
  | PruneSecretConsumerFinalizers _ _ _ => Some unavailable
  | FinalizeSecretRotation _ _ _ _ _ => inl unavailable
  | CreateOrUpdateTransportURL nn spec _ =>
      (TransportURL.mk (NamespacedName.Name nn) (NamespacedName.Namespace nn)
         (RabbitMqConfig.Cluster spec) (RabbitMqConfig.User spec) (RabbitMqConfig.Vhost spec) "" "",
       OperationResultNone, Some unavailable)
  | GetTransportURLObject _ => inl unavailable
  | GetMemcachedByName _ _ => inl unavailable
  | GetKeystoneAPI _ => inl unavailable
  | GetDBClusterByType _ _ => inl unavailable
  | KeystoneService_CreateOrPatch _ _ _ _ => ([], Result0, Some unavailable)
  | KeystoneEndpoint_CreateOrPatch _ _ _ _ _ => ([], Result0, Some unavailable)
  | GetKeystoneEndpointWithName _ _ => inl unavailable
  | GetKeystoneServiceWithName _ _ => inl unavailable
  | UpdateKeystoneEndpoint _ => Some unavailable
  | UpdateKeystoneService _ => Some unavailable
  | EnsureServiceTopology _ _ _ _ => inl unavailable
  | EnsureDeletedTopologyRef _ _ => (Result0, Some unavailable)
  | GetNADWithName _ _ => inl unavailable
  | VerifyNetworkStatusFromAnnotation _ _ _ => inl unavailable
  | ValidateCACertSecret _ => inl unavailable
  | ValidateCertSecrets _ _ => inl unavailable
  | ValidateCertSecret _ _ => inl unavailable
  | GetDatabaseByNameAndAccount _ _ _ => inl unavailable
  | Database_DeleteFinalizer _ => Some unavailable
  | EnsureMariaDBAccount _ _ _ _ => Some unavailable
  | Database_CreateOrPatchAll db => (db, Result0, Some unavailable)
  | WaitForDBCreatedWithTimeout db _ => (db, Result0, Some unavailable)
  | DeleteUnusedMariaDBAccountFinalizers _ _ _ => Some unavailable
  | DoJob _ _ _ _ _ => JobRun.mk Result0 (Some unavailable) false ""
  | GetJob _ => inl unavailable
  | DeleteJob _ _ => Some unavailable
  | Service_CreateOrPatch svc => (svc, Result0, Some unavailable)
  | Deployment_CreateOrPatch d _ => (d, Result0, Some unavailable)
  | IsReadyForInput _ _ => inl unavailable
  end.

(** A call and its answer. *)
Inductive event :=
| Ev (R : Type) (c : Call R) (r : R).
Arguments Ev {R} c r.

(** The NeutronAPI that a call read. *)
Definition instance_read (ev : event) : option NeutronAPI.t :=
  match ev with
  | Ev c r =>
      match c in Call R return R → option NeutronAPI.t with
      | GetNeutronAPI _ => λ r, match r with inl _ => None | inr i => Some i end
      | _ => λ _, None
      end r
  end.

Module St.
Record t (W : Type) := mk {
  inst : NeutronAPI.t;
  vars : gmap string Setter;
  world : W;
  trace : list event }.
Arguments mk {_} _ _ _ _.
Arguments inst {_} _.
Arguments vars {_} _.
Arguments world {_} _.
Arguments trace {_} _.

Definition set_inst {W} (i : NeutronAPI.t) (s : t W) : t W :=
  mk i (vars s) (world s) (trace s).
Definition set_vars {W} (v : gmap string Setter) (s : t W) : t W :=
  mk (inst s) v (world s) (trace s).
End St.

Section calls.
Context `{L : Lib} {W : Type} (handler : ∀ R, Call R → W → R * W).

(** Performs a call and records it. *)
Definition call {R A : Type} (c : Call A) : M (St.t W) R A := λ s,
  let '(a, w) := handler A c (St.world s) in
  (Cont a, St.mk (St.inst s) (St.vars s) w (Ev c a :: St.trace s)).

(** Reads and writes of the instance. *)
Definition instance {R} : M (St.t W) R NeutronAPI.t := λ s, (Cont (St.inst s), s).

Definition update_inst {R} (f : NeutronAPI.t → NeutronAPI.t) : M (St.t W) R unit :=
  modify (λ s, St.set_inst (f (St.inst s)) s).

Definition update_status {R} (f : Status.t → Status.t) : M (St.t W) R unit :=
  update_inst (λ i, NeutronAPI.set_Status (f (NeutronAPI.Status i)) i).

(** [instance.Status.Conditions.Set(c)] *)
Definition set_cond {R} (c : Condition.t) : M (St.t W) R unit :=
  update_inst (λ i, set_conds (Set_ (conds i) c) i).

(** [instance.Status.Conditions.MarkTrue(t, msg)] *)
Definition mark_true {R} (t : CondType) (msg : string) : M (St.t W) R unit :=
  update_inst (λ i, set_conds (MarkTrue (conds i) t msg) i).

(** [instance.Status.Conditions.Remove(t)] *)
Definition remove_cond {R} (t : CondType) : M (St.t W) R unit :=
  update_inst (λ i, set_conds (Remove (conds i) t) i).

(** [Conditions.Set(condition.FalseCondition(t, ErrorReason, SeverityWarning,
    msg, args...))] and its counterpart for progress reports. *)
Definition set_error {R} (t : CondType) (msg : string) (args : list string)
  : M (St.t W) R unit :=
  set_cond (FalseCondition t ErrorReason SeverityWarning msg args).

Definition set_running {R} (t : CondType) (msg : string) (args : list string)
  : M (St.t W) R unit :=
  set_cond (FalseCondition t RequestedReason SeverityInfo msg args).

(** [secretVars[k] = setter] *)
Definition put_var {R} (k : string) (f : Setter) : M (St.t W) R unit :=
  modify (λ s, St.set_vars (<[k := f]> (St.vars s)) s).

Definition get_vars {R} : M (St.t W) R (gmap string Setter) := λ s, (Cont (St.vars s), s).

Definition put_vars {R} (v : gmap string Setter) : M (St.t W) R unit :=
  modify (λ s, St.set_vars v s).

(** [instance.Status.Hash[k] = v], which panics on a nil map. *)
Definition write_hash {R} (k v : string) : M (St.t W) R unit :=
  i ← instance;
  h ← force (map_write k v (Status.Hash (NeutronAPI.Status i)));
  update_status (Status.set_Hash h).

(** [secret.EnsureSecrets] records a setter with the hash of every Secret it
    was given in the variables it was passed. *)
Definition EnsureSecrets_records : Prop :=
  ∀ ts env w env' w',
    handler _ (EnsureSecrets ts env) w = ((env', None), w') →
    ∀ t, t ∈ ts → is_Some (env' !! Template.Name t).

(** [common_rbac.ReconcileRbac] reports through the conditions of the service
    account, the role and the role binding. *)
Definition Rbac_conditions : Prop :=
  ∀ name ns rules w cs r e w',
    handler _ (ReconcileRbac name ns rules) w = ((cs, r, e), w') →
    ∀ c, c ∈ cs → Condition.Type_ c ∈ [ServiceAccountReadyCondition; RoleReadyCondition;
                                       RoleBindingReadyCondition].

(** The account and the Secret of a database have been loaded: [GetAccount] and
    [GetSecret] are not nil. *)
Definition db_loaded (db : Database.t) : Prop :=
  is_Some (Database_GetAccount db) ∧ is_Some (Database_GetSecret db).

(** [CreateOrPatchAll] loads them when it succeeds, and waiting for the database
    keeps them. *)
Class DatabaseHelper : Prop := {
  database_created db w db' w' :
    handler _ (Database_CreateOrPatchAll db) w = ((db', Result0, None), w') → db_loaded db';
  database_waited db timeout w db' w' :
    db_loaded db →
    handler _ (WaitForDBCreatedWithTimeout db timeout) w = ((db', Result0, None), w') →
    db_loaded db';
}.

(** What the controller's theorems rely on of the helpers that call the API
    server for it. *)
Class Cluster : Prop := {
  cluster_secrets : EnsureSecrets_records;
  cluster_rbac : Rbac_conditions;
}.

(** [FinalizeSecretRotation] moves on only when it is told that the workload is
    ready: until then it answers the old Secret, if there is one. *)
Class SecretRotation : Prop := {
  rotation_waits ns old cur f w r w' :
    old ≠ "" → handler _ (FinalizeSecretRotation ns old cur f false) w = (inr r, w') → r = old;
}.

(** ** Rules *)

Lemma wp_call {R A} (c : Call A) (Q : outcome R A → St.t W → Prop) s :
  (∀ a w, handler A c (St.world s) = (a, w) →
          Q (Cont a) (St.mk (St.inst s) (St.vars s) w (Ev c a :: St.trace s))) →
  wp (call c) Q s.
Proof.
  intros H. unfold wp, call. destruct (handler A c (St.world s)) as [a w] eqn:E. by apply H.
Qed.

Lemma wpc_call {R A} (c : Call A) (P : A → St.t W → Prop) s :
  (∀ a w, handler A c (St.world s) = (a, w) →
          P a (St.mk (St.inst s) (St.vars s) w (Ev c a :: St.trace s))) →
  wpc (R:=R) (call c) P s.
Proof. intros H. by apply wp_call. Qed.

Lemma wp_instance {R} (Q : outcome R NeutronAPI.t → St.t W → Prop) s :
  Q (Cont (St.inst s)) s → wp instance Q s.
Proof. done. Qed.

Lemma wp_update_inst {R} f (Q : outcome R unit → St.t W → Prop) s :
  Q (Cont ()) (St.set_inst (f (St.inst s)) s) → wp (update_inst f) Q s.
Proof. done. Qed.

Lemma wp_put_vars {R} v (Q : outcome R unit → St.t W → Prop) s :
  Q (Cont ()) (St.set_vars v s) → wp (put_vars v) Q s.
Proof. done. Qed.

Lemma wp_update_status {R} f (Q : outcome R unit → St.t W → Prop) s :
  Q (Cont ()) (St.set_inst (NeutronAPI.set_Status (f (NeutronAPI.Status (St.inst s)))
                 (St.inst s)) s) → wp (update_status f) Q s.
Proof. done. Qed.

(** The hashes of the status in a state. *)
Definition hashes (s : St.t W) : gomap string := Status.Hash (NeutronAPI.Status (St.inst s)).

Definition with_hashes (h : gomap string) (s : St.t W) : St.t W :=
  St.set_inst (NeutronAPI.set_Status (Status.set_Hash h (NeutronAPI.Status (St.inst s)))
                 (St.inst s)) s.

Lemma wp_write_hash {R} k v (Q : outcome R unit → St.t W → Prop) s :
  is_Some (hashes s) →
  (∀ h, map_write k v (hashes s) = Some h → Q (Cont ()) (with_hashes h s)) →
  wp (write_hash k v) Q s.
Proof.
  intros Hs HQ. unfold write_hash. apply wp_bind, wp_instance. apply wp_bind.
  destruct (proj2 (map_write_is_Some k v (hashes s)) Hs) as [h Hh].
  fold (hashes s). rewrite Hh. simpl. apply wp_ret, wp_update_status. by apply HQ.
Qed.

Lemma wp_get_vars {R} (Q : outcome R _ → St.t W → Prop) s :
  Q (Cont (St.vars s)) s → wp get_vars Q s.
Proof. done. Qed.

(** An invariant of the instance and the trace that calls keep. *)
Lemma keeps_call {R A} (I : St.t W → Prop) (c : Call A) :
  (∀ s a w, I s → I (St.mk (St.inst s) (St.vars s) w (Ev c a :: St.trace s))) →
  keeps (R:=R) I (call c).
Proof. intros H s Hs. unfold call. destruct (handler A c (St.world s)). by apply H. Qed.

Lemma keeps_instance {R} (I : St.t W → Prop) : keeps (R:=R) I instance.
Proof. intros s H. exact H. Qed.

Lemma keeps_get_vars {R} (I : St.t W → Prop) : keeps (R:=R) I get_vars.
Proof. intros s H. exact H. Qed.

Lemma keeps_update_inst {R} (I : St.t W → Prop) f :
  (∀ s, I s → I (St.set_inst (f (St.inst s)) s)) → keeps (R:=R) I (update_inst f).
Proof. intros H. by apply keeps_modify. Qed.

End calls.

#[export] Hint Resolve keeps_instance keeps_get_vars : keeps.
