(* ===== verification/ImageProbe.v ===== *)
(** * The deployment strategy actually used

    [IsWSGIEffective] of [internal/neutronapi/imageprobe.go]: the wsgi
    annotation, corrected by a Job that looks for [neutron-server] in the
    container image.  [Probe] closes the loop: a step relation in which the
    function runs against an API server that holds the probe Job and may fail
    every call, the Job finishes with the verdict of the image it was made for or
    fails for another reason, it is deleted, and the image of the spec changes. *)

From S2P Require Import Prelude K8s Conditions Lib Api GoMonad Pods External.

Definition imageProbeHash : string := "imageprobe".

(** [len(containers) > 0 && containers[0].Image != image] *)
Definition stale_probe (j : Job.t) (image : string) : bool :=
  match PodSpec.Containers (PodTemplateSpec.Spec (Job.Template j)) with
  | c :: _ => bool_decide (Container.Image c ≠ image)
  | [] => false
  end.

Section probe.
Context `{L : Lib} {W : Type} (handler : ∀ R, Call R → W → R * W).

(** [IsWSGIEffective(ctx, h, instance, labels, annotations)] *)
Definition IsWSGIEffective (labels annotations : gomap string) : M (St.t W) bool bool :=
  i ← instance;
  when (negb (IsWSGI i)) (return_ false);;
  let probeJobDef := ImageProbeJob i labels annotations in
  existing ← call handler
    (GetJob (NamespacedName.mk (Job.Name probeJobDef) (NeutronAPI.Namespace i)));
  match existing with
  | inr existingProbeJob =>
      if stale_probe existingProbeJob (Spec.ContainerImage (NeutronAPI.Spec i)) then
        call handler (DeleteJob (Job.Name existingProbeJob) (Job.Namespace existingProbeJob));;
        return_ true
      else if (0 <? Job.Succeeded existingProbeJob)%Z then return_ true
      else if (0 <? Job.Failed existingProbeJob)%Z then return_ false
      else return_ true
  | inl err =>
      if negb (IsNotFound err) then return_ true
      else
        call handler (DoJob probeJobDef imageProbeHash true (seconds 5) "");;
        mret true
  end.

(** ** Functional behaviour *)

(** The verdict on the Job the API server answered with. *)
Definition probe_verdict (i : NeutronAPI.t) (answer : error + Job.t) : bool :=
  match answer with
  | inr j =>
      stale_probe j (Spec.ContainerImage (NeutronAPI.Spec i))
      || (0 <? Job.Succeeded j)%Z || negb (0 <? Job.Failed j)%Z
  | inl _ => true
  end.

(** The calls made after the Job was looked up. *)
Definition probe_actions (i : NeutronAPI.t) (labels annotations : gomap string)
    (answer : error + Job.t) (evs : list event) : Prop :=
  match answer with
  | inr j =>
      if stale_probe j (Spec.ContainerImage (NeutronAPI.Spec i))
      then ∃ r, evs = [Ev (DeleteJob (Job.Name j) (Job.Namespace j)) r]
      else evs = []
  | inl err =>
      if IsNotFound err
      then ∃ r, evs = [Ev (DoJob (ImageProbeJob i labels annotations) imageProbeHash true
                             (seconds 5) "") r]
      else evs = []
  end.

Lemma wp_IsWSGIEffective labels annotations (P : bool → St.t W → Prop) s :
  (IsWSGI (St.inst s) = false → P false s) →
  (IsWSGI (St.inst s) = true →
   ∀ answer w evs,
     let get := GetJob (NamespacedName.mk (ImageProbeJobName (St.inst s))
                          (NeutronAPI.Namespace (St.inst s))) in
     probe_actions (St.inst s) labels annotations answer evs →
     P (probe_verdict (St.inst s) answer)
       (St.mk (St.inst s) (St.vars s) w (evs ++ Ev get answer :: St.trace s))) →
  fn_spec (IsWSGIEffective labels annotations) P s.
Proof.
  intros Hno Hyes. unfold fn_spec, IsWSGIEffective. apply wp_bind, wp_instance. simpl.
  apply wp_bind, wp_when; intros Hw.
  { apply wp_return, Hno. by apply negb_true_iff in Hw. }
  apply negb_false_iff in Hw. specialize (Hyes Hw). cbv zeta.
  apply wp_bind, wp_call. intros answer w Hans. cbn [St.inst St.vars St.trace Job.Name ImageProbeJob].
  specialize (Hyes answer). destruct answer as [err|j]; simpl in Hyes.
  - destruct (IsNotFound err) eqn:He; simpl.
    + apply wp_bind, wp_call. intros r w' _. apply wp_ret.
      apply (Hyes w' [Ev _ r]). by exists r.
    + by apply wp_return, (Hyes w []).
  - destruct (stale_probe j _) eqn:Hst; simpl in Hyes.
    + apply wp_bind, wp_call. intros r w' _. apply wp_return.
      apply (Hyes w' [Ev _ r]). by exists r.
    + destruct (0 <? Job.Succeeded j)%Z; [|destruct (0 <? Job.Failed j)%Z];
        by apply wp_return, (Hyes w []).
Qed.

(** C19: [IsWSGIEffective] returns without panicking whatever the cluster
    answers, and leaves the NeutronAPI alone.  When the annotation asks for
    Eventlet it is false and makes no call.  Otherwise (WSGI is the default) it
    looks the probe Job up once and is false exactly when the Job that came back is for the current image, has not
    succeeded and has failed; it deletes the Job exactly when it is for another
    image, and starts one exactly when there is none. *)
Theorem IsWSGIEffective_spec labels annotations (s : St.t W) :
  ∃ b s', returns (IsWSGIEffective labels annotations) s = Some (b, s') ∧
    St.inst s' = St.inst s ∧
    if IsWSGI (St.inst s) then
      ∃ answer evs,
        St.trace s' = evs ++ Ev (GetJob (NamespacedName.mk (ImageProbeJobName (St.inst s))
                                  (NeutronAPI.Namespace (St.inst s)))) answer :: St.trace s ∧
        b = probe_verdict (St.inst s) answer ∧
        probe_actions (St.inst s) labels annotations answer evs
    else b = false ∧ s' = s.
Proof.
  apply fn_spec_returns, wp_IsWSGIEffective.
  - by intros ->.
  - intros -> answer w evs get Hact. simpl. split; [done|]. by exists answer, evs.
Qed.

End probe.

(** ** The probe against the API server

    The API server holds at most the probe Job.  [has_server image] is what the
    probe looks for: whether the image of that name ships [neutron-server].
    Every call may fail, with or without taking effect ([Weather]); a deleted
    Job stays, terminating, until its deletion has completed; a Job may fail for
    another reason than the file it looks for. *)

Module Probe.

(** The Job in the API server.  [died] is a ghost: the Job failed for another
    reason than that its command found [neutron-server] (its pod was evicted, its
    node lost, the container could not start); the code cannot see it. *)
Module Held.
Record t : Type := mk { job : Job.t; terminating : bool; died : bool }.

Definition terminate (r : t) : t := mk (job r) true (died r).
End Held.

(** How the API server treats the calls of one reconcile: [None] is a call that
    is served, [Some (err, applied)] one that answers [err], having taken effect
    or not. *)
Module Weather.
Record t : Type := mk {
  lookup : option error;
  deletion : option (error * bool);
  creation : option (error * bool)
}.

Definition clear : t := mk None None None.

Definition applied (o : option (error * bool)) : bool :=
  match o with Some (_, a) => a | None => true end.
End Weather.

Definition already_exists : error := APIError (ReasonOther "AlreadyExists") "already exists".

(** Deletion is accepted and completes later; creation under a name that is
    taken is refused. *)
Definition answer (weather : Weather.t) (R : Type) (c : Call R) (w : option Held.t) :
    R * option Held.t :=
  match c in Call R return R * option Held.t with
  | GetJob nn =>
      (match Weather.lookup weather, w with
       | Some err, _ => inl err
       | None, Some r =>
           let j := Held.job r in
           if bool_decide (nn = NamespacedName.mk (Job.Name j) (Job.Namespace j))
           then inr j else inl not_found
       | None, None => inl not_found
       end, w)
  | DeleteJob name ns =>
      match w with
      | Some r =>
          let j := Held.job r in
          if bool_decide (NamespacedName.mk name ns =
                          NamespacedName.mk (Job.Name j) (Job.Namespace j))
          then (fst <$> Weather.deletion weather,
                if Weather.applied (Weather.deletion weather)
                then Some (Held.terminate r) else w)
          else (Some not_found, w)
      | None => (Some not_found, w)
      end
  | DoJob j _ _ _ _ =>
      match w with
      | Some _ => (JobRun.mk Result0 (Some already_exists) false "", w)
      | None => (JobRun.mk Result0 (fst <$> Weather.creation weather) false "",
                 if Weather.applied (Weather.creation weather)
                 then Some (Held.mk j false false) else None)
      end
  | c => (no_answer _ c, w)
  end.

Section machine.
Context `{L : Lib} (has_server : string → bool) (labels annotations : gomap string).

(** The image the Job runs. *)
Definition job_image (j : Job.t) : option string :=
  Container.Image <$> head (PodSpec.Containers (PodTemplateSpec.Spec (Job.Template j))).

Definition set_image (image : string) (i : NeutronAPI.t) : NeutronAPI.t :=
  NeutronAPI.set_Spec (Spec.mk (NeutronAPI.core i) image) i.

Definition set_status (succeeded failed : Z) (j : Job.t) : Job.t :=
  Job.mk (Job.Name j) (Job.Namespace j) (Job.Annotations j) (Job.Labels j)
    (Job.BackoffLimit j) (Job.Template j) succeeded failed.

(** The command ran: [test ! -f neutron-server] succeeds where the file is
    missing. *)
Definition finish (r : Held.t) : Held.t :=
  let j := Held.job r in
  let found := match job_image j with Some image => has_server image | None => false end in
  Held.mk (if found then set_status (Job.Succeeded j) 1 j else set_status 1 (Job.Failed j) j)
    (Held.terminating r) (Held.died r).

(** The Job failed for another reason. *)
Definition perish (r : Held.t) : Held.t :=
  let j := Held.job r in
  Held.mk (set_status (Job.Succeeded j) 1 j) (Held.terminating r) true.

Definition finished (r : Held.t) : Prop :=
  (0 < Job.Succeeded (Held.job r) ∨ 0 < Job.Failed (Held.job r))%Z.

Definition state : Type := NeutronAPI.t * option Held.t.

(** One reconcile's use of [IsWSGIEffective]. *)
Definition decide_strategy (weather : Weather.t) (st : state) :
    option (bool * option Held.t) :=
  '(b, s') ← returns (IsWSGIEffective (answer weather) labels annotations)
               (St.mk (st.1) ∅ (st.2) []);
  Some (b, St.world s').

Inductive step : state → state → Prop :=
| step_reconcile weather i w b w' :
    decide_strategy weather (i, w) = Some (b, w') → step (i, w) (i, w')
| step_finish i r : ¬ finished r → step (i, Some r) (i, Some (finish r))
| step_perish i r : ¬ finished r → step (i, Some r) (i, Some (perish r))
| step_delete i r : step (i, Some r) (i, Some (Held.terminate r))
| step_gone i r : Held.terminating r = true → step (i, Some r) (i, None)
| step_image i w image : step (i, w) (set_image image i, w).

Definition reachable (i : NeutronAPI.t) : state → Prop := rtc step (i, None).

(** The deletion that was accepted, if any, has completed. *)
Definition settle (w : option Held.t) : option Held.t :=
  match w with
  | Some r => if Held.terminating r then None else w
  | None => None
  end.

(** What may become of a Job that is not deleted. *)
Definition ends (r r' : Held.t) : Prop :=
  r' = r ∨ (¬ finished r ∧ (r' = finish r ∨ r' = perish r)).

(** The Job held is the probe of the instance for some image, and its result is
    that image's, unless it died. *)
Definition Inv (st : state) : Prop :=
  ∀ r, st.2 = Some r →
    Job.Name (Held.job r) = ImageProbeJobName (st.1) ∧
    Job.Namespace (Held.job r) = NeutronAPI.Namespace (st.1) ∧
    ∃ image, job_image (Held.job r) = Some image ∧
      ((0 < Job.Succeeded (Held.job r))%Z → has_server image = false) ∧
      ((0 < Job.Failed (Held.job r))%Z → has_server image = true ∨ Held.died r = true).

Lemma stale_image j image image' :
  job_image j = Some image → stale_probe j image' = bool_decide (image ≠ image').
Proof.
  unfold job_image, stale_probe. destruct PodSpec.Containers; simpl; [done|]. by intros [= <-].
Qed.

(** What one use of [IsWSGIEffective] makes of the Job held. *)
Definition verdict (weather : Weather.t) (i : NeutronAPI.t) (w : option Held.t) : bool :=
  match Weather.lookup weather, w with
  | None, Some r => probe_verdict i (inr (Held.job r))
  | _, _ => true
  end.

Definition holds_after (weather : Weather.t) (i : NeutronAPI.t) (w : option Held.t) :
    option Held.t :=
  let created :=
    if Weather.applied (Weather.creation weather)
    then Some (Held.mk (ImageProbeJob i labels annotations) false false) else None in
  match Weather.lookup weather, w with
  | Some err, None => if IsNotFound err then created else None
  | Some _, Some r => Some r
  | None, None => created
  | None, Some r =>
      if stale_probe (Held.job r) (Spec.ContainerImage (NeutronAPI.Spec i))
         && Weather.applied (Weather.deletion weather)
      then Some (Held.terminate r) else Some r
  end.

Lemma decide_strategy_eq weather i w :
  Inv (i, w) → IsWSGI i = true →
  decide_strategy weather (i, w) = Some (verdict weather i w, holds_after weather i w).
Proof.
  intros HI Hw. unfold decide_strategy, IsWSGIEffective, returns, when, call, mbind, M_bind.
  cbn [option_bind St.inst instance fst snd]. rewrite Hw.
  destruct weather as [[err|] del cre]; cbn.
  { destruct (IsNotFound err) eqn:He; cbn; [|by destruct w]. by destruct w. }
  destruct w as [r|]; cbn; [|done].
  destruct (HI r eq_refl) as (Hn & Hns & _). cbn in Hn, Hns. rewrite Hn, Hns.
  rewrite bool_decide_eq_true_2 by done. unfold verdict, holds_after. cbn.
  destruct (stale_probe (Held.job r) _); cbn;
    [rewrite bool_decide_eq_true_2 by done; by destruct del as [[? []]|]|].
  destruct (0 <? Job.Succeeded _)%Z; [done|]. by destruct (0 <? Job.Failed _)%Z.
Qed.

Lemma decide_strategy_off weather i w :
  IsWSGI i = false → decide_strategy weather (i, w) = Some (false, w).
Proof.
  intros Hw. unfold decide_strategy, IsWSGIEffective, returns, when, mbind, M_bind.
  cbn [option_bind St.inst instance fst snd]. by rewrite Hw.
Qed.

(** Every Job held afterwards is the one held before, terminating or not, or the
    probe of the current image. *)
Lemma holds_after_inv weather i w r :
  holds_after weather i w = Some r →
  r = Held.mk (ImageProbeJob i labels annotations) false false ∨
  ∃ r0, w = Some r0 ∧ (r = r0 ∨ r = Held.terminate r0).
Proof. unfold holds_after. intros. repeat case_match; simplify_eq; eauto. Qed.

Lemma Inv_new i r :
  r = Held.mk (ImageProbeJob i labels annotations) false false → Inv (i, Some r).
Proof.
  intros -> ? [= <-]. cbn. split_and!; [done..|].
  eexists. split; [done|]. split; intros; lia.
Qed.

Lemma Inv_end i r r' : Inv (i, Some r) → ends r r' → Inv (i, Some r').
Proof.
  intros HI [->|(Hj & Hr')] ? [= <-]; [by apply HI|].
  destruct (HI r eq_refl) as (Hn & Hns & image & Himg & Hs & Hf).
  apply Decidable.not_or in Hj. destruct Hr' as [->| ->].
  - unfold finish. rewrite Himg. destruct (has_server image) eqn:E; cbn;
      (split_and!; [done..|]; exists image; split; [exact Himg|]; split; intros; auto || lia).
  - cbn. split_and!; [done..|]. exists image. split; [exact Himg|]. split; intros; auto || lia.
Qed.

Lemma Inv_step st st' : Inv st → step st st' → Inv st'.
Proof.
  intros HI Hstep. destruct Hstep as [weather i w b w' Hd|i r Hj|i r Hj|i r|i r Ht|i w image].
  - destruct (IsWSGI i) eqn:Hw.
    + rewrite decide_strategy_eq in Hd by done. injection Hd as _ <-.
      intros r Hr. cbn in Hr. apply holds_after_inv in Hr as [->|(r0 & -> & [->| ->])];
        [by apply (Inv_new i _ eq_refl) | by apply HI | by apply (HI r0)].
    + rewrite decide_strategy_off in Hd by done. by injection Hd as <- <-.
  - apply (Inv_end i r); [exact HI|]. right. auto.
  - apply (Inv_end i r); [exact HI|]. right. auto.
  - intros ? [= <-]. by apply (HI r).
  - by intros ? [=].
  - exact HI.
Qed.

Lemma Inv_reachable i st : reachable i st → Inv st.
Proof.
  intros H. refine (rtc_ind_r (λ st, Inv st) _ _ _ st H); [by intros ? [=]|].
  intros. by eapply Inv_step.
Qed.

(** A Job for the current image is kept in any weather, and decides once it has
    finished. *)
Lemma decide_current weather i r :
  let image := Spec.ContainerImage (NeutronAPI.Spec i) in
  Inv (i, Some r) → IsWSGI i = true → job_image (Held.job r) = Some image →
  ∃ b, decide_strategy weather (i, Some r) = Some (b, Some r) ∧
    (Weather.lookup weather = None → finished r → Held.died r = false →
     b = negb (has_server image)).
Proof.
  intros image HI Hw Himg. exists (verdict weather i (Some r)).
  rewrite decide_strategy_eq by done. unfold verdict, holds_after, probe_verdict.
  erewrite stale_image by done. rewrite bool_decide_eq_false_2 by tauto.
  split; [by destruct Weather.lookup|]. intros -> Hfin Hdied.
  destruct (HI r eq_refl) as (_ & _ & image' & Himg' & Hs & Hf).
  rewrite Himg in Himg'. injection Himg' as <-. cbn.
  destruct (0 <? Job.Succeeded (Held.job r))%Z eqn:Es; [apply Z.ltb_lt in Es; by rewrite Hs|].
  apply Z.ltb_ge in Es. destruct Hfin as [?|Hfin]; [lia|].
  apply Z.ltb_lt in Hfin as Hb. rewrite Hb. destruct (Hf Hfin) as [->|?]; [done|congruence].
Qed.

(** C17: the fallback is sound.  In every state reachable by reconciles (whose
    look-up, deletion and creation may each fail, with or without effect),
    completions of the probe, failures of it for another reason, deletions and
    image changes, for a NeutronAPI that wants WSGI: if [IsWSGIEffective]
    answers Eventlet then the current image ships [neutron-server], unless the
    probe Job failed for another reason than finding it (which the code cannot
    tell apart).  Once the probe of the current image has finished, and not in
    that way, a reconcile whose look-up is served answers WSGI exactly when the
    image does not ship it. *)
Theorem Probe_sound weather i0 i w b w' :
  reachable i0 (i, w) → IsWSGI i = true → decide_strategy weather (i, w) = Some (b, w') →
  let image := Spec.ContainerImage (NeutronAPI.Spec i) in
  (b = false → has_server image = true ∨ ∃ r, w = Some r ∧ Held.died r = true) ∧
  (∀ r, w = Some r → job_image (Held.job r) = Some image → finished r →
     Held.died r = false → Weather.lookup weather = None → b = negb (has_server image)).
Proof.
  intros HI%Inv_reachable Hw Hd image. split.
  - intros ->. rewrite decide_strategy_eq in Hd by done. injection Hd as Hd _.
    unfold verdict, probe_verdict in Hd. destruct Weather.lookup; [done|].
    destruct w as [r|]; [|done].
    destruct (HI r eq_refl) as (_ & _ & image' & Himg & _ & Hf).
    erewrite stale_image in Hd by done. case_bool_decide as E; [done|].
    subst image'.
    apply orb_false_iff in Hd as [_ Hd]. apply negb_false_iff, Z.ltb_lt in Hd.
    destruct (Hf Hd); eauto.
  - intros r -> Himg Hfin Hdied Hl.
    destruct (decide_current weather i r HI Hw Himg) as (b' & Hd' & Hb).
    rewrite Hd' in Hd. injection Hd as <- _. auto.
Qed.

Lemma holds_after_clear i w :
  holds_after Weather.clear i w = Some
    match w with
    | None => Held.mk (ImageProbeJob i labels annotations) false false
    | Some r => if stale_probe (Held.job r) (Spec.ContainerImage (NeutronAPI.Spec i))
                then Held.terminate r else r
    end.
Proof. unfold holds_after. cbn. destruct w as [r|]; [|done]. by destruct stale_probe. Qed.

(** Two clear reconciles with the deletion completed in between. *)
Lemma two_reconciles i w :
  Inv (i, w) →
  ∃ r, holds_after Weather.clear i (settle (holds_after Weather.clear i w)) = Some r ∧
    Inv (i, Some r) ∧ Held.terminating r = false ∧
    job_image (Held.job r) = Some (Spec.ContainerImage (NeutronAPI.Spec i)).
Proof.
  intros HI. rewrite (holds_after_clear i w). set (new := Held.mk _ false false).
  assert (∀ i', stale_probe (Held.job new) i' =
    bool_decide (Spec.ContainerImage (NeutronAPI.Spec i) ≠ i')) as Hnew by done.
  destruct w as [r|]; cbn [settle].
  - destruct (HI r eq_refl) as (_ & _ & image & Himg & _).
    destruct (stale_probe (Held.job r) _) eqn:Hst; cbn -[holds_after stale_probe].
    { exists new. split_and!; [done | by apply Inv_new | done..]. }
    destruct (Held.terminating r) eqn:Ht; rewrite holds_after_clear.
    { exists new. split_and!; [done | by apply Inv_new | done..]. }
    exists r. rewrite Hst. split_and!; [done..|].
    erewrite stale_image in Hst by exact Himg. apply bool_decide_eq_false, dec_stable in Hst.
    by rewrite Himg, Hst.
  - exists new. cbn -[holds_after]. rewrite holds_after_clear, Hnew.
    rewrite bool_decide_eq_false_2 by tauto. split_and!; [done | by apply Inv_new | done..].
Qed.

(** C18: the fallback is reached.  From every reachable state of a NeutronAPI
    that wants WSGI: once a reconcile's calls to the API server are served, the
    deletion it asked for (of a probe that is stale or was being deleted) has
    completed, and the calls of the next reconcile are served too, the API
    server holds a probe Job for the current image that is not being deleted.
    However that Job ends, every further reconcile, whatever becomes of its
    calls, keeps it; and once it has finished, not having failed for another
    reason, every reconcile whose look-up is served answers with the strategy
    the image supports. *)
Theorem Probe_progress i0 i w :
  reachable i0 (i, w) → IsWSGI i = true →
  let image := Spec.ContainerImage (NeutronAPI.Spec i) in
  ∃ b1 w1 b2 r,
    decide_strategy Weather.clear (i, w) = Some (b1, w1) ∧
    decide_strategy Weather.clear (i, settle w1) = Some (b2, Some r) ∧
    job_image (Held.job r) = Some image ∧ Held.terminating r = false ∧
    ∀ r', ends r r' →
      Held.terminating r' = false ∧
      ∀ weather, ∃ b, decide_strategy weather (i, Some r') = Some (b, Some r') ∧
        (Weather.lookup weather = None → finished r' → Held.died r' = false →
         b = negb (has_server image)).
Proof.
  intros HI%Inv_reachable Hw image.
  destruct (two_reconciles i w HI) as (r & Hr & HIr & Ht & Himg).
  assert (Inv (i, settle (holds_after Weather.clear i w))) as HI1.
  { intros r1 Hr1. apply (Inv_step (i, w) (i, holds_after Weather.clear i w) HI).
    - eapply step_reconcile. by apply decide_strategy_eq.
    - cbn in *. revert Hr1. unfold settle. repeat case_match; congruence. }
  do 4 eexists. split_and!; [by apply decide_strategy_eq | | exact Himg | exact Ht |].
  { by rewrite decide_strategy_eq, Hr. }
  intros r' Hends. assert (HIr' := Inv_end i r r' HIr Hends).
  assert (Held.terminating r' = false ∧ job_image (Held.job r') = Some image) as [Ht' Himg'].
  { destruct Hends as [->|(_ & [->| ->])]; [done| |done].
    unfold finish. rewrite Himg. by destruct (has_server _). }
  split; [exact Ht'|]. intros weather. by apply decide_current.
Qed.

(** A probe that failed for another reason is taken for one that found
    [neutron-server]: whatever the image ships, every reconcile whose look-up is
    served answers Eventlet, and none starts the probe again. *)
Lemma dead_probe_kept weather i r :
  Inv (i, Some r) → IsWSGI i = true → ¬ finished r →
  job_image (Held.job r) = Some (Spec.ContainerImage (NeutronAPI.Spec i)) →
  decide_strategy weather (i, Some (perish r)) =
    Some (match Weather.lookup weather with Some _ => true | None => false end,
          Some (perish r)).
Proof.
  intros HI Hw Hfin Himg. rewrite decide_strategy_eq; [|by eapply Inv_end; [|right; eauto]|done].
  unfold verdict, holds_after, probe_verdict. cbn -[stale_probe].
  erewrite !stale_image by exact Himg. rewrite bool_decide_eq_false_2 by tauto.
  apply Decidable.not_or in Hfin as [Hs _]. destruct Weather.lookup; cbn; [done|].
  apply Z.nlt_ge in Hs. rewrite (proj2 (Z.ltb_ge _ _)) by done. done.
Qed.

End machine.
End Probe.
