(* ===== verification/ExternalSecrets.v ===== *)
(** * Secrets for the agents that run outside the cluster

    The part of [neutronapi_controller.go] that keeps one Secret per external
    agent (OVN metadata, OVN, SR-IOV, DHCP): the Secret is written when the
    inputs of its configuration can be read and deleted when they cannot, and
    its hash in the status follows. *)

From S2P Require Import Prelude K8s Conditions Lib Api GoMonad External.

(** ** Names and errors *)

Definition errTransportURLSecretNameNilOrEmpty : error :=
  NewError "transport_url secret name is nil or empty".

(** [getExternalSecretName(instance, serviceName)] *)
Definition getExternalSecretName (i : NeutronAPI.t) (serviceName : string) : string :=
  NeutronAPI.Name i +:+ "-" +:+ serviceName +:+ "-neutron-config".

Definition getMetadataAgentSecretName (i : NeutronAPI.t) : string :=
  getExternalSecretName i "ovn-metadata-agent".
Definition getOVNAgentSecretName (i : NeutronAPI.t) : string :=
  getExternalSecretName i "ovn-agent".
Definition getSriovAgentSecretName (i : NeutronAPI.t) : string :=
  getExternalSecretName i "sriov-agent".
Definition getDhcpAgentSecretName (i : NeutronAPI.t) : string :=
  getExternalSecretName i "dhcp-agent".

(** [string(secret.Data["quorumqueues"]) == "true"] *)
Definition quorum_queues (s : Secret.t) : bool :=
  bool_decide (default "" (Secret.Data s !! "quorumqueues") = "true").

Section external.
Context `{L : Lib} {W : Type} (handler : ∀ R, Call R → W → R * W).

Abbreviation fn R := (M (St.t W) R R).

(** [labels.GetLabels(instance, labels.GetGroupLabel(ServiceName), {})] *)
Definition group_labels (i : NeutronAPI.t) : gmap string string :=
  GetLabels (NeutronAPI.Name i) ServiceName ∅.

(** ** One Secret *)

(** [deleteExternalSecret(secretName)] *)
Definition deleteExternalSecret (secretName : string) : fn (option error) :=
  i ← instance;
  err ← call handler
    (DeleteObject KindSecret (NamespacedName.mk secretName (NeutronAPI.Namespace i)));
  match err with
  | Some err =>
      when (negb (IsNotFound err))
        (return_ (Some (Wrap ("failed to delete external Secret " +:+ secretName +:+ ": ") err)))
  | None => mret ()
  end;;
  update_status (λ st, Status.set_Hash (map_delete secretName (Status.Hash st)) st);;
  mret None.

(** The one template of [ensureExternalSecret]. *)
Definition external_template (i : NeutronAPI.t) (secretName : string)
    (templates : gmap string string) (templateParameters : gmap string Param) : Template.t :=
  Template.mk secretName (NeutronAPI.Namespace i) TemplateTypeNone (NeutronAPI.Kind i)
    ∅ (group_labels i) templateParameters templates [].

(** [ensureExternalSecret(secretName, templates, templateParameters, envVars)] *)
Definition ensureExternalSecret (secretName : string) (templates : gmap string string)
    (templateParameters : gmap string Param) : fn (option error) :=
  i ← instance;
  envVars ← get_vars;
  let secrets := [external_template i secretName templates templateParameters] in
  '(envVars, err) ← call handler (EnsureSecrets secrets envVars);
  put_vars envVars;;
  match err with
  | Some err => return_ (Some err)
  | None => mret ()
  end;;
  setter ← force (envVars !! secretName);
  write_hash secretName (EnvVar.Value (setter (EnvVar.mk "" "")));;
  mret None.

Definition ensureExternalOVNMetadataAgentSecret (sbEndpoint : string) : fn (option error) :=
  i ← instance;
  let templates := {[ NeutronOVNMetadataAgentSecretKey := "/ovn-metadata-agent.conf" ]} in
  let templateParameters : gmap string Param :=
    <["OVNDB_TLS" := PBool (GenericService_Enabled
                       (NeutronApiTLS.Ovn (SpecCore.TLS (NeutronAPI.core i))))]>
    {[ "SBConnection" := PStr sbEndpoint ]} in
  call_fn (ensureExternalSecret (getMetadataAgentSecretName i) templates templateParameters).

Definition ensureExternalOVNAgentSecret (nbEndpoint sbEndpoint : string) : fn (option error) :=
  i ← instance;
  let templates := {[ NeutronOVNAgentSecretKey := "/ovn-agent.conf" ]} in
  let templateParameters : gmap string Param :=
    <["OVNDB_TLS" := PBool (GenericService_Enabled
                       (NeutronApiTLS.Ovn (SpecCore.TLS (NeutronAPI.core i))))]>
    (<["SBConnection" := PStr sbEndpoint]> {[ "NBConnection" := PStr nbEndpoint ]}) in
  call_fn (ensureExternalSecret (getOVNAgentSecretName i) templates templateParameters).

(** Parameters of the agents that talk to RabbitMQ. *)
Definition transport_params (transportURL : string) (quorumQueues : bool) : gmap string Param :=
  <["QuorumQueues" := PBool quorumQueues]> {[ "transportURL" := PStr transportURL ]}.

Definition ensureExternalSriovAgentSecret (transportURL : string) (quorumQueues : bool)
  : fn (option error) :=
  i ← instance;
  call_fn (ensureExternalSecret (getSriovAgentSecretName i)
    {[ NeutronSriovAgentSecretKey := "/sriov-agent.conf" ]}
    (transport_params transportURL quorumQueues)).

Definition ensureExternalDhcpAgentSecret (transportURL : string) (quorumQueues : bool)
  : fn (option error) :=
  i ← instance;
  call_fn (ensureExternalSecret (getDhcpAgentSecretName i)
    {[ NeutronDhcpAgentSecretKey := "/dhcp-agent.conf" ]}
    (transport_params transportURL quorumQueues)).

(** [if err := deleteExternalSecret(name); err != nil { return
    fmt.Errorf(what + "%w", err) }; return nil], which every agent does when
    an input is missing. *)
Definition delete_and_return (name what : string) {A} : M (St.t W) (option error) A :=
  err ← call_fn (deleteExternalSecret name);
  match err with
  | Some err => return_ (Some (Wrap what err))
  | None => return_ None
  end.

(** [return fmt.Errorf(what + "%w", err)] when [err != nil]. *)
Definition wrap_error (what : string) (err : option error) : M (St.t W) (option error) unit :=
  match err with
  | Some err => return_ (Some (Wrap what err))
  | None => mret ()
  end.

(** ** One agent *)

Definition metadata_delete_msg : string :=
  "failed to delete Neutron Metadata Agent external Secret: ".

(** [reconcileExternalOVNMetadataAgentSecret] *)
Definition reconcileExternalOVNMetadataAgentSecret : fn (option error) :=
  i ← instance;
  let name := getMetadataAgentSecretName i in
  when (negb (IsOVNEnabled i)) (delete_and_return name metadata_delete_msg);;
  cluster ← call handler (GetDBClusterByType (NeutronAPI.Namespace i) SBDBType);
  sbCluster ← match cluster with
              | inl _ => delete_and_return name metadata_delete_msg
              | inr c => mret c
              end;
  sbEndpoint ← match OVN_GetExternalEndpoint sbCluster with
               | inl _ => delete_and_return name metadata_delete_msg
               | inr e => mret e
               end;
  err ← call_fn (ensureExternalOVNMetadataAgentSecret sbEndpoint);
  wrap_error "failed to ensure Neutron Metadata Agent external Secret: " err;;
  mret None.

Definition ovn_delete_msg : string := "failed to delete Neutron OVN Agent external Secret: ".

(** [reconcileExternalOVNAgentSecret] *)
Definition reconcileExternalOVNAgentSecret : fn (option error) :=
  i ← instance;
  let name := getOVNAgentSecretName i in
  when (negb (IsOVNEnabled i)) (delete_and_return name ovn_delete_msg);;
  cluster ← call handler (GetDBClusterByType (NeutronAPI.Namespace i) NBDBType);
  nbCluster ← match cluster with
              | inl _ => delete_and_return name ovn_delete_msg
              | inr c => mret c
              end;
  nbEndpoint ← match OVN_GetExternalEndpoint nbCluster with
               | inl _ => delete_and_return name ovn_delete_msg
               | inr e => mret e
               end;
  cluster ← call handler (GetDBClusterByType (NeutronAPI.Namespace i) SBDBType);
  sbCluster ← match cluster with
              | inl _ => delete_and_return name ovn_delete_msg
              | inr c => mret c
              end;
  sbEndpoint ← match OVN_GetExternalEndpoint sbCluster with
               | inl _ => delete_and_return name ovn_delete_msg
               | inr e => mret e
               end;
  err ← call_fn (ensureExternalOVNAgentSecret nbEndpoint sbEndpoint);
  wrap_error "failed to ensure Neutron OVN Agent external Secret: " err;;
  mret None.

(** [getTransportURL(secretName)]: the URL, whether quorum queues are used, or
    an error. *)
Definition getTransportURL (secretName : option string) : fn (error + (string * bool)) :=
  i ← instance;
  name ← match secretName with
         | None => return_ (inl errTransportURLSecretNameNilOrEmpty)
         | Some name =>
             if bool_decide (name = "") then return_ (inl errTransportURLSecretNameNilOrEmpty)
             else mret name
         end;
  answer ← call handler (GetSecret name (NeutronAPI.Namespace i));
  match answer with
  | inl err => return_ (inl err)
  | inr transportURLSecret =>
      match Secret.Data transportURLSecret !! "transport_url" with
      | None => return_ (inl (Errorf "transport_url " ErrNotFound " Transport Secret"))
      | Some transportURL => mret (inr (transportURL, quorum_queues transportURLSecret))
      end
  end.

Definition sriov_delete_msg : string := "failed to delete Neutron SR-IOV Agent external Secret: ".

(** [reconcileExternalSriovAgentSecret] *)
Definition reconcileExternalSriovAgentSecret (transportURLSecretName : string)
  : fn (option error) :=
  i ← instance;
  t ← call_fn (getTransportURL (Some transportURLSecretName));
  '(transportURL, quorumQueues) ←
    match t with
    | inl _ => delete_and_return (getSriovAgentSecretName i) sriov_delete_msg
    | inr t => mret t
    end;
  err ← call_fn (ensureExternalSriovAgentSecret transportURL quorumQueues);
  wrap_error "failed to ensure Neutron SR-IOV Agent external Secret: " err;;
  mret None.

Definition dhcp_delete_msg : string := "failed to delete Neutron DHCP Agent external Secret: ".

(** [reconcileExternalDhcpAgentSecret] *)
Definition reconcileExternalDhcpAgentSecret (transportURLSecretName : string)
  : fn (option error) :=
  i ← instance;
  answer ← call handler (GetSecret transportURLSecretName (NeutronAPI.Namespace i));
  transportURLSecret ←
    match answer with
    | inl _ => delete_and_return (getDhcpAgentSecretName i) dhcp_delete_msg
    | inr s => mret s
    end;
  transportURL ←
    match Secret.Data transportURLSecret !! "transport_url" with
    | None => delete_and_return (getDhcpAgentSecretName i) dhcp_delete_msg
    | Some u => mret u
    end;
  err ← call_fn (ensureExternalDhcpAgentSecret transportURL (quorum_queues transportURLSecret));
  wrap_error "failed to ensure Neutron DHCP Agent external Secret: " err;;
  mret None.

(** ** All agents *)

(** [reconcileExternalSecrets] *)
Definition reconcileExternalSecrets (transportURLSecretName : string) : fn (option error) :=
  err ← call_fn (reconcileExternalSriovAgentSecret transportURLSecretName);
  wrap_error "failed to reconcile Neutron SR-IOV Agent external Secret: " err;;
  err ← call_fn (reconcileExternalDhcpAgentSecret transportURLSecretName);
  wrap_error "failed to reconcile Neutron DHCP Agent external Secret: " err;;
  mret None.

(** [reconcileExternalOVNSecrets] *)
Definition reconcileExternalOVNSecrets : fn (option error) :=
  err ← call_fn reconcileExternalOVNMetadataAgentSecret;
  wrap_error "failed to reconcile Neutron Metadata Agent external Secret: " err;;
  err ← call_fn reconcileExternalOVNAgentSecret;
  wrap_error "failed to reconcile Neutron OVN Agent external Secret: " err;;
  mret None.

End external.

(** ** Specification

    What an agent's Secret should hold given the answers to the look-ups:
    [None] when an input is missing and there should be no Secret. *)

Module Wanted.
Record t := mk { templates : gmap string string; parameters : gmap string Param }.
End Wanted.

Definition transport_wanted (key template : string) (answer : error + Secret.t)
  : option Wanted.t :=
  match answer with
  | inr sec =>
      match Secret.Data sec !! "transport_url" with
      | Some url => Some (Wanted.mk {[ key := template ]}
                            (transport_params url (quorum_queues sec)))
      | None => None
      end
  | inl _ => None
  end.

Definition sriov_wanted (secretName : string) (answer : error + Secret.t) : option Wanted.t :=
  if bool_decide (secretName = "") then None
  else transport_wanted NeutronSriovAgentSecretKey "/sriov-agent.conf" answer.

Definition dhcp_wanted (answer : error + Secret.t) : option Wanted.t :=
  transport_wanted NeutronDhcpAgentSecretKey "/dhcp-agent.conf" answer.

Section wanted_ovn.
Context `{L : Lib}.

Definition endpoint_of (answer : error + OVNDBCluster.t) : option string :=
  match answer with
  | inr c => match OVN_GetExternalEndpoint c with inr e => Some e | inl _ => None end
  | inl _ => None
  end.

Definition ovn_tls (i : NeutronAPI.t) : Param :=
  PBool (GenericService_Enabled (NeutronApiTLS.Ovn (SpecCore.TLS (NeutronAPI.core i)))).

Definition metadata_wanted (i : NeutronAPI.t) (sb : error + OVNDBCluster.t) : option Wanted.t :=
  if IsOVNEnabled i then
    e ← endpoint_of sb;
    Some (Wanted.mk {[ NeutronOVNMetadataAgentSecretKey := "/ovn-metadata-agent.conf" ]}
            (<["OVNDB_TLS" := ovn_tls i]> {[ "SBConnection" := PStr e ]}))
  else None.

Definition ovn_wanted (i : NeutronAPI.t) (nb sb : error + OVNDBCluster.t) : option Wanted.t :=
  if IsOVNEnabled i then
    n ← endpoint_of nb;
    e ← endpoint_of sb;
    Some (Wanted.mk {[ NeutronOVNAgentSecretKey := "/ovn-agent.conf" ]}
            (<["OVNDB_TLS" := ovn_tls i]>
               (<["SBConnection" := PStr e]> {[ "NBConnection" := PStr n ]})))
  else None.

End wanted_ovn.

Section spec.
Context `{L : Lib} {W : Type} (handler : ∀ R, Call R → W → R * W).
Context (HEnsure : EnsureSecrets_records handler).

(** The Secret was written as wanted and its hash is in the status, or it was
    deleted and has no hash. *)
Definition synced (i : NeutronAPI.t) (name : string) (wanted : option Wanted.t) (s : St.t W)
  : Prop :=
  match wanted with
  | Some w =>
      ∃ env env' setter,
        Ev (EnsureSecrets [external_template i name (Wanted.templates w) (Wanted.parameters w)] env)
           (env', None) ∈ St.trace s ∧
        env' !! name = Some setter ∧
        map_read (hashes s) name = Some (EnvVar.Value (setter (EnvVar.mk "" "")))
  | None =>
      ∃ r, Ev (DeleteObject KindSecret (NamespacedName.mk name (NeutronAPI.Namespace i))) r
             ∈ St.trace s ∧
           from_option IsNotFound true r = true ∧
           map_read (hashes s) name = None
  end.

(** [err] reports a write or a deletion that the API server refused. *)
Definition reports_failure (err : error) (s : St.t W) : Prop :=
  ∃ cause, errors_Is err cause = true ∧
    ((∃ nn, Ev (DeleteObject KindSecret nn) (Some cause) ∈ St.trace s ∧ IsNotFound cause = false) ∨
     (∃ ts env env', Ev (EnsureSecrets ts env) (env', Some cause) ∈ St.trace s)).

(** Nothing of the instance changes but the hashes under [names]; the trace only
    grows. *)
Definition framed (names : list string) (s s' : St.t W) : Prop :=
  (∃ h, St.inst s' = NeutronAPI.set_Status
          (Status.set_Hash h (NeutronAPI.Status (St.inst s))) (St.inst s) ∧
        (is_Some (hashes s) → is_Some h) ∧
        ∀ k, k ∉ names → map_read h k = map_read (hashes s) k) ∧
  ∃ evs, St.trace s' = evs ++ St.trace s.

Lemma framed_refl names s : framed names s s.
Proof.
  split; [|by exists []]. exists (hashes s). split_and!; [|done..].
  destruct s as [i]; simpl. unfold hashes. simpl. by destruct i as [????????[]].
Qed.

Lemma framed_event {A} (c : Call A) a w names s s' :
  framed names s s' →
  framed names s (St.mk (St.inst s') (St.vars s') w (Ev c a :: St.trace s')).
Proof.
  intros [Hi [evs Ht]]. split; [exact Hi|]. exists (Ev c a :: evs). simpl. by rewrite Ht.
Qed.

Lemma framed_vars v names s s' : framed names s s' → framed names s (St.set_vars v s').
Proof. done. Qed.

Lemma framed_hashes h names s s' :
  framed names s s' →
  (is_Some (hashes s') → is_Some h) →
  (∀ k, k ∉ names → map_read h k = map_read (hashes s') k) →
  framed names s (with_hashes h s').
Proof.
  intros [(h' & Hi & Hs & Hr) Ht] Hs' Hr'. split; [|exact Ht].
  assert (hashes s' = h') as Hh by (unfold hashes; by rewrite Hi).
  exists h. unfold with_hashes. simpl. rewrite Hi. simpl. split_and!; [done| |].
  - intros H. apply Hs'. rewrite Hh. by apply Hs.
  - intros k Hk. rewrite Hr', Hh by done. by apply Hr.
Qed.

Lemma framed_trans names names' s s1 s2 :
  framed names s s1 → framed names' s1 s2 → framed (names ++ names') s s2.
Proof.
  intros [(h1 & Hi1 & Hs1 & Hr1) [e1 Ht1]] [(h2 & Hi2 & Hs2 & Hr2) [e2 Ht2]].
  assert (hashes s1 = h1) as Hh by (unfold hashes; by rewrite Hi1). rewrite Hh in *.
  split.
  - exists h2. rewrite Hi2, Hi1. split_and!; [done|auto|].
    intros k Hk. apply not_elem_of_app in Hk as [? ?]. rewrite Hr2, Hr1 by done. done.
  - exists (e2 ++ e1). by rewrite Ht2, Ht1, app_assoc.
Qed.

Lemma framed_hashes_some names s s' :
  framed names s s' → is_Some (hashes s) → is_Some (hashes s').
Proof. intros [(h & Hi & Hs & _) _] H. unfold hashes. rewrite Hi. by apply Hs. Qed.

Lemma synced_framed i name wanted names s s' :
  synced i name wanted s → framed names s s' → name ∉ names → synced i name wanted s'.
Proof.
  intros H [(h & Hi & _ & Hr) [evs Ht]] Hn.
  assert (map_read (hashes s') name = map_read (hashes s) name) as Hm.
  { unfold hashes at 1. rewrite Hi. by apply Hr. }
  destruct wanted as [w|]; simpl in *.
  - destruct H as (env & env' & f & Hev & Hf & Hh). exists env, env', f.
    rewrite Ht, Hm. split_and!; [set_solver|done..].
  - destruct H as (r & Hev & Hr' & Hh). exists r. rewrite Ht, Hm. split_and!; [set_solver|done..].
Qed.

(** What reconciling one agent ends in. *)
Definition agent_post (i : NeutronAPI.t) (name : string) (wanted : option Wanted.t)
    (s : St.t W) (err : option error) (s' : St.t W) : Prop :=
  framed [name] s s' ∧
  match err with
  | None => synced i name wanted s'
  | Some err => reports_failure err s'
  end.

Lemma reports_failure_wrap what err s :
  reports_failure err s → reports_failure (Wrap what err) s.
Proof. intros (c & Hc & H). exists c. split; [by apply errors_Is_wrap|done]. Qed.

(** Both look-ups of an agent only add to the trace. *)
Definition extended (s s' : St.t W) : Prop := framed [] s s'.

Lemma framed_extended name s s' : extended s s' → framed [name] s s'.
Proof. intros [(h & ? & ? & Hr) ?]. split; [|done]. exists h. split_and!; [done..|]. set_solver. Qed.

Lemma delete_spec s0 s name :
  framed [name] s0 s →
  fn_spec (deleteExternalSecret handler name) (agent_post (St.inst s) name None s0) s.
Proof.
  intros Hfr. unfold fn_spec, deleteExternalSecret. apply wp_bind, wp_instance, wp_bind, wp_call.
  intros r w _. apply wp_bind. destruct r as [e|]; [apply wp_when; intros He|].
  - apply wp_return. split; [by apply framed_event|]. apply negb_true_iff in He.
    exists e. split; [apply errors_Is_wrap, errors_Is_refl|]. left.
    eexists. split; [by left|done].
  - apply wp_bind, wp_update_status, wp_ret. apply negb_false_iff in He. split.
    + apply (framed_hashes (map_delete name (hashes s))).
      * by apply framed_event.
      * by rewrite map_delete_is_Some.
      * intros k Hk. apply map_read_delete_ne. set_solver.
    + exists (Some e). split; [by left|]. split; [done|]. apply map_read_delete.
  - apply wp_ret, wp_bind, wp_update_status, wp_ret. split.
    + apply (framed_hashes (map_delete name (hashes s))).
      * by apply framed_event.
      * by rewrite map_delete_is_Some.
      * intros k Hk. apply map_read_delete_ne. set_solver.
    + exists None. split; [by left|]. split; [done|]. apply map_read_delete.
Qed.

Lemma ensure_spec s0 s name t p :
  framed [name] s0 s → is_Some (hashes s) →
  fn_spec (ensureExternalSecret handler name t p)
    (agent_post (St.inst s) name (Some (Wanted.mk t p)) s0) s.
Proof.
  intros Hfr Hh. unfold fn_spec, ensureExternalSecret.
  apply wp_bind, wp_instance, wp_bind, wp_get_vars, wp_bind, wp_call.
  intros [env' r] w Hcall. apply wp_bind, wp_put_vars, wp_bind. destruct r as [e|].
  - apply wp_return. split; [by apply framed_vars, framed_event|].
    exists e. split; [apply errors_Is_refl|]. right. do 3 eexists. by left.
  - apply wp_ret, wp_bind.
    destruct (HEnsure _ _ _ _ _ Hcall _ (proj2 (list_elem_of_singleton _ _) eq_refl)) as [f Hf].
    simpl in Hf. rewrite Hf. simpl. apply wp_ret, wp_bind, wp_write_hash; [done|].
    intros h Hw. apply wp_ret. split.
    + apply framed_hashes.
      * by apply framed_vars, framed_event.
      * intros _. destruct (hashes _); [|done]. injection Hw as <-. eauto.
      * intros k Hk. eapply map_read_write_ne; [|exact Hw]. set_solver.
    + do 3 eexists. split; [by left|]. split; [exact Hf|]. by eapply map_read_write.
Qed.

Lemma framed_trace names s s' ev : framed names s s' → ev ∈ St.trace s → ev ∈ St.trace s'.
Proof. intros [_ [evs ->]]. set_solver. Qed.

Lemma agent_post_extend i name wanted s s1 err s' :
  extended s s1 → agent_post i name wanted s1 err s' → agent_post i name wanted s err s'.
Proof. intros He [Hf H]. split; [|done]. exact (framed_trans [] [name] s s1 s' He Hf). Qed.

Lemma agent_post_wrap i name wanted s what err s' :
  agent_post i name wanted s (Some err) s' → agent_post i name wanted s (Some (Wrap what err)) s'.
Proof. intros [? ?]. split; [done|]. by apply reports_failure_wrap. Qed.

(** The two ways an agent's function ends. *)
Lemma wp_delete_and_return {A} name what (Q : outcome (option error) A → St.t W → Prop) s :
  (∀ err s', agent_post (St.inst s) name None s err s' → Q (Ret err) s') →
  wp (delete_and_return handler name what) Q s.
Proof.
  intros HQ. unfold delete_and_return. apply wp_bind.
  eapply wp_call_spec; [by apply (delete_spec s), framed_refl|].
  intros [e|] s' H; apply wp_return, HQ; [by apply agent_post_wrap|done].
Qed.

Lemma wp_ensure_and_return f what i name wanted (P : option error → St.t W → Prop) s :
  fn_spec f (agent_post i name wanted s) s →
  (∀ err s', agent_post i name wanted s err s' → P err s') →
  wp (err ← call_fn f; wrap_error what err;; mret None) (post P) s.
Proof.
  intros Hf HP. apply wp_bind. eapply wp_call_spec; [exact Hf|].
  intros [e|] s' H; apply wp_bind.
  - apply wp_return, HP, agent_post_wrap, H.
  - apply wp_ret, wp_ret, HP, H.
Qed.

(** The state after a look-up. *)
Definition looked_up {A} (c : Call A) (a : A) (w : W) (s : St.t W) : St.t W :=
  St.mk (St.inst s) (St.vars s) w (Ev c a :: St.trace s).

Lemma looked_up_extended {A} (c : Call A) a w s : extended s (looked_up c a w s).
Proof. apply framed_event, framed_refl. Qed.

Lemma agent_post_looked_up {A} (c : Call A) a w i name wanted s err s' :
  agent_post i name wanted (looked_up c a w s) err s' →
  agent_post i name wanted s err s' ∧ Ev c a ∈ St.trace s'.
Proof.
  intros H. split.
  - eapply agent_post_extend; [apply (looked_up_extended c a w)|exact H].
  - eapply framed_trace; [apply H|]. by left.
Qed.

Lemma sriov_spec n s :
  is_Some (hashes s) →
  fn_spec (reconcileExternalSriovAgentSecret handler n)
    (λ err s', ∃ answer,
       agent_post (St.inst s) (getSriovAgentSecretName (St.inst s)) (sriov_wanted n answer) s err s' ∧
       (n ≠ "" → Ev (GetSecret n (NeutronAPI.Namespace (St.inst s))) answer ∈ St.trace s')) s.
Proof.
  intros Hh. unfold fn_spec, reconcileExternalSriovAgentSecret. apply wp_bind, wp_instance.
  apply wp_bind. apply wp_call_fn. unfold getTransportURL. apply wp_bind, wp_instance, wp_bind.
  unfold sriov_wanted, transport_wanted. destruct (bool_decide (n = "")) eqn:En.
  { apply wp_return, wp_bind, wp_delete_and_return. intros err s' H.
    exists (inl not_found). split; [done|]. apply bool_decide_eq_true_1 in En. done. }
  apply wp_ret, wp_bind, wp_call. intros answer w _.
  destruct answer as [e|sec]; [|destruct (Secret.Data sec !! "transport_url") as [url|] eqn:Hu].
  - apply wp_return, wp_bind, wp_delete_and_return.
    intros err s' [? ?]%(agent_post_looked_up (GetSecret _ _)). eexists (inl e). eauto.
  - apply wp_ret, wp_bind, wp_ret. eapply wp_ensure_and_return.
    + unfold fn_spec, ensureExternalSriovAgentSecret. apply wp_bind, wp_instance.
      eapply wp_call_spec; [by apply ensure_spec; [apply framed_refl|]|]. by intros.
    + intros err s' [? ?]%(agent_post_looked_up (GetSecret _ _)). eexists (inr sec). rewrite Hu. eauto.
  - apply wp_return, wp_bind, wp_delete_and_return.
    intros err s' [? ?]%(agent_post_looked_up (GetSecret _ _)). eexists (inr sec). rewrite Hu. eauto.
Qed.

Lemma dhcp_spec n s :
  is_Some (hashes s) →
  fn_spec (reconcileExternalDhcpAgentSecret handler n)
    (λ err s', ∃ answer,
       agent_post (St.inst s) (getDhcpAgentSecretName (St.inst s)) (dhcp_wanted answer) s err s' ∧
       Ev (GetSecret n (NeutronAPI.Namespace (St.inst s))) answer ∈ St.trace s') s.
Proof.
  intros Hh. unfold fn_spec, reconcileExternalDhcpAgentSecret. apply wp_bind, wp_instance.
  apply wp_bind, wp_call. intros answer w _. unfold dhcp_wanted, transport_wanted. apply wp_bind.
  destruct answer as [e|sec]; [|apply wp_ret, wp_bind;
    destruct (Secret.Data sec !! "transport_url") as [url|] eqn:Hu].
  - apply wp_delete_and_return.
    intros err s' [? ?]%(agent_post_looked_up (GetSecret _ _)). eexists (inl e). eauto.
  - apply wp_ret. eapply wp_ensure_and_return.
    + unfold fn_spec, ensureExternalDhcpAgentSecret. apply wp_bind, wp_instance.
      eapply wp_call_spec; [by apply ensure_spec; [apply framed_refl|]|]. by intros.
    + intros err s' [? ?]%(agent_post_looked_up (GetSecret _ _)). eexists (inr sec). rewrite Hu. eauto.
  - apply wp_delete_and_return.
    intros err s' [? ?]%(agent_post_looked_up (GetSecret _ _)). eexists (inr sec). rewrite Hu. eauto.
Qed.

(** The answer to a look-up of an OVN cluster that was made, if it was. *)
Definition cluster_answer (i : NeutronAPI.t) (t : OVNDBType) (answer : error + OVNDBCluster.t)
    (s : St.t W) : Prop :=
  Ev (GetDBClusterByType (NeutronAPI.Namespace i) t) answer ∈ St.trace s.

Lemma metadata_spec s :
  is_Some (hashes s) →
  fn_spec (reconcileExternalOVNMetadataAgentSecret handler)
    (λ err s', ∃ sb,
       agent_post (St.inst s) (getMetadataAgentSecretName (St.inst s))
         (metadata_wanted (St.inst s) sb) s err s' ∧
       (IsOVNEnabled (St.inst s) = true → cluster_answer (St.inst s) SBDBType sb s')) s.
Proof.
  intros Hh. unfold fn_spec, reconcileExternalOVNMetadataAgentSecret. apply wp_bind, wp_instance.
  cbv zeta. unfold metadata_wanted. apply wp_bind, wp_when; intros Hovn.
  { apply negb_true_iff in Hovn. rewrite Hovn. apply wp_delete_and_return. intros err s' H.
    by exists (inl not_found). }
  apply negb_false_iff in Hovn. rewrite Hovn. apply wp_bind, wp_call. intros sb w _. apply wp_bind.
  destruct sb as [e|c]; [|apply wp_ret, wp_bind; destruct (OVN_GetExternalEndpoint c) as [e|ep] eqn:He].
  - apply wp_delete_and_return.
    intros err s' [? ?]%(agent_post_looked_up (GetDBClusterByType _ _)). eexists (inl e). eauto.
  - apply wp_delete_and_return.
    intros err s' [? ?]%(agent_post_looked_up (GetDBClusterByType _ _)). eexists (inr c).
    simpl. rewrite He. eauto.
  - apply wp_ret. eapply wp_ensure_and_return.
    + unfold fn_spec, ensureExternalOVNMetadataAgentSecret. apply wp_bind, wp_instance.
      eapply wp_call_spec; [by apply ensure_spec; [apply framed_refl|]|]. by intros.
    + intros err s' [? ?]%(agent_post_looked_up (GetDBClusterByType _ _)). eexists (inr c).
      simpl. rewrite He. eauto.
Qed.

Lemma ovn_agent_spec s :
  is_Some (hashes s) →
  fn_spec (reconcileExternalOVNAgentSecret handler)
    (λ err s', ∃ nb sb,
       agent_post (St.inst s) (getOVNAgentSecretName (St.inst s))
         (ovn_wanted (St.inst s) nb sb) s err s' ∧
       (IsOVNEnabled (St.inst s) = true → cluster_answer (St.inst s) NBDBType nb s') ∧
       (IsOVNEnabled (St.inst s) = true → is_Some (endpoint_of nb) →
        cluster_answer (St.inst s) SBDBType sb s')) s.
Proof.
  intros Hh. unfold fn_spec, reconcileExternalOVNAgentSecret. apply wp_bind, wp_instance.
  cbv zeta. unfold ovn_wanted. apply wp_bind, wp_when; intros Hovn.
  { apply negb_true_iff in Hovn. rewrite Hovn. apply wp_delete_and_return. intros err s' H.
    by exists (inl not_found), (inl not_found). }
  apply negb_false_iff in Hovn. rewrite Hovn. apply wp_bind, wp_call. intros nb w _. apply wp_bind.
  destruct nb as [e|c]; [|apply wp_ret, wp_bind; destruct (OVN_GetExternalEndpoint c) as [e|ep] eqn:He].
  - apply wp_delete_and_return.
    intros err s' [? ?]%(agent_post_looked_up (GetDBClusterByType _ _)).
    eexists (inl e), (inl not_found). split_and!; eauto. intros _ [? [=]].
  - apply wp_delete_and_return.
    intros err s' [? ?]%(agent_post_looked_up (GetDBClusterByType _ _)).
    eexists (inr c), (inl not_found). simpl. rewrite He. split_and!; eauto. intros _ [? [=]].
  - apply wp_ret, wp_bind, wp_call. intros sb w' _. apply wp_bind.
    destruct sb as [e|c']; [|apply wp_ret, wp_bind;
      destruct (OVN_GetExternalEndpoint c') as [e|ep'] eqn:He'].
    + apply wp_delete_and_return.
      intros err s' [[? ?]%(agent_post_looked_up (GetDBClusterByType _ _)) ?]%(agent_post_looked_up (GetDBClusterByType _ _)).
      eexists (inr c), (inl e). simpl. rewrite He. eauto.
    + apply wp_delete_and_return.
      intros err s' [[? ?]%(agent_post_looked_up (GetDBClusterByType _ _)) ?]%(agent_post_looked_up (GetDBClusterByType _ _)).
      eexists (inr c), (inr c'). simpl. rewrite He, He'. eauto.
    + apply wp_ret. eapply wp_ensure_and_return.
      * unfold fn_spec, ensureExternalOVNAgentSecret. apply wp_bind, wp_instance.
        eapply wp_call_spec; [by apply ensure_spec; [apply framed_refl|]|]. by intros.
      * intros err s' [[? ?]%(agent_post_looked_up (GetDBClusterByType _ _)) ?]%(agent_post_looked_up (GetDBClusterByType _ _)).
        eexists (inr c), (inr c'). simpl. rewrite He, He'. eauto.
Qed.

Lemma external_name_inj i n n' :
  n +:+ "-neutron-config" ≠ n' +:+ "-neutron-config" →
  getExternalSecretName i n ≠ getExternalSecretName i n'.
Proof.
  intros Hn H. apply Hn. unfold getExternalSecretName in H.
  by do 2 apply (inj (String.append _)) in H.
Qed.

Lemma reports_failure_framed names err s s' :
  framed names s s' → reports_failure err s → reports_failure err s'.
Proof.
  intros [_ [evs Ht]] (c & Hc & H). exists c. split; [done|]. rewrite Ht.
  destruct H as [(nn & ? & ?)|(ts & env & env' & ?)]; [left; exists nn|right; exists ts, env, env'];
    set_solver.
Qed.

Lemma framed_weaken names names' s s' :
  names ⊆ names' → framed names s s' → framed names' s s'.
Proof.
  intros Hn [(h & ? & ? & Hr) ?]. split; [|done]. exists h. split_and!; [done..|].
  intros k Hk. apply Hr. set_solver.
Qed.

Lemma framed_inst names s s' :
  framed names s s' →
  ∃ h, St.inst s' = NeutronAPI.set_Status
         (Status.set_Hash h (NeutronAPI.Status (St.inst s))) (St.inst s).
Proof. intros [(h & ? & _) _]. eauto. Qed.

(** Two agents one after the other. *)
Lemma wp_two_agents f1 f2 what1 what2 i n1 n2 (P1 P2 : option Wanted.t → St.t W → Prop) s :
  n1 ≠ n2 →
  fn_spec f1 (λ err s', ∃ w1, agent_post i n1 w1 s err s' ∧ P1 w1 s') s →
  (∀ s1 names s', framed names s1 s' → ∀ w1, P1 w1 s1 → P1 w1 s') →
  (∀ s1, framed [n1] s s1 →
     fn_spec f2 (λ err s', ∃ w2, agent_post i n2 w2 s1 err s' ∧ P2 w2 s') s1) →
  fn_spec (err ← call_fn f1; wrap_error what1 err;; err ← call_fn f2; wrap_error what2 err;; mret None)
    (λ err s', framed [n1; n2] s s' ∧
       match err with
       | None => (∃ w1, synced i n1 w1 s' ∧ P1 w1 s') ∧ (∃ w2, synced i n2 w2 s' ∧ P2 w2 s')
       | Some err => reports_failure err s'
       end) s.
Proof.
  intros Hne H1 HP1 H2. unfold fn_spec. apply wp_bind. eapply wp_call_spec; [exact H1|].
  intros err1 s1 (w1 & [Hf1 Hp1] & HP). apply wp_bind. destruct err1 as [e|].
  { apply wp_return. split; [eapply framed_weaken; [|exact Hf1]; set_solver|].
    by apply reports_failure_wrap. }
  apply wp_ret, wp_bind. eapply wp_call_spec; [by apply H2|].
  intros err2 s2 (w2 & [Hf2 Hp2] & HP2). apply wp_bind.
  pose proof (framed_trans _ _ _ _ _ Hf1 Hf2) as Hf. destruct err2 as [e|].
  - apply wp_return. split; [exact Hf|]. by apply reports_failure_wrap.
  - apply wp_ret, wp_ret. split; [exact Hf|]. split; [|eauto]. exists w1. split; [|eauto].
    eapply synced_framed; [exact Hp1|exact Hf2|]. set_solver.
Qed.

(** C20: [reconcileExternalSecrets] never panics once the status has a hash map,
    and touches nothing of the instance but the hashes of the two Secrets it
    keeps.  When it reports no error, each of the SR-IOV and DHCP Secrets was
    written with the transport URL and quorum-queue setting that the transport
    Secret held and its hash is in the status; or, where that Secret could not be
    read, has no [transport_url] or has no name (SR-IOV), the agent's Secret was
    deleted and its hash is gone.  When it reports an error, the error wraps a
    write or a deletion that the API server refused. *)
Theorem reconcileExternalSecrets_spec n s :
  is_Some (hashes s) →
  let i := St.inst s in
  ∃ err s', returns (reconcileExternalSecrets handler n) s = Some (err, s') ∧
    framed [getSriovAgentSecretName i; getDhcpAgentSecretName i] s s' ∧
    match err with
    | None =>
        (∃ a, synced i (getSriovAgentSecretName i) (sriov_wanted n a) s' ∧
              (n ≠ "" → Ev (GetSecret n (NeutronAPI.Namespace i)) a ∈ St.trace s')) ∧
        (∃ a, synced i (getDhcpAgentSecretName i) (dhcp_wanted a) s' ∧
              Ev (GetSecret n (NeutronAPI.Namespace i)) a ∈ St.trace s')
    | Some err => reports_failure err s'
    end.
Proof.
  intros Hh i. apply fn_spec_returns. eapply fn_spec_mono.
  - apply (wp_two_agents _ _ _ _ i (getSriovAgentSecretName i) (getDhcpAgentSecretName i)
      (λ w s', ∃ a, w = sriov_wanted n a ∧
         (n ≠ "" → Ev (GetSecret n (NeutronAPI.Namespace i)) a ∈ St.trace s'))
      (λ w s', ∃ a, w = dhcp_wanted a ∧ Ev (GetSecret n (NeutronAPI.Namespace i)) a ∈ St.trace s')).
    + by apply external_name_inj.
    + eapply fn_spec_mono; [by apply sriov_spec|]. naive_solver.
    + intros s1 names s' Hf w1 (a & ? & ?). exists a. split; [done|].
      intros. eapply framed_trace; eauto.
    + intros s1 Hf1. destruct (framed_inst _ _ _ Hf1) as [h Hi].
      eapply fn_spec_mono; [apply dhcp_spec; by eapply framed_hashes_some|].
      rewrite Hi. intros err s' (a & Ha & Hev). exists (dhcp_wanted a). split; [exact Ha|]. eauto.
  - intros err s' [Hf Hp]. split; [done|]. destruct err; naive_solver.
Qed.

(** C21: the same for [reconcileExternalOVNSecrets]: when it reports no error, the
    metadata-agent and OVN-agent Secrets were written with the external
    endpoints the OVN database clusters publish, or deleted where OVN is not
    enabled, a cluster cannot be read or publishes no endpoint. *)
Theorem reconcileExternalOVNSecrets_spec s :
  is_Some (hashes s) →
  let i := St.inst s in
  ∃ err s', returns (reconcileExternalOVNSecrets handler) s = Some (err, s') ∧
    framed [getMetadataAgentSecretName i; getOVNAgentSecretName i] s s' ∧
    match err with
    | None =>
        (∃ sb, synced i (getMetadataAgentSecretName i) (metadata_wanted i sb) s' ∧
               (IsOVNEnabled i = true → cluster_answer i SBDBType sb s')) ∧
        (∃ nb sb, synced i (getOVNAgentSecretName i) (ovn_wanted i nb sb) s' ∧
               (IsOVNEnabled i = true → cluster_answer i NBDBType nb s') ∧
               (IsOVNEnabled i = true → is_Some (endpoint_of nb) →
                cluster_answer i SBDBType sb s'))
    | Some err => reports_failure err s'
    end.
Proof.
  intros Hh i. apply fn_spec_returns. eapply fn_spec_mono.
  - apply (wp_two_agents _ _ _ _ i (getMetadataAgentSecretName i) (getOVNAgentSecretName i)
      (λ w s', ∃ sb, w = metadata_wanted i sb ∧
         (IsOVNEnabled i = true → cluster_answer i SBDBType sb s'))
      (λ w s', ∃ nb sb, w = ovn_wanted i nb sb ∧
         (IsOVNEnabled i = true → cluster_answer i NBDBType nb s') ∧
         (IsOVNEnabled i = true → is_Some (endpoint_of nb) → cluster_answer i SBDBType sb s'))).
    + by apply external_name_inj.
    + eapply fn_spec_mono; [by apply metadata_spec|]. naive_solver.
    + intros s1 names s' Hf w1 (a & ? & ?). exists a. split; [done|].
      intros. eapply framed_trace; [done|]. unfold cluster_answer in *. auto.
    + intros s1 Hf1. destruct (framed_inst _ _ _ Hf1) as [h Hi].
      eapply fn_spec_mono; [apply ovn_agent_spec; by eapply framed_hashes_some|].
      rewrite Hi. intros err s' (nb & sb & Ha & H1 & H2). exists (ovn_wanted i nb sb).
      split; [exact Ha|]. exists nb, sb. auto.
  - intros err s' [Hf Hp]. split; [done|]. destruct err; [done|].
    destruct Hp as [(w1 & ? & sb & -> & ?) (w2 & ? & nb & sb' & -> & ? & ?)].
    split; [by exists sb|]. by exists nb, sb'.
Qed.

End spec.
