(* ===== verification/ServiceConfig.v ===== *)
(** * The service configuration

    [generateServiceSecrets] and [createHashOfInputHashes] of
    [neutronapi_controller.go]: the inputs of the configuration are read one by
    one, the first that is missing ends the function with an error, and only
    then are the two Secrets the pods mount written. *)

From S2P Require Import Prelude K8s Conditions Lib Api GoMonad Pods External ExternalSecrets.
From S2P Require Import ImageProbe.

Definition ErrACSecretNotFound : error := NewError "ApplicationCredential secret not found".
Definition ErrACSecretMissingKeys : error :=
  NewError "ApplicationCredential secret missing required keys".

(** [m[k1] = v1; m[k2] = v2; ...] *)
Definition assign (kvs : list (string * Param)) (m : gmap string Param) : gmap string Param :=
  foldl (λ m kv, <[kv.1 := kv.2]> m) m kvs.

(** The files of [templates/neutronapi/config], which a template of type
    config renders for the instance type [neutronapi]. *)
Definition config_dir_files : list string := ["01-neutron.conf"].

Section config.
Context `{L : Lib} {W : Type} (handler : ∀ R, Call R → W → R * W).

Abbreviation fn R := (M (St.t W) R R).

(** [if err != nil { return err }] *)
Definition try_ {A} (a : error + A) : M (St.t W) (option error) A :=
  match a with inl err => return_ (Some err) | inr a => mret a end.

(** ** Pure parts *)

(** [customData], with [maps.Copy] of the user's files over the defaults. *)
Definition custom_data (i : NeutronAPI.t) (db : Database.t) : gmap string string :=
  let tlsCfg := if has_ca i then Some (TlsService.mk "" None None None) else None in
  SpecCore.DefaultConfigOverwrite (NeutronAPI.core i) ∪
  <["02-neutron-custom.conf" := SpecCore.CustomServiceConfig (NeutronAPI.core i)]>
    {[ "my.cnf" := Database_GetClientConfig db tlsCfg ]}.

(** The body of the loop over the endpoints. *)
Definition vhost (i : NeutronAPI.t) (endpt : Endpoint) : gmap string (string + bool) :=
  let base : gmap string (string + bool) :=
    {[ "ServerName" := inl ("neutron-" +:+ endpt +:+ "." +:+ NeutronAPI.Namespace i +:+ ".svc");
       "TLS" := inr false ]} in
  if APIService_Enabled (NeutronApiTLS.API (SpecCore.TLS (NeutronAPI.core i))) endpt then
    <["SSLCertificateKeyFile" := inl ("/etc/pki/tls/private/" +:+ endpt +:+ ".key")]>
      (<["SSLCertificateFile" := inl ("/etc/pki/tls/certs/" +:+ endpt +:+ ".crt")]>
         (<["TLS" := inr true]> base))
  else base.

Definition httpd_vhosts (i : NeutronAPI.t) : gmap string (gmap string (string + bool)) :=
  {[ EndpointInternal := vhost i EndpointInternal; EndpointPublic := vhost i EndpointPublic ]}.

Definition config_template (i : NeutronAPI.t) (db : Database.t) (p : gmap string Param)
  : Template.t :=
  Template.mk (NeutronAPI.Name i +:+ "-config") (NeutronAPI.Namespace i) TemplateTypeConfig
    (NeutronAPI.Kind i) (custom_data i db) (group_labels i) p ∅ [].

Definition httpd_template (i : NeutronAPI.t) (p : gmap string Param) : Template.t :=
  Template.mk (NeutronAPI.Name i +:+ "-httpd-config") (NeutronAPI.Namespace i) TemplateTypeNone
    (NeutronAPI.Kind i) ∅ (group_labels i) p
    {[ "httpd.conf" := "/neutronapi/httpd/httpd.conf";
       "10-neutron-httpd.conf" := "/neutronapi/httpd/10-neutron-httpd.conf" ]} ["ssl.conf"].

Definition mtls_params (mc : Memcached.t) : list (string * Param) :=
  if bool_decide (GetMemcachedMTLSSecret mc ≠ "") then
    [("MemcachedAuthCert", PStr CertMountPath); ("MemcachedAuthKey", PStr KeyMountPath);
     ("MemcachedAuthCa", PStr CaMountPath)]
  else [].

(** ** Inputs *)

(** The application credential, when the spec names one. *)
Definition application_credential : M (St.t W) (option error) (list (string * Param)) :=
  i ← instance;
  let name := SpecCore.Auth_ApplicationCredentialSecret (NeutronAPI.core i) in
  if bool_decide (name ≠ "") then
    answer ← call handler (GetSecret name (NeutronAPI.Namespace i));
    match answer with
    | inl err =>
        if IsNotFound err then return_ (Some (Errorf "" ErrACSecretNotFound (": " +:+ name)))
        else return_ (Some err)
    | inr acSecretObj =>
        let acID := Secret.Data acSecretObj !! ACIDSecretKey in
        let acSecretData := Secret.Data acSecretObj !! ACSecretSecretKey in
        match acID, acSecretData with
        | Some acID, Some acSecretData =>
            if bool_decide (acID = "") || bool_decide (acSecretData = "")
            then return_ (Some (Errorf "" ErrACSecretMissingKeys (": " +:+ name)))
            else mret [("UseApplicationCredentials", PBool true); ("ACID", PStr acID);
                       ("ACSecret", PStr acSecretData)]
        | _, _ => return_ (Some (Errorf "" ErrACSecretMissingKeys (": " +:+ name)))
        end
    end
  else mret [].

(** The OVN connections, when the ovn mechanism driver is used. *)
Definition ovn_parameters : M (St.t W) (option error) (list (string * Param)) :=
  i ← instance;
  if IsOVNEnabled i then
    answer ← call handler (GetDBClusterByType (NeutronAPI.Namespace i) NBDBType);
    nbCluster ← try_ answer;
    nbEndpoint ← try_ (OVN_GetInternalEndpoint nbCluster);
    answer ← call handler (GetDBClusterByType (NeutronAPI.Namespace i) SBDBType);
    sbCluster ← try_ answer;
    sbEndpoint ← try_ (OVN_GetInternalEndpoint sbCluster);
    mret [("NBConnection", PStr nbEndpoint); ("SBConnection", PStr sbEndpoint);
          ("OVNDB_TLS", PBool (GenericService_Enabled
                          (NeutronApiTLS.Ovn (SpecCore.TLS (NeutronAPI.core i)))))]
  else mret [].

(** The transport URL of the notifications bus; an unset secret name is not an
    error. *)
Definition notifications_parameter (secretName : option string)
  : M (St.t W) (option error) (list (string * Param)) :=
  t ← call_fn (getTransportURL handler secretName);
  match t with
  | inl err =>
      if negb (errors_Is err errTransportURLSecretNameNilOrEmpty) then return_ (Some err)
      else mret []
  | inr (url, _) =>
      if bool_decide (url ≠ "") then mret [("NotificationsTransportURL", PStr url)] else mret []
  end.

(** Keystone, the transport URL, memcached and the service Secret. *)
Definition service_inputs (transportURLSecretName : string)
  : M (St.t W) (option error)
      (KeystoneAPI.t * string * string * (string * bool) * Memcached.t * Secret.t) :=
  i ← instance;
  answer ← call handler (GetKeystoneAPI (NeutronAPI.Namespace i));
  keystoneAPI ← try_ answer;
  keystoneInternalURL ← try_ (KeystoneAPI_GetEndpoint keystoneAPI EndpointInternal);
  keystonePublicURL ← try_ (KeystoneAPI_GetEndpoint keystoneAPI EndpointPublic);
  t ← call_fn (getTransportURL handler (Some transportURLSecretName));
  transport ← match t with
              | inl err =>
                  set_running InputReadyCondition (condition_msg "InputReadyWaitingMessage") [];;
                  return_ (Some err)
              | inr t => mret t
              end;
  answer ← call handler (GetMemcachedByName (SpecCore.MemcachedInstance (NeutronAPI.core i))
                           (NeutronAPI.Namespace i));
  mc ← try_ answer;
  answer ← call handler (GetSecret (SpecCore.Secret (NeutronAPI.core i)) (NeutronAPI.Namespace i));
  ospSecret ← try_ answer;
  mret (keystoneAPI, keystoneInternalURL, keystonePublicURL, transport, mc, ospSecret).

(** [templateParameters] as [generateServiceSecrets] fills it. *)
Definition template_parameters (db : Database.t) (serviceLabels serviceAnnotations : gomap string)
    (transportURLSecretName : string) (notificationsTransportURLSecretName : option string)
  : M (St.t W) (option error) (gmap string Param) :=
  i ← instance;
  let core := NeutronAPI.core i in
  '(keystoneAPI, keystoneInternalURL, keystonePublicURL, (transportURL, quorumQueues), mc, ospSecret)
    ← service_inputs transportURLSecretName;
  wsgi ← call_fn (IsWSGIEffective handler serviceLabels serviceAnnotations);
  let base :=
    [("ServiceUser", PStr (SpecCore.ServiceUser core));
     ("KeystoneInternalURL", PStr keystoneInternalURL);
     ("KeystonePublicURL", PStr keystonePublicURL);
     ("Region", PStr (KeystoneAPI_GetRegion keystoneAPI));
     ("TransportURL", PStr transportURL);
     ("MemcachedServers", PStr (GetMemcachedServerListString mc));
     ("MemcachedServersWithInet", PStr (GetMemcachedServerListWithInetString mc));
     ("MemcachedTLS", PBool (GetMemcachedTLSSupport mc));
     ("TimeOut", PInt (SpecCore.APITimeout core));
     ("QuorumQueues", PBool quorumQueues);
     ("WSGI", PBool wsgi)] in
  notifications ← notifications_parameter notificationsTransportURLSecretName;
  let servicePassword :=
    default "" (Secret.Data ospSecret !! SpecCore.PasswordSelectors_Service core) in
  ac ← application_credential;
  databaseAccount ← force (Database_GetAccount db);
  dbSecret ← force (Database_GetSecret db);
  let database :=
    [("DbHost", PStr (Status.DatabaseHostname (NeutronAPI.Status i)));
     ("DbUser", PStr (MariaDBAccount.UserName databaseAccount));
     ("DbPassword", PStr (default "" (Secret.Data dbSecret !! DatabasePasswordSelector)));
     ("Db", PStr DatabaseName);
     ("CorePlugin", PStr (SpecCore.CorePlugin core));
     ("Ml2MechanismDrivers", PStr (String.concat "," (SpecCore.Ml2MechanismDrivers core)));
     ("IsOVN", PBool (IsOVNEnabled i))] in
  ovn ← ovn_parameters;
  mret (assign
    (base ++ notifications ++ mtls_params mc ++
     [("ServicePassword", PStr servicePassword); ("UseApplicationCredentials", PBool false)] ++
     ac ++ database ++ ovn ++ [("VHosts", PMap (httpd_vhosts i))]) ∅).

(** [generateServiceSecrets(envVars, db, serviceLabels, serviceAnnotations,
    transportURLSecretName, notificationsTransportURLSecretName)] *)
Definition generateServiceSecrets (db : Database.t) (serviceLabels serviceAnnotations : gomap string)
    (transportURLSecretName : string) (notificationsTransportURLSecretName : option string)
  : fn (option error) :=
  i ← instance;
  templateParameters ← template_parameters db serviceLabels serviceAnnotations
    transportURLSecretName notificationsTransportURLSecretName;
  envVars ← get_vars;
  '(envVars, err) ← call handler
    (EnsureSecrets [config_template i db templateParameters; httpd_template i templateParameters]
       envVars);
  put_vars envVars;;
  mret err.

(** [createHashOfInputHashes(instance, envVars)]: whether the hash changed, and
    the error. *)
Definition createHashOfInputHashes : fn (bool * option error) :=
  i ← instance;
  envVars ← get_vars;
  let mergedMapVars := MergeEnvs [] envVars in
  match ObjectHash mergedMapVars with
  | inl err => return_ (false, Some err)
  | inr hash =>
      let '(hashMap, changed) := SetHash (Status.Hash (NeutronAPI.Status i)) InputHashName hash in
      when changed (update_status (Status.set_Hash hashMap));;
      mret (changed, None)
  end.

End config.

(** ** Template parameters *)

(** The last assignment to a key. *)
Fixpoint assigned (k : string) (kvs : list (string * Param)) : option Param :=
  match kvs with
  | [] => None
  | (k', v) :: kvs =>
      match assigned k kvs with
      | Some v => Some v
      | None => if String.eqb k' k then Some v else None
      end
  end.

Lemma assign_lookup kvs m k :
  assign kvs m !! k = match assigned k kvs with Some v => Some v | None => m !! k end.
Proof.
  revert m. induction kvs as [|[k' v] kvs IH]; intros m; simpl; [done|].
  unfold assign in *. simpl. rewrite IH. destruct (assigned k kvs); [done|].
  destruct (String.eqb_spec k' k) as [->|Hk]; [apply lookup_insert_eq | by apply lookup_insert_ne].
Qed.

(** ** Symbolic execution of the parts *)

(** Whether a call writes Secrets. *)
Definition writes_secrets (ev : event) : bool :=
  match ev with
  | Ev c _ => match c with EnsureSecrets _ _ => true | _ => false end
  end.

Section config_spec.
Context `{L : Lib} {W : Type} (handler : ∀ R, Call R → W → R * W).

(** The trace grew, without a call that writes Secrets. *)
Definition only_read (s s' : St.t W) : Prop :=
  ∃ evs, St.trace s' = evs ++ St.trace s ∧ Forall (λ ev, writes_secrets ev = false) evs.

Lemma only_read_refl s : only_read s s.
Proof. by exists []. Qed.

Lemma only_read_trans s s1 s2 : only_read s s1 → only_read s1 s2 → only_read s s2.
Proof.
  intros (e1 & H1 & F1) (e2 & H2 & F2). exists (e2 ++ e1). rewrite H2, H1, app_assoc.
  split; [done|]. by apply Forall_app.
Qed.

Lemma only_read_call {A} (c : Call A) a s w i v :
  writes_secrets (Ev c a) = false → only_read s (St.mk i v w (Ev c a :: St.trace s)).
Proof. intros H. exists [Ev c a]. split; [done|]. by constructor. Qed.

Lemma only_read_elem s s' ev : only_read s s' → ev ∈ St.trace s → ev ∈ St.trace s'.
Proof. intros (evs & -> & _). set_solver. Qed.

(** A part reads its inputs, leaves the instance alone when it goes on, returns
    an error when it does not. *)
Definition part {A} (m : M (St.t W) (option error) A) (P : A → St.t W → Prop) (s : St.t W) : Prop :=
  wp m (λ o s', only_read s s' ∧
          match o with
          | Cont a => St.inst s' = St.inst s ∧ P a s'
          | Ret r => is_Some r
          | Panic => False
          end) s.

Lemma part_try {A} (a : error + A) (P : A → St.t W → Prop) s :
  (∀ x, a = inr x → P x s) → part (try_ a) P s.
Proof.
  intros H. destruct a as [e|x]; (split; [apply only_read_refl|]); simpl; eauto.
Qed.

Lemma part_call {A} (c : Call A) (P : A → St.t W → Prop) s :
  (∀ a, writes_secrets (Ev c a) = false) →
  (∀ a s', only_read s s' → Ev c a ∈ St.trace s' → St.inst s' = St.inst s → P a s') →
  part (call handler c) P s.
Proof.
  intros Hc HP. apply wp_call. intros a w _. split; [by apply only_read_call|].
  split; [done|]. apply HP; [by apply only_read_call| by left |done].
Qed.

Lemma part_ret {A} (a : A) (P : A → St.t W → Prop) s : P a s → part (mret a) P s.
Proof. intros H. split; [apply only_read_refl|done]. Qed.

Lemma part_fail {A} e (P : A → St.t W → Prop) s : part (return_ (Some e)) P s.
Proof. split; [apply only_read_refl|]. simpl. eauto. Qed.

Lemma part_mono {A} (m : M (St.t W) (option error) A) P (P' : A → St.t W → Prop) s :
  part m P s → (∀ a s', only_read s s' → St.inst s' = St.inst s → P a s' → P' a s') → part m P' s.
Proof.
  intros H HP. unfold part in *. eapply wp_mono; [exact H|]. intros [a|r|] s'; simpl; [|done..].
  intros [? [? ?]]. eauto.
Qed.

Lemma part_bind {A B} (m : M (St.t W) (option error) A) (k : A → M (St.t W) (option error) B)
    P (Q : B → St.t W → Prop) s :
  part m P s →
  (∀ a s', only_read s s' → St.inst s' = St.inst s → P a s' → part (k a) Q s') →
  part (m ≫= k) Q s.
Proof.
  intros Hm Hk. unfold part in *. apply wp_bind. eapply wp_mono; [exact Hm|].
  intros [a|r|] s1; [|done..]. intros (Hr & Hi & HP).
  eapply wp_mono; [by apply (Hk a s1)|]. intros o s2 [Hr2 Ho].
  split; [by eapply only_read_trans|]. destruct o; [|done..].
  destruct Ho as [Hi2 ?]. by rewrite Hi2.
Qed.

Lemma part_instance (P : NeutronAPI.t → St.t W → Prop) s :
  P (St.inst s) s → part instance P s.
Proof. intros H. split; [apply only_read_refl|done]. Qed.

(** What [getTransportURL] read. *)
Definition transport_of (i : NeutronAPI.t) (secretName : option string) (t : string * bool)
    (s : St.t W) : Prop :=
  ∃ name sec, secretName = Some name ∧ name ≠ "" ∧
    Ev (GetSecret name (NeutronAPI.Namespace i)) (inr sec) ∈ St.trace s ∧
    Secret.Data sec !! "transport_url" = Some t.1 ∧ t.2 = quorum_queues sec.

(** What [getTransportURL] answers: a URL that was read, or why there is none. *)
Definition transport_answer (i : NeutronAPI.t) (secretName : option string)
    (r : error + (string * bool)) (s : St.t W) : Prop :=
  match r with
  | inr t => transport_of i secretName t s
  | inl e =>
      (default "" secretName = "" ∧ e = errTransportURLSecretNameNilOrEmpty) ∨
      ∃ name, secretName = Some name ∧ name ≠ "" ∧
        (Ev (GetSecret name (NeutronAPI.Namespace i)) (inl e) ∈ St.trace s ∨
         ∃ sec, Ev (GetSecret name (NeutronAPI.Namespace i)) (inr sec) ∈ St.trace s ∧
           Secret.Data sec !! "transport_url" = None ∧
           e = Errorf "transport_url " ErrNotFound " Transport Secret")
  end.

Lemma getTransportURL_part {B} n (k : _ → M (St.t W) (option error) B) (Q : B → St.t W → Prop) s :
  (∀ r s', only_read s s' → St.inst s' = St.inst s → transport_answer (St.inst s) n r s' →
     part (k r) Q s') →
  part (call_fn (getTransportURL handler n) ≫= k) Q s.
Proof.
  intros HQ. apply (part_bind _ _ (transport_answer (St.inst s) n)); [|naive_solver].
  clear. apply wp_call_fn. unfold getTransportURL.
  apply wp_bind, wp_instance, wp_bind. destruct n as [n|].
  2:{ apply wp_return. split; [apply only_read_refl|]. split; [done|]. by left. }
  destruct (bool_decide (n = "")) eqn:En.
  { apply wp_return. split; [apply only_read_refl|]. split; [done|]. left.
    by apply bool_decide_eq_true_1 in En. }
  apply bool_decide_eq_false_1 in En.
  apply wp_ret, wp_bind, wp_call. intros answer w Ha. destruct answer as [e|sec].
  - apply wp_return. split; [by apply only_read_call|]. split; [done|].
    right. exists n. split_and!; [done..|]. left. by left.
  - destruct (Secret.Data sec !! "transport_url") as [u|] eqn:Hu.
    + apply wp_ret. split; [by apply only_read_call|]. split; [done|].
      exists n, sec. split_and!; try done. by left.
    + apply wp_return. split; [by apply only_read_call|]. split; [done|]. right. exists n. split_and!; [done..|].
      right. exists sec. split_and!; [by left|done..].
Qed.

(** What the parts read, as statements on the final trace. *)
Definition ac_read (i : NeutronAPI.t) (kvs : list (string * Param)) (s : St.t W) : Prop :=
  let name := SpecCore.Auth_ApplicationCredentialSecret (NeutronAPI.core i) in
  if bool_decide (name ≠ "") then
    ∃ sec acID acSecret,
      Ev (GetSecret name (NeutronAPI.Namespace i)) (inr sec) ∈ St.trace s ∧
      Secret.Data sec !! ACIDSecretKey = Some acID ∧ acID ≠ "" ∧
      Secret.Data sec !! ACSecretSecretKey = Some acSecret ∧ acSecret ≠ "" ∧
      kvs = [("UseApplicationCredentials", PBool true); ("ACID", PStr acID);
             ("ACSecret", PStr acSecret)]
  else kvs = [].

Lemma application_credential_part s :
  part (application_credential handler) (ac_read (St.inst s)) s.
Proof.
  unfold application_credential. eapply part_bind; [by apply (part_instance (λ i _, i = St.inst s))|].
  intros _ s1 Hr1 Hi1 ->. cbv zeta. unfold ac_read.
  case_bool_decide as Hn; [|by apply part_ret].
  eapply part_bind; [apply part_call; [done|]; intros a s' _ Ha _; exact Ha|].
  intros [e|sec] s2 Hr2 Hi2 Hev.
  { destruct (IsNotFound e); apply part_fail. }
  destruct (Secret.Data sec !! ACIDSecretKey) as [d|] eqn:Hd; [|apply part_fail].
  destruct (Secret.Data sec !! ACSecretSecretKey) as [k|] eqn:Hk; [|apply part_fail].
  destruct (bool_decide (d = "") || bool_decide (k = "")) eqn:Hb; [apply part_fail|].
  apply orb_false_iff in Hb as [?%bool_decide_eq_false_1 ?%bool_decide_eq_false_1].
  apply part_ret. by exists sec, d, k.
Qed.

Definition ovn_read (i : NeutronAPI.t) (kvs : list (string * Param)) (s : St.t W) : Prop :=
  if IsOVNEnabled i then
    ∃ nb sb n e,
      Ev (GetDBClusterByType (NeutronAPI.Namespace i) NBDBType) (inr nb) ∈ St.trace s ∧
      OVN_GetInternalEndpoint nb = inr n ∧
      Ev (GetDBClusterByType (NeutronAPI.Namespace i) SBDBType) (inr sb) ∈ St.trace s ∧
      OVN_GetInternalEndpoint sb = inr e ∧
      kvs = [("NBConnection", PStr n); ("SBConnection", PStr e); ("OVNDB_TLS", ovn_tls i)]
  else kvs = [].

Lemma ovn_parameters_part s : part (ovn_parameters handler) (ovn_read (St.inst s)) s.
Proof.
  unfold ovn_parameters. eapply part_bind; [by apply (part_instance (λ i _, i = St.inst s))|].
  intros _ s1 Hr1 Hi1 ->. unfold ovn_read. destruct (IsOVNEnabled (St.inst s)); [|by apply part_ret].
  eapply part_bind; [apply part_call; [done|]; intros a s' _ Ha _; exact Ha|].
  intros nb s2 Hr2 Hi2 Hev. simpl in Hev.
  eapply part_bind; [apply part_try; intros x Hx; exact Hx|]. intros nb' s3 Hr3 Hi3 ->.
  eapply part_bind; [apply part_try; intros x Hx; exact Hx|]. intros n s4 Hr4 Hi4 Hn.
  eapply part_bind; [apply part_call; [done|]; intros a s' _ Ha _; exact Ha|].
  intros sb s5 Hr5 Hi5 Hev5. simpl in Hev5.
  eapply part_bind; [apply part_try; intros x Hx; exact Hx|]. intros sb' s6 Hr6 Hi6 ->.
  eapply part_bind; [apply part_try; intros x Hx; exact Hx|]. intros e s7 Hr7 Hi7 He.
  apply part_ret. exists nb', sb', n, e. split_and!; try done.
  - do 5 (eapply only_read_elem; [eassumption|]). done.
  - do 2 (eapply only_read_elem; [eassumption|]). done.
Qed.

(** The notifications URL: none for an unset Secret name (or a Secret that could
    not be read, with the error that stands for an unset name), else the one of
    the Secret, when it is not empty. *)
Definition notifications_read (i : NeutronAPI.t) (n : option string)
    (kvs : list (string * Param)) (s : St.t W) : Prop :=
  (default "" n = "" ∧ kvs = []) ∨
  (∃ e, default "" n ≠ "" ∧ transport_answer i n (inl e) s ∧
     errors_Is e errTransportURLSecretNameNilOrEmpty = true ∧ kvs = []) ∨
  (∃ t, transport_of i n t s ∧
     kvs = if decide (t.1 = "") then [] else [("NotificationsTransportURL", PStr t.1)]).

Lemma notifications_part n s :
  part (notifications_parameter handler n) (notifications_read (St.inst s) n) s.
Proof.
  apply getTransportURL_part. intros [e|[u q]] s' Hr Hi Ht; cbv beta iota.
  - destruct (errors_Is e errTransportURLSecretNameNilOrEmpty) eqn:He; [|apply part_fail].
    apply part_ret. destruct Ht as [[? _]|Ht]; [by left|]. right. left. exists e.
    split_and!; [|by right|done..]. by destruct Ht as (name & -> & ? & _).
  - case_bool_decide as Hu; apply part_ret; right; right; exists (u, q);
      (split; [done|]); cbn [fst]; by case_decide.
Qed.

(** What the Keystone, messaging, memcached and Secret look-ups of
    [service_inputs] answered. *)
Definition inputs_read (i : NeutronAPI.t) (n : string)
    (r : KeystoneAPI.t * string * string * (string * bool) * Memcached.t * Secret.t)
    (s : St.t W) : Prop :=
  let '(ks, internal, public, t, mc, sec) := r in
  let ns := NeutronAPI.Namespace i in
  Ev (GetKeystoneAPI ns) (inr ks) ∈ St.trace s ∧
  KeystoneAPI_GetEndpoint ks EndpointInternal = inr internal ∧
  KeystoneAPI_GetEndpoint ks EndpointPublic = inr public ∧
  transport_of i (Some n) t s ∧
  Ev (GetMemcachedByName (SpecCore.MemcachedInstance (NeutronAPI.core i)) ns) (inr mc)
    ∈ St.trace s ∧
  Ev (GetSecret (SpecCore.Secret (NeutronAPI.core i)) ns) (inr sec) ∈ St.trace s.

Lemma transport_of_grows i n t s s' : only_read s s' → transport_of i n t s → transport_of i n t s'.
Proof.
  intros Hr (name & sec & ? & ? & ? & ? & ?). exists name, sec. split_and!; try done.
  by eapply only_read_elem.
Qed.

Lemma inputs_read_grows i n r s s' : only_read s s' → inputs_read i n r s → inputs_read i n r s'.
Proof.
  destruct r as [[[[[ks u1] u2] t] mc] sec]. intros Hr (? & ? & ? & ? & ? & ?).
  split_and!; try done; first [by eapply only_read_elem | by eapply transport_of_grows].
Qed.

Lemma service_inputs_part n s :
  part (service_inputs handler n) (inputs_read (St.inst s) n) s.
Proof.
  unfold service_inputs. eapply part_bind; [by apply (part_instance (λ i _, i = St.inst s))|].
  intros _ s1 Hr1 Hi1 ->.
  eapply part_bind; [apply part_call; [done|]; intros a s' _ Ha _; exact Ha|].
  intros ks s2 Hr2 Hi2 Hev2. simpl in Hev2.
  eapply part_bind; [apply part_try; intros x Hx; exact Hx|]. intros ks' s3 Hr3 Hi3 ->.
  eapply part_bind; [apply part_try; intros x Hx; exact Hx|]. intros u1 s4 Hr4 Hi4 Hu1.
  eapply part_bind; [apply part_try; intros x Hx; exact Hx|]. intros u2 s5 Hr5 Hi5 Hu2.
  assert (St.inst s5 = St.inst s) as Hi by congruence.
  apply getTransportURL_part. rewrite Hi. intros r s6 Hr6 Hi6 Ht.
  apply (part_bind _ _ (λ t s', transport_of (St.inst s) (Some n) t s')).
  { destruct r as [e|t]; [|by apply part_ret].
    apply wp_bind. apply wp_update_inst, wp_return. split; [by exists []|simpl; eauto]. }
  intros t s7 Hr7 Hi7 Ht7.
  eapply part_bind; [apply part_call; [done|]; intros a s' _ Ha _; exact Ha|].
  intros mc s8 Hr8 Hi8 Hev8. simpl in Hev8.
  eapply part_bind; [apply part_try; intros x Hx; exact Hx|]. intros mc' s9 Hr9 Hi9 ->.
  eapply part_bind; [apply part_call; [done|]; intros a s' _ Ha _; exact Ha|].
  intros sec s10 Hr10 Hi10 Hev10. simpl in Hev10.
  eapply part_bind; [apply part_try; intros x Hx; exact Hx|]. intros sec' s11 Hr11 Hi11 ->.
  apply part_ret. unfold inputs_read. split_and!; try done.
  - do 9 (eapply only_read_elem; [eassumption|]). done.
  - do 4 (eapply transport_of_grows; [eassumption|]). done.
  - do 3 (eapply only_read_elem; [eassumption|]). done.
  - eapply only_read_elem; done.
Qed.

(** The strategy written to the configuration is the probe's verdict. *)
Definition wsgi_read (i : NeutronAPI.t) (b : bool) (s : St.t W) : Prop :=
  if IsWSGI i then
    ∃ answer, Ev (GetJob (NamespacedName.mk (ImageProbeJobName i) (NeutronAPI.Namespace i))) answer
                ∈ St.trace s ∧ b = probe_verdict i answer
  else b = false.

Lemma wsgi_part labels annotations s :
  part (call_fn (IsWSGIEffective handler labels annotations)) (wsgi_read (St.inst s)) s.
Proof.
  eapply wp_call_spec.
  - apply (wp_IsWSGIEffective _ _ _ (λ b s', only_read s s' ∧ St.inst s' = St.inst s ∧
                                       wsgi_read (St.inst s) b s')).
    + intros Hw. split_and!; [apply only_read_refl|done|]. unfold wsgi_read. by rewrite Hw.
    + intros Hw answer w evs get Hact. split_and!; [|done|].
      * exists (evs ++ [Ev get answer]). simpl. rewrite <-app_assoc. split; [done|].
        apply Forall_app. split; [|by repeat constructor].
        destruct answer as [e|j]; simpl in Hact; [destruct (IsNotFound e)|destruct stale_probe];
          first [subst evs | destruct Hact as [r ->]]; by repeat constructor.
      * unfold wsgi_read. rewrite Hw. exists answer. split; [|done]. simpl. set_solver.
  - intros b s' (? & ? & ?). done.
Qed.

(** ** The Secrets that are written *)

(** The parameters a template may use. *)
Definition parameter_names : list string :=
  ["ServiceUser"; "KeystoneInternalURL"; "KeystonePublicURL"; "Region"; "TransportURL";
   "MemcachedServers"; "MemcachedServersWithInet"; "MemcachedTLS"; "TimeOut"; "QuorumQueues"; "WSGI";
   "NotificationsTransportURL"; "MemcachedAuthCert"; "MemcachedAuthKey"; "MemcachedAuthCa";
   "ServicePassword"; "UseApplicationCredentials"; "ACID"; "ACSecret";
   "DbHost"; "DbUser"; "DbPassword"; "Db"; "CorePlugin"; "Ml2MechanismDrivers"; "IsOVN";
   "NBConnection"; "SBConnection"; "OVNDB_TLS"; "VHosts"].

(** The parameters that come from Keystone, the transport Secret, memcached and
    the service Secret. *)
Definition inputs_ok (i : NeutronAPI.t) (tn : string) (p : gmap string Param) (s : St.t W) : Prop :=
  ∃ ks internal public t mc sec,
    inputs_read i tn (ks, internal, public, t, mc, sec) s ∧
    p !! "KeystoneInternalURL" = Some (PStr internal) ∧
    p !! "KeystonePublicURL" = Some (PStr public) ∧
    p !! "Region" = Some (PStr (KeystoneAPI_GetRegion ks)) ∧
    p !! "TransportURL" = Some (PStr t.1) ∧
    p !! "QuorumQueues" = Some (PBool t.2) ∧
    p !! "MemcachedServers" = Some (PStr (GetMemcachedServerListString mc)) ∧
    p !! "MemcachedServersWithInet" = Some (PStr (GetMemcachedServerListWithInetString mc)) ∧
    p !! "MemcachedTLS" = Some (PBool (GetMemcachedTLSSupport mc)) ∧
    (let mtls v := if decide (GetMemcachedMTLSSecret mc = "") then None else Some (PStr v) in
     p !! "MemcachedAuthCert" = mtls CertMountPath ∧
     p !! "MemcachedAuthKey" = mtls KeyMountPath ∧
     p !! "MemcachedAuthCa" = mtls CaMountPath) ∧
    p !! "ServicePassword" =
      Some (PStr (default "" (Secret.Data sec !! SpecCore.PasswordSelectors_Service (NeutronAPI.core i)))).

(** The parameters that come from the spec, the status and the database. *)
Definition spec_ok (i : NeutronAPI.t) (db : Database.t) (p : gmap string Param) : Prop :=
  let core := NeutronAPI.core i in
  p !! "ServiceUser" = Some (PStr (SpecCore.ServiceUser core)) ∧
  p !! "TimeOut" = Some (PInt (SpecCore.APITimeout core)) ∧
  p !! "CorePlugin" = Some (PStr (SpecCore.CorePlugin core)) ∧
  p !! "Ml2MechanismDrivers" =
    Some (PStr (String.concat "," (SpecCore.Ml2MechanismDrivers core))) ∧
  p !! "DbHost" = Some (PStr (Status.DatabaseHostname (NeutronAPI.Status i))) ∧
  p !! "DbUser" = PStr ∘ MariaDBAccount.UserName <$> Database_GetAccount db ∧
  p !! "DbPassword" =
    (λ sec, PStr (default "" (Secret.Data sec !! DatabasePasswordSelector)))
      <$> Database_GetSecret db ∧
  p !! "Db" = Some (PStr "neutron") ∧
  p !! "VHosts" = Some (PMap (httpd_vhosts i)).

(** A parameter map agrees with what was read, and holds nothing else. *)
Definition parameters_ok (i : NeutronAPI.t) (db : Database.t) (tn : string) (nn : option string)
    (p : gmap string Param) (s : St.t W) : Prop :=
  inputs_ok i tn p s ∧ spec_ok i db p ∧
  (∃ b, wsgi_read i b s ∧ p !! "WSGI" = Some (PBool b)) ∧
  (∃ kvs, notifications_read i nn kvs s ∧
     p !! "NotificationsTransportURL" = assigned "NotificationsTransportURL" kvs) ∧
  (∃ kvs, ac_read i kvs s ∧
     p !! "UseApplicationCredentials" = Some (default (PBool false) (assigned "UseApplicationCredentials" kvs)) ∧
     p !! "ACID" = assigned "ACID" kvs ∧ p !! "ACSecret" = assigned "ACSecret" kvs) ∧
  (∃ kvs, ovn_read i kvs s ∧ p !! "IsOVN" = Some (PBool (IsOVNEnabled i)) ∧
     p !! "NBConnection" = assigned "NBConnection" kvs ∧
     p !! "SBConnection" = assigned "SBConnection" kvs ∧
     p !! "OVNDB_TLS" = assigned "OVNDB_TLS" kvs) ∧
  (∀ k, is_Some (p !! k) → k ∈ parameter_names).

Lemma ac_read_cases i kvs s :
  ac_read i kvs s →
  kvs = [] ∨ ∃ d k, kvs = [("UseApplicationCredentials", PBool true); ("ACID", PStr d); ("ACSecret", PStr k)].
Proof. unfold ac_read. case_bool_decide; naive_solver. Qed.

Lemma ovn_read_cases i kvs s :
  ovn_read i kvs s →
  kvs = [] ∨ ∃ n e v, kvs = [("NBConnection", PStr n); ("SBConnection", PStr e); ("OVNDB_TLS", v)].
Proof. unfold ovn_read. destruct (IsOVNEnabled i); naive_solver. Qed.

Lemma notifications_read_cases i n kvs s :
  notifications_read i n kvs s → kvs = [] ∨ ∃ u, kvs = [("NotificationsTransportURL", PStr u)].
Proof. intros [[_ ->]|[(? & _ & _ & _ & ->)|(t & _ & ->)]]; [..|case_decide]; eauto. Qed.

Lemma mtls_params_cases mc (mtls := λ v, if decide (GetMemcachedMTLSSecret mc = "") then None
                                         else Some (PStr v)) :
  (mtls_params mc = [] ∧ mtls CertMountPath = None ∧ mtls KeyMountPath = None ∧
     mtls CaMountPath = None) ∨
  (mtls_params mc = [("MemcachedAuthCert", PStr CertMountPath); ("MemcachedAuthKey", PStr KeyMountPath);
                     ("MemcachedAuthCa", PStr CaMountPath)] ∧
     mtls CertMountPath = Some (PStr CertMountPath) ∧ mtls KeyMountPath = Some (PStr KeyMountPath) ∧
     mtls CaMountPath = Some (PStr CaMountPath)).
Proof. unfold mtls_params, mtls. case_bool_decide; case_decide; auto; tauto. Qed.

Lemma notifications_read_grows i n kvs s s' :
  only_read s s' → notifications_read i n kvs s → notifications_read i n kvs s'.
Proof.
  intros Hr [?|[(e & Hn & Ht & ?)|(t & Ht & ?)]]; [by left|right; left|right; right].
  - exists e. split_and!; try tauto. destruct Ht as [?|(name & ? & ? & Hev)]; [by left|right].
    exists name. split_and!; [done..|]. destruct Hev as [?|(sec & ? & ?)]; [left|right; exists sec];
      [|split; [|done]]; by eapply only_read_elem.
  - exists t. split; [by eapply transport_of_grows|done].
Qed.

Lemma names_closed (l : list string) k :
  Forall (λ x, x ∈ parameter_names) l → k ∈ l → k ∈ parameter_names.
Proof. rewrite Forall_forall. auto. Qed.

Lemma assign_names kvs k : is_Some (assign kvs ∅ !! k) → k ∈ kvs.*1.
Proof.
  rewrite assign_lookup, lookup_empty. induction kvs as [|[k' v] kvs IH]; simpl; [by intros [? [=]]|].
  destruct (assigned k kvs) eqn:E; [intros _; right; apply IH; by eexists|].
  destruct (String.eqb_spec k' k) as [->|]; [by left|]. intros [? [=]].
Qed.

Lemma ac_read_grows i kvs s s' : only_read s s' → ac_read i kvs s → ac_read i kvs s'.
Proof.
  intros Hr. unfold ac_read. case_bool_decide; [|done].
  intros (sec & d & k & Hev & Hk). exists sec, d, k. split; [by eapply only_read_elem|done].
Qed.

Lemma wsgi_read_grows i b s s' : only_read s s' → wsgi_read i b s → wsgi_read i b s'.
Proof.
  intros Hr. unfold wsgi_read. destruct (IsWSGI i); [|done].
  intros (a & Hev & H). exists a. split; [by eapply only_read_elem|done].
Qed.

(** Splits the optional groups of parameters into their cases and computes the
    look-up in each. *)
Ltac solve_lookup Hn Hac Hovn Hmc :=
  destruct Hn as [->|[? ->]], Hac as [->|(? & ? & ->)],
    Hovn as [->|(? & ? & ? & ->)];
  (let E1 := fresh in let E2 := fresh in let E3 := fresh in
   destruct Hmc as [(-> & E1 & E2 & E3)|(-> & E1 & E2 & E3)]; rewrite ?E1, ?E2, ?E3);
  repeat split; reflexivity.

Lemma part_force {A} (o : option A) (P : A → St.t W → Prop) s :
  is_Some o → (∀ a, o = Some a → P a s) → part (force o) P s.
Proof. intros [a ->] HP. split; [apply only_read_refl|]. simpl. auto. Qed.

Lemma template_parameters_part db labels annotations tn nn s :
  db_loaded db →
  part (template_parameters handler db labels annotations tn nn)
    (parameters_ok (St.inst s) db tn nn) s.
Proof.
  intros [Hacc Hsec].
  unfold template_parameters. eapply part_bind; [by apply (part_instance (λ i _, i = St.inst s))|].
  intros _ s0 Hr0 Hi0 ->. cbv zeta.
  eapply part_bind; [apply service_inputs_part|].
  intros [[[[[ks u1] u2] [url qq]] mc] sec] s1 Hr1 Hi1 Hin.
  eapply part_bind; [apply wsgi_part|]. intros wsgi s2 Hr2 Hi2 Hwsgi.
  eapply part_bind; [apply notifications_part|]. intros notif s3 Hr3 Hi3 Hnotif.
  eapply part_bind; [apply application_credential_part|]. intros ac s4 Hr4 Hi4 Hac.
  eapply part_bind; [apply part_force; [exact Hacc|]; intros a Ha; exact Ha|].
  intros account s4' Hr4' Hi4' Haccount.
  eapply part_bind; [apply part_force; [exact Hsec|]; intros a Ha; exact Ha|].
  intros dbsec s4'' Hr4'' Hi4'' Hdbsec.
  eapply part_bind; [apply ovn_parameters_part|]. intros ovn s5 Hr5 Hi5 Hovn.
  rewrite Hi4'', Hi4', Hi4, Hi3, Hi2, Hi1, Hi0 in *.
  pose proof (only_read_trans _ _ _ Hr4' (only_read_trans _ _ _ Hr4'' Hr5)) as Hr45.
  pose proof (only_read_trans _ _ _ Hr4 Hr45) as Hr35.
  pose proof (only_read_trans _ _ _ Hr3 Hr35) as Hr25.
  pose proof (only_read_trans _ _ _ Hr2 Hr25) as Hr15.
  apply part_ret. unfold parameters_ok.
  pose proof (notifications_read_cases _ _ _ _ Hnotif) as Hn.
  pose proof (ac_read_cases _ _ _ Hac) as Hac'. pose proof (ovn_read_cases _ _ _ Hovn) as Hovn'.
  pose proof (mtls_params_cases mc) as Hmc'. cbv zeta beta in Hmc'.
  split_and!.
  - exists ks, u1, u2, (url, qq), mc, sec. split; [exact (inputs_read_grows _ _ _ _ _ Hr15 Hin)|].
    cbv beta zeta. rewrite ?assign_lookup. solve_lookup Hn Hac' Hovn' Hmc'.
  - unfold spec_ok. rewrite Haccount, Hdbsec. cbv beta zeta. rewrite ?assign_lookup.
    solve_lookup Hn Hac' Hovn' Hmc'.
  - exists wsgi. split; [exact (wsgi_read_grows _ _ _ _ Hr25 Hwsgi)|].
    rewrite ?assign_lookup. solve_lookup Hn Hac' Hovn' Hmc'.
  - exists notif. split; [exact (notifications_read_grows _ _ _ _ _ Hr35 Hnotif)|].
    rewrite ?assign_lookup. solve_lookup Hn Hac' Hovn' Hmc'.
  - exists ac. split; [exact (ac_read_grows _ _ _ _ Hr45 Hac)|].
    rewrite ?assign_lookup. solve_lookup Hn Hac' Hovn' Hmc'.
  - exists ovn. split; [done|]. rewrite ?assign_lookup. solve_lookup Hn Hac' Hovn' Hmc'.
  - intros k Hk%assign_names. revert Hk. apply names_closed.
    destruct Hn as [->|[? ->]], Hac' as [->|(? & ? & ->)], Hovn' as [->|(? & ? & ? & ->)],
      Hmc' as [(-> & _)|(-> & _)]; apply (bool_decide_unpack _); vm_compute; exact I.
Qed.

(** C14: on a database whose account and Secret are loaded,
    [generateServiceSecrets] never panics.  When it reports no error, its last
    call wrote the two Secrets the pods mount, from one set of parameters,
    [parameters_ok]: the internal and public URL and the region of the KeystoneAPI
    read, the transport URL and quorum setting of the transport Secret, the server
    lists, TLS and client certificate of the Memcached read, the service password
    of the service Secret, the user name and password of the database account, the
    fields of the spec and status, the virtual hosts, the strategy the image
    supports, the notifications URL exactly when a Secret is named and its URL is
    not empty, application credentials (non-empty, from the Secret the spec names)
    exactly when the spec names one, the internal endpoints of the OVN databases
    exactly when OVN is enabled, and no other parameter.  When it reports an error,
    either no Secret was written at all or the error is the one of the write. *)
Theorem generateServiceSecrets_spec db labels annotations tn nn s :
  db_loaded db →
  let i := St.inst s in
  ∃ err s', returns (generateServiceSecrets handler db labels annotations tn nn) s = Some (err, s') ∧
    match err with
    | None =>
        ∃ p env env' s1, parameters_ok i db tn nn p s1 ∧ only_read s s1 ∧
          St.trace s' = Ev (EnsureSecrets [config_template i db p; httpd_template i p] env)
                           (env', None) :: St.trace s1 ∧
          St.vars s' = env' ∧ St.inst s' = i
    | Some e =>
        only_read s s' ∨
        ∃ ts env env' s1, only_read s s1 ∧
          St.trace s' = Ev (EnsureSecrets ts env) (env', Some e) :: St.trace s1
    end.
Proof.
  intros Hdb i. apply fn_spec_returns. unfold fn_spec, generateServiceSecrets.
  apply wp_bind, wp_instance, wp_bind. fold i.
  eapply wp_mono; [by apply (template_parameters_part db labels annotations tn nn s)|].
  intros o s1 [Hr1 Ho]. destruct o as [p|r|]; [|destruct Ho as [e ->]; by left|done].
  destruct Ho as [Hi1 Hp].
  apply wp_bind, wp_get_vars, wp_bind, wp_call. intros [env' err] w _.
  apply wp_bind, wp_put_vars, wp_ret. simpl. destruct err as [e|].
  - right. by do 3 eexists; exists s1.
  - by exists p, (St.vars s1), env', s1.
Qed.

End config_spec.

(** ** The Secrets hold what the pods mount *)

Section mounted.
Context `{L : Lib}.

(** The keys a template is given: custom data, additional and common templates,
    and the files of its directory when it is of type config. *)
Definition template_keys (t : Template.t) : list string :=
  (elements (dom (Template.CustomData t)) ++ elements (dom (Template.AdditionalTemplate t)) ++
   Template.CommonTemplates t ++
   match Template.Type_ t with TemplateTypeConfig => config_dir_files | TemplateTypeNone => [] end).

Lemma policyOverwrite_key i :
  policyOverwrite i = true →
  is_Some (SpecCore.DefaultConfigOverwrite (NeutronAPI.core i) !! "policy.yaml").
Proof. unfold policyOverwrite. by destruct (_ !! _). Qed.

Lemma custom_data_key i db k :
  k ∈ ["02-neutron-custom.conf"; "my.cnf"] ∨
  is_Some (SpecCore.DefaultConfigOverwrite (NeutronAPI.core i) !! k) →
  k ∈ elements (dom (custom_data i db)).
Proof.
  intros H. apply elem_of_elements. unfold custom_data.
  rewrite dom_union_L, dom_insert_L, dom_singleton_L, !elem_of_union, elem_of_dom, !elem_of_singleton.
  rewrite !elem_of_cons, elem_of_nil in H. tauto.
Qed.

(** C22: every file a pod mounts out of the configuration Secrets is in them: a
    mount of the config or httpd-config volume names a volume whose Secret is
    one that [generateServiceSecrets] writes, and its [SubPath] is a key of that
    Secret, [policy.yaml] included, which is mounted only when the user supplies
    it. *)
Theorem config_mounts_served i db p extra svc volumes m :
  GetVolumes (NeutronAPI.Name i) extra svc = Some volumes →
  m ∈ config_mounts (policyOverwrite i) ∨
  (m ∈ GetHttpdVolumeMount ∧ m ≠ WritableDirVolumeMount RunHttpdVolumeName RunHttpdMountPath) →
  ∃ t, t ∈ [config_template i db p; httpd_template i p] ∧
       config_volume (VolumeMount.Name m) (Template.Name t) ∈ volumes ∧
       VolumeMount.SubPath m ∈ template_keys t.
Proof.
  intros Hv Hm. unfold GetVolumes in Hv. apply bind_Some in Hv as (ex & _ & Hv).
  apply (inj Some) in Hv as <-. destruct Hm as [Hm|[Hm Hne]].
  - exists (config_template i db p). split; [by left|].
    assert (VolumeMount.Name m = "config" ∧
            (VolumeMount.SubPath m = "01-neutron.conf" ∨
             VolumeMount.SubPath m ∈ ["02-neutron-custom.conf"; "my.cnf"] ∨
             is_Some (SpecCore.DefaultConfigOverwrite (NeutronAPI.core i) !! VolumeMount.SubPath m)))
      as [-> Hsub].
    { unfold config_mounts in Hm. destruct (policyOverwrite i) eqn:Hp;
        repeat (apply elem_of_cons in Hm as [->|Hm]; [split; [done|]; simpl; try set_solver|]);
        try by apply not_elem_of_nil in Hm.
      right. right. by apply policyOverwrite_key. }
    split; [by left|]. unfold template_keys. cbn [Template.CustomData config_template].
    rewrite !elem_of_app. destruct Hsub as [->|Hsub]; [|left; by apply custom_data_key].
    right. right. right. simpl. by left.
  - exists (httpd_template i p). split; [right; by left|].
    assert (VolumeMount.Name m = "httpd-config" ∧
            VolumeMount.SubPath m ∈ ["httpd.conf"; "10-neutron-httpd.conf"; "ssl.conf"]) as [-> Hsub].
    { unfold GetHttpdVolumeMount in Hm.
      do 3 (apply elem_of_cons in Hm as [->|Hm]; [split; [done|]; simpl; set_solver|]).
      apply list_elem_of_singleton in Hm. done. }
    split; [right; by left|]. unfold template_keys. cbn [Template.AdditionalTemplate
      Template.CommonTemplates httpd_template]. rewrite !elem_of_app.
    rewrite !elem_of_cons, elem_of_nil in Hsub. destruct Hsub as [->|[->|[->|[]]]].
    1,2: right; left; apply elem_of_elements; rewrite dom_insert_L, dom_singleton_L; set_solver.
    right. right. left. by left.
Qed.

End mounted.

(** ** The hash of the inputs *)

Section hash.
Context `{L : Lib} `{!LibLaws L} {W : Type} (handler : ∀ R, Call R → W → R * W).

(** [createHashOfInputHashes] never panics.  Without an error the status
    records the hash of the merged variables under the input name, every other
    hash is as before, and the result says whether the recorded hash changed;
    with an error nothing changes.  It makes no call. *)
Theorem createHashOfInputHashes_spec (s : St.t W) :
  ∃ changed err s', returns createHashOfInputHashes s = Some ((changed, err), s') ∧
    St.trace s' = St.trace s ∧ St.vars s' = St.vars s ∧
    match ObjectHash (MergeEnvs [] (St.vars s)) with
    | inl e => changed = false ∧ err = Some e ∧ s' = s
    | inr hash =>
        err = None ∧ map_read (hashes s') InputHashName = Some hash ∧
        (∀ k, k ≠ InputHashName → map_read (hashes s') k = map_read (hashes s) k) ∧
        (is_Some (hashes s) → is_Some (hashes s')) ∧
        (changed = false → s' = s)
    end.
Proof.
  assert (fn_spec createHashOfInputHashes (λ r s',
    St.trace s' = St.trace s ∧ St.vars s' = St.vars s ∧
    match ObjectHash (MergeEnvs [] (St.vars s)) with
    | inl e => r.1 = false ∧ r.2 = Some e ∧ s' = s
    | inr hash =>
        r.2 = None ∧ map_read (hashes s') InputHashName = Some hash ∧
        (∀ k, k ≠ InputHashName → map_read (hashes s') k = map_read (hashes s) k) ∧
        (is_Some (hashes s) → is_Some (hashes s')) ∧
        (r.1 = false → s' = s)
    end) s) as H; [|apply fn_spec_returns in H as ([c e] & s' & ? & ?); by exists c, e, s'].
  unfold fn_spec, createHashOfInputHashes.
  apply wp_bind, wp_instance, wp_bind, wp_get_vars. cbv zeta.
  destruct (ObjectHash (MergeEnvs [] (St.vars s))) as [e|hash]; [by apply wp_return|].
  destruct (SetHash _ InputHashName hash) as [m changed] eqn:Hset.
  apply SetHash_spec in Hset. apply wp_bind, wp_when; intros ->.
  - destruct Hset as (? & ? & ?). apply wp_update_status, wp_ret. simpl. unfold hashes. simpl.
    split_and!; try done. intros k Hk. eauto.
  - by apply wp_ret.
Qed.

End hash.
