(* ===== verification/Delete.v ===== *)
(** * Deletion

    [reconcileDelete] of [neutronapi_controller.go]: every finalizer the
    operator put on other objects is removed before its own finalizer on the
    NeutronAPI is. *)

From S2P Require Import Prelude K8s Conditions Lib Api GoMonad External.

(** The result of [Reconcile] and of the functions it ends in. *)
Abbreviation RetVal := (Result * option error)%type (only parsing).

Definition notifications_transport_name : string := "notifications-neutron-transport".

(** [fmt.Sprintf("%s-neutron-transport", instance.Name)] *)
Definition transport_name (i : NeutronAPI.t) : string :=
  NeutronAPI.Name i +:+ "-neutron-transport".

Definition set_keystone_finalizers (fs : list string) (o : KeystoneObject.t) : KeystoneObject.t :=
  KeystoneObject.mk (KeystoneObject.Name o) (KeystoneObject.Namespace o) fs (KeystoneObject.rest o).

Section delete.
Context `{L : Lib} {W : Type} (handler : ∀ R, Call R → W → R * W).

Abbreviation fn R := (M (St.t W) R R).

(** [if err != nil { return ctrl.Result{}, err }] *)
Definition fail_on (err : option error) : M (St.t W) RetVal unit :=
  match err with Some e => return_ (Result0, Some e) | None => mret () end.

(** [if err != nil && !IsNotFound(err) { return ctrl.Result{}, err }] *)
Definition fail_unless_not_found (err : option error) : M (St.t W) RetVal unit :=
  match err with
  | Some e => when (negb (IsNotFound e)) (return_ (Result0, Some e))
  | None => mret ()
  end.

(** The block that releases the MariaDBDatabase. *)
Definition release_database : M (St.t W) RetVal unit :=
  i ← instance;
  db ← call handler (GetDatabaseByNameAndAccount DatabaseCRName
                       (SpecCore.DatabaseAccount (NeutronAPI.core i)) (NeutronAPI.Namespace i));
  match db with
  | inl err => fail_unless_not_found (Some err)
  | inr db => err ← call handler (Database_DeleteFinalizer db); fail_on err
  end.

(** The blocks that release the KeystoneEndpoint and the KeystoneService. *)
Definition release_keystone (get : Call (error + KeystoneObject.t))
    (update : KeystoneObject.t → Call (option error)) : M (St.t W) RetVal unit :=
  i ← instance;
  answer ← call handler get;
  match answer with
  | inl err => fail_unless_not_found (Some err)
  | inr o =>
      let '(fs, removed) := RemoveFinalizer (KeystoneObject.Finalizers o)
                              (GetFinalizer (NeutronAPI.Kind i)) in
      when removed
        (err ← call handler (update (set_keystone_finalizers fs o));
         fail_unless_not_found err)
  end.

(** The loop that collects the secrets of the live TransportURLs. *)
Fixpoint live_transport_secrets (ns : string) (names : list string)
  : M (St.t W) RetVal (list string) :=
  match names with
  | [] => mret []
  | tuName :: names =>
      answer ← call handler (GetTransportURLObject (NamespacedName.mk tuName ns));
      match answer with
      | inl err =>
          fail_unless_not_found (Some err);; live_transport_secrets ns names
      | inr tu =>
          rest ← live_transport_secrets ns names;
          mret (TransportURL.SecretName tu :: rest)
      end
  end.

(** [for _, secretName := range secrets { RemoveSecretConsumerFinalizer }] *)
Definition remove_consumer_finalizers (ns finalizer : string) (secrets : list string)
  : M (St.t W) RetVal unit :=
  for_each secrets (λ secretName,
    err ← call handler (RemoveSecretConsumerFinalizer ns secretName finalizer);
    fail_on err).

(** The block that releases the Topology. *)
Definition release_topology : M (St.t W) RetVal unit :=
  i ← instance;
  '(ctrlResult, err) ← call handler
    (EnsureDeletedTopologyRef (Status.LastAppliedTopology (NeutronAPI.Status i)) (NeutronAPI.Name i));
  match err with Some e => return_ (ctrlResult, Some e) | None => mret () end.

(** The block that releases the transport secrets, of the status and of the live
    TransportURLs. *)
Definition release_transport : M (St.t W) RetVal unit :=
  i ← instance;
  let ns := NeutronAPI.Namespace i in
  live ← live_transport_secrets ns [transport_name i; notifications_transport_name];
  let transportSecrets :=
    [Status.TransportURLSecret (NeutronAPI.Status i)] ++ live ++
    match Status.NotificationsTransportURLSecret (NeutronAPI.Status i) with
    | Some s => [s]
    | None => []
    end in
  remove_consumer_finalizers ns TransportConsumerFinalizer transportSecrets.

(** [if err := PruneSecretConsumerFinalizers(...); err != nil { return } ] *)
Definition prune_all (ns finalizer : string) : M (St.t W) RetVal unit :=
  err ← call handler (PruneSecretConsumerFinalizers ns finalizer []);
  fail_on err.

(** [reconcileDelete] up to the removal of the NeutronAPI's own finalizer. *)
Definition delete_references : M (St.t W) RetVal unit :=
  i ← instance;
  let ns := NeutronAPI.Namespace i in
  release_database;;
  release_keystone (GetKeystoneEndpointWithName ServiceName ns) UpdateKeystoneEndpoint;;
  release_keystone (GetKeystoneServiceWithName ServiceName ns) UpdateKeystoneService;;
  release_topology;;
  release_transport;;
  prune_all ns TransportConsumerFinalizer;;
  prune_all ns ACConsumerFinalizer;;
  remove_consumer_finalizers ns ACConsumerFinalizer
    [Status.ApplicationCredentialSecret (NeutronAPI.Status i);
     SpecCore.Auth_ApplicationCredentialSecret (NeutronAPI.core i)].

(** [reconcileDelete] *)
Definition reconcileDelete : fn RetVal :=
  delete_references;;
  update_inst (λ i, NeutronAPI.set_Finalizers
    (RemoveFinalizer (NeutronAPI.Finalizers i) (GetFinalizer (NeutronAPI.Kind i))).1 i);;
  mret (Result0, None).

(** ** Specification *)

(** A call was made and its answer satisfies [P]. *)
Definition answered {A} (c : Call A) (P : A → Prop) (tr : list event) : Prop :=
  ∃ a, Ev c a ∈ tr ∧ P a.

Definition ok (r : option error) : Prop := r = None.
Definition ok_or_gone (r : option error) : Prop := (from_option IsNotFound true r) = true.

Definition db_released (i : NeutronAPI.t) (tr : list event) : Prop :=
  answered (GetDatabaseByNameAndAccount DatabaseCRName
              (SpecCore.DatabaseAccount (NeutronAPI.core i)) (NeutronAPI.Namespace i))
    (λ a, match a with
          | inl e => IsNotFound e = true
          | inr db => answered (Database_DeleteFinalizer db) ok tr
          end) tr.

Definition keystone_released (i : NeutronAPI.t) (get : Call (error + KeystoneObject.t))
    (update : KeystoneObject.t → Call (option error)) (tr : list event) : Prop :=
  answered get
    (λ a, match a with
          | inl e => IsNotFound e = true
          | inr o =>
              GetFinalizer (NeutronAPI.Kind i) ∈ KeystoneObject.Finalizers o →
              ∃ fs, (GetFinalizer (NeutronAPI.Kind i) ∉ fs) ∧
                answered (update (set_keystone_finalizers fs o)) ok_or_gone tr
          end) tr.

Definition released (ns finalizer secret : string) (tr : list event) : Prop :=
  answered (RemoveSecretConsumerFinalizer ns secret finalizer) ok tr.

Definition transport_released (i : NeutronAPI.t) (name : string) (tr : list event) : Prop :=
  answered (GetTransportURLObject (NamespacedName.mk name (NeutronAPI.Namespace i)))
    (λ a, match a with
          | inl e => IsNotFound e = true
          | inr tu => released (NeutronAPI.Namespace i) TransportConsumerFinalizer
                        (TransportURL.SecretName tu) tr
          end) tr.

Definition topology_released (i : NeutronAPI.t) (tr : list event) : Prop :=
  answered (EnsureDeletedTopologyRef (Status.LastAppliedTopology (NeutronAPI.Status i))
              (NeutronAPI.Name i)) (λ r, r.2 = None) tr.

Definition transports_released (i : NeutronAPI.t) (tr : list event) : Prop :=
  released (NeutronAPI.Namespace i) TransportConsumerFinalizer
    (Status.TransportURLSecret (NeutronAPI.Status i)) tr ∧
  (∀ n, n ∈ [transport_name i; notifications_transport_name] → transport_released i n tr) ∧
  (∀ s, Status.NotificationsTransportURLSecret (NeutronAPI.Status i) = Some s →
        released (NeutronAPI.Namespace i) TransportConsumerFinalizer s tr).

(** Every reference the operator holds on other objects is gone. *)
Definition all_released (i : NeutronAPI.t) (tr : list event) : Prop :=
  let ns := NeutronAPI.Namespace i in
  db_released i tr ∧
  keystone_released i (GetKeystoneEndpointWithName ServiceName ns) UpdateKeystoneEndpoint tr ∧
  keystone_released i (GetKeystoneServiceWithName ServiceName ns) UpdateKeystoneService tr ∧
  topology_released i tr ∧
  transports_released i tr ∧
  answered (PruneSecretConsumerFinalizers ns TransportConsumerFinalizer []) ok tr ∧
  answered (PruneSecretConsumerFinalizers ns ACConsumerFinalizer []) ok tr ∧
  released ns ACConsumerFinalizer (Status.ApplicationCredentialSecret (NeutronAPI.Status i)) tr ∧
  released ns ACConsumerFinalizer (SpecCore.Auth_ApplicationCredentialSecret (NeutronAPI.core i)) tr.

(** A segment that only makes calls: the instance stays, the trace grows, an
    early return carries an error. *)
Definition seg {A} (m : M (St.t W) RetVal A) (P : A → list event → Prop) (s : St.t W) : Prop :=
  wp m (λ o s', St.inst s' = St.inst s ∧ (∃ evs, St.trace s' = evs ++ St.trace s) ∧
          match o with
          | Cont a => P a (St.trace s')
          | Ret r => is_Some r.2
          | Panic => False
          end) s.

Lemma seg_ret {A} (a : A) (P : A → list event → Prop) s : P a (St.trace s) → seg (mret a) P s.
Proof. intros H. split_and!; [done|by exists []|done]. Qed.

Lemma seg_fail {A} r e (P : A → list event → Prop) s : seg (return_ (r, Some e)) P s.
Proof. split_and!; [done|by exists []|]. simpl. eauto. Qed.

Lemma seg_call {A} (c : Call A) s : seg (call handler c) (λ a tr, Ev c a ∈ tr) s.
Proof. apply wp_call. intros a w _. split_and!; [done|by exists [Ev c a]|by left]. Qed.

Lemma seg_bind {A B} (m : M (St.t W) RetVal A) (k : A → M (St.t W) RetVal B) P Q s :
  seg m P s →
  (∀ a s', St.inst s' = St.inst s → St.trace s ⊆ St.trace s' → P a (St.trace s') → seg (k a) Q s') →
  seg (m ≫= k) Q s.
Proof.
  intros Hm Hk. unfold seg in *. apply wp_bind. eapply wp_mono; [exact Hm|].
  intros [a|r|] s1; [|done..]. intros (Hi & [e1 Ht] & HP).
  eapply wp_mono; [apply (Hk a s1); [done|rewrite Ht; set_solver|done]|].
  intros o s2 (Hi2 & [e2 Ht2] & Ho). split_and!; [congruence| |done].
  exists (e2 ++ e1). by rewrite Ht2, Ht, app_assoc.
Qed.

Lemma seg_instance s : seg instance (λ a _, a = St.inst s) s.
Proof. split_and!; [done|by exists []|done]. Qed.

Lemma seg_mono {A} (m : M (St.t W) RetVal A) P (P' : A → list event → Prop) s :
  seg m P s → (∀ a tr, St.trace s ⊆ tr → P a tr → P' a tr) → seg m P' s.
Proof.
  intros H HP. unfold seg in *. eapply wp_mono; [exact H|]. intros [a|r|] s'; [|done..].
  intros (? & [evs Ht] & ?). split_and!; eauto. apply HP; [rewrite Ht; set_solver|done].
Qed.

Lemma seg_fail_on err s : seg (fail_on err) (λ _ _, err = None) s.
Proof. destruct err; [apply seg_fail|by apply seg_ret]. Qed.

Lemma seg_fail_unless err s : seg (fail_unless_not_found err) (λ _ _, ok_or_gone err) s.
Proof.
  destruct err as [e|]; [|by apply seg_ret]. unfold ok_or_gone. simpl.
  destruct (IsNotFound e); simpl; [by apply seg_ret|apply seg_fail].
Qed.

Lemma answered_mono {A} (c : Call A) (P P' : A → Prop) tr tr' :
  tr ⊆ tr' → (∀ a, P a → P' a) → answered c P tr → answered c P' tr'.
Proof. intros Htr HP (a & Ha & H). exists a. split; [by apply Htr|auto]. Qed.

(** A call whose error ends the function. *)
Lemma seg_call_ok (c : Call (option error)) s :
  seg (err ← call handler c; fail_on err) (λ _ tr, answered c ok tr) s.
Proof.
  eapply seg_bind; [apply seg_call|]. intros r s' _ _ Hev. simpl in Hev.
  eapply seg_mono; [apply seg_fail_on|]. intros u tr Htr ->. exists None. split; [by apply Htr|done].
Qed.

Lemma seg_call_gone (c : Call (option error)) s :
  seg (err ← call handler c; fail_unless_not_found err) (λ _ tr, answered c ok_or_gone tr) s.
Proof.
  eapply seg_bind; [apply seg_call|]. intros r s' _ _ Hev. simpl in Hev.
  eapply seg_mono; [apply seg_fail_unless|]. intros u tr Htr Hr. exists r. split; [by apply Htr|done].
Qed.

Lemma seg_remove ns f secrets s :
  seg (remove_consumer_finalizers ns f secrets)
    (λ _ tr, ∀ x, x ∈ secrets → released ns f x tr) s.
Proof.
  revert s. unfold remove_consumer_finalizers.
  induction secrets as [|x l IH]; intros s; simpl.
  - apply seg_ret. by intros ? ?%not_elem_of_nil.
  - eapply seg_bind; [apply seg_call_ok|]. intros u s1 _ Hs1 H1.
    eapply seg_mono; [apply IH|]. intros v tr Htr Hl y [->|Hy]%elem_of_cons; [|auto].
    exact (answered_mono _ _ _ _ _ Htr (λ _ x, x) H1).
Qed.

Lemma seg_live i names s :
  St.inst s = i →
  seg (live_transport_secrets (NeutronAPI.Namespace i) names)
    (λ live tr, ∀ n, n ∈ names →
       answered (GetTransportURLObject (NamespacedName.mk n (NeutronAPI.Namespace i)))
         (λ a, match a with inl e => IsNotFound e = true
                          | inr tu => TransportURL.SecretName tu ∈ live end) tr) s.
Proof.
  revert s. induction names as [|n names IH]; intros s Hi; simpl.
  { apply seg_ret. by intros ? ?%not_elem_of_nil. }
  eapply seg_bind; [apply seg_call|]. intros [e|tu] s1 Hi1 _ Hev; simpl in Hev.
  - eapply seg_bind; [apply (seg_fail_unless (Some e))|]. intros u s2 Hi2 Hs2 He. simpl in He.
    eapply seg_mono; [apply IH; congruence|]. intros live tr Htr Hl m [->|Hm]%elem_of_cons; [|auto].
    exists (inl e). split; [by apply Htr, Hs2|exact He].
  - eapply seg_bind; [apply IH; congruence|]. intros live s2 Hi2 Hs2 Hl. simpl in Hl.
    apply seg_ret. intros m [->|Hm]%elem_of_cons.
    + exists (inr tu). split; [by apply Hs2|by left].
    + refine (answered_mono _ _ _ _ _ _ _ (Hl m Hm)); [done|]. intros [?|?]; [done|]. by right.
Qed.

Context `{!LibLaws L}.

Lemma seg_keystone get update s :
  seg (release_keystone get update) (λ _ tr, keystone_released (St.inst s) get update tr) s.
Proof.
  unfold release_keystone. eapply seg_bind; [apply seg_instance|]. intros i s0 Hi0 _ Hi. simpl in Hi.
  subst i. eapply seg_bind; [apply seg_call|]. intros [e|o] s1 _ _ Hev; simpl in Hev.
  { eapply seg_mono; [apply (seg_fail_unless (Some e))|]. intros u tr Htr He.
    exists (inl e). split; [by apply Htr|exact He]. }
  pose proof (RemoveFinalizer_elem (KeystoneObject.Finalizers o)
    (GetFinalizer (NeutronAPI.Kind (St.inst s)))) as Helem.
  pose proof (RemoveFinalizer_changed (KeystoneObject.Finalizers o)
    (GetFinalizer (NeutronAPI.Kind (St.inst s)))) as Hch.
  destruct RemoveFinalizer as [fs removed]. simpl in *. destruct removed; simpl.
  - eapply seg_mono; [apply seg_call_gone|]. intros u tr Htr Hup.
    exists (inr o). split; [by apply Htr|]. intros _. exists fs. split; [|done].
    rewrite Helem. tauto.
  - apply seg_ret. exists (inr o). split; [done|]. intros Hin. symmetry in Hch.
    by apply bool_decide_eq_false_1 in Hch.
Qed.

Lemma seg_db s : seg release_database (λ _ tr, db_released (St.inst s) tr) s.
Proof.
  unfold release_database. eapply seg_bind; [apply seg_instance|]. intros i s0 Hi0 _ Hi. simpl in Hi.
  subst i. eapply seg_bind; [apply seg_call|]. intros [e|db] s1 _ _ Hev; simpl in Hev.
  - eapply seg_mono; [apply (seg_fail_unless (Some e))|]. intros u tr Htr He.
    exists (inl e). split; [by apply Htr|exact He].
  - eapply seg_mono; [apply seg_call_ok|]. intros u tr Htr Hok.
    exists (inr db). split; [by apply Htr|exact Hok].
Qed.

Lemma answered_grows {A} (c : Call A) P tr tr' : tr ⊆ tr' → answered c P tr → answered c P tr'.
Proof. intros H. by apply answered_mono. Qed.

Lemma keystone_grows i get update tr tr' :
  tr ⊆ tr' → keystone_released i get update tr → keystone_released i get update tr'.
Proof.
  intros H. apply answered_mono; [done|]. intros [e|o]; [done|].
  intros Ho Hin. destruct (Ho Hin) as (fs & ? & ?). exists fs. split; [done|].
  by eapply answered_grows.
Qed.

Lemma db_grows i tr tr' : tr ⊆ tr' → db_released i tr → db_released i tr'.
Proof.
  intros H. apply answered_mono; [done|]. intros [e|db]; [done|]. by apply answered_grows.
Qed.

(** One segment after another, keeping what the first one achieved. *)
Lemma seg_seq {A B} (m : M (St.t W) RetVal A) (k : A → M (St.t W) RetVal B)
    (P : A → list event → Prop) (Q R : list event → Prop) s :
  seg m P s → (∀ a tr tr', tr ⊆ tr' → P a tr → R tr') →
  (∀ a s', St.inst s' = St.inst s → P a (St.trace s') → seg (k a) (λ _ tr, Q tr) s') →
  seg (m ≫= k) (λ _ tr, R tr ∧ Q tr) s.
Proof.
  intros Hm HR Hk. eapply seg_bind; [exact Hm|]. intros a s' Hi _ HP.
  eapply seg_mono; [by apply (Hk a s')|]. intros b tr Htr HQ. split; [|done]. by eapply HR.
Qed.

Lemma seg_topology s : seg release_topology (λ _ tr, topology_released (St.inst s) tr) s.
Proof.
  unfold release_topology. eapply seg_bind; [apply seg_instance|]. intros i s0 Hi0 _ Hi. simpl in Hi.
  subst i. eapply seg_bind; [apply seg_call|]. intros [r [e|]] s1 _ _ Hev; [apply seg_fail|].
  apply seg_ret. by exists (r, None).
Qed.

Lemma seg_transport s : seg release_transport (λ _ tr, transports_released (St.inst s) tr) s.
Proof.
  unfold release_transport. eapply seg_bind; [apply seg_instance|]. intros i s0 Hi0 _ Hi. simpl in Hi.
  subst i. cbv zeta. eapply seg_bind; [by apply (seg_live (St.inst s))|].
  intros live s1 Hi1 _ Hlive. simpl in Hlive.
  eapply seg_mono; [apply seg_remove|]. intros u tr Htr Hrel. split_and!.
  - apply Hrel. by left.
  - intros n Hn. refine (answered_mono _ _ _ _ _ Htr _ (Hlive n Hn)).
    intros [e|tu]; [done|]. intros Hin. apply Hrel. set_solver.
  - intros x Hx. rewrite Hx in Hrel. apply Hrel. set_solver.
Qed.

Lemma transports_grows i tr tr' :
  tr ⊆ tr' → transports_released i tr → transports_released i tr'.
Proof.
  intros H (H1 & H2 & H3). split_and!.
  - by eapply answered_grows.
  - intros n Hn. refine (answered_mono _ _ _ _ _ H _ (H2 n Hn)).
    intros [e|tu]; [done|]. by apply answered_grows.
  - intros x Hx. eapply answered_grows; [done|]. by apply H3.
Qed.

Lemma seg_references s : seg delete_references (λ _ tr, all_released (St.inst s) tr) s.
Proof.
  unfold delete_references. eapply seg_bind; [apply seg_instance|]. intros i s0 Hi0 _ Hi. simpl in Hi.
  rewrite <-Hi in *. clear Hi s. rename s0 into s. cbv zeta. unfold all_released.
  eapply seg_seq; [apply seg_db|rewrite Hi0; intros; by eapply db_grows|]. intros _ s1 Hi1 _.
  eapply seg_seq; [apply seg_keystone|intros; eapply keystone_grows; [done|]; congruence|].
  intros _ s2 Hi2 _.
  eapply seg_seq; [apply seg_keystone|intros; eapply keystone_grows; [done|]; congruence|].
  intros _ s3 Hi3 _. assert (St.inst s3 = i) as Hs3 by congruence.
  eapply seg_seq; [apply seg_topology|rewrite Hs3; intros; by eapply answered_grows|].
  intros _ s4 Hi4 _. assert (St.inst s4 = i) as Hs4 by congruence.
  eapply seg_seq; [apply seg_transport|rewrite Hs4; intros; by eapply transports_grows|].
  intros _ s5 Hi5 _.
  eapply seg_seq; [apply seg_call_ok|intros; by eapply answered_grows|]. intros _ s6 Hi6 _.
  eapply seg_seq; [apply seg_call_ok|intros; by eapply answered_grows|]. intros _ s7 Hi7 _.
  eapply seg_mono; [apply seg_remove|]. intros u tr Htr Hrel. split; apply Hrel; set_solver.
Qed.

(** C8: deletion leaks nothing.  [reconcileDelete] never panics.  If it reports
    an error, the NeutronAPI is exactly as before, its finalizer included, so
    the object stays and deletion is retried.  Without an error its finalizer
    is gone and everything else of it is as before, and by then every reference
    was released: the database, the Keystone endpoint and service, the topology,
    the consumer finalizers of the transport secrets named by the status and by
    the live TransportURLs (which differ during a rotation), of the application
    credentials named by status and spec, and those stranded on other secrets. *)
Theorem reconcileDelete_spec s :
  let i := St.inst s in
  ∃ res err s', returns reconcileDelete s = Some ((res, err), s') ∧
    match err with
    | Some _ => St.inst s' = i
    | None =>
        res = Result0 ∧ all_released i (St.trace s') ∧
        ∃ fs, St.inst s' = NeutronAPI.set_Finalizers fs i ∧
              ∀ f, f ∈ fs ↔ f ∈ NeutronAPI.Finalizers i ∧ f ≠ GetFinalizer (NeutronAPI.Kind i)
    end.
Proof.
  intros i.
  assert (fn_spec reconcileDelete (λ r s',
    match r.2 with
    | Some _ => St.inst s' = i
    | None => r.1 = Result0 ∧ all_released i (St.trace s') ∧
        ∃ fs, St.inst s' = NeutronAPI.set_Finalizers fs i ∧
              ∀ f, f ∈ fs ↔ f ∈ NeutronAPI.Finalizers i ∧ f ≠ GetFinalizer (NeutronAPI.Kind i)
    end) s) as H; [|apply fn_spec_returns in H as ([r e] & s' & ? & ?); by exists r, e, s'].
  unfold fn_spec, reconcileDelete. apply wp_bind. eapply wp_mono; [apply seg_references|].
  intros [u|r|] s1; [|by intros (Hi & _ & [e He]); simpl; rewrite He|by intros (_ & _ & [])].
  intros (Hi & _ & Hrel). apply wp_bind, wp_update_inst, wp_ret. simpl. rewrite Hi.
  split_and!; [done|exact Hrel|]. eexists. split; [done|]. apply RemoveFinalizer_elem.
Qed.

End delete.
