(* ===== verification/Init.v ===== *)
(** * Initialisation of the service

    [ensureDB] and [reconcileInit] of [neutronapi_controller.go]: the database,
    the configuration Secrets, the TLS inputs, the hash of the inputs, the
    db-sync Job, the Services and the Keystone registration, in this order.  A
    step that is not done yet returns a requeue result, a step that fails
    returns an error; both leave the condition that reports it. *)

From stdpp Require Import sorting.
From S2P Require Import Prelude K8s Conditions Lib Api GoMonad Pods External ExternalSecrets.
From S2P Require Import ImageProbe ServiceConfig Delete.

(** [ctrlResult != ctrl.Result{}] *)
Definition pending (r : Result) : bool := bool_decide (r ≠ Result0).

Lemma pending_done r : pending r = false → r = Result0.
Proof. intros H%bool_decide_eq_false_1. by apply dec_stable. Qed.

(** [neutronEndpoints], of which only the port is set. *)
Definition neutronEndpoints : gmap string Z :=
  {[ EndpointPublic := NeutronPublicPort; EndpointInternal := NeutronInternalPort ]}.

(** [string(a) < string(b)] as the order [sort.SliceStable] sorts by. *)
Definition string_le (a b : string) : Prop := String.leb a b = true.

#[export] Instance string_le_dec a b : Decision (string_le a b).
Proof. unfold string_le. apply _. Defined.

(** [endpointTypes] after [sort.SliceStable], from the keys in the order [keys]
    the map was ranged over. *)
Definition endpoint_types (keys : list Endpoint) : list Endpoint := merge_sort string_le keys.

Section init.
Context `{L : Lib} {W : Type} (handler : ∀ R, Call R → W → R * W).

Abbreviation fn R := (M (St.t W) R R).

(** [Conditions.Set(FalseCondition(t, ErrorReason, SeverityWarning, msg,
    err.Error())); return res, err] *)
Definition fail_cond {A} (t : CondType) (msg : string) (res : Result) (err : error)
  : M (St.t W) RetVal A :=
  set_error t msg [Error err];; return_ (res, Some err).

(** [Conditions.Set(FalseCondition(t, RequestedReason, SeverityInfo, msg));
    return res, nil] *)
Definition wait_cond {A} (t : CondType) (msg : string) (args : list string) (res : Result)
  : M (St.t W) RetVal A :=
  set_running t msg args;; return_ (res, None).

(** ** The database *)

(** [mariadbv1.NewDatabaseForAccount(...)] *)
Definition new_database (i : NeutronAPI.t) : Database.t :=
  Database.mk (SpecCore.DatabaseInstance (NeutronAPI.core i)) DatabaseName DatabaseCRName
    (SpecCore.DatabaseAccount (NeutronAPI.core i)) (NeutronAPI.Namespace i) "".

(** [ensureDB]: the database (nil when the account is not there), the result and
    the error. *)
Definition ensureDB : fn (option Database.t * Result * option error) :=
  i ← instance;
  err ← call handler (EnsureMariaDBAccount (SpecCore.DatabaseAccount (NeutronAPI.core i))
                        (NeutronAPI.Namespace i) false DatabaseUsernamePrefix);
  match err with
  | Some err =>
      set_error MariaDBAccountReadyCondition MariaDBAccountNotReadyMessage [Error err];;
      return_ (None, Result0, Some err)
  | None => mret ()
  end;;
  mark_true MariaDBAccountReadyCondition MariaDBAccountReadyMessage;;
  '(db, ctrlResult, err) ← call handler (Database_CreateOrPatchAll (new_database i));
  match err with
  | Some err =>
      set_error DBReadyCondition (condition_msg "DBReadyErrorMessage") [Error err];;
      return_ (Some db, Result0, Some err)
  | None => mret ()
  end;;
  when (pending ctrlResult)
    (set_running DBReadyCondition (condition_msg "DBReadyRunningMessage") [];;
     return_ (Some db, ctrlResult, None));;
  '(db, ctrlResult, err) ← call handler (WaitForDBCreatedWithTimeout db (seconds 5));
  match err with
  | Some err =>
      set_error DBReadyCondition (condition_msg "DBReadyErrorMessage") [Error err];;
      return_ (Some db, ctrlResult, Some err)
  | None => mret ()
  end;;
  when (pending ctrlResult)
    (set_running DBReadyCondition (condition_msg "DBReadyRunningMessage") [];;
     return_ (Some db, ctrlResult, None));;
  update_status (Status.set_DatabaseHostname (Database_GetHostname db));;
  mark_true DBReadyCondition (condition_msg "DBReadyMessage");;
  mret (Some db, ctrlResult, None).

(** ** TLS inputs *)

(** The hash of a validated TLS input, or the early return: a missing Secret
    returns no error. *)
Definition tls_input (answer : error + string) (missing : error → M (St.t W) RetVal unit)
  : M (St.t W) RetVal string :=
  match answer with
  | inl err =>
      when (IsNotFound err) (missing err;; return_ (Result0, None));;
      fail_cond TLSInputReadyCondition (condition_msg "TLSInputErrorMessage") Result0 err
  | inr hash => mret hash
  end.

(** [if hash != "" { secretVars[key] = env.SetValue(hash) }] *)
Definition put_hash (key hash : string) : M (St.t W) RetVal unit :=
  when (bool_decide (hash ≠ "")) (put_var key (SetValue hash)).

(** The TLS input validation of [reconcileInit]. *)
Definition validate_tls : M (St.t W) RetVal unit :=
  i ← instance;
  let tls := SpecCore.TLS (NeutronAPI.core i) in
  let ca := Ca.CaBundleSecretName (NeutronApiTLS.CA tls) in
  let waiting := condition_msg "TLSInputReadyWaitingMessage" in
  when (bool_decide (ca ≠ ""))
    (answer ← call handler (ValidateCACertSecret (NamespacedName.mk ca (NeutronAPI.Namespace i)));
     caHash ← tls_input answer (λ _, set_error TLSInputReadyCondition waiting [ca]);
     put_hash CABundleKey caHash);;
  answer ← call handler (ValidateCertSecrets (NeutronApiTLS.API tls) (NeutronAPI.Namespace i));
  apiCertsHash ← tls_input answer (λ err, set_running TLSInputReadyCondition waiting [Error err]);
  put_hash "apiCertsHash" apiCertsHash;;
  when (GenericService_Enabled (NeutronApiTLS.Ovn tls))
    (answer ← call handler (ValidateCertSecret (NeutronApiTLS.Ovn tls) (NeutronAPI.Namespace i));
     ovnCertsHash ← tls_input answer
       (λ err, set_running TLSInputReadyCondition waiting [Error err]);
     put_hash "ovnCertsHash" ovnCertsHash);;
  mark_true TLSInputReadyCondition (condition_msg "InputReadyMessage").

(** ** The input hash and the application credential *)

Definition config_error {A} (err : error) : M (St.t W) RetVal A :=
  fail_cond ServiceConfigReadyCondition (condition_msg "ServiceConfigReadyErrorMessage") Result0 err.

Definition hash_and_consume : M (St.t W) RetVal unit :=
  i ← instance;
  '(_, err) ← call_fn createHashOfInputHashes;
  match err with Some err => config_error err | None => mret () end;;
  let ac := SpecCore.Auth_ApplicationCredentialSecret (NeutronAPI.core i) in
  when (bool_decide (ac ≠ ""))
    (err ← call handler (ManageSecretConsumerFinalizer (NeutronAPI.Namespace i) ac
                           ACConsumerFinalizer);
     match err with Some err => config_error err | None => mret () end);;
  mark_true ServiceConfigReadyCondition (condition_msg "ServiceConfigReadyMessage").

(** ** db-sync *)

Definition run_db_sync (serviceLabels serviceAnnotations : gomap string) : M (St.t W) RetVal unit :=
  i ← instance;
  let dbSyncHash := map_index (Status.Hash (NeutronAPI.Status i)) DbSyncHash in
  jobDef ← force (DbSyncJob i serviceLabels serviceAnnotations);
  run ← call handler (DoJob jobDef DbSyncHash (SpecCore.PreserveJobs (NeutronAPI.core i))
                        (seconds 5) dbSyncHash);
  when (pending (JobRun.result run))
    (wait_cond DBSyncReadyCondition (condition_msg "DBSyncReadyRunningMessage") []
       (JobRun.result run));;
  match JobRun.err run with
  | Some err =>
      fail_cond DBSyncReadyCondition (condition_msg "DBSyncReadyErrorMessage") Result0 err
  | None => mret ()
  end;;
  when (JobRun.HasChanged run) (write_hash DbSyncHash (JobRun.Hash run));;
  mark_true DBSyncReadyCondition (condition_msg "DBSyncReadyMessage").

(** ** Services *)

(** The annotations that tell whether an ingress and a DNS name are needed. *)
Definition annotate_service (endpointType : Endpoint) (svc : KService.t) : KService.t :=
  let svc := Service_AddAnnotation svc {[ AnnotationEndpointKey := endpointType ]} in
  if bool_decide (endpointType = EndpointPublic) &&
     match Service_GetServiceType svc with ServiceTypeClusterIP => true | _ => false end
  then Service_AddAnnotation svc {[ AnnotationIngressCreateKey := "true" ]}
  else
    let svc := Service_AddAnnotation svc {[ AnnotationIngressCreateKey := "false" ]} in
    match Service_GetServiceType svc with
    | ServiceTypeLoadBalancer =>
        Service_AddAnnotation svc {[ AnnotationHostnameKey := Service_GetServiceHostname svc ]}
    | _ => svc
    end.

(** [svcOverride], with the embedded annotations made non-nil. *)
Definition service_override (i : NeutronAPI.t) (endpointType : Endpoint) : RoutedOverrideSpec.t :=
  let o := default RoutedOverrideSpec.zero
             (SpecCore.Override_Service (NeutronAPI.core i) !! endpointType) in
  let spec := RoutedOverrideSpec.OverrideSpec o in
  RoutedOverrideSpec.mk
    (OverrideSpec.mk (Some (default EmptyLabelsAnnotations
                              (OverrideSpec.EmbeddedLabelsAnnotations spec)))
       (OverrideSpec.rest spec))
    (RoutedOverrideSpec.EndpointURL o).

Definition service_details (i : NeutronAPI.t) (serviceLabels : gmap string string)
    (endpointType : Endpoint) (port : Z) : GenericServiceDetails.t :=
  let endpointName := ServiceName +:+ "-" +:+ endpointType in
  GenericServiceDetails.mk endpointName (NeutronAPI.Namespace i)
    (MergeStringMaps serviceLabels {[ AnnotationEndpointKey := endpointType ]})
    serviceLabels endpointName port "TCP".

Definition service_error {A} (res : Result) (err : error) : M (St.t W) RetVal A :=
  fail_cond CreateServiceReadyCondition (condition_msg "CreateServiceReadyErrorMessage") res err.

(** The body of the loop over the endpoint types: the URL of the endpoint. *)
Definition expose_endpoint (serviceLabels : gmap string string) (endpointType : Endpoint)
  : M (St.t W) RetVal string :=
  i ← instance;
  let port := default 0%Z (neutronEndpoints !! endpointType) in
  let svcOverride := service_override i endpointType in
  svc ← match NewService (service_details i serviceLabels endpointType port) 5
                (RoutedOverrideSpec.OverrideSpec svcOverride) with
        | inl err => service_error Result0 err
        | inr svc => mret (annotate_service endpointType svc)
        end;
  '(svc, ctrlResult, err) ← call handler (Service_CreateOrPatch svc);
  match err with
  | Some err => service_error ctrlResult err
  | None =>
      when (pending ctrlResult)
        (wait_cond CreateServiceReadyCondition
           (condition_msg "CreateServiceReadyRunningMessage") [] ctrlResult)
  end;;
  let protocol :=
    if APIService_Enabled (NeutronApiTLS.API (SpecCore.TLS (NeutronAPI.core i))) endpointType
    then Some ProtocolHTTPS else None in
  match Service_GetAPIEndpoint svc (RoutedOverrideSpec.EndpointURL svcOverride) protocol "" with
  | inl err => return_ (Result0, Some err)
  | inr url => mret url
  end.

Fixpoint expose_endpoints (serviceLabels : gmap string string) (types : list Endpoint)
    (apiEndpoints : gmap string string) : M (St.t W) RetVal (gmap string string) :=
  match types with
  | [] => mret apiEndpoints
  | t :: types =>
      url ← expose_endpoint serviceLabels t;
      expose_endpoints serviceLabels types (<[t := url]> apiEndpoints)
  end.

(** ** Keystone *)

Definition keystone_service_spec (i : NeutronAPI.t) : KeystoneServiceSpec.t :=
  KeystoneServiceSpec.mk ServiceType ServiceName "Openstack Networking" true
    (SpecCore.ServiceUser (NeutronAPI.core i)) (SpecCore.Secret (NeutronAPI.core i))
    (SpecCore.PasswordSelectors_Service (NeutronAPI.core i)).

(** The handling of the answer of a Keystone [CreateOrPatch]. *)
Definition mirror_keystone (t : CondType) (answer : list Condition.t * Result * option error)
  : M (St.t W) RetVal unit :=
  let '(conditions, ctrlResult, err) := answer in
  match err with Some err => return_ (ctrlResult, Some err) | None => mret () end;;
  match Mirror conditions t with Some c => set_cond c | None => mret () end;;
  when (pending ctrlResult) (return_ (ctrlResult, None)).

Definition register_keystone (serviceLabels apiEndpoints : gmap string string)
  : M (St.t W) RetVal unit :=
  i ← instance;
  answer ← call handler (KeystoneService_CreateOrPatch (keystone_service_spec i)
                           (NeutronAPI.Namespace i) serviceLabels (seconds 10));
  mirror_keystone KeystoneServiceReadyCondition answer;;
  answer ← call handler (KeystoneEndpoint_CreateOrPatch ServiceName (NeutronAPI.Namespace i)
                           (KeystoneEndpointSpec.mk ServiceName apiEndpoints)
                           serviceLabels (seconds 10));
  mirror_keystone KeystoneEndpointReadyCondition answer.

(** ** reconcileInit *)

Definition init_database : M (St.t W) RetVal Database.t :=
  '(db, result, err) ← call_fn ensureDB;
  match err with
  | Some err => return_ (Result0, Some err)
  | None => when (pending result) (return_ (result, None))
  end;;
  force db.

(** [reconcileInit(serviceLabels, serviceAnnotations, secretVars,
    transportURLSecretName, notificationsTransportURLSecretName)] *)
Definition reconcileInit (serviceLabels serviceAnnotations : gmap string string)
    (transportURLSecretName : string) (notificationsTransportURLSecretName : option string)
  : fn RetVal :=
  db ← init_database;
  err ← call_fn (generateServiceSecrets handler db (Some serviceLabels) (Some serviceAnnotations)
                   transportURLSecretName notificationsTransportURLSecretName);
  match err with Some err => config_error err | None => mret () end;;
  validate_tls;;
  hash_and_consume;;
  run_db_sync (Some serviceLabels) (Some serviceAnnotations);;
  apiEndpoints ← expose_endpoints serviceLabels
    (endpoint_types (map_to_list neutronEndpoints).*1) ∅;
  mark_true CreateServiceReadyCondition (condition_msg "CreateServiceReadyMessage");;
  register_keystone serviceLabels apiEndpoints;;
  mret (Result0, None).

(** [reconcileUpdate] and [reconcileUpgrade], which have nothing to do yet. *)
Definition reconcileUpdate : fn RetVal := mret (Result0, None).
Definition reconcileUpgrade : fn RetVal := mret (Result0, None).

End init.
