(* ===== verification/Inputs.v ===== *)
(** * The inputs of a reconcile

    The first half of [reconcileNormal]: service account and role, the
    TransportURLs of the messaging and notifications buses, the Secrets they and
    the spec name, memcached, the Secrets of the external agents and the network
    attachments.  Each block is one definition; a block that cannot go on returns
    from the reconcile with the condition that says why. *)

From S2P Require Import Prelude K8s Conditions Lib Api GoMonad External ExternalSecrets Delete.
From S2P Require Import Init.

(** [fmt.Sprintf("%s", l)] of a slice of strings. *)
Definition sprint_slice (l : list string) : string := "[" +:+ String.concat " " l +:+ "]".

Definition rbacRules : list PolicyRule.t :=
  [PolicyRule.mk ["security.openshift.io"] ["nonroot-v2"] ["securitycontextconstraints"] ["use"]].

Definition transportValidateFields : gmap string Validator :=
  {[ "transport_url" := NoOpValidator ]}.

(** [fmt.Sprintf(NeutronExternalConfigsErrorMessage, what)] *)
Definition external_error_message (what : string) : string :=
  "Neutron external configs generation error occurred " +:+ what.

Section inputs.
Context `{L : Lib} {W : Type} (handler : ∀ R, Call R → W → R * W).

Abbreviation fn R := (M (St.t W) R R).

(** [if err != nil { return res, err } else if res != ctrl.Result{} { return
    res, nil }] *)
Definition return_unless_done (r : RetVal) : M (St.t W) RetVal unit :=
  match r.2 with
  | Some err => return_ (r.1, Some err)
  | None => when (pending r.1) (return_ (r.1, None))
  end.

(** Service account, role and role binding. *)
Definition ensure_rbac : M (St.t W) RetVal unit :=
  i ← instance;
  '(conditions, rbacResult, err) ← call handler
    (ReconcileRbac (RbacResourceName i) (RbacNamespace i) rbacRules);
  for_each conditions (λ c, update_inst (λ i, RbacConditionsSet i c));;
  return_unless_done (rbacResult, err).

(** ** TransportURLs *)

(** [transportURLCreateOrUpdate(instance, transporturlName, rabbitMqConfig)] *)
Definition transportURLCreateOrUpdate (transporturlName : string) (rabbitMqConfig : RabbitMqConfig.t)
  : fn (TransportURL.t * OperationResult * option error) :=
  i ← instance;
  call handler (CreateOrUpdateTransportURL
    (NamespacedName.mk (transporturlName +:+ "-neutron-transport") (NeutronAPI.Namespace i))
    rabbitMqConfig (NeutronAPI.Name i)).

(** [transportURLDeleted(instance, transportURLName)] *)
Definition transportURLDeleted (transportURLName : string) : fn (option error) :=
  i ← instance;
  err ← call handler (DeleteObject KindTransportURL
                        (NamespacedName.mk transportURLName (NeutronAPI.Namespace i)));
  match err with
  | Some err => if IsNotFound err then return_ None else return_ (Some err)
  | None => mret None
  end.

(** The messaging bus; returns the name of its current Secret. *)
Definition ensure_transport : M (St.t W) RetVal string :=
  i ← instance;
  '(transportURL, _, err) ← call_fn (transportURLCreateOrUpdate (NeutronAPI.Name i)
                                       (SpecCore.MessagingBus (NeutronAPI.core i)));
  match err with
  | Some err => fail_cond RabbitMqTransportURLReadyCondition
                  (condition_msg "RabbitMqTransportURLReadyErrorMessage") Result0 err
  | None => mret ()
  end;;
  let currentTransportSecret := TransportURL.SecretName transportURL in
  when (bool_decide (currentTransportSecret = ""))
    (wait_cond RabbitMqTransportURLReadyCondition
       (condition_msg "RabbitMqTransportURLReadyRunningMessage") [] (requeue_after 10));;
  update_status (λ st,
    if bool_decide (Status.TransportURLSecret st = "") ||
       bool_decide (Status.TransportURLSecret st = currentTransportSecret)
    then Status.set_TransportURLSecret currentTransportSecret st else st);;
  err ← call handler (ManageSecretConsumerFinalizer (NeutronAPI.Namespace i)
                        currentTransportSecret TransportConsumerFinalizer);
  fail_on err;;
  mret currentTransportSecret.

(** [VerifySecretFields] and the two early returns after it; [waiting] sets the
    condition while the Secret is incomplete. *)
Definition verify_secret (name : string) (fields : gmap string Validator)
    (waiting : M (St.t W) RetVal unit) : M (St.t W) RetVal string :=
  i ← instance;
  '(hash, result, err) ← call handler
    (VerifySecretFields (NamespacedName.mk name (NeutronAPI.Namespace i)) fields (seconds 10));
  match err with
  | Some err =>
      fail_cond InputReadyCondition (condition_msg "InputReadyErrorMessage") result err
  | None => when (pending result) (waiting;; return_ (result, None))
  end;;
  mret hash.

Definition input_waiting : M (St.t W) RetVal unit :=
  set_running InputReadyCondition (condition_msg "InputReadyWaitingMessage") [].

(** The notifications bus, when the spec configures one. *)
Definition ensure_notifications : M (St.t W) RetVal (option TransportURL.t) :=
  i ← instance;
  let configured :=
    match SpecCore.NotificationsBus (NeutronAPI.core i) with
    | Some bus => if bool_decide (RabbitMqConfig.Cluster bus ≠ "") then Some bus else None
    | None => None
    end in
  match configured with
  | Some notificationsRabbitMqConfig =>
      '(notificationTransportURL, _, err) ←
        call_fn (transportURLCreateOrUpdate "notifications" notificationsRabbitMqConfig);
      match err with
      | Some err => fail_cond NotificationBusInstanceReadyCondition
                      (condition_msg "NotificationBusInstanceReadyErrorMessage") Result0 err
      | None => mret ()
      end;;
      when (negb (TransportURL_IsReady notificationTransportURL))
        (wait_cond NotificationBusInstanceReadyCondition
           (condition_msg "NotificationBusInstanceReadyRunningMessage") [] (requeue_after 10));;
      let secretName := TransportURL.SecretName notificationTransportURL in
      hash ← verify_secret secretName transportValidateFields input_waiting;
      update_status (λ st,
        if match Status.NotificationsTransportURLSecret st with
           | None => true
           | Some old => bool_decide (old = secretName)
           end
        then Status.set_NotificationsTransportURLSecret (Some secretName) st else st);;
      err ← call handler (ManageSecretConsumerFinalizer (NeutronAPI.Namespace i) secretName
                            TransportConsumerFinalizer);
      fail_on err;;
      put_var secretName (SetValue hash);;
      mark_true NotificationBusInstanceReadyCondition
        (condition_msg "NotificationBusInstanceReadyMessage");;
      mret (Some notificationTransportURL)
  | None =>
      remove_cond NotificationBusInstanceReadyCondition;;
      mret None
  end.

(** The Secret of the messaging bus and the service Secret. *)
Definition verify_transport_secret (currentTransportSecret : string) : M (St.t W) RetVal unit :=
  hash ← verify_secret currentTransportSecret transportValidateFields input_waiting;
  put_var currentTransportSecret (SetValue hash);;
  mark_true RabbitMqTransportURLReadyCondition (condition_msg "RabbitMqTransportURLReadyMessage").

Definition verify_service_secret : M (St.t W) RetVal unit :=
  i ← instance;
  let name := SpecCore.Secret (NeutronAPI.core i) in
  hash ← verify_secret name
    {[ SpecCore.PasswordSelectors_Service (NeutronAPI.core i) := PasswordValidator ]}
    (set_error InputReadyCondition (condition_msg "InputReadyWaitingMessage") []);
  put_var name (SetValue hash);;
  mark_true InputReadyCondition (condition_msg "InputReadyMessage").

(** ** Memcached *)

Definition ensure_memcached : M (St.t W) RetVal Memcached.t :=
  i ← instance;
  answer ← call handler (GetMemcachedByName (SpecCore.MemcachedInstance (NeutronAPI.core i))
                           (NeutronAPI.Namespace i));
  match answer with
  | inl err =>
      when (IsNotFound err)
        (set_error MemcachedReadyCondition (condition_msg "MemcachedReadyWaitingMessage") [];;
         return_ (requeue_after 10, None));;
      fail_cond MemcachedReadyCondition (condition_msg "MemcachedReadyErrorMessage") Result0 err
  | inr memcached =>
      when (negb (Memcached_IsReady memcached))
        (wait_cond MemcachedReadyCondition (condition_msg "MemcachedReadyWaitingMessage") []
           (requeue_after 10));;
      mark_true MemcachedReadyCondition (condition_msg "MemcachedReadyMessage");;
      mret memcached
  end.

(** ** External agents *)

Definition ensure_external (currentTransportSecret : string) : M (St.t W) RetVal unit :=
  err ← call_fn (reconcileExternalSecrets handler currentTransportSecret);
  match err with
  | Some err => fail_cond NeutronExternalConfigsReady
                  (external_error_message "failed to reconcile external Secrets") Result0 err
  | None => mret ()
  end;;
  err ← call_fn (reconcileExternalOVNSecrets handler);
  match err with
  | Some err => fail_cond NeutronExternalConfigsReady
                  (external_error_message "failed to reconcile external OVN Secrets") Result0 err
  | None => mret ()
  end;;
  mark_true NeutronExternalConfigsReady (condition_msg "ServiceConfigReadyMessage").

(** ** Network attachments *)

(** The loop that looks the attachment definitions up. *)
Fixpoint collect_nads (names : list string)
  : M (St.t W) RetVal (list NetworkAttachmentDefinition.t) :=
  match names with
  | [] => mret []
  | netAtt :: names =>
      i ← instance;
      answer ← call handler (GetNADWithName netAtt (NeutronAPI.Namespace i));
      match answer with
      | inl err =>
          when (IsNotFound err)
            (set_error NetworkAttachmentsReadyCondition
               (condition_msg "NetworkAttachmentsReadyWaitingMessage") [netAtt];;
             return_ (requeue_after 10, None));;
          fail_cond NetworkAttachmentsReadyCondition
            (condition_msg "NetworkAttachmentsReadyErrorMessage") Result0 err
      | inr nad =>
          rest ← collect_nads names;
          mret (match nad with Some n => n :: rest | None => rest end)
      end
  end.

Definition network_annotations : M (St.t W) RetVal (gmap string string) :=
  i ← instance;
  let attachments := SpecCore.NetworkAttachments (NeutronAPI.core i) in
  nadList ← collect_nads attachments;
  match EnsureNetworksAnnotation nadList with
  | inl err =>
      return_ (Result0, Some (Wrap ("failed create network annotation from " +:+
                                     sprint_slice attachments +:+ ": ") err))
  | inr serviceAnnotations => mret serviceAnnotations
  end.

End inputs.
