(* ===== verification/Rollout.v ===== *)
(** * Rollout and credential rotation

    The second half of [reconcileNormal]: the input hash and the topology, the
    API Deployment, the neutron-rpc and neutron-worker Deployments of the WSGI
    strategy (or their removal), the rotation of the transport and application
    credential Secrets once the rollout is complete, and the Ready condition. *)

From S2P Require Import Prelude RpcWorkers K8s Conditions Lib Api GoMonad Pods External.
From S2P Require Import ImageProbe Delete Init Inputs.

Section rollout.
Context `{L : Lib} {W : Type} (handler : ∀ R, Call R → W → R * W).

Abbreviation fn R := (M (St.t W) R R).

(** ** Input hash and topology *)

Definition input_hash (ctrlResult : Result) : M (St.t W) RetVal string :=
  i ← instance;
  match map_read (Status.Hash (NeutronAPI.Status i)) InputHashName with
  | Some inputHash => mret inputHash
  | None => return_ (ctrlResult,
              Some (Errorf "" ErrInvalidStatus " input hash for Neutron deployment"))
  end.

Definition ensure_topology (serviceLabels : gmap string string)
  : M (St.t W) RetVal (option Topology.t) :=
  i ← instance;
  let ref := SpecCore.TopologyRef (NeutronAPI.core i) in
  answer ← call handler (EnsureServiceTopology ref
    (Status.LastAppliedTopology (NeutronAPI.Status i)) (NeutronAPI.Name i) serviceLabels);
  topology ← match answer with
             | inl err =>
                 set_error TopologyReadyCondition (condition_msg "TopologyReadyErrorMessage")
                   [Error err];;
                 return_ (Result0, Some (Wrap "waiting for Topology requirements: " err))
             | inr t => mret t
             end;
  match ref with
  | Some _ =>
      update_status (Status.set_LastAppliedTopology ref);;
      mark_true TopologyReadyCondition (condition_msg "TopologyReadyMessage")
  | None => update_status (Status.set_LastAppliedTopology None)
  end;;
  mret topology.

(** ** The API Deployment *)

(** [depl.CreateOrPatch] and the two early returns after it. *)
Definition apply_deployment (t : CondType) (errorMessage runningMessage : string) (d : Deployment.t)
  : M (St.t W) RetVal Deployment.t :=
  '(deploy, ctrlResult, err) ← call handler (Deployment_CreateOrPatch d (seconds 5));
  match err with
  | Some err => fail_cond t errorMessage ctrlResult err
  | None => when (pending ctrlResult) (wait_cond t runningMessage [] ctrlResult)
  end;;
  mret deploy.

(** [IsReadyForInput] and the condition that follows from it. *)
Definition report_rollout (t : CondType) (readyMessage runningMessage : string) (ready : bool)
  : M (St.t W) RetVal unit :=
  if ready then mark_true t readyMessage else set_running t runningMessage [].

Definition ready_for_input (deploy : Deployment.t) (inputHash : string) : M (St.t W) RetVal bool :=
  answer ← call handler (IsReadyForInput
    (NamespacedName.mk (Deployment.Name deploy) (Deployment.Namespace deploy)) inputHash);
  match answer with
  | inl err => return_ (Result0, Some err)
  | inr ready => mret ready
  end.

(** [deploy.Generation == deploy.Status.ObservedGeneration] *)
Definition observed (deploy : Deployment.t) : bool :=
  (Deployment.Generation deploy =? Deployment.ObservedGeneration deploy)%Z.

Definition DeploymentReadyErrorMessage : string := condition_msg "DeploymentReadyErrorMessage".
Definition DeploymentReadyRunningMessage : string := condition_msg "DeploymentReadyRunningMessage".

(** The block guarded by the observed generation: network attachments and
    readiness of the API Deployment. *)
Definition check_api (serviceLabels : gmap string string) (inputHash : string)
    (deploy : Deployment.t) : M (St.t W) RetVal unit :=
  i ← instance;
  update_status (Status.set_ReadyCount (Deployment.ReadyReplicas deploy));;
  let attachments := SpecCore.NetworkAttachments (NeutronAPI.core i) in
  answer ← call handler (VerifyNetworkStatusFromAnnotation attachments serviceLabels
                           (Deployment.ReadyReplicas deploy));
  '(networkReady, networkAttachmentStatus) ←
    match answer with
    | inl err => return_ (Result0, Some err)
    | inr r => mret r
    end;
  update_status (Status.set_NetworkAttachments networkAttachmentStatus);;
  when (negb networkReady)
    (fail_cond NetworkAttachmentsReadyCondition
       (condition_msg "NetworkAttachmentsReadyErrorMessage") Result0
       (Errorf "" ErrPodsInterfaces
          (" with ips as configured in NetworkAttachments: " +:+ sprint_slice attachments)));;
  mark_true NetworkAttachmentsReadyCondition (condition_msg "NetworkAttachmentsReadyMessage");;
  ready ← (if Deployment_IsReady deploy then ready_for_input deploy inputHash else mret false);
  report_rollout DeploymentReadyCondition (condition_msg "DeploymentReadyMessage")
    DeploymentReadyRunningMessage ready.

Definition deploy_api (serviceLabels serviceAnnotations : gmap string string) (inputHash : string)
    (topology : option Topology.t) (memcached : Memcached.t) (wsgi : bool)
  : M (St.t W) RetVal unit :=
  i ← instance;
  def ← force (Deployment_ i inputHash (Some serviceLabels) (Some serviceAnnotations) topology
                 memcached wsgi);
  deplDef ← match def with
            | inl err => fail_cond DeploymentReadyCondition DeploymentReadyErrorMessage Result0 err
            | inr d => mret d
            end;
  deploy ← apply_deployment DeploymentReadyCondition DeploymentReadyErrorMessage
             DeploymentReadyRunningMessage deplDef;
  when (observed deploy) (check_api serviceLabels inputHash deploy).

(** ** The neutron-rpc and neutron-worker Deployments *)

(** [Delete] of a Deployment that may be gone already. *)
Definition delete_deployment (name : string) : M (St.t W) RetVal unit :=
  i ← instance;
  err ← call handler (DeleteObject KindDeployment (NamespacedName.mk name (NeutronAPI.Namespace i)));
  fail_unless_not_found err.

(** Creates one of the two Deployments and reports its readiness. *)
Definition deploy_rpc (serviceAnnotations : gmap string string) (inputHash : string)
    (topology : option Topology.t) (memcached : Memcached.t) : M (St.t W) RetVal unit :=
  set_running NeutronRPCReadyCondition NeutronRPCReadyRunningMessage [];;
  i ← instance;
  rpcDeplDef ← force (RPCDeployment i inputHash (Some {[ AppSelector := rpc_name ]})
                        (Some serviceAnnotations) topology memcached);
  rpcDeploy ← apply_deployment NeutronRPCReadyCondition NeutronRPCReadyErrorMessage
                NeutronRPCReadyRunningMessage rpcDeplDef;
  when (observed rpcDeploy)
    (update_status (Status.set_RPCReadyCount (Deployment.ReadyReplicas rpcDeploy));;
     rpcReady ← ready_for_input rpcDeploy inputHash;
     report_rollout NeutronRPCReadyCondition NeutronRPCReadyMessage
       NeutronRPCReadyRunningMessage rpcReady).

Definition rpcEnabled (i : NeutronAPI.t) : bool :=
  negb (GetRPCWorkers (SpecCore.CustomServiceConfig (NeutronAPI.core i)) =? 0)%Z.

Definition rollout_rpc (serviceAnnotations : gmap string string) (inputHash : string)
    (topology : option Topology.t) (memcached : Memcached.t) : M (St.t W) RetVal unit :=
  i ← instance;
  if rpcEnabled i then deploy_rpc serviceAnnotations inputHash topology memcached
  else
    delete_deployment rpc_name;;
    update_status (Status.set_RPCReadyCount 0);;
    mark_true NeutronRPCReadyCondition NeutronRPCDisabledMessage.

Definition deploy_worker (serviceAnnotations : gmap string string) (inputHash : string)
    (topology : option Topology.t) (memcached : Memcached.t) : M (St.t W) RetVal unit :=
  set_running NeutronWorkerReadyCondition NeutronWorkerReadyRunningMessage [];;
  i ← instance;
  workerDeplDef ← force (WorkerDeployment i inputHash (Some {[ AppSelector := worker_name ]})
                           (Some serviceAnnotations) topology memcached);
  workerDeploy ← apply_deployment NeutronWorkerReadyCondition NeutronWorkerReadyErrorMessage
                   NeutronWorkerReadyRunningMessage workerDeplDef;
  when (observed workerDeploy)
    (update_status (Status.set_WorkerReadyCount (Deployment.ReadyReplicas workerDeploy));;
     workerReady ← ready_for_input workerDeploy inputHash;
     report_rollout NeutronWorkerReadyCondition NeutronWorkerReadyMessage
       NeutronWorkerReadyRunningMessage workerReady).

(** The clean-up of the Eventlet strategy. *)
Definition remove_workers : M (St.t W) RetVal unit :=
  for_each [rpc_name; worker_name] delete_deployment;;
  update_status (Status.set_RPCReadyCount 0);;
  update_status (Status.set_WorkerReadyCount 0);;
  remove_cond NeutronRPCReadyCondition;;
  remove_cond NeutronWorkerReadyCondition.

Definition rollout_workers (serviceAnnotations : gmap string string) (inputHash : string)
    (topology : option Topology.t) (memcached : Memcached.t) (wsgi : bool)
  : M (St.t W) RetVal unit :=
  if wsgi then
    rollout_rpc serviceAnnotations inputHash topology memcached;;
    deploy_worker serviceAnnotations inputHash topology memcached
  else remove_workers.

(** The MariaDBAccounts of an earlier spec are released once a pod runs. *)
Definition release_accounts : M (St.t W) RetVal unit :=
  i ← instance;
  when (0 <? Status.ReadyCount (NeutronAPI.Status i))%Z
    (err ← call handler (DeleteUnusedMariaDBAccountFinalizers DatabaseCRName
                           (SpecCore.DatabaseAccount (NeutronAPI.core i)) (NeutronAPI.Namespace i));
     fail_on err).

(** ** Credential rotation *)

(** [if err != nil { return ctrl.Result{}, err }] on a call with a value. *)
Definition or_fail {A} (answer : error + A) : M (St.t W) RetVal A :=
  match answer with
  | inl err => return_ (Result0, Some err)
  | inr a => mret a
  end.

(** The rotation of the messaging-bus Secret. *)
Definition rotate_transport (currentTransportSecret : string) (guardReady : bool)
  : M (St.t W) RetVal unit :=
  i ← instance;
  answer ← call handler (FinalizeSecretRotation (NeutronAPI.Namespace i)
    (Status.TransportURLSecret (NeutronAPI.Status i)) currentTransportSecret
    TransportConsumerFinalizer guardReady);
  transportSecretName ← or_fail answer;
  update_status (Status.set_TransportURLSecret transportSecretName).

(** The rotation of the notifications Secret, or the teardown of the bus. *)
Definition rotate_notifications (notificationTransportURL : option TransportURL.t)
    (guardReady : bool) : M (St.t W) RetVal unit :=
  i ← instance;
  let status := Status.NotificationsTransportURLSecret (NeutronAPI.Status i) in
  match notificationTransportURL with
  | Some tu =>
      answer ← call handler (FinalizeSecretRotation (NeutronAPI.Namespace i) (default "" status)
        (TransportURL.SecretName tu) TransportConsumerFinalizer guardReady);
      notifSecretName ← or_fail answer;
      update_status (Status.set_NotificationsTransportURLSecret (Some notifSecretName))
  | None =>
      match status with
      | Some old =>
          when (bool_decide (old ≠ "") && guardReady)
            (err ← call handler (RemoveSecretConsumerFinalizer (NeutronAPI.Namespace i) old
                                   TransportConsumerFinalizer);
             fail_on err;;
             err ← call_fn (transportURLDeleted handler notifications_transport_name);
             fail_on err;;
             update_status (Status.set_NotificationsTransportURLSecret None))
      | None => mret ()
      end
  end.

(** The rotation of the application credential. *)
Definition rotate_credential (guardReady : bool) : M (St.t W) RetVal unit :=
  i ← instance;
  answer ← call handler (FinalizeSecretRotation (NeutronAPI.Namespace i)
    (Status.ApplicationCredentialSecret (NeutronAPI.Status i))
    (SpecCore.Auth_ApplicationCredentialSecret (NeutronAPI.core i))
    ACConsumerFinalizer guardReady);
  acSecretName ← or_fail answer;
  update_status (Status.set_ApplicationCredentialSecret acSecretName).

(** The secrets that may keep the consumer finalizers; all others lose them. *)
Definition prune_finalizers (currentTransportSecret : string)
    (notificationTransportURL : option TransportURL.t) : M (St.t W) RetVal unit :=
  i ← instance;
  let status := NeutronAPI.Status i in
  let notifKeep := default "" (Status.NotificationsTransportURLSecret status) in
  let currentNotifKeep :=
    match notificationTransportURL with Some tu => TransportURL.SecretName tu | None => "" end in
  err ← call handler (PruneSecretConsumerFinalizers (NeutronAPI.Namespace i)
    TransportConsumerFinalizer
    [Status.TransportURLSecret status; currentTransportSecret; notifKeep; currentNotifKeep]);
  fail_on err;;
  err ← call handler (PruneSecretConsumerFinalizers (NeutronAPI.Namespace i) ACConsumerFinalizer
    [Status.ApplicationCredentialSecret status;
     SpecCore.Auth_ApplicationCredentialSecret (NeutronAPI.core i)]);
  fail_on err.

Definition rotate_credentials (currentTransportSecret : string)
    (notificationTransportURL : option TransportURL.t) : M (St.t W) RetVal unit :=
  i ← instance;
  let guardReady := CredentialRotationGuardReady true (conds i) in
  rotate_transport currentTransportSecret guardReady;;
  rotate_notifications notificationTransportURL guardReady;;
  rotate_credential guardReady;;
  prune_finalizers currentTransportSecret notificationTransportURL.

(** The Ready condition at the end of the reconcile. *)
Definition report_ready : M (St.t W) RetVal unit :=
  i ← instance;
  when (AllSubConditionIsTrue (conds i))
    (mark_true ReadyCondition (condition_msg "ReadyMessage")).

End rollout.
