(* ===== verification/Reconcile.v ===== *)
(** * The reconcile loop

    [reconcileNormal] and [Reconcile] of [neutronapi_controller.go], composed of
    the blocks of [Inputs], [Init], [Rollout] and [Delete]. *)

From S2P Require Import Prelude RpcWorkers K8s Conditions Lib Api GoMonad Pods External.
From S2P Require Import ImageProbe ExternalSecrets ServiceConfig Delete Init Inputs Rollout.

Section reconcile.
Context `{L : Lib} {W : Type} (handler : ∀ R, Call R → W → R * W).

Abbreviation fn R := (M (St.t W) R R).

Definition serviceLabels : gmap string string := {[ AppSelector := ServiceName ]}.

(** What the inputs of the rollout are computed from. *)
Definition prepare : M (St.t W) RetVal
    (string * option TransportURL.t * Memcached.t * gmap string string) :=
  ensure_rbac handler;;
  put_vars ∅;;
  currentTransportSecret ← ensure_transport handler;
  notificationTransportURL ← ensure_notifications handler;
  verify_transport_secret handler currentTransportSecret;;
  verify_service_secret handler;;
  memcached ← ensure_memcached handler;
  ensure_external handler currentTransportSecret;;
  serviceAnnotations ← network_annotations handler;
  mret (currentTransportSecret, notificationTransportURL, memcached, serviceAnnotations).

(** The calls of [reconcileInit], [reconcileUpdate] and [reconcileUpgrade]. *)
Definition init_update_upgrade (serviceAnnotations : gmap string string)
    (currentTransportSecret : string) (notificationsSecretName : option string)
  : M (St.t W) RetVal Result :=
  r ← call_fn (reconcileInit handler serviceLabels serviceAnnotations currentTransportSecret
                 notificationsSecretName);
  return_unless_done r;;
  r ← call_fn reconcileUpdate;
  return_unless_done r;;
  r ← call_fn reconcileUpgrade;
  return_unless_done r;;
  mret r.1.

(** [reconcileNormal] *)
Definition reconcileNormal : fn RetVal :=
  '(currentTransportSecret, notificationTransportURL, memcached, serviceAnnotations) ← prepare;
  ctrlResult ← init_update_upgrade serviceAnnotations currentTransportSecret
                 (TransportURL.SecretName <$> notificationTransportURL);
  inputHash ← input_hash ctrlResult;
  topology ← ensure_topology handler serviceLabels;
  wsgi ← call_fn (IsWSGIEffective handler (Some serviceLabels) (Some serviceAnnotations));
  deploy_api handler serviceLabels serviceAnnotations inputHash topology memcached wsgi;;
  rollout_workers handler serviceAnnotations inputHash topology memcached wsgi;;
  release_accounts handler;;
  rotate_credentials handler currentTransportSecret notificationTransportURL;;
  report_ready;;
  mret (Result0, None).

(** ** Reconcile *)

Definition unknown (t : CondType) (msg : string) : Condition.t := UnknownCondition t InitReason msg.

(** The conditions every reconcile starts from. *)
Definition initial_conditions : list Condition.t :=
  [unknown ReadyCondition (condition_msg "ReadyInitMessage");
   unknown DBReadyCondition (condition_msg "DBReadyInitMessage");
   unknown DBSyncReadyCondition (condition_msg "DBSyncReadyInitMessage");
   unknown CreateServiceReadyCondition (condition_msg "CreateServiceReadyInitMessage");
   unknown RabbitMqTransportURLReadyCondition (condition_msg "RabbitMqTransportURLReadyInitMessage");
   unknown MemcachedReadyCondition (condition_msg "MemcachedReadyInitMessage");
   unknown InputReadyCondition (condition_msg "InputReadyInitMessage");
   unknown ServiceConfigReadyCondition (condition_msg "ServiceConfigReadyInitMessage");
   unknown DeploymentReadyCondition (condition_msg "DeploymentReadyInitMessage");
   unknown KeystoneServiceReadyCondition "";
   unknown KeystoneEndpointReadyCondition "";
   unknown NetworkAttachmentsReadyCondition (condition_msg "NetworkAttachmentsReadyInitMessage");
   unknown ServiceAccountReadyCondition (condition_msg "ServiceAccountReadyInitMessage");
   unknown RoleReadyCondition (condition_msg "RoleReadyInitMessage");
   unknown RoleBindingReadyCondition (condition_msg "RoleBindingReadyInitMessage");
   unknown NotificationBusInstanceReadyCondition
     (condition_msg "NotificationBusInstanceReadyInitMessage");
   unknown NeutronExternalConfigsReady NeutronExternalConfigsInitMessage].

(** [m = map[string]V{}] when [m == nil]. *)
Definition make_if_nil {V} (m : gomap V) : gomap V :=
  match m with Some m => Some m | None => Some ∅ end.

(** The body of [Reconcile] that runs under the deferred patch.  The TopologyReady
    condition of a topology reference is set in the local list [cl], which was
    already copied into the status, so it changes nothing here. *)
Definition reconcile_body (isNewInstance : bool) : fn RetVal :=
  let cl := CreateList initial_conditions in
  update_inst (λ i, set_conds (Init (conds i) cl) i);;
  update_inst (λ i, NeutronAPI.set_Status
    (Status.set_ObservedGeneration (NeutronAPI.Generation i) (NeutronAPI.Status i)) i);;
  i ← instance;
  let deleting := bool_decide (is_Some (NeutronAPI.DeletionTimestamp i)) in
  added ← (if deleting then mret false
           else
             let '(fs, added) := AddFinalizer (NeutronAPI.Finalizers i)
                                   (GetFinalizer (NeutronAPI.Kind i)) in
             update_inst (NeutronAPI.set_Finalizers fs);;
             mret added);
  when (added || isNewInstance) (return_ (Result0, None));;
  update_status (λ st, Status.set_Hash (make_if_nil (Status.Hash st)) st);;
  update_status (λ st, Status.set_NetworkAttachments (make_if_nil (Status.NetworkAttachments st)) st);;
  if deleting then call_fn (reconcileDelete handler) else call_fn reconcileNormal.

(** The deferred function: it runs with the result of the body and may replace
    its error.  [Set] ignores a nil condition. *)
Definition patch_status (savedConditions : Conditions) (r : RetVal) : fn RetVal :=
  update_inst (λ i, set_conds (RestoreLastTransitionTimes (conds i) savedConditions) i);;
  i ← instance;
  when (IsUnknown (conds i) ReadyCondition)
    (match Mirror (conds i) ReadyCondition with
     | Some c => set_cond c
     | None => mret ()
     end);;
  i ← instance;
  err ← call handler (PatchInstance i);
  match err with
  | Some err => mret (r.1, Some err)
  | None => mret r
  end.

(** [Reconcile(req)] *)
Definition Reconcile (nn : NamespacedName.t) : fn RetVal :=
  answer ← call handler (GetNeutronAPI nn);
  i ← match answer with
      | inl err => if IsNotFound err then return_ (Result0, None) else return_ (Result0, Some err)
      | inr i => mret i
      end;
  update_inst (λ _, i);;
  err ← call handler (NewHelper (NeutronAPI.Name i));
  fail_on err;;
  let isNewInstance := bool_decide (Status.Conditions (NeutronAPI.Status i) = None) in
  when isNewInstance (update_status (Status.set_Conditions (Some [])));;
  i ← instance;
  deferred (reconcile_body isNewInstance) (patch_status (conds i)).

End reconcile.
