(* ===== verification/Watches.v ===== *)
(** * Watches

    [SetupWithManager] and the functions that map an event on a watched object to
    the NeutronAPIs to reconcile.  The controller-runtime manager, its builder
    and the cached client are parameters; the index functions are the code's. *)

From S2P Require Import Prelude K8s Conditions Lib Api GoMonad External.

(** ** Indexes *)

Definition passwordSecretField : string := ".spec.secret".
Definition caBundleSecretNameField : string := ".spec.tls.caBundleSecretName".
Definition tlsAPIInternalField : string := ".spec.tls.api.internal.secretName".
Definition tlsAPIPublicField : string := ".spec.tls.api.public.secretName".
Definition tlsOVNField : string := ".spec.tls.ovn.secretName".
Definition topologyField : string := ".spec.topologyRef.Name".
Definition authAppCredSecretField : string := ".spec.auth.applicationCredentialSecret".

Definition allWatchFields : list string :=
  [passwordSecretField; caBundleSecretNameField; tlsAPIInternalField; tlsAPIPublicField;
   tlsOVNField; topologyField; authAppCredSecretField].

(** A string field is indexed unless it is empty, a pointer unless it is nil. *)
Definition index_string (v : string) : list string := if bool_decide (v = "") then [] else [v].
Definition index_pointer (v : option string) : list string := option_list v.

(** The index functions, in the order [SetupWithManager] registers them. *)
Definition indexers : list (string * (NeutronAPI.t → list string)) :=
  [(passwordSecretField, λ cr, index_string (SpecCore.Secret (NeutronAPI.core cr)));
   (caBundleSecretNameField, λ cr,
     index_string (Ca.CaBundleSecretName (NeutronApiTLS.CA (SpecCore.TLS (NeutronAPI.core cr)))));
   (tlsAPIInternalField, λ cr,
     index_pointer (GenericService.SecretName (APIService.Internal
       (NeutronApiTLS.API (SpecCore.TLS (NeutronAPI.core cr))))));
   (tlsAPIPublicField, λ cr,
     index_pointer (GenericService.SecretName (APIService.Public
       (NeutronApiTLS.API (SpecCore.TLS (NeutronAPI.core cr))))));
   (tlsOVNField, λ cr,
     index_pointer (GenericService.SecretName (NeutronApiTLS.Ovn (SpecCore.TLS (NeutronAPI.core cr)))));
   (topologyField, λ cr, index_pointer (TopoRef.Name <$> SpecCore.TopologyRef (NeutronAPI.core cr)));
   (authAppCredSecretField, λ cr,
     index_string (SpecCore.Auth_ApplicationCredentialSecret (NeutronAPI.core cr)))].

(** ** The controller's registration *)

Inductive OwnedKind :=
| MariaDBDatabaseKind | MariaDBAccountKind | JobKind | ServiceKind | SecretKind | DeploymentKind
| KeystoneServiceKind | KeystoneEndpointKind | TransportURLKind | ServiceAccountKind | RoleKind
| RoleBindingKind.

Inductive WatchedKind := OVNDBClusterKind | MemcachedKind | WatchedSecretKind | TopologyKind | KeystoneAPIKind.

Inductive MapFunc := OVNCRNamespaceMapFunc | MemcachedNamespaceMapFunc | FindObjectsForSrc | FindObjectForSrc.

Inductive Predicate :=
| NoPredicate | ResourceVersionChangedPredicate | GenerationChangedPredicate
| KeystoneAPIStatusChangedPredicate.

(** What is built with [ctrl.NewControllerManagedBy(mgr).For(&NeutronAPI{})]. *)
Module Builder.
Record t := mk { Owns : list OwnedKind; Watches : list (WatchedKind * MapFunc * Predicate) }.
End Builder.

Definition controller : Builder.t :=
  Builder.mk
    [MariaDBDatabaseKind; MariaDBAccountKind; JobKind; ServiceKind; SecretKind; DeploymentKind;
     KeystoneServiceKind; KeystoneEndpointKind; TransportURLKind; ServiceAccountKind; RoleKind;
     RoleBindingKind]
    [(OVNDBClusterKind, OVNCRNamespaceMapFunc, NoPredicate);
     (MemcachedKind, MemcachedNamespaceMapFunc, NoPredicate);
     (WatchedSecretKind, FindObjectsForSrc, ResourceVersionChangedPredicate);
     (TopologyKind, FindObjectsForSrc, GenerationChangedPredicate);
     (KeystoneAPIKind, FindObjectForSrc, KeystoneAPIStatusChangedPredicate)].

Section setup.
Context {Mgr : Type}.
Context (IndexField : string → (NeutronAPI.t → list string) → Mgr → option error * Mgr).
Context (Complete : Builder.t → Mgr → option error * Mgr).

Fixpoint index_fields (fs : list (string * (NeutronAPI.t → list string))) (mgr : Mgr)
    : option error * Mgr :=
  match fs with
  | [] => (None, mgr)
  | (field, f) :: fs =>
      match IndexField field f mgr with
      | (Some err, mgr) => (Some err, mgr)
      | (None, mgr) => index_fields fs mgr
      end
  end.

(** [SetupWithManager(ctx, mgr)] *)
Definition SetupWithManager (mgr : Mgr) : option error * Mgr :=
  match index_fields indexers mgr with
  | (Some err, mgr) => (Some err, mgr)
  | (None, mgr) => Complete controller mgr
  end.
End setup.

(** ** From events to requests *)

Section map.
Context {W : Type} (handler : ∀ R, Call R → W → R * W).

Definition request (i : NeutronAPI.t) : NamespacedName.t :=
  NamespacedName.mk (NeutronAPI.Name i) (NeutronAPI.Namespace i).

(** The loop over the fields: a failed List ends it with what was found. *)
Fixpoint find_for_fields (fields : list string) (src : NamespacedName.t)
    (requests : list NamespacedName.t) (w : W) : list NamespacedName.t * W :=
  match fields with
  | [] => (requests, w)
  | field :: fields =>
      match handler _ (ListNeutronAPI (FieldEquals field (NamespacedName.Name src)
                                          (NamespacedName.Namespace src))) w with
      | (inl err, w) => (requests, w)
      | (inr items, w) => find_for_fields fields src (requests ++ (request <$> items)) w
      end
  end.

(** [findObjectsForSrc(ctx, src)] *)
Definition findObjectsForSrc (src : NamespacedName.t) (w : W) : list NamespacedName.t * W :=
  find_for_fields allWatchFields src [] w.

(** [findObjectForSrc(ctx, src)] *)
Definition findObjectForSrc (src : NamespacedName.t) (w : W) : list NamespacedName.t * W :=
  match handler _ (ListNeutronAPI (InNamespace (NamespacedName.Namespace src))) w with
  | (inl err, w) => ([], w)
  | (inr items, w) => (request <$> items, w)
  end.

(** The function [memcachedNamespaceMapFunc(ctx)] returns; it returns nil for an
    empty result. *)
Definition memcachedNamespaceMapFunc (o : NamespacedName.t) (w : W) : list NamespacedName.t * W :=
  match handler _ (ListNeutronAPI (InNamespace (NamespacedName.Namespace o))) w with
  | (inl err, w) => ([], w)
  | (inr items, w) =>
      ((λ cr, NamespacedName.mk (NeutronAPI.Name cr) (NamespacedName.Namespace o)) <$>
         filter (λ cr, NamespacedName.Name o = SpecCore.MemcachedInstance (NeutronAPI.core cr)) items, w)
  end.
End map.

(** ** Every input is watched *)

(** The Secrets and the Topology that the spec names. *)
Definition references (i : NeutronAPI.t) (name : string) : Prop :=
  let core := NeutronAPI.core i in
  let tls := SpecCore.TLS core in
  SpecCore.Secret core = name ∨
  Ca.CaBundleSecretName (NeutronApiTLS.CA tls) = name ∨
  GenericService.SecretName (APIService.Internal (NeutronApiTLS.API tls)) = Some name ∨
  GenericService.SecretName (APIService.Public (NeutronApiTLS.API tls)) = Some name ∨
  GenericService.SecretName (NeutronApiTLS.Ovn tls) = Some name ∨
  TopoRef.Name <$> SpecCore.TopologyRef core = Some name ∨
  SpecCore.Auth_ApplicationCredentialSecret core = name.

(** The manager keeps the index functions it accepts. *)
Class ManagerLaws {Mgr : Type}
    (IndexField : string → (NeutronAPI.t → list string) → Mgr → option error * Mgr)
    (Complete : Builder.t → Mgr → option error * Mgr)
    (index_of : Mgr → string → option (NeutronAPI.t → list string)) : Prop := {
  IndexField_keeps field f m m' :
    IndexField field f m = (None, m') →
    index_of m' field = Some f ∧ ∀ field', field' ≠ field → index_of m' field' = index_of m field';
  Complete_keeps b m m' : Complete b m = (None, m') → index_of m' = index_of m;
}.

(** The cached client lists the objects of a namespace; it serves a field
    selector from the index of that field. *)
Class CacheLaws {W : Type} (handler : ∀ R, Call R → W → R * W)
    (index_of : string → option (NeutronAPI.t → list string)) (objects : W → list NeutronAPI.t)
    : Prop := {
  List_field field v ns w l w' :
    handler _ (ListNeutronAPI (FieldEquals field v ns)) w = (inr l, w') →
    objects w' = objects w ∧
    ∃ index, index_of field = Some index ∧
      ∀ i, i ∈ l ↔ i ∈ objects w ∧ NeutronAPI.Namespace i = ns ∧ v ∈ index i;
  List_namespace ns w l w' :
    handler _ (ListNeutronAPI (InNamespace ns)) w = (inr l, w') →
    ∀ i, i ∈ l ↔ i ∈ objects w ∧ NeutronAPI.Namespace i = ns;
}.

Section indexes.
Context {Mgr : Type} (IndexField : string → (NeutronAPI.t → list string) → Mgr → option error * Mgr).
Context (Complete : Builder.t → Mgr → option error * Mgr).
Context (index_of : Mgr → string → option (NeutronAPI.t → list string)).
Context `{!ManagerLaws IndexField Complete index_of}.

Lemma index_fields_keeps fs m m' :
  NoDup fs.*1 → index_fields IndexField fs m = (None, m') →
  (∀ field f, (field, f) ∈ fs → index_of m' field = Some f) ∧
  (∀ field, field ∉ fs.*1 → index_of m' field = index_of m field).
Proof.
  revert m. induction fs as [|[field f] fs IH]; simpl; intros m Hnd H.
  - injection H as <-. split; [|done]. intros ? ? Hin. by apply not_elem_of_nil in Hin.
  - apply NoDup_cons in Hnd as [Hfresh Hnd].
    destruct (IndexField field f m) as [[err|] m1] eqn:Hi; [done|].
    apply IndexField_keeps in Hi as [H1 H2]. destruct (IH _ Hnd H) as [H3 H4]. split.
    + intros field' f' Hin. apply elem_of_cons in Hin as [[= -> ->]|Hin]; [|by apply H3].
      by rewrite H4.
    + intros field' Hn. rewrite H4, H2; [done|set_solver..].
Qed.

Lemma setup_indexes m m' field f :
  SetupWithManager IndexField Complete m = (None, m') → (field, f) ∈ indexers →
  index_of m' field = Some f.
Proof.
  unfold SetupWithManager. destruct (index_fields IndexField indexers m) as [[err|] m1] eqn:H; [done|].
  intros Hc Hin. apply Complete_keeps in Hc. rewrite Hc.
  eapply (proj1 (index_fields_keeps indexers m m1 _ H)); [exact Hin].
  Unshelve. apply (bool_decide_unpack _). vm_compute. exact I.
Qed.
End indexes.

Lemma index_string_elem name v : name ≠ "" → name ∈ index_string v ↔ v = name.
Proof.
  intros Hn. unfold index_string. case_bool_decide as Hv; rewrite ?list_elem_of_singleton; [|naive_solver].
  subst v. split; [intros H; by apply not_elem_of_nil in H|intros <-; done].
Qed.

Lemma index_pointer_elem name v : name ∈ index_pointer v ↔ v = Some name.
Proof. destruct v; simpl; [rewrite list_elem_of_singleton|rewrite elem_of_nil]; naive_solver. Qed.

(** The indexes are exactly the references. *)
Lemma references_indexed i name :
  name ≠ "" → references i name ↔ ∃ field f, (field, f) ∈ indexers ∧ name ∈ f i.
Proof.
  intros Hn.
  assert ((∃ field f, (field, f) ∈ indexers ∧ name ∈ f i) ↔ Exists (λ p, name ∈ p.2 i) indexers) as ->.
  { rewrite Exists_exists. split; [intros (field & f & ? & ?); by exists (field, f)|].
    intros ([field f] & ? & ?). by exists field, f. }
  unfold indexers. rewrite !Exists_cons, Exists_nil. cbn [snd].
  rewrite !index_string_elem, !index_pointer_elem by done. unfold references. naive_solver.
Qed.

Section served.
Context {W : Type} (handler : ∀ R, Call R → W → R * W).
Context (index_of : string → option (NeutronAPI.t → list string)) (objects : W → list NeutronAPI.t).
Context `{!CacheLaws handler index_of objects}.

Lemma find_for_fields_spec fields src requests w :
  (∀ field w, field ∈ fields → ∃ l w',
     handler _ (ListNeutronAPI (FieldEquals field (NamespacedName.Name src)
                                   (NamespacedName.Namespace src))) w = (inr l, w')) →
  ∀ r, r ∈ (find_for_fields handler fields src requests w).1 ↔
    r ∈ requests ∨
    ∃ i field f, i ∈ objects w ∧ r = request i ∧ NeutronAPI.Namespace i = NamespacedName.Namespace src ∧
      field ∈ fields ∧ index_of field = Some f ∧ NamespacedName.Name src ∈ f i.
Proof.
  revert requests w. induction fields as [|field fields IH]; simpl; intros requests w Hok r.
  - split; [by left|]. intros [?|(i & field & f & _ & _ & _ & H & _)]; [done|]. by apply not_elem_of_nil in H.
  - destruct (Hok field w) as (l & w' & Hl); [by left|]. rewrite Hl, IH by (intros; apply Hok; by right).
    apply List_field in Hl as (Ho & index & Hi & Hl). rewrite Ho, elem_of_app, list_elem_of_fmap.
    setoid_rewrite elem_of_cons. setoid_rewrite Hl. naive_solver.
Qed.
End served.

(** C28: no input change is missed, and nothing else is reconciled.  After a
    successful [SetupWithManager], for an event on a Secret or Topology, and
    while the cache answers, [findObjectsForSrc] requests exactly the NeutronAPIs
    of its namespace that name it: as the service password Secret, the CA bundle,
    a TLS certificate of the API or of OVN, the topology or the application
    credential. *)
Theorem findObjectsForSrc_spec {Mgr : Type} IndexField Complete (index_of : Mgr → _)
    `{!ManagerLaws IndexField Complete index_of} mgr mgr'
    {W : Type} (handler : ∀ R, Call R → W → R * W) (objects : W → list NeutronAPI.t)
    `{!CacheLaws handler (index_of mgr') objects} (src : NamespacedName.t) (w : W) :
  SetupWithManager IndexField Complete mgr = (None, mgr') →
  NamespacedName.Name src ≠ "" →
  (∀ field w, field ∈ allWatchFields → ∃ l w',
     handler _ (ListNeutronAPI (FieldEquals field (NamespacedName.Name src)
                                   (NamespacedName.Namespace src))) w = (inr l, w')) →
  ∀ r, r ∈ (findObjectsForSrc handler src w).1 ↔
    ∃ i, i ∈ objects w ∧ r = request i ∧ NeutronAPI.Namespace i = NamespacedName.Namespace src ∧
         references i (NamespacedName.Name src).
Proof.
  intros Hsetup Hname Hok r. unfold findObjectsForSrc.
  rewrite (find_for_fields_spec handler (index_of mgr') objects) by done. split.
  - intros [H|(i & field & f & Hi & Hr & Hns & Hf & Hix & Hv)]; [by apply not_elem_of_nil in H|].
    exists i. split_and!; [done..|]. apply references_indexed; [done|].
    change allWatchFields with indexers.*1 in Hf. apply list_elem_of_fmap in Hf as ([field' f'] & -> & Hf).
    exists field', f'. split; [done|]. simpl in Hix.
    rewrite (setup_indexes _ _ _ _ _ _ _ Hsetup Hf) in Hix. by injection Hix as <-.
  - intros (i & Hi & Hr & Hns & Href). right.
    apply references_indexed in Href as (field & f & Hf & Hv); [|done].
    exists i, field, f. split_and!; [done..| | |done].
    + change allWatchFields with indexers.*1. apply list_elem_of_fmap. by exists (field, f).
    + by eapply setup_indexes.
Qed.

(** C38: an event on a Memcached requests exactly the NeutronAPIs of its namespace
    that use it, and an event on the KeystoneAPI every NeutronAPI of its
    namespace; when the cache does not answer, none. *)
Theorem namespace_watches_spec {W : Type} (handler : ∀ R, Call R → W → R * W) index_of
    (objects : W → list NeutronAPI.t) `{!CacheLaws handler index_of objects}
    (src : NamespacedName.t) (w : W) r :
  let ns := NamespacedName.Namespace src in
  let answer := (handler _ (ListNeutronAPI (InNamespace ns)) w).1 in
  (r ∈ (memcachedNamespaceMapFunc handler src w).1 ↔
   (∃ l, answer = inr l) ∧
   ∃ i, i ∈ objects w ∧ r = request i ∧ NeutronAPI.Namespace i = ns ∧
        SpecCore.MemcachedInstance (NeutronAPI.core i) = NamespacedName.Name src) ∧
  (r ∈ (findObjectForSrc handler src w).1 ↔
   (∃ l, answer = inr l) ∧ ∃ i, i ∈ objects w ∧ r = request i ∧ NeutronAPI.Namespace i = ns).
Proof.
  intros ns answer. unfold answer, memcachedNamespaceMapFunc, findObjectForSrc. fold ns.
  destruct (handler _ (ListNeutronAPI (InNamespace ns)) w) as [[e|l] w'] eqn:H; simpl.
  - setoid_rewrite elem_of_nil. naive_solver.
  - pose proof (List_namespace ns w l w' H) as Hl.
    rewrite !list_elem_of_fmap. setoid_rewrite list_elem_of_filter. setoid_rewrite Hl.
    unfold request. split; split.
    + intros (i & -> & Hn & Hi & Hns). split; [by exists l|]. exists i. by rewrite Hns.
    + intros (_ & i & Hi & -> & Hns & Hn). exists i. by rewrite Hns.
    + intros (i & -> & Hi & Hns). split; [by exists l|]. by exists i.
    + intros (_ & i & Hi & -> & Hns). by exists i.
Qed.
