(* ===== verification/Main.v ===== *)
(** * Start-up

    [cmd/main.go]: from the flags and the environment to a running manager.  The
    calls that can fail are those of [MainCall]; each of them that fails ends the
    process with exit code 1.  The TLS options of the two servers are slices that
    start as one ([Slices]). *)

From Stdlib Require Import Ascii.
From S2P Require Import Prelude GoStrings Slices K8s Lib Api Webhook GoMonad Watches.

(** ** filepath *)

Definition slash : ascii := "/"%char.

(** The elements of a path that [filepath.Clean] keeps, the last one first. *)
Fixpoint clean_elements (rooted : bool) (out : list bytes) (elements : list bytes) : list bytes :=
  match elements with
  | [] => out
  | e :: elements =>
      if bool_decide (e = []) || bool_decide (e = B ".") then clean_elements rooted out elements
      else if bool_decide (e = B "..") then
        match out with
        | top :: out' =>
            if bool_decide (top = B "..") then clean_elements rooted (e :: out) elements
            else clean_elements rooted out' elements
        | [] => clean_elements rooted (if rooted then [] else [e]) elements
        end
      else clean_elements rooted (e :: out) elements
  end.

Fixpoint join_slash (elements : list bytes) : bytes :=
  match elements with
  | [] => []
  | [e] => e
  | e :: elements => e ++ slash :: join_slash elements
  end.

(** [filepath.Clean(path)] *)
Definition Clean (path : bytes) : bytes :=
  let rooted := prefixb [slash] path in
  let s := join_slash (reverse (clean_elements rooted [] (Split path slash))) in
  match (if rooted then slash :: s else s) with [] => B "." | p => p end.

(** [filepath.Join(a, b)]: leading empty elements are left out. *)
Definition Join (a b : string) : string :=
  if bool_decide (a ≠ "") then to_string (Clean (join_slash [B a; B b]))
  else if bool_decide (b ≠ "") then to_string (Clean (B b))
  else "".

(** ** Flags *)

Module Flags.
Record t := mk {
  MetricsAddr : string;
  ProbeAddr : string;
  EnableLeaderElection : bool;
  SecureMetrics : bool;
  WebhookCertPath : string; WebhookCertName : string; WebhookCertKey : string;
  MetricsCertPath : string; MetricsCertName : string; MetricsCertKey : string;
  PprofBindAddress : string;
  WebhookPort : Z;
  EnableHTTP2 : bool }.

(** The defaults of [flag.StringVar] and its kind. *)
Definition defaults : t :=
  mk "0" ":8081" false true "" "tls.crt" "tls.key" "" "tls.crt" "tls.key" "" 9443 false.
End Flags.

(** ** TLS *)

(** A [certwatcher.CertWatcher], by the files it watches. *)
Module CertWatcher.
Record t := mk { cert : string; key : string }.
End CertWatcher.

(** The fields of [tls.Config] that the options set. *)
Module Config.
Record t := mk {
  MinVersion : Z;
  NextProtos : list string;
  GetCertificate : option CertWatcher.t }.
End Config.

Definition VersionTLS13 : Z := 0x304.

(** The closures of [main] that change a [tls.Config]. *)
Inductive TlsOpt :=
| MinTLS13
| DisableHTTP2
| UseWatcher (w : CertWatcher.t).

Definition apply_opt (c : Config.t) (o : TlsOpt) : Config.t :=
  match o with
  | MinTLS13 => Config.mk VersionTLS13 (Config.NextProtos c) (Config.GetCertificate c)
  | DisableHTTP2 => Config.mk (Config.MinVersion c) ["http/1.1"] (Config.GetCertificate c)
  | UseWatcher w => Config.mk (Config.MinVersion c) (Config.NextProtos c) (Some w)
  end.

(** A server applies its options in order when it starts. *)
Definition apply_opts (os : list TlsOpt) (c : Config.t) : Config.t := foldl apply_opt c os.

(** ** The manager *)

(** [ctrl.Options]; [rest] is what [operator.SetManagerOptions] sets. *)
Module Options.
Record t := mk {
  MetricsBindAddress : string;
  SecureServing : bool;
  FilterProvider : bool;
  MetricsTLSOpts : Slice.t;
  WebhookPort : Z;
  WebhookTLSOpts : Slice.t;
  HealthProbeBindAddress : string;
  PprofBindAddress : string;
  LeaderElection : bool;
  LeaderElectionID : string;
  rest : string }.
Definition set_rest (r : string) (o : t) : t :=
  mk (MetricsBindAddress o) (SecureServing o) (FilterProvider o) (MetricsTLSOpts o) (WebhookPort o)
    (WebhookTLSOpts o) (HealthProbeBindAddress o) (PprofBindAddress o) (LeaderElection o)
    (LeaderElectionID o) r.
End Options.

(** What answers the health and readiness probes. *)
Inductive Checker := Ping | StartedChecker.

(** What is built with [ctrl.NewWebhookManagedBy(mgr).For(&NeutronAPI{})]. *)
Inductive WebhookPart := NeutronAPICustomValidator | NeutronAPICustomDefaulter.

Inductive MainCall :=
| NewCertWatcher (w : CertWatcher.t)
| SetManagerOptions (o : Options.t)
| GetConfigOrDie
| NewManager (o : Options.t)
| GetConfig
| NewForConfig
| CreateController
| CompleteWebhook (parts : list WebhookPart)
| AddRunnable (w : CertWatcher.t)
| AddHealthzCheck (name : string) (c : Checker)
| AddReadyzCheck (name : string) (c : Checker)
| Start.

Module MainSt.
Record t (W : Type) := mk {
  heap : Heap.t TlsOpt;
  neutronAPIDefaults : option NeutronAPIDefaults.t;
  world : W;
  trace : list (MainCall * option error) }.
Arguments mk {_} _ _ _ _.
Arguments heap {_} _.
Arguments neutronAPIDefaults {_} _.
Arguments world {_} _.
Arguments trace {_} _.
End MainSt.

Section main.
Context {W : Type} (answer : MainCall → W → option error * W).
Context (IndexField : string → (NeutronAPI.t → list string) → W → option error * W).
Context (Complete : Builder.t → W → option error * W).
Context (GetEnvVar : string → string → string) (manager_options : string).
Context (growslice : nat → nat → nat).

Abbreviation prog A := (M (MainSt.t W) Z A).

(** A call, recorded with its answer; [os.Exit(1)] when it fails. *)
Definition exit_on (f : W → option error * W) (c : MainCall) : prog unit := λ s,
  let '(err, w) := f (MainSt.world s) in
  let s' := MainSt.mk (MainSt.heap s) (MainSt.neutronAPIDefaults s) w ((c, err) :: MainSt.trace s) in
  match err with
  | Some _ => (Ret 1%Z, s')
  | None => (Cont (), s')
  end.

Definition try_call (c : MainCall) : prog unit := exit_on (answer c) c.

(** [opts = append(opts, o)] *)
Definition append_opt (opts : Slice.t) (o : TlsOpt) : prog Slice.t := λ s,
  match append growslice (MainSt.heap s) opts o with
  | Some (h, opts) =>
      (Cont opts, MainSt.mk h (MainSt.neutronAPIDefaults s) (MainSt.world s) (MainSt.trace s))
  | None => (Panic, s)
  end.

(** The options both servers start from. *)
Definition base_options (flags : Flags.t) : prog Slice.t :=
  tlsOpts ← append_opt Slice.nil MinTLS13;
  if Flags.EnableHTTP2 flags then mret tlsOpts else append_opt tlsOpts DisableHTTP2.

(** A certificate watcher, when the flags name a directory, and the options of the
    server that uses it. *)
Definition with_watcher (path name key : string) (tlsOpts : Slice.t)
  : prog (option CertWatcher.t * Slice.t) :=
  if bool_decide (path ≠ "") then
    let w := CertWatcher.mk (Join path name) (Join path key) in
    try_call (NewCertWatcher w);;
    opts ← append_opt tlsOpts (UseWatcher w);
    mret (Some w, opts)
  else mret (None, tlsOpts).

(** [SetupNeutronAPIWebhookWithManager(mgr)] *)
Definition SetupNeutronAPIWebhookWithManager : prog unit :=
  try_call (CompleteWebhook [NeutronAPICustomValidator; NeutronAPICustomDefaulter]).

(** [SetupNeutronAPIDefaults(defaults)] *)
Definition SetupNeutronAPIDefaults (d : NeutronAPIDefaults.t) : prog unit :=
  modify (λ s, MainSt.mk (MainSt.heap s) (Some d) (MainSt.world s) (MainSt.trace s)).

Definition add_watcher (w : option CertWatcher.t) : prog unit :=
  match w with Some w => try_call (AddRunnable w) | None => mret () end.

(** The options of the manager. *)
Definition build_options (flags : Flags.t) (webhookTLSOpts metricsTLSOpts : Slice.t) : Options.t :=
  Options.mk (Flags.MetricsAddr flags) (Flags.SecureMetrics flags) (Flags.SecureMetrics flags)
    metricsTLSOpts (Flags.WebhookPort flags) webhookTLSOpts (Flags.ProbeAddr flags)
    (Flags.PprofBindAddress flags) (Flags.EnableLeaderElection flags) "972c7522.openstack.org" "".

(** The options of the manager and the certificate watchers. *)
Definition server_options (flags : Flags.t)
  : prog (Options.t * option CertWatcher.t * option CertWatcher.t) :=
  tlsOpts ← base_options flags;
  '(webhookCertWatcher, webhookTLSOpts) ←
    with_watcher (Flags.WebhookCertPath flags) (Flags.WebhookCertName flags)
      (Flags.WebhookCertKey flags) tlsOpts;
  '(metricsCertWatcher, metricsTLSOpts) ←
    with_watcher (Flags.MetricsCertPath flags) (Flags.MetricsCertName flags)
      (Flags.MetricsCertKey flags) tlsOpts;
  mret (build_options flags webhookTLSOpts metricsTLSOpts, webhookCertWatcher, metricsCertWatcher).

(** The webhooks, unless they are disabled, and the checker of the probes. *)
Definition setup_webhooks (ENABLE_WEBHOOKS : string) : prog Checker :=
  if bool_decide (ENABLE_WEBHOOKS ≠ "false") then
    SetupNeutronAPIWebhookWithManager;;
    mret StartedChecker
  else mret Ping.

(** From the options to the end of the process. *)
Definition run_manager (options : Options.t) (webhookCertWatcher metricsCertWatcher : option CertWatcher.t)
    (ENABLE_WEBHOOKS : string) : prog Z :=
  try_call (SetManagerOptions options);;
  try_call GetConfigOrDie;;
  try_call (NewManager (Options.set_rest manager_options options));;
  try_call GetConfig;;
  try_call NewForConfig;;
  exit_on (SetupWithManager IndexField Complete) CreateController;;
  SetupNeutronAPIDefaults (SetupDefaults GetEnvVar);;
  checker ← setup_webhooks ENABLE_WEBHOOKS;
  add_watcher metricsCertWatcher;;
  add_watcher webhookCertWatcher;;
  try_call (AddHealthzCheck "healthz" checker);;
  try_call (AddReadyzCheck "readyz" checker);;
  try_call Start;;
  mret 0%Z.

(** [main], which returns the exit code. *)
Definition main (flags : Flags.t) (ENABLE_WEBHOOKS : string) : prog Z :=
  '(options, webhookCertWatcher, metricsCertWatcher) ← server_options flags;
  run_manager options webhookCertWatcher metricsCertWatcher ENABLE_WEBHOOKS.

(** The process before [main]. *)
Definition initial (w : W) : MainSt.t W := MainSt.mk Heap.empty None w [].

End main.
