(* ===== verification/Startup.v ===== *)
(** * Start-up, specified

    The calls that [Main.main] makes, and the TLS options that the two servers
    get.  A process that starts makes exactly the calls of [server_calls] and
    [manager_calls], in this order; one that does not start stops at the first
    call that fails. *)

From S2P Require Import Prelude Slices K8s Lib Api Webhook GoMonad Watches Main.

(** ** Paths *)

Example Join_plain : Join "/certs" "tls.crt" = "/certs/tls.crt".
Proof. reflexivity. Qed.

Example Join_cleans : Join "a//b/./c/" "../tls.key" = "a/b/tls.key" ∧ Join "/.." "x" = "/x" ∧ Join "a/.." "" = ".".
Proof. split_and!; reflexivity. Qed.

(** ** What it should do *)

(** The watcher that the flags ask for. *)
Definition watcher_of (path name key : string) : option CertWatcher.t :=
  if bool_decide (path = "") then None else Some (CertWatcher.mk (Join path name) (Join path key)).

Definition webhook_watcher (flags : Flags.t) : option CertWatcher.t :=
  watcher_of (Flags.WebhookCertPath flags) (Flags.WebhookCertName flags) (Flags.WebhookCertKey flags).

Definition metrics_watcher (flags : Flags.t) : option CertWatcher.t :=
  watcher_of (Flags.MetricsCertPath flags) (Flags.MetricsCertName flags) (Flags.MetricsCertKey flags).

Definition base_of (flags : Flags.t) : list TlsOpt :=
  MinTLS13 :: if Flags.EnableHTTP2 flags then [] else [DisableHTTP2].

(** The calls of a start-up in which nothing fails. *)
Definition server_calls (flags : Flags.t) : list MainCall :=
  (NewCertWatcher <$> option_list (webhook_watcher flags)) ++
  (NewCertWatcher <$> option_list (metrics_watcher flags)).

Definition manager_calls (flags : Flags.t) (ENABLE_WEBHOOKS rest : string) (o : Options.t)
  : list MainCall :=
  let webhooks := bool_decide (ENABLE_WEBHOOKS ≠ "false") in
  let checker := if webhooks then StartedChecker else Ping in
  [SetManagerOptions o; GetConfigOrDie; NewManager (Options.set_rest rest o); GetConfig;
   NewForConfig; CreateController] ++
  (if webhooks then [CompleteWebhook [NeutronAPICustomValidator; NeutronAPICustomDefaulter]] else []) ++
  (AddRunnable <$> option_list (metrics_watcher flags)) ++
  (AddRunnable <$> option_list (webhook_watcher flags)) ++
  [AddHealthzCheck "healthz" checker; AddReadyzCheck "readyz" checker; Start].

(** The calls [cs], made in this order and answered without an error. *)
Definition succeeded (cs : list MainCall) : list (MainCall * option error) :=
  reverse ((λ c, (c, None)) <$> cs).

(** The calls of [cs] up to one that failed. *)
Definition stopped (cs : list MainCall) (tr tr' : list (MainCall * option error)) : Prop :=
  ∃ before c after err, cs = before ++ c :: after ∧ tr' = (c, Some err) :: succeeded before ++ tr.

(** The runtime allocates as much as the two first appends to an empty slice of
    closures need. *)
Definition tight (growslice : nat → nat → nat) : Prop := growslice 0 1 = 1 ∧ growslice 1 2 = 2.

(** ** A judgement for the calls *)

Section calls.
Context {W : Type} (answer : MainCall → W → option error * W).
Context (IndexField : string → (NeutronAPI.t → list string) → W → option error * W).
Context (Complete : Builder.t → W → option error * W).
Context (GetEnvVar : string → string → string) (manager_options : string).
Context (growslice : nat → nat → nat).

Abbreviation prog A := (M (MainSt.t W) Z A).
Abbreviation main := (main answer IndexField Complete GetEnvVar manager_options growslice).
Abbreviation run_manager := (run_manager answer IndexField Complete GetEnvVar manager_options).

(** [m] goes on after the calls [cs], or exits with 1 at one of them that fails;
    it leaves the arrays alone, or changes them to [h]. *)
Definition does (h : Heap.t TlsOpt) (cs : list MainCall) {A} (m : prog A)
    (Q : A → MainSt.t W → Prop) (s : MainSt.t W) : Prop :=
  wp m (λ o s', match o with
                | Cont a => MainSt.trace s' = succeeded cs ++ MainSt.trace s ∧
                            MainSt.heap s' = h ∧ Q a s'
                | Ret z => z = 1%Z ∧ stopped cs (MainSt.trace s) (MainSt.trace s')
                | Panic => False
                end) s.

Lemma succeeded_app cs cs' : succeeded (cs ++ cs') = succeeded cs' ++ succeeded cs.
Proof. unfold succeeded. by rewrite fmap_app, reverse_app. Qed.

Lemma does_ret h s {A} (a : A) (Q : A → MainSt.t W → Prop) :
  MainSt.heap s = h → Q a s → does h [] (mret a) Q s.
Proof. intros <- Hs. by split_and!. Qed.

Lemma does_bind h h' cs cs' {A B} (m : prog A) (k : A → prog B) Q Q' s :
  does h cs m Q s →
  (∀ a s', MainSt.heap s' = h → Q a s' → does h' cs' (k a) Q' s') →
  does h' (cs ++ cs') (m ≫= k) Q' s.
Proof.
  unfold does. intros Hm Hk. apply wp_bind. eapply wp_mono; [exact Hm|]. intros [a|z|] s1; [| |done].
  - intros (Ht & Hh & Ha). eapply wp_mono; [exact (Hk a s1 Hh Ha)|].
    intros [b|z|] s2; [| |done].
    + intros (Ht' & Hh' & Hb). split_and!; [|done..].
      by rewrite Ht', Ht, succeeded_app, <-app_assoc.
    + intros (-> & before & c & after & err & -> & Ht'). split; [done|].
      exists (cs ++ before), c, after, err. split; [by rewrite <-app_assoc|].
      by rewrite Ht', Ht, succeeded_app, <-app_assoc.
  - intros (-> & before & c & after & err & -> & Ht). split; [done|].
    exists before, c, (after ++ cs'), err. split; [by rewrite <-app_assoc|done].
Qed.

Lemma does_mono h cs {A} (m : prog A) (Q Q' : A → MainSt.t W → Prop) s :
  does h cs m Q s → (∀ a s', MainSt.heap s' = h → Q a s' → Q' a s') → does h cs m Q' s.
Proof.
  unfold does. intros Hm Hk. eapply wp_mono; [exact Hm|].
  intros [a|z|] s1; [|done..]. intros (Ht & Hh & Ha). by split_and!; [..|apply Hk].
Qed.

Abbreviation defaults := MainSt.neutronAPIDefaults.

(** A single call. *)
Lemma does_exit_on h d f c s :
  MainSt.heap s = h → defaults s = d → does h [c] (exit_on f c) (λ _ s', defaults s' = d) s.
Proof.
  intros <- <-. unfold does, wp, exit_on. destruct (f (MainSt.world s)) as [[err|] w]; simpl; [|done].
  split; [done|]. by exists [], c, [], err.
Qed.

Lemma does_add_watcher h d w s :
  MainSt.heap s = h → defaults s = d →
  does h (AddRunnable <$> option_list w) (add_watcher answer w) (λ _ s', defaults s' = d) s.
Proof. intros Hh Hd. destruct w; simpl; [by apply does_exit_on|by apply does_ret]. Qed.

(** [append] makes no call. *)
Lemma does_append_opt h d h' opts o opts' s :
  append growslice h opts o = Some (h', opts') → MainSt.heap s = h → defaults s = d →
  does h' [] (append_opt growslice opts o) (λ r s', r = opts' ∧ defaults s' = d) s.
Proof. intros Happ <- <-. unfold does, wp, append_opt. by rewrite Happ. Qed.

(** ** The blocks *)

(** The common options: an array without spare capacity when the runtime is tight. *)
Lemma base_options_does flags :
  ∃ h opts, holds h opts (base_of flags) ∧ (tight growslice → Slice.cap opts ≤ Slice.len opts) ∧
    ∀ s, MainSt.heap s = Heap.empty →
      does h [] (base_options growslice flags) (λ r s', r = opts ∧ defaults s' = defaults s) s.
Proof.
  assert (holds (T:=TlsOpt) Heap.empty Slice.nil []) as H0 by (split; [done|simpl; lia]).
  destruct (append_holds growslice _ _ _ MinTLS13 H0) as (h1 & o1 & H1 & Hh1).
  destruct (append_full growslice Heap.empty Slice.nil MinTLS13 h1 o1) as [E1 _]; [done..|]. simpl in E1.
  unfold base_of, base_options. destruct (Flags.EnableHTTP2 flags).
  - exists h1, o1. split_and!; [done|intros [E _]; rewrite E1; simpl; lia|].
    intros s Hs. eapply (does_bind _ _ [] []).
    { by apply (does_append_opt _ (defaults s) _ _ _ _ _ H1). }
    intros a s' Hh [-> Hd]. by apply does_ret.
  - destruct (append_holds growslice _ _ _ DisableHTTP2 Hh1) as (h2 & o2 & H2 & Hh2).
    exists h2, o2. split_and!; [done| |].
    { intros [Ea Eb]. destruct (append_full growslice h1 o1 DisableHTTP2 h2 o2) as [E2 _]; [|done|].
      - rewrite E1; simpl; lia.
      - rewrite E2. simpl. rewrite E1. simpl. rewrite Ea, Eb. lia. }
    intros s Hs. eapply (does_bind _ _ [] []).
    { by apply (does_append_opt _ (defaults s) _ _ _ _ _ H1). }
    intros a s' Hh [-> Hd]. by eapply does_append_opt.
Qed.

(** The options of one server: the common ones and its certificate. *)
Lemma with_watcher_does path name key h opts l :
  holds h opts l →
  ∃ h' opts', holds h' opts' (l ++ (UseWatcher <$> option_list (watcher_of path name key))) ∧
    (∀ opts2 l2, holds h opts2 l2 →
       Slice.cap opts ≤ Slice.len opts ∨ Slice.len opts2 ≤ Slice.len opts → holds h' opts2 l2) ∧
    ∀ s, MainSt.heap s = h →
      does h' (NewCertWatcher <$> option_list (watcher_of path name key))
        (with_watcher answer growslice path name key opts)
        (λ r s', r = (watcher_of path name key, opts') ∧ defaults s' = defaults s) s.
Proof.
  intros Hl. unfold watcher_of, with_watcher.
  destruct (decide (path = "")) as [Hp|Hp].
  { rewrite bool_decide_true by done. rewrite bool_decide_false by naive_solver. exists h, opts.
    simpl. rewrite app_nil_r. split_and!; [done..|]. intros s Hs. by apply does_ret. }
  rewrite (bool_decide_false (path = "")) by done. rewrite bool_decide_true by done.
  set (w := CertWatcher.mk _ _).
  destruct (append_holds growslice _ _ _ (UseWatcher w) Hl) as (h' & opts' & Happ & Hh').
  exists h', opts'. split_and!; [done| |].
  { intros opts2 l2 H2 Hor. eapply append_keeps; [exact H2|exact Happ|tauto]. }
  intros s Hs. eapply (does_bind _ _ [_] []); [by eapply does_exit_on|].
  intros ? s1 Hs1 Hd1. eapply (does_bind _ _ [] []).
  { by apply (does_append_opt h (defaults s) h' opts (UseWatcher w) opts'). }
  intros ? s2 Hs2 [-> Hd2]. by apply does_ret.
Qed.

(** The options of the two servers, each with its own certificate; they are what
    the arrays hold to the end, given that the runtime is tight. *)
Lemma server_options_does flags :
  ∃ h wopts mopts,
    (tight growslice →
       holds h wopts (base_of flags ++ (UseWatcher <$> option_list (webhook_watcher flags))) ∧
       holds h mopts (base_of flags ++ (UseWatcher <$> option_list (metrics_watcher flags)))) ∧
    ∀ s, MainSt.heap s = Heap.empty →
      does h (server_calls flags) (server_options answer growslice flags)
        (λ r s', r = (build_options flags wopts mopts, webhook_watcher flags, metrics_watcher flags) ∧
                 defaults s' = defaults s) s.
Proof.
  destruct (base_options_does flags) as (h & opts & Hb & Hcap & Hbase).
  destruct (with_watcher_does (Flags.WebhookCertPath flags) (Flags.WebhookCertName flags)
              (Flags.WebhookCertKey flags) h opts _ Hb) as (h1 & wopts & Hw & Hk1 & Hdo1).
  destruct (with_watcher_does (Flags.MetricsCertPath flags) (Flags.MetricsCertName flags)
              (Flags.MetricsCertKey flags) h1 opts (base_of flags)) as (h2 & mopts & Hm & Hk2 & Hdo2).
  { apply Hk1; [done|]. by right. }
  exists h2, wopts, mopts. split.
  { intros Ht. split; [|exact Hm]. apply Hk2; [exact Hw|]. left. by apply Hcap. }
  intros s Hs. eapply (does_bind _ _ []); [by apply Hbase|]. intros a s1 Hs1 [-> Hd1].
  eapply does_bind; [by apply Hdo1|]. intros a s2 Hs2 [-> Hd2]. cbv beta iota.
  unfold metrics_watcher at 1. rewrite <-(app_nil_r (NewCertWatcher <$> option_list (watcher_of (Flags.MetricsCertPath flags) _ _))).
  eapply does_bind; [by apply Hdo2|]. intros a s3 Hs3 [-> Hd3]. cbv beta iota.
  apply does_ret; [done|]. split; [done|congruence].
Qed.

Lemma setup_webhooks_does h d env s :
  MainSt.heap s = h → defaults s = d →
  does h (if bool_decide (env ≠ "false")
          then [CompleteWebhook [NeutronAPICustomValidator; NeutronAPICustomDefaulter]] else [])
    (setup_webhooks answer env)
    (λ c s', c = (if bool_decide (env ≠ "false") then StartedChecker else Ping) ∧ defaults s' = d) s.
Proof.
  intros Hh Hd. unfold setup_webhooks. case_bool_decide; [|by apply does_ret].
  eapply (does_bind _ _ [_] []); [by eapply does_exit_on|]. intros ? s1 Hs1 Hd1. by apply does_ret.
Qed.

Lemma run_manager_does flags env h wopts mopts s :
  let o := build_options flags wopts mopts in
  MainSt.heap s = h →
  does h (manager_calls flags env manager_options o)
    (run_manager o (webhook_watcher flags) (metrics_watcher flags) env)
    (λ z s', z = 0%Z ∧ defaults s' = Some (SetupDefaults GetEnvVar)) s.
Proof.
  intros o Hs. unfold manager_calls, Main.run_manager. cbv zeta. cbn [app].
  remember (defaults s) as d eqn:Hd. symmetry in Hd.
  do 6 (eapply (does_bind _ _ [_]); [by apply (does_exit_on h d)|]; clear s Hs Hd; intros ? s Hs Hd).
  eapply (does_bind h _ [] _ _ _ (λ _ s', defaults s' = Some (SetupDefaults GetEnvVar))).
  { by split_and!. }
  clear s Hs Hd. intros ? s Hs Hd. eapply does_bind; [by apply setup_webhooks_does|].
  clear s Hs Hd. intros c s Hs [-> Hd].
  do 2 (eapply does_bind; [by apply (does_add_watcher h (Some (SetupDefaults GetEnvVar)))|]; clear s Hs Hd; intros ? s Hs Hd).
  do 2 (eapply (does_bind _ _ [_]); [by apply (does_exit_on h (Some (SetupDefaults GetEnvVar)))|]; clear s Hs Hd; intros ? s Hs Hd).
  eapply (does_bind _ _ [_] []); [by apply (does_exit_on h (Some (SetupDefaults GetEnvVar)))|]. clear s Hs Hd. intros _v s Hs Hd.
  by apply does_ret.
Qed.

Lemma succeeded_elem c r cs : (c, r) ∈ succeeded cs → c ∈ cs.
Proof.
  unfold succeeded. rewrite elem_of_reverse, list_elem_of_fmap. by intros (c' & [= -> ->] & Hc).
Qed.

(** A process makes no other calls. *)
Lemma does_made h cs {A} (m : prog A) Q s :
  does h cs m Q s →
  wp m (λ _ s', ∀ c r, (c, r) ∈ MainSt.trace s' → c ∈ cs ∨ (c, r) ∈ MainSt.trace s) s.
Proof.
  intros Hm. unfold does in Hm. eapply wp_mono; [exact Hm|]. intros [a|z|] s'; [| |done].
  - intros (-> & _) c r [Hc|Hc]%elem_of_app; [left; by eapply succeeded_elem|by right].
  - intros (_ & before & c & after & err & -> & ->) c' r Hc.
    apply elem_of_cons in Hc as [[= -> ->]|[Hc|Hc]%elem_of_app].
    + left. apply elem_of_app. right. by left.
    + left. apply elem_of_app. left. by eapply succeeded_elem.
    + by right.
Qed.

Lemma keeps_heap_exit_on h f c : keeps (λ s : MainSt.t W, MainSt.heap s = h) (exit_on f c).
Proof. intros s Hs. unfold exit_on. by destruct (f (MainSt.world s)) as [[err|] w]. Qed.

(** The arrays are left alone once the options are made. *)
Lemma keeps_heap_run_manager h o ww mw env :
  keeps (λ s : MainSt.t W, MainSt.heap s = h) (run_manager o ww mw env).
Proof.
  pose proof (keeps_heap_exit_on h) as He. unfold Main.run_manager, setup_webhooks, add_watcher,
    SetupNeutronAPIWebhookWithManager, SetupNeutronAPIDefaults, try_call.
  repeat first [apply He | progress keeps]. by apply keeps_modify.
Qed.

(** The whole process, on any environment. *)
Lemma main_does flags env :
  ∃ h wopts mopts,
    (tight growslice →
       holds h wopts (base_of flags ++ (UseWatcher <$> option_list (webhook_watcher flags))) ∧
       holds h mopts (base_of flags ++ (UseWatcher <$> option_list (metrics_watcher flags)))) ∧
    ∀ w, does h (server_calls flags ++
                 manager_calls flags env manager_options (build_options flags wopts mopts))
           (main flags env) (λ z s', z = 0%Z ∧ defaults s' = Some (SetupDefaults GetEnvVar)) (initial w) ∧
         wp (main flags env) (λ _ s', ∀ o r, (NewManager o, r) ∈ MainSt.trace s' →
           MainSt.heap s' = h ∧ o = Options.set_rest manager_options (build_options flags wopts mopts))
           (initial w).
Proof.
  destruct (server_options_does flags) as (h & wopts & mopts & Hh & Hdo).
  exists h, wopts, mopts. split; [exact Hh|]. intros w. split.
  { eapply does_bind; [by apply Hdo|]. intros a s1 Hs1 [-> _]. by apply run_manager_does. }
  assert (∀ o, NewManager o ∉ server_calls flags) as Hno.
  { intros o [Ho|Ho]%elem_of_app; apply list_elem_of_fmap in Ho as (? & ? & ?); done. }
  pose proof (Hdo (initial w) eq_refl) as Hs. pose proof (does_made _ _ _ _ _ Hs) as Hmade.
  apply wp_bind. unfold does, wp in Hs, Hmade |- *.
  destruct (server_options answer growslice flags (initial w)) as [[a|z|] s1]; simpl in *; [| |done].
  - destruct Hs as (Ht & Hs1 & -> & _). unfold wp. intros o r Ho. split.
    { by apply keeps_heap_run_manager. }
    destruct (does_made _ _ _ _ _ (run_manager_does flags env h wopts mopts s1 Hs1) _ _ Ho) as [Hin|Hin].
    + unfold manager_calls in Hin. cbv zeta in Hin. simpl in Hin.
      rewrite !elem_of_cons, !elem_of_app, !list_elem_of_fmap, !elem_of_cons, elem_of_nil in Hin.
      case_bool_decide; rewrite ?list_elem_of_singleton, ?elem_of_nil in Hin; naive_solver.
    + apply Hmade in Hin as [Hin|Hin]; [by apply Hno in Hin|]. by apply elem_of_nil in Hin.
  - intros o r Ho. apply Hmade in Ho as [Hin|Hin]; [by apply Hno in Hin|]. by apply elem_of_nil in Hin.
Qed.

End calls.

(** ** The theorems *)

(** C29: [main] returns or exits, whatever the environment, and never panics.
    With exit code 0 it made exactly the calls of a start-up, in this order and
    all successfully: the certificate watchers that the flags name, the manager's
    options and construction, the controller, the webhooks unless
    [ENABLE_WEBHOOKS] is ["false"], the watchers as runnables, both probes with a
    checker that waits for the webhook server exactly when there is one, and the
    start; and the operator's defaults were set.  Otherwise the exit code is 1 and
    it stopped at the first of these calls that failed. *)
Theorem main_spec {W} answer IndexField Complete GetEnvVar manager_options growslice
    (flags : Flags.t) (env : string) (w : W) :
  ∃ z s' wopts mopts,
    returns (main answer IndexField Complete GetEnvVar manager_options growslice flags env)
      (initial w) = Some (z, s') ∧
    let cs := server_calls flags ++
              manager_calls flags env manager_options (build_options flags wopts mopts) in
    (z = 0%Z ∧ MainSt.trace s' = succeeded cs ∧
       MainSt.neutronAPIDefaults s' = Some (SetupDefaults GetEnvVar)) ∨
    (z = 1%Z ∧ stopped cs [] (MainSt.trace s')).
Proof.
  destruct (main_does answer IndexField Complete GetEnvVar manager_options growslice flags env)
    as (h & wopts & mopts & _ & Hdo). destruct (Hdo w) as [Hd _].
  unfold does, wp, returns in *. destruct (main _ _ _ _ _ _ _ _ _) as [[z|z|] s']; simpl in Hd; [| |done];
    exists z, s', wopts, mopts; (split; [done|]).
  - destruct Hd as (Ht & _ & -> & Hdef). rewrite app_nil_r in Ht. by left.
  - by right.
Qed.

(** C30: The manager is built with TLS options that make both servers require
    TLS 1.3, offer HTTP/2 only when the flags allow it, and serve the
    certificate of their own flags, the webhook server never that of the
    metrics server, although both start from one slice: given that [append]
    leaves the array of the common options without spare capacity, as the
    runtime does. *)
Theorem servers_tls {W} answer IndexField Complete GetEnvVar manager_options growslice
    (flags : Flags.t) (env : string) (w : W) z s' o r c :
  tight growslice →
  returns (main answer IndexField Complete GetEnvVar manager_options growslice flags env)
    (initial w) = Some (z, s') →
  (NewManager o, r) ∈ MainSt.trace s' →
  let config watcher :=
    Config.mk VersionTLS13
      (if Flags.EnableHTTP2 flags then Config.NextProtos c else ["http/1.1"])
      (match watcher with Some cw => Some cw | None => Config.GetCertificate c end) in
  ((λ os, apply_opts os c) <$> contents (MainSt.heap s') (Options.WebhookTLSOpts o)) =
    Some (config (webhook_watcher flags)) ∧
  ((λ os, apply_opts os c) <$> contents (MainSt.heap s') (Options.MetricsTLSOpts o)) =
    Some (config (metrics_watcher flags)).
Proof.
  intros Ht Hret Ho. cbv zeta.
  destruct (main_does answer IndexField Complete GetEnvVar manager_options growslice flags env)
    as (h & wopts & mopts & Hh & Hdo). destruct (Hh Ht) as [[Hw _] [Hm _]]. destruct (Hdo w) as [_ Hd].
  assert (MainSt.heap s' = h ∧ o = Options.set_rest manager_options (build_options flags wopts mopts)) as [-> ->].
  { unfold wp, returns in *. destruct (main _ _ _ _ _ _ _ _ _) as [[?|?|] ?]; simplify_eq; by eapply Hd. }
  cbn [Options.set_rest build_options Options.WebhookTLSOpts Options.MetricsTLSOpts]. rewrite Hw, Hm. cbn [fmap option_fmap option_map].
  unfold base_of, apply_opts. by destruct (Flags.EnableHTTP2 flags), (webhook_watcher flags), (metrics_watcher flags).
Qed.

(** The capacity matters: with room for two options in the first array, the
    webhook server is given the certificate of the metrics server. *)
Lemma spare_capacity_shares :
  let flags := Flags.mk "0" ":8081" false true "/w" "tls.crt" "tls.key" "/m" "tls.crt" "tls.key" "" 9443 true in
  let run := main (W := unit) (λ _ w, (None, w)) (λ _ _ w, (None, w)) (λ _ w, (None, w)) (λ _ d, d) ""
               (λ _ _, 2) flags "" (initial ()) in
  ∃ wopts, contents (MainSt.heap run.2) wopts = Some [MinTLS13; UseWatcher (CertWatcher.mk "/m/tls.crt" "/m/tls.key")] ∧
    (NewManager (Options.set_rest "" (build_options flags wopts wopts)), None) ∈ MainSt.trace run.2.
Proof.
  exists (Slice.mk 1 2 2). split; [by vm_compute|].
  apply (list_elem_of_lookup_2 _ 9). by vm_compute.
Qed.
