(* ===== verification/Frame.v ===== *)
(** * What a piece of the controller leaves alone

    [frames b T q m]: however [m] ends, it changed only the status of the instance,
    the hashes of the status are as they were if [b] is set, the conditions
    selected by [T] have the status they had, and every call it made satisfies
    [q].  The relation composes along the program text, so that
    the [frames] tactic proves it for whole blocks of the controller. *)

From S2P Require Import Prelude K8s Conditions Lib Api GoMonad External.

Section frame.
Context `{L : Lib} `{!LibLaws L} {W : Type} (handler : ∀ R, Call R → W → R * W).
Context (b : bool) (T : CondType → bool) (q : event → bool).

Definition cond_of (s : St.t W) (t : CondType) : option CondStatus :=
  cond_status (conds (St.inst s)) t.

Definition frame (s s' : St.t W) : Prop :=
  (∃ st, St.inst s' = NeutronAPI.set_Status st (St.inst s)) ∧
  (b = true → hashes s' = hashes s) ∧
  (∀ t, T t = true → cond_of s' t = cond_of s t) ∧
  (∃ evs, St.trace s' = evs ++ St.trace s ∧ forallb q evs = true).

Definition frames {R A} (m : M (St.t W) R A) : Prop := ∀ s, frame s (m s).2.

Lemma set_Status_id i : NeutronAPI.set_Status (NeutronAPI.Status i) i = i.
Proof. by destruct i. Qed.

Lemma frame_refl s : frame s s.
Proof.
  split_and!; [|done..|by exists []]. exists (NeutronAPI.Status (St.inst s)). by rewrite set_Status_id.
Qed.

Lemma frame_trans s s1 s2 : frame s s1 → frame s1 s2 → frame s s2.
Proof.
  intros ([st1 H1] & Hb1 & HT1 & e1 & Ht1 & Hq1) ([st2 H2] & Hb2 & HT2 & e2 & Ht2 & Hq2). split_and!.
  - exists st2. by rewrite H2, H1.
  - intros Hb. by rewrite Hb2, Hb1.
  - intros t Ht. by rewrite HT2, HT1.
  - exists (e2 ++ e1). rewrite Ht2, Ht1, app_assoc, forallb_app, Hq1, Hq2. done.
Qed.

Lemma frames_pure {R A} (m : M (St.t W) R A) : (∀ s, (m s).2 = s) → frames m.
Proof. intros H s. rewrite H. apply frame_refl. Qed.

Lemma frames_ret {R A} (a : A) : frames (R:=R) (mret a).
Proof. by apply frames_pure. Qed.
Lemma frames_return {R A} (r : R) : frames (return_ (A:=A) r).
Proof. by apply frames_pure. Qed.
Lemma frames_instance {R} : frames (R:=R) instance.
Proof. by apply frames_pure. Qed.
Lemma frames_get_vars {R} : frames (R:=R) get_vars.
Proof. by apply frames_pure. Qed.
Lemma frames_force {R A} (o : option A) : frames (R:=R) (force o).
Proof. apply frames_pure. by destruct o. Qed.

Lemma frames_bind {R A B} (m : M (St.t W) R A) (k : A → M (St.t W) R B) :
  frames m → (∀ a, frames (k a)) → frames (m ≫= k).
Proof.
  intros Hm Hk s. unfold mbind, M_bind. specialize (Hm s).
  destruct (m s) as [[a|r|] s1]; simpl in *; [|done..]. eapply frame_trans; [done|apply Hk].
Qed.

Lemma frames_call_fn {R R'} (f : M (St.t W) R' R') : frames f → frames (R:=R) (call_fn f).
Proof. intros Hf s. unfold call_fn. specialize (Hf s). by destruct (f s) as [[a|r|] s1]. Qed.

Lemma frames_when {R} c (m : M (St.t W) R unit) : frames m → frames (when c m).
Proof. intros H. destruct c; [done|apply frames_ret]. Qed.

Lemma frames_for_each {R X} (l : list X) (body : X → M (St.t W) R unit) :
  (∀ x, x ∈ l → frames (body x)) → frames (for_each l body).
Proof.
  induction l as [|x l IH]; intros H; simpl; [apply frames_ret|].
  apply frames_bind; [apply H; by left|]. intros _. apply IH. intros y Hy. apply H. by right.
Qed.

Lemma frame_call {A} (c : Call A) a w s :
  q (Ev c a) = true → frame s (St.mk (St.inst s) (St.vars s) w (Ev c a :: St.trace s)).
Proof.
  intros Hq. split_and!; [|done..|].
  - exists (NeutronAPI.Status (St.inst s)). simpl. by rewrite set_Status_id.
  - exists [Ev c a]. simpl. by rewrite Hq.
Qed.

Lemma frames_call {R A} (c : Call A) : (∀ a, q (Ev c a) = true) → frames (R:=R) (call handler c).
Proof. intros H s. unfold call. destruct (handler A c (St.world s)). by apply frame_call. Qed.

(** A call whose answer the rest depends on, with what the handler promises. *)
Lemma frames_bind_call {R A B} (c : Call A) (k : A → M (St.t W) R B) :
  (∀ a, q (Ev c a) = true) →
  (∀ a w w', handler A c w = (a, w') → frames (k a)) → frames (call handler c ≫= k).
Proof.
  intros Hq Hk s. unfold mbind, M_bind, call. destruct (handler A c (St.world s)) as [a w] eqn:E.
  exact (frame_trans _ _ _ (frame_call c a w s (Hq a)) (Hk a _ _ E _)).
Qed.

Lemma frames_put_vars {R} v : frames (R:=R) (put_vars v).
Proof. intros s. exact (frame_refl s). Qed.

Lemma frames_put_var {R} k f : frames (R:=R) (put_var k f).
Proof. intros s. exact (frame_refl s). Qed.

Lemma frames_update_status {R} f :
  (∀ st, Status.Conditions (f st) = Status.Conditions st ∧
         (b = true → Status.Hash (f st) = Status.Hash st)) →
  frames (R:=R) (update_status f).
Proof.
  intros H s. destruct (H (NeutronAPI.Status (St.inst s))) as [Hc Hh].
  split_and!; [by eexists|exact Hh| |by exists []].
  intros t _. unfold cond_of, conds. simpl. by rewrite Hc.
Qed.

Lemma frame_conds (cs : Conditions) s :
  (∀ t, T t = true → cond_status cs t = cond_of s t) →
  frame s (St.set_inst (set_conds cs (St.inst s)) s).
Proof. intros H. split_and!; [by eexists|done|done|by exists []]. Qed.

Lemma frames_set_cond {R} c : T (Condition.Type_ c) = false → frames (R:=R) (set_cond c).
Proof.
  intros Hc s. apply frame_conds. intros t Ht. rewrite status_Set, decide_False; [done|].
  intros <-. congruence.
Qed.

Lemma frames_rbac {R} c :
  T (Condition.Type_ c) = false → frames (R:=R) (update_inst (λ i, RbacConditionsSet i c)).
Proof. apply frames_set_cond. Qed.

Lemma frames_false {R} t r sv m a :
  T t = false → frames (R:=R) (set_cond (FalseCondition t r sv m a)).
Proof. intros H. apply frames_set_cond. by rewrite FalseCondition_type. Qed.

Lemma frames_error {R} t m a : T t = false → frames (R:=R) (set_error t m a).
Proof. apply frames_false. Qed.

Lemma frames_running {R} t m a : T t = false → frames (R:=R) (set_running t m a).
Proof. apply frames_false. Qed.

Lemma frames_mark_true {R} t m : T t = false → frames (R:=R) (mark_true t m).
Proof.
  intros Hc s. apply frame_conds. intros t' Ht. rewrite status_MarkTrue, decide_False; [done|].
  intros <-. congruence.
Qed.

Lemma frames_remove {R} t : T t = false → frames (R:=R) (remove_cond t).
Proof.
  intros Hc s. apply frame_conds. intros t' Ht. rewrite status_Remove, decide_False; [done|].
  intros <-. congruence.
Qed.

Lemma frames_write_hash {R} k v : b = false → frames (R:=R) (write_hash k v).
Proof.
  intros Hb. unfold write_hash. apply frames_bind; [apply frames_instance|]. intros i.
  apply frames_bind; [apply frames_force|]. intros h. apply frames_update_status.
  intros st. split; [done|congruence].
Qed.

Lemma frames_mirror {R} cs t c :
  Mirror cs t = Some c → T t = false → frames (R:=R) (set_cond c).
Proof. intros H Ht. apply frames_set_cond. by rewrite (Mirror_type cs t c H). Qed.

Lemma frames_wp {R A} (m : M (St.t W) R A) s : frames m → wp m (λ _ s', frame s s') s.
Proof. intros H. apply H. Qed.

End frame.

Lemma frame_weaken {L : Lib} {W} (b b' : bool) (T T' : CondType → bool) (q q' : event → bool)
    (s s' : St.t W) :
  (b' = true → b = true) → (∀ t, T' t = true → T t = true) → (∀ ev, q ev = true → q' ev = true) →
  frame b T q s s' → frame b' T' q' s s'.
Proof.
  intros Hb HT Hq (Hi & Hh & Hc & evs & Ht & Hevs). split_and!; [done|auto..|]. exists evs.
  split; [done|]. rewrite forallb_forall in *. auto.
Qed.

Lemma frames_weaken {L : Lib} {W R A} (b b' : bool) (T T' : CondType → bool) (q q' : event → bool)
    (m : M (St.t W) R A) :
  (b' = true → b = true) → (∀ t, T' t = true → T t = true) → (∀ ev, q ev = true → q' ev = true) →
  frames b T q m → frames b' T' q' m.
Proof. intros Hb HT Hq H s. by eapply frame_weaken. Qed.

Lemma frame_trace {L : Lib} {W} b T q (s s' : St.t W) :
  frame b T q s s' → St.trace s ⊆ St.trace s'.
Proof. intros (_ & _ & _ & evs & -> & _). set_solver. Qed.

(** Walks along the program; leaves the calls and condition updates it cannot
    decide by computation. *)
Ltac frames_step :=
  lazymatch goal with
  | |- frames _ _ _ (mbind _ _) => apply frames_bind; [|intros ?]
  | |- frames _ _ _ (mret _) => apply frames_ret
  | |- frames _ _ _ (return_ _) => apply frames_return
  | |- frames _ _ _ instance => apply frames_instance
  | |- frames _ _ _ get_vars => apply frames_get_vars
  | |- frames _ _ _ (force _) => apply frames_force
  | |- frames _ _ _ (call_fn _) => apply frames_call_fn
  | |- frames _ _ _ (when _ _) => apply frames_when
  | |- frames _ _ _ (for_each _ _) => apply frames_for_each; intros ? ?
  | |- frames _ _ _ (call _ _) => apply frames_call; intros ?; reflexivity
  | |- frames _ _ _ (put_vars _) => apply frames_put_vars
  | |- frames _ _ _ (put_var _ _) => apply frames_put_var
  | |- frames _ _ _ (update_status _) =>
      apply frames_update_status; intros ?; split;
        [repeat case_match; reflexivity
        |first [discriminate | intros _; repeat case_match; reflexivity]]
  | |- frames _ _ _ (set_error _ _ _) => apply frames_error; reflexivity
  | |- frames _ _ _ (set_running _ _ _) => apply frames_running; reflexivity
  | |- frames _ _ _ (mark_true _ _) => apply frames_mark_true; reflexivity
  | |- frames _ _ _ (remove_cond _) => apply frames_remove; reflexivity
  | |- frames _ _ _ (write_hash _ _) => apply frames_write_hash; reflexivity
  | |- frames _ _ _ (let '_ := ?x in _) => destruct x eqn:?
  | |- frames _ _ _ (match ?x with _ => _ end) => destruct x eqn:?
  end.

Ltac frames := repeat (cbv zeta; frames_step).
