(* ===== verification/Safety.v ===== *)
(** * A reconcile does not panic

    [safe m]: from an instance whose status has its hash map and whose extra
    volumes convert, [m] does not panic and leaves such an instance, with the
    observed generation it had.  Like [frames], the judgement follows the program
    text; the dereferences of the code ([force], [write_hash]) are the places
    where it takes an argument. *)

From S2P Require Import Prelude RpcWorkers K8s Conditions Lib Api GoMonad Pods External.
From S2P Require Import ImageProbe ExternalSecrets ServiceConfig Delete Init Inputs Rollout.
From S2P Require Import Reconcile.

Section safe.
Context `{L : Lib} `{!LibLaws L} {W : Type} (handler : ∀ R, Call R → W → R * W) (g : Z).

(** The extra volumes of every pod the operator builds convert. *)
Definition volumes_convert (i : NeutronAPI.t) : Prop :=
  extra_converts i NeutronAPIPropagation ∧ extra_converts i DbsyncPropagation.

Definition sound (i : NeutronAPI.t) : Prop :=
  is_Some (Status.Hash (NeutronAPI.Status i)) ∧ volumes_convert i ∧
  Status.ObservedGeneration (NeutronAPI.Status i) = g ∧ NeutronAPI.Generation i = g.

Definition safe {R A} (m : M (St.t W) R A) : Prop :=
  ∀ s, sound (St.inst s) → sound (St.inst (m s).2) ∧ (m s).1 ≠ Panic.

Lemma safe_ret {R A} (a : A) : safe (R:=R) (mret a).
Proof. by intros s H. Qed.
Lemma safe_return {R A} (r : R) : safe (return_ (A:=A) r).
Proof. by intros s H. Qed.
Lemma safe_get_vars {R} : safe (R:=R) get_vars.
Proof. by intros s H. Qed.
Lemma safe_put_vars {R} v : safe (R:=R) (put_vars v).
Proof. by intros s H. Qed.
Lemma safe_put_var {R} k f : safe (R:=R) (put_var k f).
Proof. by intros s H. Qed.
Lemma safe_force {R A} (o : option A) : is_Some o → safe (R:=R) (force o).
Proof. by intros [a ->] s H. Qed.

Lemma safe_bind {R A B} (m : M (St.t W) R A) (k : A → M (St.t W) R B) :
  safe m → (∀ a, safe (k a)) → safe (m ≫= k).
Proof.
  intros Hm Hk s Hs. unfold mbind, M_bind. destruct (Hm s Hs) as [H1 H2].
  destruct (m s) as [[a|r|] s1]; simpl in *; [by apply Hk|done..].
Qed.

Lemma safe_instance {R B} (k : NeutronAPI.t → M (St.t W) R B) :
  (∀ i, sound i → safe (k i)) → safe (instance ≫= k).
Proof. intros H s Hs. by apply H. Qed.

Lemma safe_call_bind {R A B} (c : Call A) (k : A → M (St.t W) R B) :
  (∀ a w w', handler A c w = (a, w') → safe (k a)) → safe (call handler c ≫= k).
Proof.
  intros H s Hs. unfold mbind, M_bind, call. destruct (handler A c (St.world s)) as [a w] eqn:E.
  by eapply H.
Qed.

Lemma safe_call {R A} (c : Call A) : safe (R:=R) (call handler c).
Proof. intros s Hs. unfold call. by destruct (handler A c (St.world s)). Qed.

Lemma safe_call_fn {R R'} (f : M (St.t W) R' R') : safe f → safe (R:=R) (call_fn f).
Proof. intros Hf s Hs. destruct (Hf s Hs). unfold call_fn. by destruct (f s) as [[a|r|] s1]. Qed.

Lemma safe_when {R} c (m : M (St.t W) R unit) : safe m → safe (when c m).
Proof. intros H. destruct c; [done|apply safe_ret]. Qed.

Lemma safe_for_each {R X} (l : list X) (body : X → M (St.t W) R unit) :
  (∀ x, x ∈ l → safe (body x)) → safe (for_each l body).
Proof.
  induction l as [|x l IH]; intros H; simpl; [apply safe_ret|].
  apply safe_bind; [apply H; by left|]. intros _. apply IH. intros y Hy. apply H. by right.
Qed.

Lemma safe_update_status {R} f :
  (∀ st, (is_Some (Status.Hash st) → is_Some (Status.Hash (f st))) ∧
         Status.ObservedGeneration (f st) = Status.ObservedGeneration st) →
  safe (R:=R) (update_status f).
Proof.
  intros H s (Hh & Hv & Hg). destruct (H (NeutronAPI.Status (St.inst s))) as [H1 H2].
  split; [|done]. split; [by apply H1|]. split; [exact Hv|]. simpl. by rewrite H2.
Qed.

(** Changes of the conditions only. *)
Lemma safe_conds {R} (f : NeutronAPI.t → Conditions) :
  safe (R:=R) (update_inst (λ i, set_conds (f i) i)).
Proof. by intros s Hs. Qed.

Lemma safe_finalizers {R} (f : NeutronAPI.t → list string) :
  safe (R:=R) (update_inst (λ i, NeutronAPI.set_Finalizers (f i) i)).
Proof. by intros s Hs. Qed.

Lemma safe_write_hash {R} k v : safe (R:=R) (write_hash k v).
Proof.
  intros s ((m & Hm) & Hv & Hg). unfold write_hash, mbind, M_bind, instance. cbn [fst snd].
  rewrite Hm. split; [|done]. split; [by eexists|]. split; [exact Hv|exact Hg].
Qed.

End safe.

(** Walks along the program; leaves the dereferences. *)
Ltac safe_step :=
  lazymatch goal with
  | |- safe _ (mbind _ instance) => apply safe_instance; intros ? ?
  | |- safe _ (mbind _ (call _ _)) => apply safe_call_bind; intros ? ? ? ?
  | |- safe _ (mbind _ _) => apply safe_bind; [|intros ?]
  | |- safe _ (mret _) => apply safe_ret
  | |- safe _ (return_ _) => apply safe_return
  | |- safe _ instance => by intros ? ?
  | |- safe _ get_vars => apply safe_get_vars
  | |- safe _ (put_vars _) => apply safe_put_vars
  | |- safe _ (put_var _ _) => apply safe_put_var
  | |- safe _ (call_fn _) => apply safe_call_fn
  | |- safe _ (when _ _) => apply safe_when
  | |- safe _ (for_each _ _) => apply safe_for_each; intros ? ?
  | |- safe _ (call _ _) => apply safe_call
  | |- safe _ (update_status _) =>
      apply safe_update_status; intros ?; split; [|by repeat case_match];
        cbn [Status.Hash Status.set_Hash]; rewrite ?map_delete_is_Some; by repeat case_match
  | |- safe _ (set_error _ _ _) => apply safe_conds
  | |- safe _ (set_running _ _ _) => apply safe_conds
  | |- safe _ (mark_true _ _) => apply safe_conds
  | |- safe _ (set_cond _) => apply safe_conds
  | |- safe _ (remove_cond _) => apply safe_conds
  | |- safe _ (update_inst (λ i, RbacConditionsSet i _)) => apply safe_conds
  | |- safe _ (write_hash _ _) => apply safe_write_hash
  | |- safe _ (let '_ := ?x in _) => destruct x eqn:?
  | |- safe _ (match ?x with _ => _ end) => destruct x eqn:?
  end.

Ltac safe := repeat (cbv zeta; safe_step).

Section program.
Context `{L : Lib} `{!LibLaws L} {W : Type} (handler : ∀ R, Call R → W → R * W) (g : Z).
Context `{!Cluster handler} `{!DatabaseHelper handler}.

Abbreviation safe := (safe g).

(** ** The dereferences *)

Lemma worker_volumes_Some i mc : volumes_convert i → is_Some (workerVolumesAndMounts i mc).
Proof.
  intros [Hv _]. unfold workerVolumesAndMounts.
  destruct (extra_converts_volumes (NeutronAPI.Name i) i _ Hv) as [vs Hvs]. cbv zeta. rewrite Hvs. cbn [mbind option_bind].
  destruct (ovn_service_Some i) as [ovn ->]. by eexists.
Qed.

Lemma deployment_Some i h ls an t mc wsgi :
  volumes_convert i → is_Some (Deployment_ i h ls an t mc wsgi).
Proof.
  intros [Hv _]. unfold Deployment_.
  destruct (extra_converts_volumes (NeutronAPI.Name i) i _ Hv) as [vs Hvs]. cbv zeta. rewrite Hvs. cbn [mbind option_bind].
  destruct (endpoint_certs _ _) as [|[cv cm]]; [by eexists|].
  destruct (ovn_service_Some i) as [ovn ->]. by eexists.
Qed.

Lemma rpc_Some i h ls an t mc : volumes_convert i → is_Some (RPCDeployment i h ls an t mc).
Proof.
  intros H. unfold RPCDeployment. destruct (worker_volumes_Some i mc H) as [[vs ms] ->]. by eexists.
Qed.

Lemma worker_Some i h ls an t mc : volumes_convert i → is_Some (WorkerDeployment i h ls an t mc).
Proof.
  intros H. unfold WorkerDeployment. destruct (worker_volumes_Some i mc H) as [[vs ms] ->]. by eexists.
Qed.

Lemma job_Some i ls an : volumes_convert i → is_Some (DbSyncJob i ls an).
Proof.
  intros [_ Hv]. unfold DbSyncJob.
  destruct (extra_converts_volumes (NeutronAPI.Name i) i _ Hv) as [vs Hvs]. cbv zeta. rewrite Hvs.
  by eexists.
Qed.

Lemma sound_volumes i : sound g i → volumes_convert i.
Proof. by intros (_ & H & _). Qed.

(** ** The components *)

Lemma safe_probe labels annotations : safe (IsWSGIEffective handler labels annotations).
Proof. unfold IsWSGIEffective. safe. Qed.

Lemma safe_ensure name ts ps : safe (ensureExternalSecret handler name ts ps).
Proof.
  unfold ensureExternalSecret. apply safe_instance. intros i _. apply safe_bind; [safe|].
  intros env. cbv zeta. apply safe_call_bind. intros [env' err] w w' H.
  apply safe_bind; [safe|]. intros _. destruct err as [e|]; [by intros s Hs|].
  change (safe (setter ← force (env' !! name);
    write_hash name (EnvVar.Value (setter (EnvVar.mk "" "")));;
    (mret None : M (St.t W) (option error) (option error)))).
  apply safe_bind; [apply safe_force|intros; safe].
  apply (cluster_secrets handler _ _ _ _ _ H (external_template i name ts ps)). by left.
Qed.

Lemma safe_delete name what A : safe (delete_and_return handler name what (A:=A)).
Proof. unfold delete_and_return, deleteExternalSecret. safe. Qed.

Lemma safe_external_secrets n : safe (reconcileExternalSecrets handler n).
Proof.
  unfold reconcileExternalSecrets, reconcileExternalSriovAgentSecret, reconcileExternalDhcpAgentSecret,
    getTransportURL, ensureExternalSriovAgentSecret, ensureExternalDhcpAgentSecret, wrap_error.
  safe; first [apply safe_ensure|apply safe_delete].
Qed.

Lemma safe_external_ovn : safe (reconcileExternalOVNSecrets handler).
Proof.
  unfold reconcileExternalOVNSecrets, reconcileExternalOVNMetadataAgentSecret,
    reconcileExternalOVNAgentSecret, ensureExternalOVNMetadataAgentSecret,
    ensureExternalOVNAgentSecret, wrap_error.
  safe; first [apply safe_ensure|apply safe_delete].
Qed.

Lemma safe_secrets db labels annotations tn nn :
  db_loaded db → safe (generateServiceSecrets handler db labels annotations tn nn).
Proof.
  intros [Haccount Hsecret]. unfold generateServiceSecrets, template_parameters, service_inputs,
    notifications_parameter, application_credential, ovn_parameters, getTransportURL, try_.
  safe; first [by apply safe_force|apply safe_probe].
Qed.

Lemma safe_hash : safe (createHashOfInputHashes (W:=W)).
Proof.
  intros s (Hh & Hv & Hg). unfold createHashOfInputHashes, mbind, M_bind, instance, get_vars.
  destruct (ObjectHash _) as [e|hash]; [by split|]. cbn [fst snd].
  destruct (SetHash _ _ _) as [m b] eqn:E. apply SetHash_spec in E.
  destruct b; cbn; (split; [|done]); [|by split].
  split; [apply E|]. split; [exact Hv|exact Hg].
Qed.

Lemma safe_db {B} (k : Database.t → M (St.t W) RetVal B) :
  (∀ db, db_loaded db → safe (k db)) → safe (init_database handler ≫= k).
Proof.
  pose proof (database_created handler) as Hload. pose proof (database_waited handler) as Hkeep.
  intros Hk s Hs.
  assert (safe (ensureDB handler)) as H by (unfold ensureDB; safe).
  assert (wp (ensureDB handler) (λ o _, ∀ r, (o = Cont r ∨ o = Ret r) → r.2 = None →
    pending r.1.2 = false → ∃ db, r.1.1 = Some db ∧ db_loaded db) s) as Hdb.
  { unfold ensureDB. repeat (wp_step || (apply wp_instance) || (apply wp_call; intros ? ? ?)
      || apply wp_update_inst || apply wp_update_status);
      intros ? [[= <-]|[= <-]] ? Hp; simpl in *; try congruence.
    eexists. split; [done|].
    repeat match goal with H : pending _ = false |- _ => apply pending_done in H; subst end.
    eapply Hkeep; [eapply Hload|]; eassumption. }
  unfold init_database, mbind, M_bind, call_fn. destruct (H s Hs) as [H1 H2]. unfold wp in Hdb.
  destruct (ensureDB handler s) as [[[[db r] e]|[[db r] e]|] s1]; simpl in *; [..|done];
    (destruct e as [e|]; [done|]; destruct (pending r) eqn:Hp; simpl; [done|];
     destruct (Hdb (db, r, None)) as (d & Hd & Hloaded); [naive_solver|done|done|];
     simpl in Hd; rewrite Hd; by apply Hk).
Qed.

Lemma safe_endpoints labels types eps : safe (expose_endpoints handler labels types eps).
Proof.
  revert eps. induction types as [|t types IH]; intros eps; simpl; safe; [|apply IH].
  unfold expose_endpoint, service_error, fail_cond, wait_cond. safe.
Qed.

Lemma safe_init labels annotations tn nn : safe (reconcileInit handler labels annotations tn nn).
Proof.
  unfold reconcileInit, validate_tls, tls_input, put_hash, hash_and_consume, run_db_sync,
    register_keystone, mirror_keystone, config_error, wait_cond, fail_cond.
  apply safe_db. intros db Hdb.
  safe; first [by apply safe_secrets|apply safe_hash|by apply safe_force, job_Some, sound_volumes|apply safe_endpoints].
Qed.

Lemma safe_init_update_upgrade annotations cur n : safe (init_update_upgrade handler annotations cur n).
Proof.
  unfold init_update_upgrade, reconcileUpdate, reconcileUpgrade, return_unless_done. safe. apply safe_init.
Qed.

Lemma safe_nads names : safe (collect_nads handler names).
Proof. induction names as [|n names IH]; simpl; unfold fail_cond; safe. apply IH. Qed.

Lemma safe_prepare : safe (prepare handler).
Proof.
  unfold prepare, ensure_rbac, return_unless_done, ensure_transport, ensure_notifications,
    verify_transport_secret, verify_service_secret, verify_secret, input_waiting, ensure_memcached,
    ensure_external, network_annotations, transportURLCreateOrUpdate, fail_cond, wait_cond, fail_on.
  safe; first [apply safe_external_secrets|apply safe_external_ovn|apply safe_nads].
Qed.

Lemma safe_normal : safe (reconcileNormal handler).
Proof.
  unfold reconcileNormal, input_hash, ensure_topology, deploy_api, check_api,
    rollout_workers, rollout_rpc, deploy_rpc, deploy_worker, remove_workers, delete_deployment,
    release_accounts, rotate_credentials, rotate_transport, rotate_notifications, rotate_credential,
    prune_finalizers, report_ready, apply_deployment, ready_for_input, report_rollout,
    transportURLDeleted, or_fail, fail_cond, wait_cond, fail_on, fail_unless_not_found.
  safe; first [apply safe_prepare|apply safe_init_update_upgrade|apply safe_probe
    |apply safe_force; first [by apply deployment_Some, sound_volumes
       |by apply rpc_Some, sound_volumes|by apply worker_Some, sound_volumes]].
Qed.

Lemma safe_live ns names : safe (live_transport_secrets handler ns names).
Proof.
  induction names as [|n names IH]; simpl; unfold fail_unless_not_found; safe; apply IH.
Qed.

Lemma safe_reconcileDelete : safe (reconcileDelete handler).
Proof.
  unfold reconcileDelete, delete_references, release_database, release_keystone, release_topology,
    release_transport, prune_all, remove_consumer_finalizers, fail_on, fail_unless_not_found.
  safe; first [apply safe_live|apply safe_finalizers].
Qed.

Lemma safe_patch saved r : safe (patch_status handler saved r).
Proof. unfold patch_status. safe; apply safe_conds. Qed.
End program.

(** ** Reconcile *)

Section reconcile.
Context `{L : Lib} `{!LibLaws L} {W : Type} (handler : ∀ R, Call R → W → R * W).
Context `{!Cluster handler} `{!DatabaseHelper handler}.

Definition observed_generation (i : NeutronAPI.t) : Prop :=
  Status.ObservedGeneration (NeutronAPI.Status i) = NeutronAPI.Generation i.

Lemma safe_fn {g} (f : M (St.t W) RetVal RetVal) s :
  safe g f → sound g (St.inst s) → fn_spec f (λ _ s', observed_generation (St.inst s')) s.
Proof.
  intros Hf Hs. destruct (Hf s Hs) as [(_ & _ & H1 & H2) H3]. unfold fn_spec, wp, post, observed_generation.
  rewrite H1, H2. by destruct (f s) as [[r|r|] s'].
Qed.

Lemma safe_body isNew s :
  volumes_convert (St.inst s) →
  wp (reconcile_body handler isNew) (λ o s', o ≠ Panic ∧ observed_generation (St.inst s')) s.
Proof.
  intros Hv. unfold reconcile_body. apply wp_bind, wp_update_inst, wp_bind, wp_update_inst.
  apply wp_bind, wp_instance, wp_bind.
  assert (∀ (f : M (St.t W) RetVal RetVal) s1,
    (∀ g, safe g f) → volumes_convert (St.inst s1) → observed_generation (St.inst s1) →
    wp (R:=RetVal) (update_status (λ st, Status.set_Hash (make_if_nil (Status.Hash st)) st);;
        update_status (λ st, Status.set_NetworkAttachments (make_if_nil (Status.NetworkAttachments st)) st);;
        call_fn f) (λ o s', o ≠ Panic ∧ observed_generation (St.inst s')) s1) as Hrest.
  { intros f s1 Hf Hv1 Hg1. apply wp_bind, wp_update_status, wp_bind, wp_update_status.
    eapply wp_call_spec; [eapply (safe_fn f); [apply (Hf (NeutronAPI.Generation (St.inst s1)))|]|by split].
    split; [|split; [exact Hv1|by split]]. simpl. unfold make_if_nil. by case_match; eexists. }
  destruct (bool_decide _).
  - apply wp_ret, wp_bind, wp_when; intros _; [by apply wp_return|].
    apply Hrest; [intros g; by apply safe_reconcileDelete|exact Hv|done].
  - destruct (AddFinalizer _ _) as [fs added].
    apply wp_bind, wp_update_inst, wp_ret, wp_bind, wp_when; intros _; [by apply wp_return|].
    apply Hrest; [intros g; by apply safe_normal|exact Hv|done].
Qed.

Lemma patch_safe saved r s :
  observed_generation (St.inst s) →
  fn_spec (patch_status handler saved r) (λ _ s', observed_generation (St.inst s') ∧
    ∀ p perr tr, St.trace s' = Ev (PatchInstance p) perr :: tr → p = St.inst s') s.
Proof.
  intros H. unfold fn_spec, patch_status.
  apply wp_bind, wp_update_inst, wp_bind, wp_instance, wp_bind.
  assert (∀ s1, observed_generation (St.inst s1) →
    wp (i ← instance; err ← call handler (PatchInstance i);
        match err with Some err => mret (r.1, Some err) | None => mret r end)
      (post (λ _ s', observed_generation (St.inst s') ∧
         ∀ p perr tr, St.trace s' = Ev (PatchInstance p) perr :: tr → p = St.inst s')) s1) as Hend.
  { intros s1 H1. apply wp_bind, wp_instance, wp_bind, wp_call. intros err w _.
    destruct err; apply wp_ret; split; [exact H1| |exact H1|]; by intros p perr tr [= <- _ _]. }
  apply wp_when; intros _; [|by apply Hend]. destruct (Mirror _ _); [apply wp_update_inst|apply wp_ret];
    by apply Hend.
Qed.

(** C6: a reconcile never panics.  When the extra volumes of the NeutronAPI that
    is read convert and a database that was created has its account and Secret
    loaded, [Reconcile] returns, whatever else the cluster answers (within the laws
    of [Cluster]) and whatever the spec and status are; a nil hash map is made
    before it is written to.  The instance it patches reports the generation it worked on. *)
Theorem Reconcile_returns nn s :
  (∀ i w w', handler _ (GetNeutronAPI nn) w = (inr i, w') → volumes_convert i) →
  ∃ r s', returns (Reconcile handler nn) s = Some (r, s') ∧
    ∀ p perr tr, St.trace s' = Ev (PatchInstance p) perr :: tr →
      p = St.inst s' ∧ observed_generation p.
Proof.
  intros Hv. apply (fn_spec_returns (Reconcile handler nn)
    (λ r s', ∀ p perr tr, St.trace s' = Ev (PatchInstance p) perr :: tr →
      p = St.inst s' ∧ observed_generation p)).
  unfold fn_spec, Reconcile. apply wp_bind, wp_call. intros answer w Hget. apply wp_bind.
  destruct answer as [e|i].
  { destruct (IsNotFound e); apply wp_return; by intros p perr tr [=]. }
  apply wp_ret, wp_bind, wp_update_inst, wp_bind, wp_call. intros err w' _. apply wp_bind.
  destruct err as [e|]; [apply wp_return; by intros p perr tr [=]|]. apply wp_ret, wp_bind.
  assert (∀ isNew saved s1, volumes_convert (St.inst s1) →
    fn_spec (deferred (reconcile_body handler isNew) (patch_status handler saved))
      (λ r s', ∀ p perr tr, St.trace s' = Ev (PatchInstance p) perr :: tr →
        p = St.inst s' ∧ observed_generation p) s1) as Hd.
  { intros isNew saved s1 H1. apply wp_deferred. eapply wp_mono; [by apply safe_body|].
    intros o s2 [Ho H2]. destruct o; [| |done];
      (eapply fn_spec_mono; [by apply patch_safe|]; intros r' s3 [H3 H4] p perr tr Ht;
       pose proof (H4 p perr tr Ht) as ->; by split). }
  apply wp_when; intros _; [apply wp_update_inst|]; apply wp_bind, wp_instance, Hd; exact (Hv i _ _ Hget).
Qed.

End reconcile.
