(* ===== verification/Replay.v ===== *)
(** * The world follows the trace

    [replay]: the state a cluster is in after it answered the calls of a trace.
    Every reconcile ends in the world that its trace replays to, so that a
    property of the cluster can be read off the trace.  [steady] is the judgement
    behind it: a piece of the controller keeps any predicate that calls, input
    hashes and the status fields it does not own keep. *)

From S2P Require Import Prelude RpcWorkers K8s Conditions Lib Api GoMonad Pods External.
From S2P Require Import ImageProbe ExternalSecrets ServiceConfig Delete Init Inputs Rollout.
From S2P Require Import Reconcile.

(** The notifications Secret that a state's NeutronAPI records. *)
Definition recorded_notifications {W} (s : St.t W) : option string :=
  Status.NotificationsTransportURLSecret (NeutronAPI.Status (St.inst s)).

(** The Secrets that a status records, from one status to the next: those of the
    notifications bus and of the application credential stay, and so does the
    transport Secret once there is one. *)
Definition keeps_record (st st' : Status.t) : Prop :=
  Status.NotificationsTransportURLSecret st' = Status.NotificationsTransportURLSecret st ∧
  Status.ApplicationCredentialSecret st' = Status.ApplicationCredentialSecret st ∧
  (Status.TransportURLSecret st ≠ "" →
   Status.TransportURLSecret st' = Status.TransportURLSecret st).

Ltac record :=
  intros ?; split_and!; [..|intros _]; repeat case_match; reflexivity.

Section steady.
Context `{L : Lib} {W : Type} (handler : ∀ R, Call R → W → R * W).
Context (I : St.t W → Prop).

(** What the pieces that leave the recorded Secrets alone keep. *)
Class Steady : Prop := {
  steady_call A (c : Call A) s a w :
    handler A c (St.world s) = (a, w) → I s →
    I (St.mk (St.inst s) (St.vars s) w (Ev c a :: St.trace s));
  steady_vars v s : I s → I (St.set_vars v s);
  steady_status st s :
    keeps_record (NeutronAPI.Status (St.inst s)) st →
    I s → I (St.set_inst (NeutronAPI.set_Status st (St.inst s)) s);
}.

Context `{!Steady}.

Lemma keeps_handled {R A} (c : Call A) : keeps (R:=R) I (call handler c).
Proof.
  intros s Hs. unfold call. destruct (handler A c (St.world s)) as [a w] eqn:E. by apply steady_call.
Qed.

Lemma keeps_put_vars {R} v : keeps (R:=R) I (put_vars v).
Proof. intros s Hs. by apply (steady_vars v s). Qed.

Lemma keeps_put_var {R} k f : keeps (R:=R) I (put_var k f).
Proof. intros s Hs. by apply (steady_vars _ s). Qed.

Lemma keeps_update_status {R} f :
  (∀ st, keeps_record st (f st)) → keeps (R:=R) I (update_status f).
Proof. intros Hf s Hs. apply (steady_status _ s); [apply Hf|done]. Qed.

Lemma keeps_conds {R} (f : NeutronAPI.t → Conditions) :
  keeps (R:=R) I (update_inst (λ i, set_conds (f i) i)).
Proof. intros s Hs. apply (steady_status _ s); [|done]. by split_and!. Qed.

Lemma keeps_write_hash {R} k v : keeps (R:=R) I (write_hash k v).
Proof.
  unfold write_hash. apply keeps_bind; [apply keeps_instance|]. intros i.
  apply keeps_bind; [apply keeps_force|]. intros h. apply keeps_update_status. record.
Qed.

End steady.

Lemma keeps_deferred {S R} (I : S → Prop) (body : M S R R) d :
  keeps I body → (∀ r, keeps I (d r)) → keeps I (deferred body d).
Proof.
  intros Hb Hd s Hs. unfold deferred. specialize (Hb s Hs).
  destruct (body s) as [[r|r|] s']; [by apply Hd..|done].
Qed.

Create HintDb steady discriminated.
#[export] Hint Resolve keeps_ret keeps_return keeps_force keeps_instance keeps_get_vars : steady.
#[export] Hint Extern 1 (keeps _ (call _ _)) => eapply keeps_handled; eassumption : steady.
#[export] Hint Extern 1 (keeps _ (put_vars _)) => eapply keeps_put_vars; eassumption : steady.
#[export] Hint Extern 1 (keeps _ (put_var _ _)) => eapply keeps_put_var; eassumption : steady.
#[export] Hint Extern 1 (keeps _ (write_hash _ _)) => eapply keeps_write_hash; eassumption : steady.
#[export] Hint Extern 1 (keeps _ (set_cond _)) => eapply keeps_conds; eassumption : steady.
#[export] Hint Extern 1 (keeps _ (set_error _ _ _)) => eapply keeps_conds; eassumption : steady.
#[export] Hint Extern 1 (keeps _ (set_running _ _ _)) => eapply keeps_conds; eassumption : steady.
#[export] Hint Extern 1 (keeps _ (mark_true _ _)) => eapply keeps_conds; eassumption : steady.
#[export] Hint Extern 1 (keeps _ (remove_cond _)) => eapply keeps_conds; eassumption : steady.
#[export] Hint Extern 1 (keeps _ (update_inst (λ i, RbacConditionsSet i _))) =>
  eapply keeps_conds; eassumption : steady.
#[export] Hint Extern 1 (keeps _ (update_status _)) =>
  eapply keeps_update_status; [eassumption|record] : steady.

(** Walks along the program text with the hints of [steady]. *)
Ltac steady_step :=
  lazymatch goal with
  | |- keeps _ (mbind _ _) => apply keeps_bind; [|intros ?]
  | |- keeps _ (call_fn _) => apply keeps_call_fn
  | |- keeps _ (when _ _) => apply keeps_when
  | |- keeps _ (for_each _ _) => apply keeps_for_each; intros ? ?
  | |- keeps _ (let '_ := ?x in _) => destruct x
  | |- keeps _ (match ?x with _ => _ end) => destruct x eqn:?
  | |- keeps _ _ => solve [auto 2 with steady]
  end.

Ltac steady := repeat (cbv zeta; steady_step).

Section blocks.
Context `{L : Lib} {W : Type} (handler : ∀ R, Call R → W → R * W).
Context (I : St.t W → Prop) `{!Steady handler I}.

Abbreviation stays := (keeps I).

Lemma steady_verify name fields waiting :
  stays waiting → stays (verify_secret handler name fields waiting).
Proof. intros H. unfold verify_secret, fail_cond. steady. Qed.

Lemma steady_transport : stays (ensure_transport handler).
Proof.
  unfold ensure_transport, transportURLCreateOrUpdate, fail_cond, wait_cond, fail_on. steady.
  eapply keeps_update_status; [eassumption|]. intros st. split; [|split]; [by case_match..|].
  intros Hst. destruct (_ || _) eqn:E; [|done].
  apply orb_prop in E as [E|E]; apply bool_decide_eq_true_1 in E; [done|by rewrite <-E].
Qed.

(** *** The Secrets of the external agents and the strategy *)

Lemma steady_ensure_external name templates p :
  stays (ensureExternalSecret handler name templates p).
Proof. unfold ensureExternalSecret. steady. Qed.

Lemma steady_delete_external name : stays (deleteExternalSecret handler name).
Proof. unfold deleteExternalSecret. steady. Qed.

Lemma steady_delete_and_return {A} name what :
  stays (delete_and_return handler (A:=A) name what).
Proof. unfold delete_and_return. steady; apply steady_delete_external. Qed.

Lemma steady_getTransportURL n : stays (getTransportURL handler n).
Proof. unfold getTransportURL. steady. Qed.

Lemma steady_externals n : stays (reconcileExternalSecrets handler n).
Proof.
  unfold reconcileExternalSecrets, reconcileExternalSriovAgentSecret,
    reconcileExternalDhcpAgentSecret, ensureExternalSriovAgentSecret, ensureExternalDhcpAgentSecret,
    wrap_error.
  steady; first [apply steady_delete_and_return|apply steady_getTransportURL|apply steady_ensure_external].
Qed.

Lemma steady_ovn_externals : stays (reconcileExternalOVNSecrets handler).
Proof.
  unfold reconcileExternalOVNSecrets, reconcileExternalOVNMetadataAgentSecret,
    reconcileExternalOVNAgentSecret, ensureExternalOVNMetadataAgentSecret,
    ensureExternalOVNAgentSecret, wrap_error.
  steady; first [apply steady_delete_and_return|apply steady_ensure_external].
Qed.

Lemma steady_IsWSGI labels annotations : stays (IsWSGIEffective handler labels annotations).
Proof. unfold IsWSGIEffective. steady. Qed.

(** *** The configuration and the initialisation *)

Lemma steady_generate db labels annotations tn nn :
  stays (generateServiceSecrets handler db labels annotations tn nn).
Proof.
  unfold generateServiceSecrets, template_parameters, service_inputs, notifications_parameter,
    application_credential, ovn_parameters, try_.
  steady; first [apply steady_getTransportURL|apply steady_IsWSGI].
Qed.

Lemma steady_tls_input answer missing :
  (∀ e, stays (missing e)) → stays (tls_input answer missing).
Proof. intros Hm. unfold tls_input, fail_cond. steady; apply Hm. Qed.

Lemma steady_validate_tls : stays (validate_tls handler).
Proof.
  unfold validate_tls, put_hash. steady; apply steady_tls_input; intros ?; steady.
Qed.

Lemma steady_endpoints labels types urls : stays (expose_endpoints handler labels types urls).
Proof.
  revert urls. induction types as [|t types IH]; intros urls; simpl; [steady|].
  apply keeps_bind; [|intros ?; apply IH].
  unfold expose_endpoint, service_error, fail_cond, wait_cond. steady.
Qed.

Lemma steady_keystone labels eps : stays (register_keystone handler labels eps).
Proof. unfold register_keystone, mirror_keystone. steady. Qed.

Lemma steady_init labels annotations tn nn :
  stays (reconcileInit handler labels annotations tn nn).
Proof.
  unfold reconcileInit, init_database, ensureDB, hash_and_consume, run_db_sync, config_error,
    createHashOfInputHashes, fail_cond, wait_cond.
  steady; first [apply steady_generate|apply steady_validate_tls|apply steady_endpoints
                |apply steady_keystone].
Qed.

Lemma steady_init_update_upgrade annotations cur n :
  stays (init_update_upgrade handler annotations cur n).
Proof.
  unfold init_update_upgrade, reconcileUpdate, reconcileUpgrade, return_unless_done.
  steady; apply steady_init.
Qed.

(** *** The rollout *)

Lemma steady_apply t e r d : stays (apply_deployment handler t e r d).
Proof. unfold apply_deployment, fail_cond, wait_cond. steady. Qed.

Lemma steady_check_api labels h d : stays (check_api handler labels h d).
Proof.
  unfold check_api, report_rollout, ready_for_input, fail_cond, wait_cond. steady.
Qed.

Lemma steady_deploy_api labels annotations h t mc wsgi :
  stays (deploy_api handler labels annotations h t mc wsgi).
Proof.
  unfold deploy_api, fail_cond. steady; first [apply steady_apply|apply steady_check_api].
Qed.

Lemma steady_workers annotations h t mc wsgi :
  stays (rollout_workers handler annotations h t mc wsgi).
Proof.
  unfold rollout_workers, rollout_rpc, deploy_rpc, deploy_worker, remove_workers, delete_deployment,
    report_rollout, ready_for_input, fail_unless_not_found.
  steady; apply steady_apply.
Qed.

Lemma steady_topology labels : stays (ensure_topology handler labels).
Proof. unfold ensure_topology, fail_cond. steady. Qed.

Lemma steady_input_hash r : stays (input_hash r).
Proof. unfold input_hash. steady. Qed.

Lemma steady_accounts : stays (release_accounts handler).
Proof. unfold release_accounts, fail_on. steady. Qed.

(** *** The inputs but for the notifications bus *)

Lemma steady_rbac : stays (ensure_rbac handler).
Proof. unfold ensure_rbac, return_unless_done. steady. Qed.

Lemma steady_secrets cur :
  stays (verify_transport_secret handler cur;; verify_service_secret handler).
Proof.
  unfold verify_transport_secret, verify_service_secret, input_waiting.
  steady; apply steady_verify; steady.
Qed.

Lemma steady_memcached : stays (ensure_memcached handler).
Proof. unfold ensure_memcached, fail_cond, wait_cond. steady. Qed.

Lemma steady_external cur : stays (ensure_external handler cur).
Proof.
  unfold ensure_external, fail_cond. steady; first [apply steady_externals|apply steady_ovn_externals].
Qed.

Lemma steady_nads names : stays (collect_nads handler names).
Proof. induction names as [|n names IH]; simpl; unfold fail_cond; steady; exact IH. Qed.

Lemma steady_networks : stays (network_annotations handler).
Proof. unfold network_annotations. steady; apply steady_nads. Qed.

(** *** Deletion *)

Lemma steady_live ns names : stays (live_transport_secrets handler ns names).
Proof. induction names as [|n names IH]; simpl; steady; exact IH. Qed.

Lemma steady_references : stays (delete_references handler).
Proof.
  unfold delete_references, release_database, release_keystone, release_topology, release_transport,
    remove_consumer_finalizers, prune_all, fail_on, fail_unless_not_found.
  steady; apply steady_live.
Qed.
End blocks.

(** ** Replaying a trace *)

Section replay.
Context `{L : Lib} {W : Type} (handler : ∀ R, Call R → W → R * W).

(** The worlds that the calls of a trace lead to, the answers being those of the
    trace. *)
Inductive replay (w0 : W) : list event → W → Prop :=
| replay_nil : replay w0 [] w0
| replay_call A (c : Call A) a tr w w' :
    replay w0 tr w → handler A c w = (a, w') → replay w0 (Ev c a :: tr) w'.

Definition replayed (w0 : W) (s : St.t W) : Prop := replay w0 (St.trace s) (St.world s).

Context (w0 : W).

#[local] Instance replayed_steady : Steady handler (replayed w0).
Proof. split; [|done..]. intros A c s a w Hc Hs. by econstructor. Qed.

Lemma replay_update_inst {R} f : keeps (R:=R) (replayed w0) (update_inst f).
Proof. intros s Hs. exact Hs. Qed.

Lemma replay_update_status {R} f : keeps (R:=R) (replayed w0) (update_status f).
Proof. apply replay_update_inst. Qed.

#[local] Hint Extern 1 (keeps _ (update_inst _)) => apply replay_update_inst : steady.
#[local] Hint Extern 1 (keeps _ (update_status _)) => apply replay_update_status : steady.

Lemma replay_notifications : keeps (replayed w0) (ensure_notifications handler).
Proof.
  pose proof replayed_steady as Hst.
  unfold ensure_notifications, transportURLCreateOrUpdate, input_waiting, fail_cond, wait_cond, fail_on.
  steady; apply (steady_verify handler _); steady.
Qed.

Lemma replay_rotate cur notif : keeps (replayed w0) (rotate_credentials handler cur notif).
Proof.
  pose proof replayed_steady as Hst.
  unfold rotate_credentials, rotate_transport, rotate_notifications, rotate_credential,
    prune_finalizers, or_fail, fail_on, transportURLDeleted. steady.
Qed.

Lemma replay_normal : keeps (replayed w0) (reconcileNormal handler).
Proof.
  pose proof replayed_steady as Hst. unfold reconcileNormal, prepare, report_ready.
  steady;
    first [ apply (steady_rbac handler _) | apply (steady_transport handler _) | apply replay_notifications
          | apply (steady_memcached handler _) | apply (steady_external handler _) | eapply steady_networks
          | apply (steady_init_update_upgrade handler _) | apply steady_input_hash | eapply steady_topology
          | apply (steady_IsWSGI handler _) | apply (steady_deploy_api handler _) | eapply steady_workers
          | apply (steady_accounts handler _) | apply replay_rotate
          | unfold verify_transport_secret, verify_service_secret, input_waiting; steady;
            apply (steady_verify handler _); steady ];
    exact Hst.
Qed.

Lemma replay_delete : keeps (replayed w0) (reconcileDelete handler).
Proof.
  pose proof replayed_steady as Hst. unfold reconcileDelete. steady. apply (steady_references handler _).
Qed.

(** A reconcile ends in the world its trace replays to. *)
Lemma Reconcile_replays nn i0 vars :
  replayed w0 (Reconcile handler nn (St.mk i0 vars w0 [])).2.
Proof.
  assert (keeps (replayed w0) (Reconcile handler nn)) as Hk; [|apply Hk; constructor].
  pose proof replayed_steady as Hst. unfold Reconcile, fail_on. steady.
  apply keeps_deferred; [|intros r; unfold patch_status; steady].
  unfold reconcile_body. steady; first [apply replay_delete|apply replay_normal].
Qed.

End replay.
