(* ===== verification/Rotation.v ===== *)
(** * Honest credential rotation

    The controller gives a credential up that its status records (the consumer
    finalizer of the Secret, or the whole notifications TransportURL) only when
    the rotation guard holds.  The theorems here show what the guard is worth:
    whenever such a credential is given up, the Deployments that use it were
    rolled out with the current configuration before, in the same reconcile; and
    the pruning of consumer finalizers, which has no guard, keeps what the status
    records until then. *)

From S2P Require Import Prelude RpcWorkers K8s Conditions Lib Api GoMonad Pods External.
From S2P Require Import ImageProbe ExternalSecrets ServiceConfig Delete Init Inputs Rollout.
From S2P Require Import Reconcile Frame Replay.

(** The calls of the second half of [reconcileNormal]. *)
Definition rollout_event (ev : event) : bool :=
  match ev with
  | Ev c _ =>
      match c with
      | Deployment_CreateOrPatch _ _ | IsReadyForInput _ _ | VerifyNetworkStatusFromAnnotation _ _ _
      | FinalizeSecretRotation _ _ _ _ _ | RemoveSecretConsumerFinalizer _ _ _
      | PruneSecretConsumerFinalizers _ _ _ | DeleteUnusedMariaDBAccountFinalizers _ _ _
      | DeleteObject KindDeployment _ | DeleteObject KindTransportURL _ => true
      | _ => false
      end
  end.

(** The conditions of the Deployments and the overall one. *)
Definition rollout_condition (t : CondType) : bool :=
  match t with
  | ReadyCondition
  | DeploymentReadyCondition | NeutronRPCReadyCondition | NeutronWorkerReadyCondition => true
  | _ => false
  end.

(** Those and the condition of the db-sync Job. *)
Definition later_condition (t : CondType) : bool :=
  match t with DBSyncReadyCondition => true | _ => rollout_condition t end.

Definition preparatory (ev : event) : bool := negb (rollout_event ev).

Lemma rollout_later t : rollout_condition t = true → later_condition t = true.
Proof. by destruct t. Qed.

Section prepare.
Context `{L : Lib} `{!LibLaws L} {W : Type} (handler : ∀ R, Call R → W → R * W).
Context `{!Cluster handler}.

(** Before the db-sync Job, and while it runs. *)
Abbreviation quiet := (frames false later_condition preparatory).
Abbreviation initial := (frames false rollout_condition preparatory).

Lemma initial_of_quiet {R A} (m : M (St.t W) R A) : quiet m → initial m.
Proof. by apply frames_weaken; [|apply rollout_later|]. Qed.

Lemma quiet_rbac : quiet (ensure_rbac handler).
Proof.
  unfold ensure_rbac. apply frames_bind; [apply frames_instance|]. intros i.
  apply frames_bind_call; [done|]. intros [[cs r] e] w w' Hc.
  unfold return_unless_done. frames.
  apply frames_rbac. pose proof (cluster_rbac handler _ _ _ _ _ _ _ _ Hc _ H) as Ht.
  rewrite !elem_of_cons, elem_of_nil in Ht. by destruct Ht as [->|[->|[->|[]]]].
Qed.

Lemma quiet_verify name fields waiting :
  quiet waiting → quiet (verify_secret handler name fields waiting).
Proof. intros H. unfold verify_secret, fail_cond. frames. exact H. Qed.

Lemma probe_frames labels annotations :
  frames true later_condition preparatory (IsWSGIEffective handler labels annotations).
Proof. unfold IsWSGIEffective. frames. Qed.

Lemma quiet_probe labels annotations : quiet (IsWSGIEffective handler labels annotations).
Proof. by eapply frames_weaken, probe_frames. Qed.

Lemma quiet_external cur : quiet (ensure_external handler cur).
Proof.
  unfold ensure_external, reconcileExternalSecrets, reconcileExternalOVNSecrets,
    reconcileExternalSriovAgentSecret, reconcileExternalDhcpAgentSecret,
    reconcileExternalOVNMetadataAgentSecret, reconcileExternalOVNAgentSecret,
    ensureExternalSriovAgentSecret, ensureExternalDhcpAgentSecret,
    ensureExternalOVNMetadataAgentSecret, ensureExternalOVNAgentSecret,
    ensureExternalSecret, delete_and_return, deleteExternalSecret, wrap_error, getTransportURL,
    fail_cond. frames.
Qed.

Lemma quiet_nads names : quiet (collect_nads handler names).
Proof. induction names; simpl; unfold fail_cond; frames. done. Qed.

Lemma quiet_prepare : quiet (prepare handler).
Proof.
  unfold prepare, ensure_transport, ensure_notifications, verify_transport_secret,
    verify_service_secret, ensure_memcached, network_annotations, transportURLCreateOrUpdate,
    fail_cond, wait_cond, fail_on.
  frames; try apply quiet_rbac; try apply quiet_external; try apply quiet_nads;
    apply quiet_verify; unfold input_waiting; frames.
Qed.

Lemma quiet_secrets db labels annotations tn nn :
  quiet (generateServiceSecrets handler db labels annotations tn nn).
Proof.
  unfold generateServiceSecrets, template_parameters, service_inputs, notifications_parameter,
    application_credential, ovn_parameters, getTransportURL, try_.
  frames; apply quiet_probe.
Qed.

Lemma quiet_endpoints labels types eps : quiet (expose_endpoints handler labels types eps).
Proof.
  revert eps. induction types as [|t types IH]; intros eps; simpl; [apply frames_ret|].
  unfold expose_endpoint, service_error, fail_cond, wait_cond. frames. apply IH.
Qed.

Lemma quiet_keystone labels eps : quiet (register_keystone handler labels eps).
Proof.
  unfold register_keystone, mirror_keystone.
  frames; by eapply frames_mirror.
Qed.

Lemma initial_init labels annotations tn nn :
  initial (reconcileInit handler labels annotations tn nn).
Proof.
  unfold reconcileInit, init_database, ensureDB, validate_tls, tls_input, put_hash, hash_and_consume,
    createHashOfInputHashes, run_db_sync, config_error, fail_cond, wait_cond.
  frames; apply initial_of_quiet; first [apply quiet_secrets|apply quiet_endpoints|apply quiet_keystone].
Qed.

Lemma initial_init_update_upgrade annotations cur n :
  initial (init_update_upgrade handler annotations cur n).
Proof.
  unfold init_update_upgrade, return_unless_done, reconcileUpdate, reconcileUpgrade.
  frames. apply initial_init.
Qed.

Lemma topology_frames labels :
  frames true later_condition preparatory (ensure_topology handler labels).
Proof. unfold ensure_topology. frames. Qed.

Lemma quiet_input_hash r : quiet (input_hash (W:=W) r).
Proof. unfold input_hash. frames. Qed.

End prepare.

(** ** Releases and rollouts *)

(** The calls that may give a superseded credential up. *)
Definition releases (ev : event) : bool :=
  match ev with
  | Ev c _ =>
      match c with
      | FinalizeSecretRotation _ _ _ _ true | RemoveSecretConsumerFinalizer _ _ _
      | PruneSecretConsumerFinalizers _ _ _ | DeleteObject KindTransportURL _ => true
      | _ => false
      end
  end.

(** The Secrets that the status of [i] records under the consumer finalizer [f]:
    those whose credentials the Deployments are known to use. *)
Definition tracked (i : NeutronAPI.t) (f : string) : list string :=
  let st := NeutronAPI.Status i in
  if String.eqb f TransportConsumerFinalizer then
    [Status.TransportURLSecret st; default "" (Status.NotificationsTransportURLSecret st)]
  else if String.eqb f ACConsumerFinalizer then [Status.ApplicationCredentialSecret st]
  else [].

(** Whether the call gives a credential up that the status of [i] records.
    Pruning, which takes the finalizer off every Secret that it is not told to
    keep, does so when a recorded Secret is not kept. *)
Definition gives_up (i : NeutronAPI.t) (ev : event) : bool :=
  match ev with
  | Ev c _ =>
      match c with
      | PruneSecretConsumerFinalizers _ f keep =>
          existsb (λ x, bool_decide (x ≠ "" ∧ x ∉ keep)) (tracked i f)
      | _ => releases ev
      end
  end.

Lemma gives_up_releases i ev : gives_up i ev = true → releases ev = true.
Proof. destruct ev as [R c r]. by destruct c. Qed.

Definition keeps_credentials (ev : event) : bool := negb (releases ev).

(** The look-up of the image probe. *)
Definition is_lookup (ev : event) : bool :=
  match ev with Ev c _ => match c with GetJob _ => true | _ => false end end.

(** Neither a release nor a look-up of the probe. *)
Definition settled (ev : event) : bool := keeps_credentials ev && negb (is_lookup ev).

Lemma preparatory_keeps ev : preparatory ev = true → keeps_credentials ev = true.
Proof.
  destruct ev as [R c r]. destruct c; try done. by match goal with k : DeletedKind |- _ => destruct k end.
Qed.

(** Every container of the Deployment carries the configuration hash. *)
Definition carries_hash (h : string) (d : Deployment.t) : Prop :=
  ∀ c, c ∈ PodSpec.Containers (PodTemplateSpec.Spec (Deployment.Template d)) →
       EnvVar.mk "CONFIG_HASH" h ∈ Container.Env c.

(** The Deployment [name] was applied with the hash [h] and accepted, the
    controller of Deployments has observed it, and the uncached check found it
    ready for [h]. *)
Definition rolled_out (name h : string) (tr : list event) : Prop :=
  ∃ d deploy,
    Deployment.Name d = name ∧ carries_hash h d ∧
    Ev (Deployment_CreateOrPatch d (seconds 5)) (deploy, Result0, None) ∈ tr ∧
    observed deploy = true ∧
    Ev (IsReadyForInput (NamespacedName.mk (Deployment.Name deploy) (Deployment.Namespace deploy)) h)
       (inr true) ∈ tr.

Lemma rolled_out_grows name h tr tr' : tr ⊆ tr' → rolled_out name h tr → rolled_out name h tr'.
Proof. intros H (d & deploy & ? & ? & ? & ? & ?). exists d, deploy. split_and!; auto. Qed.

Section rollout.
Context `{L : Lib} `{!LibLaws L} {W : Type} (handler : ∀ R, Call R → W → R * W).

Lemma wpc_frames {A} b T q (m : M (St.t W) RetVal A) (P : A → St.t W → Prop) s :
  frames b T q m → (∀ a s', frame b T q s s' → P a s') → wpc m P s.
Proof.
  intros Hm HP. specialize (Hm s). unfold wpc, wp. destruct (m s) as [[a|r|] s']; simpl in *; auto.
Qed.

(** The condition [t] is there, and true only if the Deployment is rolled out. *)
Definition gate (t : CondType) (name h : string) (s : St.t W) : Prop :=
  ∃ st, cond_of s t = Some st ∧ (st = ConditionTrue → rolled_out name h (St.trace s)).

Lemma gate_frame b T q t name h s s' :
  frame b T q s s' → T t = true → gate t name h s → gate t name h s'.
Proof.
  intros Hf Ht (st & Hst & Hr). exists st. split.
  - destruct Hf as (_ & _ & Hc & _). by rewrite Hc.
  - intros E. eapply rolled_out_grows; [by eapply frame_trace|auto].
Qed.

Lemma cond_of_set cs i (s : St.t W) t :
  cond_of (St.set_inst (set_conds cs i) s) t = cond_status cs t.
Proof. done. Qed.

Lemma cond_of_false (s : St.t W) t r sv m a :
  cond_of (St.set_inst (set_conds (Set_ (conds (St.inst s)) (FalseCondition t r sv m a)) (St.inst s)) s) t
  = Some ConditionFalse.
Proof. rewrite cond_of_set, status_set_false. by rewrite decide_True. Qed.

Lemma wpc_running t m args name h s :
  wpc (R:=RetVal) (set_running t m args) (λ _ s', gate t name h s' ∧ St.trace s' = St.trace s) s.
Proof. split; [|done]. exists ConditionFalse. split; [apply cond_of_false|done]. Qed.

Lemma wpc_report t rm rn ready name h s :
  (ready = true → rolled_out name h (St.trace s)) →
  wpc (report_rollout t rm rn ready) (λ _ s', gate t name h s') s.
Proof.
  intros H. destruct ready; unfold report_rollout.
  - exists ConditionTrue. split; [|auto]. unfold mark_true, update_inst, modify. cbn [fst snd].
    rewrite cond_of_set, status_MarkTrue. by rewrite decide_True.
  - eapply wpc_mono; [apply wpc_running|]. by intros ? ? [? _].
Qed.

Lemma wpc_apply t em rm d (P : Deployment.t → St.t W → Prop) s :
  (∀ deploy w, P deploy (St.mk (St.inst s) (St.vars s) w
     (Ev (Deployment_CreateOrPatch d (seconds 5)) (deploy, Result0, None) :: St.trace s))) →
  wpc (apply_deployment handler t em rm d) P s.
Proof.
  intros HP. unfold apply_deployment. apply wpc_bind, wpc_call. intros [[deploy r] err] w _.
  apply wpc_bind. destruct err as [err|]; [done|]. apply wpc_when; intros Hr; [done|].
  apply bool_decide_eq_false_1 in Hr. apply dec_stable in Hr as ->. by apply wpc_ret.
Qed.

(** The check of an applied Deployment. *)
Lemma wpc_ready deploy h s :
  wpc (ready_for_input handler deploy h)
    (λ b s', frame true (λ _, true) (λ _, true) s s' ∧
       (b = true → Ev (IsReadyForInput (NamespacedName.mk (Deployment.Name deploy)
                         (Deployment.Namespace deploy)) h) (inr true) ∈ St.trace s')) s.
Proof.
  unfold ready_for_input. apply wpc_bind, wpc_call. intros [e|b] w _; [done|].
  apply wpc_ret. split; [by apply frame_call|]. intros ->. by left.
Qed.

(** What is known after a Deployment was applied. *)
Definition applied (name h : string) (deploy : Deployment.t) (tr : list event) : Prop :=
  ∃ d, Deployment.Name d = name ∧ carries_hash h d ∧
       Ev (Deployment_CreateOrPatch d (seconds 5)) (deploy, Result0, None) ∈ tr.

Lemma wpc_check deploy t rm rn name h s :
  applied name h deploy (St.trace s) → observed deploy = true →
  wpc (ready ← ready_for_input handler deploy h; report_rollout t rm rn ready)
    (λ _ s', gate t name h s') s.
Proof.
  intros (d & Hn & Hh & Hev) Hobs. apply wpc_bind. eapply wpc_mono; [apply wpc_ready|].
  intros b s' [Hf Hb]. apply wpc_report. intros ->. exists d, deploy. split_and!; auto.
  by apply (frame_trace _ _ _ _ _ Hf).
Qed.

Lemma wpc_instance {R} (P : NeutronAPI.t → St.t W → Prop) s :
  P (St.inst s) s → wpc (R:=R) instance P s.
Proof. done. Qed.

Lemma wpc_fail_cond {A} t m r e (P : A → St.t W → Prop) s : wpc (fail_cond t m r e) P s.
Proof. done. Qed.

Lemma wpc_skip {A B} (m : M (St.t W) RetVal A) (k : A → M (St.t W) RetVal B)
    (P : B → St.t W → Prop) s :
  frames false (λ _, false) (λ _, true) m →
  (∀ a s', frame false (λ _, false) (λ _, true) s s' → wpc (k a) P s') → wpc (m ≫= k) P s.
Proof. intros Hm Hk. apply wpc_bind. by eapply wpc_frames. Qed.

Lemma applied_grows name h deploy tr tr' :
  tr ⊆ tr' → applied name h deploy tr → applied name h deploy tr'.
Proof. intros H (d & ? & ? & ?). exists d. auto. Qed.

(** Leaves the steps before the check of a Deployment behind. *)
Ltac skip_step :=
  apply wpc_skip; [frames|]; let f := fresh "Hf" in intros ? ? f;
  match goal with
  | H : applied _ _ _ _ |- _ => apply (applied_grows _ _ _ _ _ (frame_trace _ _ _ _ _ f)) in H
  end; clear f.

Lemma wpc_check_api labels h deploy s :
  applied ServiceName h deploy (St.trace s) → observed deploy = true →
  wpc (check_api handler labels h deploy) (λ _ s', gate DeploymentReadyCondition ServiceName h s') s.
Proof.
  intros Ha Hobs. unfold check_api, fail_cond. do 4 skip_step.
  match goal with |- wpc (match ?x with _ => _ end) _ _ => destruct x end.
  do 3 skip_step.
  destruct (Deployment_IsReady deploy).
  - by apply wpc_check.
  - by apply wpc_bind, wpc_ret, wpc_report.
Qed.

Lemma frame_one_call {A} b T (c : Call A) a w (s : St.t W) :
  frame b T (λ _, true) s (St.mk (St.inst s) (St.vars s) w (Ev c a :: St.trace s)).
Proof. by apply frame_call. Qed.

(** Applying a Deployment and, once it is observed, checking it. *)
Lemma wpc_deploy t em rm d name h (check : Deployment.t → M (St.t W) RetVal unit) s :
  Deployment.Name d = name → carries_hash h d → gate t name h s →
  (∀ deploy s', applied name h deploy (St.trace s') → observed deploy = true →
     wpc (check deploy) (λ _ s'', gate t name h s'') s') →
  wpc (deploy ← apply_deployment handler t em rm d; when (observed deploy) (check deploy))
    (λ _ s', gate t name h s') s.
Proof.
  intros Hn Hh Hg Hc. apply wpc_bind, wpc_apply. intros deploy w. apply wpc_when; intros Hobs.
  - apply Hc; [|done]. exists d. split_and!; [done..|by left].
  - eapply (gate_frame true (λ _, true)); [apply frame_one_call|done|done].
Qed.

Lemma wpc_deploy_api labels annotations h topology mc wsgi s :
  gate DeploymentReadyCondition ServiceName h s →
  wpc (deploy_api handler labels annotations h topology mc wsgi)
    (λ _ s', gate DeploymentReadyCondition ServiceName h s') s.
Proof.
  intros Hg. unfold deploy_api. apply wpc_bind, wpc_bind, wpc_force. intros def Hdef.
  apply wpc_bind. destruct def as [e|d]; [done|]. apply wpc_ret. apply wpc_deploy.
  - exact (proj1 (deployment_names _ _ _ _ _ _ _ _) Hdef).
  - intros c Hc. eapply deployments_env; [by left|done].
  - exact Hg.
  - intros. by apply wpc_check_api.
Qed.

Lemma wpc_deploy_rpc annotations h topology mc s :
  wpc (deploy_rpc handler annotations h topology mc)
    (λ _ s', gate NeutronRPCReadyCondition rpc_name h s') s.
Proof.
  unfold deploy_rpc. apply wpc_bind. eapply wpc_mono; [apply wpc_running|].
  intros _ s1 [Hg _]. apply wpc_bind, wpc_bind, wpc_force. intros d Hd. apply wpc_deploy.
  - exact (proj1 (proj2 (deployment_names _ _ _ _ _ _ true _)) Hd).
  - intros c Hc. eapply (deployments_env _ _ _ _ _ _ _ true); [right; by left|done].
  - exact Hg.
  - intros deploy s2 Ha Hobs. skip_step. by apply wpc_check.
Qed.

Lemma wpc_deploy_worker annotations h topology mc s :
  wpc (deploy_worker handler annotations h topology mc)
    (λ _ s', gate NeutronWorkerReadyCondition worker_name h s') s.
Proof.
  unfold deploy_worker. apply wpc_bind. eapply wpc_mono; [apply wpc_running|].
  intros _ s1 [Hg _]. apply wpc_bind, wpc_bind, wpc_force. intros d Hd. apply wpc_deploy.
  - exact (proj2 (proj2 (deployment_names _ _ _ _ _ _ true _)) Hd).
  - intros c Hc. eapply (deployments_env _ _ _ _ _ _ _ true); [right; by right|done].
  - exact Hg.
  - intros deploy s2 Ha Hobs. skip_step. by apply wpc_check.
Qed.

(** Which conditions a block leaves alone. *)
Definition only (t : CondType) (t' : CondType) : bool := bool_decide (t = t').

Ltac unfold_deploy :=
  unfold deploy_api, check_api, rollout_workers, rollout_rpc, deploy_rpc, deploy_worker,
    remove_workers, delete_deployment, apply_deployment, ready_for_input, report_rollout,
    fail_cond, wait_cond, fail_unless_not_found, release_accounts, fail_on.

(** The conditions that the API Deployment leaves alone. *)
Definition before_api (t : CondType) : bool :=
  match t with
  | DeploymentReadyCondition | NetworkAttachmentsReadyCondition => false
  | _ => true
  end.

Lemma frames_deploy_api labels annotations h topology mc wsgi :
  frames true before_api settled (deploy_api handler labels annotations h topology mc wsgi).
Proof. unfold_deploy. frames. Qed.

(** The conditions that the workers leave alone. *)
Definition before_workers (t : CondType) : bool :=
  match t with
  | NeutronRPCReadyCondition | NeutronWorkerReadyCondition => false
  | _ => true
  end.

Lemma frames_rollout_workers annotations h topology mc wsgi :
  frames true before_workers settled
    (rollout_workers handler annotations h topology mc wsgi).
Proof. unfold_deploy. frames. Qed.

Lemma frames_deploy_worker annotations h topology mc :
  frames true (only NeutronRPCReadyCondition) settled
    (deploy_worker handler annotations h topology mc).
Proof. unfold_deploy. frames. Qed.

Lemma frames_release_accounts :
  frames true (λ _, true) settled (release_accounts handler).
Proof. unfold_deploy. frames. Qed.

(** ** The strategy in force *)

(** [wsgi] is what the latest look-up of the probe says. *)
Definition strategy (i : NeutronAPI.t) (wsgi : bool) (tr : list event) : Prop :=
  if IsWSGI i then
    ∃ l answer r,
      tr = l ++ Ev (GetJob (NamespacedName.mk (ImageProbeJobName i) (NeutronAPI.Namespace i))) answer :: r ∧
      forallb (λ ev, negb (is_lookup ev)) l = true ∧ wsgi = probe_verdict i answer
  else wsgi = false.

Lemma strategy_grows i wsgi evs tr :
  forallb (λ ev, negb (is_lookup ev)) evs = true → strategy i wsgi tr → strategy i wsgi (evs ++ tr).
Proof.
  intros He. unfold strategy. destruct (IsWSGI i); [|done].
  intros (l & a & r & -> & Hl & Ha). exists (evs ++ l), a, r.
  rewrite forallb_app, He, Hl, app_assoc. done.
Qed.

Lemma strategy_spec labels annotations s :
  fn_spec (IsWSGIEffective handler labels annotations)
    (λ b s', strategy (St.inst s) b (St.trace s')) s.
Proof.
  apply wp_IsWSGIEffective; unfold strategy.
  - by intros ->.
  - intros -> answer w evs. cbv zeta. intros Hact. exists evs, answer, (St.trace s). split_and!; [done| |done].
    destruct answer as [e|j]; simpl in Hact; [destruct (IsNotFound e)|destruct stale_probe];
      first [subst evs | destruct Hact as [r ->]]; done.
Qed.

(** Every Deployment of the strategy runs the configuration [h]. *)
Definition rollout_done (i : NeutronAPI.t) (h : string) (wsgi : bool) (tr : list event) : Prop :=
  rolled_out ServiceName h tr ∧
  (wsgi = true →
   rolled_out worker_name h tr ∧ (rpcEnabled i = true → rolled_out rpc_name h tr)).

(** The gates that stand when the guard is evaluated. *)
Definition gates (i : NeutronAPI.t) (h : string) (wsgi : bool) (s : St.t W) : Prop :=
  gate DeploymentReadyCondition ServiceName h s ∧
  (wsgi = true →
   gate NeutronWorkerReadyCondition worker_name h s ∧
   (rpcEnabled i = true → gate NeutronRPCReadyCondition rpc_name h s)).

Lemma gate_passed t name h s :
  gate t name h s → t ≠ ReadyCondition →
  CredentialRotationGuardReady true (conds (St.inst s)) = true → rolled_out name h (St.trace s).
Proof.
  intros (st & Hst & Hr) Ht Hg. apply Hr. by eapply guard_sub_true.
Qed.

Lemma gates_passed i h wsgi s :
  gates i h wsgi s → CredentialRotationGuardReady true (conds (St.inst s)) = true →
  rollout_done i h wsgi (St.trace s).
Proof.
  intros [Hd Hw] Hg. split; [by eapply gate_passed|]. intros Hwsgi. destruct (Hw Hwsgi) as [Hk Hr].
  split; [by eapply gate_passed|]. intros Hrpc. eapply gate_passed; [by apply Hr|done|done].
Qed.

Lemma wpc_rollout_rpc annotations h topology mc s :
  wpc (rollout_rpc handler annotations h topology mc)
    (λ _ s', rpcEnabled (St.inst s) = true → gate NeutronRPCReadyCondition rpc_name h s') s.
Proof.
  unfold rollout_rpc. apply wpc_bind, wpc_instance.
  destruct (rpcEnabled (St.inst s)) eqn:E.
  - eapply wpc_mono; [apply wpc_deploy_rpc|]. auto.
  - eapply (wpc_frames true (λ _, false) settled); [unfold_deploy; frames|done].
Qed.

Lemma wpc_rollout_workers annotations h topology mc wsgi s :
  gate DeploymentReadyCondition ServiceName h s →
  wpc (rollout_workers handler annotations h topology mc wsgi) (λ _ s', gates (St.inst s) h wsgi s') s.
Proof.
  intros Hg.
  assert (wpc (rollout_workers handler annotations h topology mc wsgi)
    (λ _ s', gate DeploymentReadyCondition ServiceName h s') s) as H1.
  { eapply wpc_frames; [apply frames_rollout_workers|]. intros u s' Hf. by eapply gate_frame. }
  assert (wpc (rollout_workers handler annotations h topology mc wsgi)
    (λ _ s', wsgi = true → gate NeutronWorkerReadyCondition worker_name h s' ∧
       (rpcEnabled (St.inst s) = true → gate NeutronRPCReadyCondition rpc_name h s')) s) as H2.
  { unfold rollout_workers. destruct wsgi; [|by eapply (wpc_frames true (λ _, false) settled); [unfold_deploy; frames|]].
    apply wpc_bind. eapply wpc_mono; [apply wpc_rollout_rpc|]. intros u1 s1 Hrpc.
    eapply wpc_mono; [apply wpc_and; [apply wpc_deploy_worker|
      eapply (wpc_frames _ _ _ _ (λ _ s', frame true (only NeutronRPCReadyCondition) settled s1 s'));
        [apply frames_deploy_worker|done]]|].
    intros u2 s2 [Hw Hf] _. split; [done|]. intros E. eapply gate_frame; [exact Hf|done|auto]. }
  eapply wpc_mono; [exact (wpc_and _ _ _ _ H1 H2)|]. intros u s' [? ?]. by split.
Qed.

(** ** The Secrets that the status records *)

(** The status still records what it recorded when [i] was read. *)
Definition still_recorded (i : NeutronAPI.t) (st : Status.t) : Prop :=
  let st0 := NeutronAPI.Status i in
  (∀ x, Status.NotificationsTransportURLSecret st0 = Some x → x ≠ "" →
        Status.NotificationsTransportURLSecret st = Some x) ∧
  (Status.ApplicationCredentialSecret st0 ≠ "" →
   Status.ApplicationCredentialSecret st = Status.ApplicationCredentialSecret st0) ∧
  (Status.TransportURLSecret st0 ≠ "" →
   Status.TransportURLSecret st = Status.TransportURLSecret st0).

Definition tracks (i : NeutronAPI.t) (s : St.t W) : Prop :=
  still_recorded i (NeutronAPI.Status (St.inst s)).

Lemma still_recorded_keeps i st st' :
  keeps_record st st' → still_recorded i st → still_recorded i st'.
Proof.
  intros (Hn & Ha & Ht) (Hn0 & Ha0 & Ht0). split_and!.
  - intros x Hx Hne. rewrite Hn. auto.
  - intros Hne. rewrite Ha. auto.
  - intros Hne. rewrite Ht; [auto|]. by rewrite Ht0.
Qed.

#[local] Instance tracks_steady i : Steady handler (tracks i).
Proof. split; intros; [done..|]. by eapply still_recorded_keeps. Qed.

(** The notifications Secret is recorded when none was, or when it is the one. *)
Lemma tracks_notifications i : keeps (tracks i) (ensure_notifications handler).
Proof.
  pose proof (tracks_steady i) as Hst.
  unfold ensure_notifications, transportURLCreateOrUpdate, input_waiting, fail_cond, wait_cond, fail_on.
  steady; [apply (steady_verify handler _); steady|].
  intros s (Hn & Ha & Ht). split_and!; cbn; [|case_match; auto..].
  intros x Hx Hne. rewrite (Hn x Hx Hne). case_bool_decide as E; [by rewrite <-E|by apply Hn].
Qed.

Lemma tracks_prepare i : keeps (tracks i) (prepare handler).
Proof.
  pose proof (tracks_steady i) as Hst. unfold prepare, verify_transport_secret, verify_service_secret.
  steady; first [apply (steady_rbac handler _)|apply (steady_transport handler _)
    |apply tracks_notifications|apply (steady_memcached handler _)|apply (steady_external handler _)
    |apply (steady_networks handler _)|apply (steady_verify handler _); unfold input_waiting; steady].
Qed.

(** ** Rotation *)

Section guarded.
Context `{!SecretRotation handler} (i : NeutronAPI.t).

Abbreviation spares := (λ ev, negb (gives_up i ev)).

(** A block that gives no recorded credential up and goes on recording it. *)
Definition careful {A} (m : M (St.t W) RetVal A) (s : St.t W) : Prop :=
  wp m (λ _ s', frame true (λ _, true) spares s s' ∧ tracks i s') s.

Lemma careful_bind {A B} (m : M (St.t W) RetVal A) (k : A → M (St.t W) RetVal B) s :
  careful m s → (∀ a s', tracks i s' → careful (k a) s') → careful (m ≫= k) s.
Proof.
  unfold careful, wp, mbind, M_bind. intros [Hf Ht] Hk.
  destruct (m s) as [[a|r|] s1]; simpl in *; [|done..].
  destruct (Hk a s1 Ht) as [Hf' Ht']. split; [by eapply frame_trans|exact Ht'].
Qed.

Lemma careful_pure {A} (m : M (St.t W) RetVal A) s : (∀ s, (m s).2 = s) → tracks i s → careful m s.
Proof. intros Hm Ht. unfold careful, wp. rewrite Hm. split; [apply frame_refl|done]. Qed.

Lemma careful_call {A B} (c : Call A) (k : A → M (St.t W) RetVal B) s :
  (∀ a, gives_up i (Ev c a) = false) →
  (∀ a w, handler A c (St.world s) = (a, w) →
     careful (k a) (St.mk (St.inst s) (St.vars s) w (Ev c a :: St.trace s))) →
  careful (call handler c ≫= k) s.
Proof.
  intros Hc Hk. apply wp_bind, wp_call. intros a w Ha. eapply wp_mono; [by apply Hk|].
  intros o s' [Hf Ht]. split; [|done]. eapply frame_trans; [|exact Hf].
  apply frame_call. by rewrite Hc.
Qed.

(** Without the guard a rotation answers the old Secret. *)
Lemma careful_finalize ns old cur f (set : string → Status.t → Status.t) s :
  (∀ r st, Status.Conditions (set r st) = Status.Conditions st ∧
           Status.Hash (set r st) = Status.Hash st) →
  (∀ r, (old ≠ "" → r = old) → still_recorded i (set r (NeutronAPI.Status (St.inst s)))) →
  tracks i s →
  careful (answer ← call handler (FinalizeSecretRotation ns old cur f false);
           name ← or_fail answer; update_status (set name)) s.
Proof.
  intros Hset Hrec Ht. apply careful_call; [done|]. intros [e|r] w Hr.
  - by apply careful_pure.
  - split.
    + apply frames_update_status. intros st. destruct (Hset r st). auto.
    + apply Hrec. intros Hold. by eapply rotation_waits.
Qed.

Lemma prune_spares ns f keep a :
  (∀ x, x ∈ tracked i f → x ≠ "" → x ∈ keep) →
  gives_up i (Ev (PruneSecretConsumerFinalizers ns f keep) a) = false.
Proof.
  intros Hkeep. cbn. apply not_true_is_false. intros (x & Hx & Hno)%existsb_exists.
  apply bool_decide_eq_true_1 in Hno as [Hne Hno]. apply Hno, Hkeep; [|done].
  by apply list_elem_of_In.
Qed.

Lemma careful_instance {B} (k : NeutronAPI.t → M (St.t W) RetVal B) s :
  careful (k (St.inst s)) s → careful (instance ≫= k) s.
Proof. done. Qed.

Lemma careful_rotate cur notif s :
  CredentialRotationGuardReady true (conds (St.inst s)) = false → tracks i s →
  careful (rotate_credentials handler cur notif) s.
Proof.
  intros Hg Ht. unfold rotate_credentials. apply careful_instance. cbv zeta. rewrite Hg.
  apply careful_bind.
  { unfold rotate_transport. apply careful_instance, careful_finalize; [done| |done].
    intros r Hr. destruct Ht as (Hn & Ha & HT). split_and!; [done|done|]. intros Hne. cbn.
    rewrite Hr; by rewrite HT. }
  clear s Hg Ht. intros _ s Ht. apply careful_bind.
  { unfold rotate_notifications. apply careful_instance. cbv zeta. destruct notif as [tu|].
    - apply (careful_finalize _ _ _ _ (λ r, Status.set_NotificationsTransportURLSecret (Some r)));
        [done| |done].
      intros r Hr. destruct Ht as (Hn & Ha & HT). split_and!; [|done|done]. intros x Hx Hne. cbn.
      rewrite (Hn x Hx Hne) in Hr. by rewrite Hr.
    - destruct Status.NotificationsTransportURLSecret; [rewrite andb_false_r|]; by apply careful_pure. }
  clear s Ht. intros _ s Ht. apply careful_bind.
  { unfold rotate_credential. apply careful_instance, careful_finalize; [done| |done].
    intros r Hr. destruct Ht as (Hn & Ha & HT). split_and!; [done| |done]. intros Hne. cbn.
    rewrite Hr; by rewrite Ha. }
  clear s Ht. intros _ s Ht. unfold prune_finalizers. apply careful_instance. cbv zeta.
  pose proof Ht as (Hn & Ha & HT). apply careful_call.
  { intros a. apply prune_spares. intros x. cbn. rewrite !elem_of_cons. intros [->|[->|[]%not_elem_of_nil]] Hne.
    - left. by rewrite HT.
    - do 2 right. left. destruct (Status.NotificationsTransportURLSecret _) as [x|] eqn:E; [|done].
      by rewrite (Hn x eq_refl Hne). }
  intros err w _. unfold fail_on. destruct err as [e|]; [by apply careful_pure|].
  apply careful_call.
  { intros a. apply prune_spares. intros x. cbn. rewrite !elem_of_cons. intros [->|[]%not_elem_of_nil] Hne.
    left. by rewrite Ha. }
  intros err w' _. apply careful_pure; [by destruct err|done].
Qed.

End guarded.

Lemma frames_rotate cur notif :
  frames true (λ _, true) (λ ev, negb (is_lookup ev)) (rotate_credentials handler cur notif).
Proof.
  unfold rotate_credentials, rotate_transport, rotate_notifications, rotate_credential,
    prune_finalizers, or_fail, fail_on, transportURLDeleted. frames.
Qed.

(** ** The whole reconcile *)

(** Every call since [tr0] that gives a recorded credential up came after the
    rollout of the recorded input hash under the strategy in force. *)
Definition released_after_rollout (i : NeutronAPI.t) (tr0 : list event) (s : St.t W) : Prop :=
  ∀ l1 ev l2,
    St.trace s = l1 ++ ev :: l2 → tr0 `suffix_of` l2 → gives_up i ev = true →
    ∃ h wsgi, map_read (hashes s) InputHashName = Some h ∧
              strategy i wsgi l2 ∧ rollout_done i h wsgi l2.

Lemma new_event_elem (evs tr0 l1 l2 : list event) ev :
  evs ++ tr0 = l1 ++ ev :: l2 → tr0 `suffix_of` l2 → ev ∈ evs.
Proof.
  intros H [k ->]. rewrite app_comm_cons, app_assoc in H. apply app_inv_tail in H. subst. set_solver.
Qed.

Lemma keeps_spares i ev : keeps_credentials ev = true → negb (gives_up i ev) = true.
Proof.
  unfold keeps_credentials. intros H%negb_true_iff. apply negb_true_iff, not_true_is_false.
  intros Hg%gives_up_releases. congruence.
Qed.

Lemma spared_ok b T i s s' :
  frame b T (λ ev, negb (gives_up i ev)) s s' → released_after_rollout i (St.trace s) s'.
Proof.
  intros (_ & _ & _ & evs & Ht & Hq) l1 ev l2 Htr Hsuf Hrel. exfalso. rewrite Ht in Htr.
  pose proof (new_event_elem _ _ _ _ _ Htr Hsuf) as Hin. rewrite forallb_forall in Hq.
  apply list_elem_of_In, Hq in Hin. by rewrite Hrel in Hin.
Qed.

Lemma no_release_ok b T i s s' :
  frame b T keeps_credentials s s' → released_after_rollout i (St.trace s) s'.
Proof. intros H. eapply spared_ok, frame_weaken; [..|exact H]; [done..|apply keeps_spares]. Qed.

Lemma after_rollout_ok b T T' i h wsgi s s1 s' :
  frame b T keeps_credentials s s1 →
  map_read (hashes s1) InputHashName = Some h →
  strategy i wsgi (St.trace s1) → rollout_done i h wsgi (St.trace s1) →
  frame true T' (λ ev, negb (is_lookup ev)) s1 s' →
  released_after_rollout i (St.trace s) s'.
Proof.
  intros Hf1 Hh Hst Hdone Hf2 l1 ev l2 Htr Hsuf Hrel%gives_up_releases.
  destruct Hf2 as (_ & Hhash & _ & evs2 & Ht2 & Hq2). exists h, wsgi. rewrite Hhash by done.
  split; [done|]. rewrite Ht2 in Htr. apply app_eq_inv in Htr as [(k & Hk & Hev)|(k & Hl & Hev)].
  - destruct k as [|x k].
    + exfalso. simpl in *. destruct Hf1 as (_ & _ & _ & evs & Ht & Hq).
      rewrite Ht in Hev. rewrite <-Hev in Ht.
      pose proof (new_event_elem evs (St.trace s) [] l2 ev (eq_sym Hev) Hsuf) as Hin.
      rewrite forallb_forall in Hq. apply list_elem_of_In, Hq in Hin.
      unfold keeps_credentials in Hin. by rewrite Hrel in Hin.
    + injection Hev as <- ->. rewrite Hk, forallb_app in Hq2. simpl in Hq2.
      apply andb_prop in Hq2 as [_ [_ Hq2]%andb_prop]. split; [by apply strategy_grows|].
      destruct Hdone as [Hd Hw]. split; [by eapply rolled_out_grows; [|exact Hd]; set_solver|].
      intros E. destruct (Hw E) as [Hk' Hr]. split; [by eapply rolled_out_grows; [|exact Hk']; set_solver|].
      intros E'. eapply rolled_out_grows; [|by apply Hr]. set_solver.
  - exfalso. destruct Hf1 as (_ & _ & _ & evs & Ht & Hq). rewrite Ht in Hev.
    pose proof (new_event_elem evs (St.trace s) k l2 ev Hev Hsuf) as Hin.
    rewrite forallb_forall in Hq. apply list_elem_of_In, Hq in Hin.
    unfold keeps_credentials in Hin. by rewrite Hrel in Hin.
Qed.

(** One step of the reconcile that releases nothing. *)
Lemma wp_quiet_step {A B} b T q (m : M (St.t W) RetVal A) (k : A → M (St.t W) RetVal B)
    (P : A → St.t W → Prop) i s0 s :
  frame false (λ _, false) keeps_credentials s0 s →
  tracks i s →
  frames b T q m → (∀ ev, q ev = true → keeps_credentials ev = true) →
  keeps (tracks i) m → wpc m P s →
  (∀ a s', frame false (λ _, false) keeps_credentials s0 s' → tracks i s' → frame b T q s s' →
     P a s' → wp (k a) (λ _ s', released_after_rollout i (St.trace s0) s') s') →
  wp (m ≫= k) (λ _ s', released_after_rollout i (St.trace s0) s') s.
Proof.
  intros H0 Ht Hm Hq Hkeep HP Hk. apply wp_bind. specialize (Hm s). specialize (Hkeep s Ht).
  assert (frame false (λ _, false) keeps_credentials s0 (m s).2) as H1.
  { eapply frame_trans; [exact H0|]. by eapply frame_weaken; [..|exact Hm]. }
  unfold wpc, wp in *. destruct (m s) as [[a|r|] s']; simpl in *; [by apply Hk|by eapply no_release_ok..].
Qed.

Lemma wpc_true {A} (m : M (St.t W) RetVal A) s : wpc m (λ _ _, True) s.
Proof. unfold wpc, wp. by destruct (m s).1. Qed.

Lemma wpc_input_hash r (s : St.t W) :
  wpc (input_hash r) (λ h s', map_read (hashes s') InputHashName = Some h ∧ s' = s) s.
Proof.
  unfold input_hash. apply wpc_bind, wpc_instance. fold (hashes s).
  destruct (map_read (hashes s) InputHashName) eqn:E; [|done]. by apply wpc_ret.
Qed.

Lemma settled_keeps ev : settled ev = true → keeps_credentials ev = true.
Proof. unfold settled. by intros [? _]%andb_prop. Qed.

Lemma settled_no_lookup ev : settled ev = true → negb (is_lookup ev) = true.
Proof. unfold settled. by intros [_ ?]%andb_prop. Qed.

Lemma strategy_frame b T i wsgi (s s' : St.t W) :
  frame b T settled s s' → strategy i wsgi (St.trace s) → strategy i wsgi (St.trace s').
Proof.
  intros (_ & _ & _ & evs & -> & Hq). apply strategy_grows. rewrite forallb_forall in *.
  intros ev Hev. by apply settled_no_lookup, Hq.
Qed.

Context `{!Cluster handler} `{!SecretRotation handler}.

Lemma frame_inst b T q (s s' : St.t W) :
  frame b T q s s' → ∃ st, St.inst s' = NeutronAPI.set_Status st (St.inst s).
Proof. by intros [? _]. Qed.

(** The end of the reconcile, from the rotation on. *)
Lemma wp_rotate cur notif h wsgi i s0 s :
  frame false (λ _, false) keeps_credentials s0 s → tracks i s →
  map_read (hashes s) InputHashName = Some h → strategy i wsgi (St.trace s) →
  gates i h wsgi s →
  wp (rotate_credentials handler cur notif;; report_ready;;
      (mret (Result0, None) : M (St.t W) RetVal RetVal))
    (λ _ s', released_after_rollout i (St.trace s0) s') s.
Proof.
  intros Hf Htr Hh Hst Hg.
  assert (frames true (λ _, false) (λ ev, settled ev) (report_ready (W:=W))) as Hready
    by (unfold report_ready; frames).
  destruct (CredentialRotationGuardReady true (conds (St.inst s))) eqn:Hguard.
  - apply (gates_passed i h wsgi) in Hg; [|done].
    pose proof (frames_bind true (λ _, false) (λ ev, negb (is_lookup ev))
      (rotate_credentials handler cur notif)
      (λ _, report_ready;; (mret (Result0, None) : M (St.t W) RetVal RetVal))) as Hall.
    eapply after_rollout_ok; [exact Hf|exact Hh|exact Hst|exact Hg|]. apply Hall.
    + eapply frames_weaken; [..|apply frames_rotate]; done.
    + intros _. apply frames_bind; [|intros; apply frames_ret].
      eapply frames_weaken; [..|exact Hready]; [done..|apply settled_no_lookup].
  - eapply (spared_ok false (λ _, false)). eapply frame_trans.
    { eapply frame_weaken; [..|exact Hf]; [done..|apply keeps_spares]. }
    destruct (careful_rotate i cur notif s Hguard Htr) as [Hr _].
    apply (frame_weaken true false _ (λ _, false) _ (λ ev, negb (gives_up i ev))) in Hr; [|done..].
    unfold mbind, M_bind. destruct (rotate_credentials handler cur notif s) as [[u|r|] s']; [|done..].
    eapply frame_trans; [exact Hr|].
    pose proof (frames_bind true (λ _, false) settled report_ready
      (λ _, mret (Result0, None) : M (St.t W) RetVal RetVal) Hready
      (λ _, frames_ret _ _ _ _) s') as He.
    eapply frame_weaken; [..|exact He]; [done..|]. intros ev Hev. by apply keeps_spares, settled_keeps.
Qed.

(** From the input hash on. *)
Lemma wp_rollout cur notif mc annotations r i s0 s st :
  frame false (λ _, false) keeps_credentials s0 s → tracks i s →
  (∃ st', St.inst s = NeutronAPI.set_Status st' i) →
  cond_of s DeploymentReadyCondition = Some st → st ≠ ConditionTrue →
  wp (inputHash ← input_hash r;
      topology ← ensure_topology handler serviceLabels;
      wsgi ← call_fn (IsWSGIEffective handler (Some serviceLabels) (Some annotations));
      deploy_api handler serviceLabels annotations inputHash topology mc wsgi;;
      rollout_workers handler annotations inputHash topology mc wsgi;;
      release_accounts handler;;
      rotate_credentials handler cur notif;;
      report_ready;;
      (mret (Result0, None) : M (St.t W) RetVal RetVal))
    (λ _ s', released_after_rollout i (St.trace s0) s') s.
Proof.
  intros H0 T0 [st' Hi] Hst Hne. pose proof (tracks_steady i) as Hsteady.
  eapply wp_quiet_step; [exact H0|exact T0|apply quiet_input_hash|apply preparatory_keeps
    |by apply steady_input_hash|apply wpc_input_hash|].
  intros h s1 H1 _ _ [Hh ->].
  eapply wp_quiet_step; [exact H1|exact T0|apply topology_frames|apply preparatory_keeps
    |by apply (steady_topology handler _)|apply wpc_true|].
  intros topology s2 H2 T2 Hf2 _. destruct (frame_inst _ _ _ _ _ Hf2) as [st2 Hi2].
  destruct Hf2 as (_ & Hh2 & Hc2 & _).
  eapply (wp_quiet_step _ _ _ _ _ (λ wsgi s', strategy (St.inst s2) wsgi (St.trace s')));
    [exact H2|exact T2|apply frames_call_fn, probe_frames|apply preparatory_keeps
    |apply keeps_call_fn, (steady_IsWSGI handler _)| |].
  { eapply wp_call_spec; [apply strategy_spec|]. done. }
  intros wsgi s3 H3 T3 Hf3 Hs3. destruct (frame_inst _ _ _ _ _ Hf3) as [st3 Hi3].
  destruct Hf3 as (_ & Hh3 & Hc3 & _).
  assert (gate DeploymentReadyCondition ServiceName h s3) as Hg3.
  { exists st. split; [|done]. by rewrite Hc3, Hc2. }
  eapply wp_quiet_step; [exact H3|exact T3|apply frames_deploy_api|apply settled_keeps
    |by apply (steady_deploy_api handler _)|by apply wpc_deploy_api|].
  intros u4 s4 H4 T4 Hf4 Hg4.
  eapply wp_quiet_step; [exact H4|exact T4|apply frames_rollout_workers|apply settled_keeps
    |by apply (steady_workers handler _)|by apply wpc_rollout_workers|].
  intros u5 s5 H5 T5 Hf5 Hg5.
  eapply wp_quiet_step; [exact H5|exact T5|apply frames_release_accounts|apply settled_keeps
    |by apply (steady_accounts handler _)|apply wpc_true|].
  intros u6 s6 H6 T6 Hf6 _. destruct (frame_inst _ _ _ _ _ Hf4) as [st4 Hi4].
  rewrite Hi2, Hi in Hs3. rewrite Hi4, Hi3, Hi2, Hi in Hg5. eapply wp_rotate; [exact H6|exact T6| | |].
  - destruct Hf4 as (_ & Hh4 & _), Hf5 as (_ & Hh5 & _), Hf6 as (_ & Hh6 & _).
    by rewrite Hh6, Hh5, Hh4, Hh3, Hh2.
  - eapply strategy_frame; [exact Hf6|]. eapply strategy_frame; [exact Hf5|].
    eapply strategy_frame; [exact Hf4|exact Hs3].
  - destruct Hg5 as [Hd Hw]. split; [by eapply gate_frame|]. intros E. destruct (Hw E) as [Hk Hr].
    split; [by eapply gate_frame|]. intros E'. eapply gate_frame; [exact Hf6|done|by apply Hr].
Qed.

(** Released after the rollout: the guard of a reconcile that starts with the
    DeploymentReady condition not true, as [Reconcile] makes sure. *)
Lemma reconcileNormal_releases i s st :
  (∃ st', St.inst s = NeutronAPI.set_Status st' i) → tracks i s →
  cond_of s DeploymentReadyCondition = Some st → st ≠ ConditionTrue →
  wp (reconcileNormal handler) (λ _ s', released_after_rollout i (St.trace s) s') s.
Proof.
  intros [st' Hi] Ht Hst Hne. pose proof (tracks_steady i) as Hsteady. unfold reconcileNormal.
  eapply wp_quiet_step; [apply frame_refl|exact Ht|apply (quiet_prepare handler)
    |apply preparatory_keeps|apply tracks_prepare|apply wpc_true|].
  intros [[[cur notif] mc] annotations] s1 H1 T1 Hf1 _.
  eapply wp_quiet_step; [exact H1|exact T1|apply initial_init_update_upgrade
    |apply preparatory_keeps|by apply (steady_init_update_upgrade handler _)|apply wpc_true|].
  intros r s2 H2 T2 Hf2 _.
  destruct (frame_inst _ _ _ _ _ Hf1) as [st1 Hi1], (frame_inst _ _ _ _ _ Hf2) as [st2 Hi2].
  destruct Hf1 as (_ & _ & Hc1 & _), Hf2 as (_ & _ & Hc2 & _).
  eapply wp_rollout; [exact H2|exact T2| | |exact Hne].
  - exists st2. by rewrite Hi2, Hi1, Hi.
  - by rewrite Hc2, Hc1.
Qed.

(** ** Reconcile *)

Lemma released_frame T i tr0 s s' :
  tr0 `suffix_of` St.trace s →
  released_after_rollout i tr0 s → frame true T keeps_credentials s s' →
  released_after_rollout i tr0 s'.
Proof.
  intros Hsuf0 H (_ & Hh & _ & evs & Ht & Hq) l1 ev l2 Htr Hsuf Hup. rewrite Hh by done.
  pose proof (gives_up_releases _ _ Hup) as Hrel.
  rewrite Ht in Htr. apply app_eq_inv in Htr as [(k & Hk & Hev)|(k & Hl & Hev)].
  - destruct k as [|x k]; [simpl in *; by apply (H [] ev l2)|]. injection Hev as <- ->.
    exfalso. rewrite Hk, forallb_app in Hq. simpl in Hq.
    apply andb_prop in Hq as [_ [Hx _]%andb_prop]. unfold keeps_credentials in Hx.
    by rewrite Hrel in Hx.
  - by apply (H k ev l2).
Qed.

Lemma frames_patch saved r : frames true (λ _, false) keeps_credentials (patch_status handler saved r).
Proof.
  unfold patch_status. apply frames_bind; [intros s; by apply frame_conds|]. intros _.
  frames. by apply frames_set_cond.
Qed.

Lemma initial_types : NoDup (Condition.Type_ <$> initial_conditions).
Proof.
  unfold initial_conditions, unknown. simpl. rewrite !UnknownCondition_type.
  refine (bool_decide_unpack _ _). vm_compute. exact I.
Qed.

(** [Conditions.Init] leaves the listed conditions Unknown. *)
Lemma init_unknown (cs : Conditions) t msg :
  unknown t msg ∈ initial_conditions →
  cond_status (Init cs (CreateList initial_conditions)) t = Some ConditionUnknown.
Proof.
  intros Hin. pose proof (status_Init cs initial_conditions (unknown t msg) initial_types Hin) as H.
  unfold unknown in H at 1 2. by rewrite UnknownCondition_type, UnknownCondition_status in H.
Qed.

Lemma init_deployment_unknown (cs : Conditions) :
  cond_status (Init cs (CreateList initial_conditions)) DeploymentReadyCondition
  = Some ConditionUnknown.
Proof.
  eapply init_unknown. unfold initial_conditions. do 8 apply list_elem_of_further.
  apply list_elem_of_here.
Qed.

Lemma released_refl i s : released_after_rollout i (St.trace s) s.
Proof. apply (no_release_ok false (λ _, false)), frame_refl. Qed.

Lemma body_releases isNew i s :
  (∃ st, St.inst s = NeutronAPI.set_Status st i) → tracks i s →
  NeutronAPI.DeletionTimestamp i = None →
  wp (reconcile_body handler isNew) (λ _ s', released_after_rollout i (St.trace s) s') s.
Proof.
  destruct s as [inst v w tr]. intros [st Hi] Htr Hdel. simpl in Hi. subst inst.
  unfold reconcile_body. apply wp_bind, wp_update_inst, wp_bind, wp_update_inst.
  apply wp_bind, wp_instance, wp_bind.
  cbn [St.set_inst St.inst NeutronAPI.set_Status set_conds NeutronAPI.DeletionTimestamp].
  rewrite Hdel. rewrite bool_decide_eq_false_2 by (by intros [? ?]).
  destruct (AddFinalizer _ _) as [fs added].
  apply wp_bind, wp_update_inst, wp_ret, wp_bind, wp_when; intros _.
  { apply wp_return. apply (released_refl i (St.mk (NeutronAPI.set_Status st i) v w tr)). }
  apply wp_bind, wp_update_status, wp_bind, wp_update_status, wp_call_fn.
  match goal with |- wp _ _ ?s1 =>
    assert (cond_of s1 DeploymentReadyCondition = Some ConditionUnknown) as Hc
      by apply init_deployment_unknown;
    eapply (wp_mono _ _ _ s1);
      [apply (reconcileNormal_releases (NeutronAPI.set_Finalizers fs i) s1 ConditionUnknown);
        [by eexists|exact Htr|exact Hc|discriminate]|]
  end.
  intros [r|r|] s' H; exact H.
Qed.

(** Every call that may give a credential up was made for a NeutronAPI [i] that
    the reconcile had read; and if it gives up one that the status of [i] records,
    then [i] is being deleted or the rollout was complete. *)
Definition honest (nn : NamespacedName.t) (tr0 : list event) (s : St.t W) : Prop :=
  ∀ l1 ev l2,
    St.trace s = l1 ++ ev :: l2 → tr0 `suffix_of` l2 → releases ev = true →
    ∃ i, Ev (GetNeutronAPI nn) (inr i) ∈ l2 ∧
      (gives_up i ev = true →
       is_Some (NeutronAPI.DeletionTimestamp i) ∨
       ∃ h wsgi, map_read (hashes s) InputHashName = Some h ∧
                 strategy i wsgi l2 ∧ rollout_done i h wsgi l2).

Lemma honest_intro nn i evs tr0 s :
  (evs ++ tr0) `suffix_of` St.trace s →
  forallb keeps_credentials evs = true →
  Ev (GetNeutronAPI nn) (inr i) ∈ evs →
  (is_Some (NeutronAPI.DeletionTimestamp i) ∨ released_after_rollout i (evs ++ tr0) s) →
  honest nn tr0 s.
Proof.
  intros [l Hl] Hq Hget Hrel l1 ev l2 Htr Hsuf Hev. exists i.
  assert ((evs ++ tr0) `suffix_of` l2) as Hsuf2.
  { rewrite Hl in Htr. apply app_eq_inv in Htr as [(k & Hk & He)|(k & Hk & He)].
    - destruct k as [|x k]; [|injection He as <- ->; by exists k]. exfalso. simpl in He.
      pose proof (new_event_elem evs tr0 [] l2 ev (eq_sym He) Hsuf) as Hin.
      rewrite forallb_forall in Hq. apply list_elem_of_In, Hq in Hin.
      unfold keeps_credentials in Hin. by rewrite Hev in Hin.
    - exfalso. pose proof (new_event_elem evs tr0 k l2 ev He Hsuf) as Hin.
      rewrite forallb_forall in Hq. apply list_elem_of_In, Hq in Hin.
      unfold keeps_credentials in Hin. by rewrite Hev in Hin. }
  split.
  - destruct Hsuf2 as [k ->]. set_solver.
  - intros Hup. destruct Hrel as [Hd|Hr]; [by left|right]. by eapply Hr.
Qed.

Lemma honest_none nn evs tr0 s :
  St.trace s = evs ++ tr0 → forallb keeps_credentials evs = true → honest nn tr0 s.
Proof.
  intros Ht Hq l1 ev l2 Htr Hsuf Hev. exfalso. rewrite Ht in Htr.
  pose proof (new_event_elem _ _ _ _ _ Htr Hsuf) as Hin.
  rewrite forallb_forall in Hq. apply list_elem_of_In, Hq in Hin.
  unfold keeps_credentials in Hin. by rewrite Hev in Hin.
Qed.

(** The trace only grows. *)
Definition grows {R A} (m : M (St.t W) R A) : Prop := ∀ s, St.trace s `suffix_of` St.trace (m s).2.

Lemma grows_frames {R A} b T q (m : M (St.t W) R A) : frames b T q m → grows m.
Proof. intros H s. destruct (H s) as (_ & _ & _ & evs & Ht & _). by exists evs. Qed.

Lemma grows_bind {R A B} (m : M (St.t W) R A) (k : A → M (St.t W) R B) :
  grows m → (∀ a, grows (k a)) → grows (m ≫= k).
Proof.
  intros Hm Hk s. specialize (Hm s). unfold mbind, M_bind.
  destruct (m s) as [[a|r|] s']; simpl in *; [|done..]. etrans; [done|apply Hk].
Qed.

Lemma grows_update_inst {R} f : grows (R:=R) (update_inst f).
Proof. intros s. done. Qed.

Lemma grows_call_fn {R R'} (f : M (St.t W) R' R') : grows f → grows (R:=R) (call_fn f).
Proof. intros Hf s. specialize (Hf s). unfold call_fn. by destruct (f s) as [[a|r|] s']. Qed.

Lemma grows_delete : grows (reconcileDelete handler).
Proof.
  unfold reconcileDelete. apply grows_bind;
    [|intros _; apply grows_bind; [apply grows_update_inst|by intros _ s]].
  intros s. destruct (seg_references handler s) as (_ & [evs Ht] & _). by exists evs.
Qed.

(** [reconcileNormal] from the input hash on. *)
Lemma grows_rollout cur notif mc annotations r :
  grows (inputHash ← input_hash r;
      topology ← ensure_topology handler serviceLabels;
      wsgi ← call_fn (IsWSGIEffective handler (Some serviceLabels) (Some annotations));
      deploy_api handler serviceLabels annotations inputHash topology mc wsgi;;
      rollout_workers handler annotations inputHash topology mc wsgi;;
      release_accounts handler;;
      rotate_credentials handler cur notif;;
      report_ready;;
      (mret (Result0, None) : M (St.t W) RetVal RetVal)).
Proof.
  apply grows_bind; [eapply grows_frames, quiet_input_hash|]. intros h.
  apply grows_bind; [eapply grows_frames, topology_frames|]. intros topology.
  apply grows_bind; [eapply grows_frames, frames_call_fn, probe_frames|]. intros wsgi.
  apply grows_bind; [eapply grows_frames, frames_deploy_api|]. intros _.
  apply grows_bind; [eapply grows_frames, frames_rollout_workers|]. intros _.
  apply grows_bind; [eapply grows_frames, frames_release_accounts|]. intros _.
  apply grows_bind; [eapply grows_frames, frames_rotate|]. intros _.
  eapply (grows_frames true (λ _, false) settled). unfold report_ready. frames.
Qed.

Lemma grows_normal : grows (reconcileNormal handler).
Proof.
  unfold reconcileNormal. apply grows_bind; [eapply grows_frames, (quiet_prepare handler)|].
  intros [[[cur notif] mc] annotations].
  apply grows_bind; [eapply grows_frames, initial_init_update_upgrade|]. intros r.
  apply grows_rollout.
Qed.

Lemma grows_body isNew : grows (reconcile_body handler isNew).
Proof.
  unfold reconcile_body. do 2 (apply grows_bind; [apply grows_update_inst|intros _]).
  apply grows_bind; [by intros s|]. intros i. cbv zeta.
  apply grows_bind; [destruct (bool_decide _); [by intros s|]; destruct (AddFinalizer _ _);
    apply grows_bind; [apply grows_update_inst|by intros _ s]|]. intros added.
  apply grows_bind; [intros s; by destruct (added || isNew)|]. intros _.
  do 2 (apply grows_bind; [apply grows_update_inst|intros _]).
  destruct (bool_decide _); apply grows_call_fn; [apply grows_delete|apply grows_normal].
Qed.

(** The body and the deferred patch, from the state they start in. *)
Definition reconciling (nn : NamespacedName.t) (tr0 : list event) (s : St.t W) : Prop :=
  ∃ evs i, (evs ++ tr0) `suffix_of` St.trace s ∧ forallb keeps_credentials evs = true ∧
    Ev (GetNeutronAPI nn) (inr i) ∈ evs ∧
    (is_Some (NeutronAPI.DeletionTimestamp i) ∨ released_after_rollout i (evs ++ tr0) s).

Lemma reconciling_honest nn tr0 s : reconciling nn tr0 s → honest nn tr0 s.
Proof. intros (evs & i & ? & ? & ? & ?). by eapply honest_intro. Qed.

Lemma body_reconciling nn i isNew evs tr0 s :
  (∃ st, St.inst s = NeutronAPI.set_Status st i) → tracks i s → St.trace s = evs ++ tr0 →
  forallb keeps_credentials evs = true → Ev (GetNeutronAPI nn) (inr i) ∈ evs →
  wp (reconcile_body handler isNew) (λ _ s', reconciling nn tr0 s') s.
Proof.
  intros Hi Htr Ht Hq Hget.
  assert ((evs ++ tr0) `suffix_of` St.trace (reconcile_body handler isNew s).2) as Hsuf.
  { rewrite <-Ht. apply grows_body. }
  destruct (NeutronAPI.DeletionTimestamp i) as [d|] eqn:Hd.
  - exists evs, i. split_and!; [done..|]. left. by rewrite Hd.
  - exists evs, i. split_and!; [done..|]. right. rewrite <-Ht.
    by apply body_releases.
Qed.

Lemma patch_reconciling nn saved r tr0 s :
  reconciling nn tr0 s → wp (patch_status handler saved r) (λ _ s', reconciling nn tr0 s') s.
Proof.
  intros (evs & i & Hsuf & Hq & Hget & H). exists evs, i. split_and!; [|done..|].
  - etrans; [exact Hsuf|]. eapply grows_frames, frames_patch.
  - destruct H as [H|H]; [by left|right]. eapply released_frame; [exact Hsuf|exact H|].
    apply frames_patch.
Qed.

(** From a state whose trace may hold earlier calls. *)
Lemma rotation_honest nn s :
  honest nn (St.trace s) (Reconcile handler nn s).2.
Proof.
  change (wp (Reconcile handler nn) (λ _ s', honest nn (St.trace s) s') s).
  unfold Reconcile. apply wp_bind, wp_call. intros answer w _. apply wp_bind.
  destruct answer as [e|i].
  { destruct (IsNotFound e); apply wp_return; by eapply (honest_none _ [_]). }
  apply wp_ret, wp_bind, wp_update_inst, wp_bind, wp_call. intros err w' _. apply wp_bind.
  destruct err as [e|]; [apply wp_return; by eapply (honest_none _ [_; _])|].
  apply wp_ret. eapply wp_mono; [|intros ? ? H; apply reconciling_honest, H].
  apply wp_bind, wp_when; intros _; [apply wp_update_inst|];
    apply wp_bind, wp_instance, wp_deferred;
    (eapply wp_mono; [by apply (body_reconciling nn i _
         [Ev (NewHelper (NeutronAPI.Name i)) None; Ev (GetNeutronAPI nn) (inr i)] (St.trace s));
       [eexists; first [reflexivity | symmetry; apply set_Status_id]|..|set_solver]|]);
    intros [r|r|] s2 H2; first [exact (patch_reconciling _ _ _ _ _ H2) | exact H2].
Qed.

(** C1: credential rotation is honest.  Take any reconcile, from its first call
    on and however it ends (a return, an error, a panic), whatever a cluster
    answers that keeps the laws of [Cluster] and [SecretRotation].  Every call
    that can take a consumer finalizer off a Secret or delete the notifications
    TransportURL, the pruning at the end of a reconcile among them, is made for a
    NeutronAPI [i] that the reconcile read before; and when it gives up a
    credential that the status of [i] records ([gives_up]: a rotation under the
    guard, a removal, the deletion of the TransportURL, or a pruning that does not
    keep a recorded transport, notifications or application credential Secret),
    then [i] is being deleted, or the complete rollout of the current configuration
    came before it in the same reconcile: the API Deployment and, under the WSGI
    strategy that the latest probe look-up gives, the worker Deployment and, unless
    rpc_workers is 0, the RPC Deployment were applied with the input hash that the
    status records, observed, and found ready for exactly that hash.  A Secret that
    was in use between two reconciles without ever being recorded is not tracked:
    pruning gives it up without that, as [Leases.rapid_rotation_prunes] shows. *)
Theorem Reconcile_rotation_honest nn i0 vars w :
  honest nn [] (Reconcile handler nn (St.mk i0 vars w [])).2.
Proof. apply (rotation_honest nn (St.mk i0 vars w [])). Qed.

End rollout.
