(* ===== verification/Endpoints.v ===== *)
(** * Endpoints and rotation records

    Two blocks of the reconcile taken by themselves: the Services that
    [reconcileInit] exposes and the URLs it registers for them, and what the
    rotation of the credentials records and keeps. *)

From S2P Require Import Prelude RpcWorkers K8s Conditions Lib Api GoMonad Pods External.
From S2P Require Import ImageProbe ExternalSecrets ServiceConfig Delete Init Inputs Rollout.
From S2P Require Import Reconcile Frame Rotation.

(** ** Endpoints *)

Section endpoints.
Context `{L : Lib} `{!LibLaws L} {W : Type} (handler : ∀ R, Call R → W → R * W).

(** The Service of an endpoint was applied and its URL is [url]. *)
Definition exposed (i : NeutronAPI.t) (labels : gmap string string) (t : Endpoint) (url : string)
    (tr : list event) : Prop :=
  ∃ svc applied,
    NewService (service_details i labels t (default 0%Z (neutronEndpoints !! t))) 5
      (RoutedOverrideSpec.OverrideSpec (service_override i t)) = inr svc ∧
    Ev (Service_CreateOrPatch (annotate_service t svc)) (applied, Result0, None) ∈ tr ∧
    Service_GetAPIEndpoint applied (RoutedOverrideSpec.EndpointURL (service_override i t))
      (if APIService_Enabled (NeutronApiTLS.API (SpecCore.TLS (NeutronAPI.core i))) t
       then Some ProtocolHTTPS else None) "" = inr url.

Lemma exposed_grows i labels t url tr tr' :
  tr ⊆ tr' → exposed i labels t url tr → exposed i labels t url tr'.
Proof. intros H (svc & a & ? & ? & ?). exists svc, a. auto. Qed.

Lemma wpc_expose i labels t s :
  (∃ st, St.inst s = NeutronAPI.set_Status st i) →
  wpc (expose_endpoint handler labels t)
    (λ url s', exposed i labels t url (St.trace s') ∧ frame false (λ _, false) (λ _, true) s s') s.
Proof.
  intros [st Hi]. apply wpc_and.
  2:{ eapply wpc_frames; [|done]. unfold expose_endpoint, service_error, fail_cond, wait_cond. frames. }
  unfold expose_endpoint. apply wpc_bind, wpc_instance. rewrite Hi. cbv zeta. apply wpc_bind.
  change (service_details (NeutronAPI.set_Status st i)) with (service_details i).
  change (service_override (NeutronAPI.set_Status st i)) with (service_override i).
  change (NeutronAPI.core (NeutronAPI.set_Status st i)) with (NeutronAPI.core i).
  destruct (NewService _ _ _) as [e|svc] eqn:Hs; [apply wpc_fail_cond|]. apply wpc_ret, wpc_bind, wpc_call.
  intros [[a r] err] w _. apply wpc_bind. destruct err as [e|]; [apply wpc_fail_cond|].
  apply wpc_when; intros Hr; [done|]. apply bool_decide_eq_false_1, dec_stable in Hr as ->.
  destruct (Service_GetAPIEndpoint _ _ _ _) as [e|url] eqn:Hu; [done|]. apply wpc_ret.
  exists svc, a. split_and!; [done|by left|done].
Qed.

(** C31: the endpoints registered with Keystone are those of the Services.  However
    Go ranges over the map of endpoints, the internal endpoint is exposed before
    the public one; when the loop goes on, it has applied both Services without
    a pending result, and the URLs are the ones of the applied Services with the
    override of the spec and HTTPS exactly where the endpoint has TLS enabled. *)
Theorem expose_endpoints_spec labels keys (s : St.t W) :
  keys ≡ₚ (map_to_list neutronEndpoints).*1 →
  endpoint_types keys = [EndpointInternal; EndpointPublic] ∧
  wpc (expose_endpoints handler labels (endpoint_types keys) ∅) (λ eps s',
    ∃ internal public, eps = {[ EndpointInternal := internal; EndpointPublic := public ]} ∧
      exposed (St.inst s) labels EndpointInternal internal (St.trace s') ∧
      exposed (St.inst s) labels EndpointPublic public (St.trace s')) s.
Proof.
  intros Hk. assert (endpoint_types keys = [EndpointInternal; EndpointPublic]) as ->.
  { assert (keys ≡ₚ [EndpointPublic; EndpointInternal]) as Hk'.
    { etrans; [exact Hk|]. vm_compute. first [reflexivity|apply perm_swap]. }
    symmetry in Hk'. apply Permutation_length_2_inv in Hk' as [->| ->]; vm_compute; reflexivity. }
  split; [done|]. simpl. apply wpc_bind.
  eapply wpc_mono; [apply (wpc_expose (St.inst s))|].
  { exists (NeutronAPI.Status (St.inst s)). by rewrite set_Status_id. }
  intros internal s1 [H1 Hf1]. apply wpc_bind.
  eapply wpc_mono; [apply (wpc_expose (St.inst s)), (frame_inst _ _ _ _ _ Hf1)|].
  intros public s2 [H2 Hf2]. apply wpc_ret. exists internal, public. split_and!.
  - by rewrite insert_insert_ne.
  - eapply exposed_grows; [by eapply frame_trace|done].
  - done.
Qed.
End endpoints.

(** ** What a rotation records *)

Section rotation.
Context `{L : Lib} `{!LibLaws L} {W : Type} (handler : ∀ R, Call R → W → R * W).

Abbreviation status s := (NeutronAPI.Status (St.inst s)).

Lemma wpc_finalize {A} ns old current finalizer ready (k : string → M (St.t W) RetVal A) P s :
  (∀ name w, wpc (k name) P (St.mk (St.inst s) (St.vars s) w
     (Ev (FinalizeSecretRotation ns old current finalizer ready) (inr name) :: St.trace s))) →
  wpc (answer ← call handler (FinalizeSecretRotation ns old current finalizer ready);
       name ← or_fail answer; k name) P s.
Proof.
  intros H. apply wpc_bind, wpc_call. intros [e|name] w _; apply wpc_bind; [done|]. apply wpc_ret, H.
Qed.

Lemma wpc_fail_on {A} (c : Call (option error)) (k : M (St.t W) RetVal A) P s :
  (∀ w, wpc k P (St.mk (St.inst s) (St.vars s) w (Ev c None :: St.trace s))) →
  wpc (err ← call handler c; fail_on err;; k) P s.
Proof.
  intros H. apply wpc_bind, wpc_call. intros [e|] w _; apply wpc_bind; [done|]. apply wpc_ret, H.
Qed.

(** The application credential and the pruning. *)
Lemma wpc_credential_prune ready cur notif s :
  let i := St.inst s in
  let ns := NeutronAPI.Namespace i in
  let ac := SpecCore.Auth_ApplicationCredentialSecret (NeutronAPI.core i) in
  wpc (rotate_credential handler ready;; prune_finalizers handler cur notif) (λ _ s',
    ∃ name,
      status s' = Status.set_ApplicationCredentialSecret name (status s) ∧
      St.trace s' =
        Ev (PruneSecretConsumerFinalizers ns ACConsumerFinalizer [name; ac]) None ::
        Ev (PruneSecretConsumerFinalizers ns TransportConsumerFinalizer
              [Status.TransportURLSecret (status s); cur;
               default "" (Status.NotificationsTransportURLSecret (status s));
               from_option TransportURL.SecretName "" notif]) None ::
        Ev (FinalizeSecretRotation ns (Status.ApplicationCredentialSecret (status s)) ac
              ACConsumerFinalizer ready) (inr name) :: St.trace s) s.
Proof.
  intros i ns ac. apply wpc_bind. unfold rotate_credential. apply wpc_bind, wpc_instance, wpc_finalize.
  intros name w. unfold wpc at 1. apply wp_update_status. unfold prune_finalizers.
  apply wpc_bind, wpc_instance. cbv zeta. apply wpc_fail_on. intros w'.
  apply wpc_bind, wpc_call. intros [e|] w'' _; [done|]. apply wpc_ret.
  exists name. split; [done|]. by destruct notif.
Qed.

(** What the notifications block does to the recorded Secret. *)
Definition notifications_rotated (notif : option TransportURL.t) (ns : string) (guard : bool)
    (old recorded : option string) (tr : list event) : Prop :=
  match notif, recorded with
  | Some tu, Some recorded =>
      Ev (FinalizeSecretRotation ns (default "" old) (TransportURL.SecretName tu)
            TransportConsumerFinalizer guard) (inr recorded) ∈ tr
  | Some _, None => False
  | None, recorded => recorded = old ∨ recorded = None ∧ guard = true
  end.

Lemma notifications_grows notif ns guard old recorded tr tr' :
  tr ⊆ tr' → notifications_rotated notif ns guard old recorded tr →
  notifications_rotated notif ns guard old recorded tr'.
Proof. intros H. unfold notifications_rotated. destruct notif, recorded; auto. Qed.

Lemma set_notifications_id st :
  Status.set_NotificationsTransportURLSecret (Status.NotificationsTransportURLSecret st) st = st.
Proof. by destruct st. Qed.

Lemma wpc_notifications notif ready s :
  wpc (rotate_notifications handler notif ready) (λ _ s',
    ∃ recorded evs,
      St.inst s' = NeutronAPI.set_Status
        (Status.set_NotificationsTransportURLSecret recorded (status s)) (St.inst s) ∧
      St.trace s' = evs ++ St.trace s ∧
      notifications_rotated notif (NeutronAPI.Namespace (St.inst s)) ready
        (Status.NotificationsTransportURLSecret (status s)) recorded (St.trace s')) s.
Proof.
  assert (∃ recorded evs,
    St.inst s = NeutronAPI.set_Status
      (Status.set_NotificationsTransportURLSecret recorded (status s)) (St.inst s) ∧
    St.trace s = evs ++ St.trace s ∧ (recorded = Status.NotificationsTransportURLSecret (status s))) as Hsame.
  { eexists _, []. split_and!; [|done..]. by rewrite set_notifications_id, set_Status_id. }
  unfold rotate_notifications. apply wpc_bind, wpc_instance. cbv zeta. destruct notif as [tu|].
  - apply wpc_finalize. intros name w. unfold wpc. apply wp_update_status.
    eexists (Some name), [_]. split_and!; [done|done|by left].
  - destruct (Status.NotificationsTransportURLSecret (status s)) as [old|] eqn:Ho.
    2:{ apply wpc_ret. destruct Hsame as (r & evs & ? & ? & ?). exists r, evs. split_and!; [done..|by left]. }
    apply wpc_when; intros Hc.
    2:{ destruct Hsame as (r & evs & ? & ? & ?). exists r, evs. split_and!; [done..|by left]. }
    apply andb_prop in Hc as [_ ->]. apply wpc_fail_on. intros w.
    unfold transportURLDeleted. apply wpc_bind. unfold wpc at 1. apply wp_call_fn.
    apply wp_bind, wp_instance, wp_bind, wp_call. intros err w' _.
    assert (∀ e, wpc (fail_on e;; update_status (Status.set_NotificationsTransportURLSecret None))
      (λ _ s', ∃ recorded evs,
        St.inst s' = NeutronAPI.set_Status
          (Status.set_NotificationsTransportURLSecret recorded (status s)) (St.inst s) ∧
        St.trace s' = evs ++ St.trace s ∧
        notifications_rotated None (NeutronAPI.Namespace (St.inst s)) true (Some old) recorded (St.trace s'))
      (St.mk (St.inst s) (St.vars s) w' (Ev (DeleteObject KindTransportURL
          (NamespacedName.mk notifications_transport_name (NeutronAPI.Namespace (St.inst s)))) err ::
        Ev (RemoveSecretConsumerFinalizer (NeutronAPI.Namespace (St.inst s)) old
          TransportConsumerFinalizer) None :: St.trace s))) as Hend.
    { intros [e|]; apply wpc_bind; [done|]. unfold wpc. apply wp_ret, wp_update_status.
      eexists None, [_; _]. split_and!; [done|done|by right]. }
    destruct err as [e|]; [destruct (IsNotFound e)|]; apply Hend.
Qed.

(** C15: the status follows the rotation, and pruning spares what is in use.  When
    the rotation block goes on, the transport and application credential Secrets
    that the status records are the answers of [FinalizeSecretRotation] for the
    old and the current Secret, called with the rotation guard of the conditions;
    with a notifications bus the same holds of its Secret, without one the
    recorded Secret is forgotten only under the guard.  The last two calls then
    prune the consumer finalizers and spare exactly the Secrets that the status
    records by then and those in use. *)
Theorem rotate_credentials_spec cur notif (s : St.t W) :
  let i := St.inst s in
  let ns := NeutronAPI.Namespace i in
  let guard := CredentialRotationGuardReady true (conds i) in
  let ac := SpecCore.Auth_ApplicationCredentialSecret (NeutronAPI.core i) in
  wpc (rotate_credentials handler cur notif) (λ _ s',
    Ev (FinalizeSecretRotation ns (Status.TransportURLSecret (status s)) cur
          TransportConsumerFinalizer guard)
       (inr (Status.TransportURLSecret (status s'))) ∈ St.trace s' ∧
    Ev (FinalizeSecretRotation ns (Status.ApplicationCredentialSecret (status s)) ac
          ACConsumerFinalizer guard)
       (inr (Status.ApplicationCredentialSecret (status s'))) ∈ St.trace s' ∧
    notifications_rotated notif ns guard (Status.NotificationsTransportURLSecret (status s))
      (Status.NotificationsTransportURLSecret (status s')) (St.trace s') ∧
    ∃ tr,
      St.trace s' =
        Ev (PruneSecretConsumerFinalizers ns ACConsumerFinalizer
              [Status.ApplicationCredentialSecret (status s'); ac]) None ::
        Ev (PruneSecretConsumerFinalizers ns TransportConsumerFinalizer
              [Status.TransportURLSecret (status s'); cur;
               default "" (Status.NotificationsTransportURLSecret (status s'));
               from_option TransportURL.SecretName "" notif]) None :: tr) s.
Proof.
  intros i ns guard ac. unfold rotate_credentials. apply wpc_bind, wpc_instance. cbv zeta.
  fold i guard. apply wpc_bind. unfold rotate_transport. apply wpc_bind, wpc_instance, wpc_finalize.
  intros name w. unfold wpc at 1. apply wp_update_status. apply wpc_bind.
  eapply wpc_mono; [apply wpc_notifications|]. intros _ s2 (recorded & evs & Hi2 & Ht2 & Hn2).
  eapply wpc_mono; [apply wpc_credential_prune|]. intros _ s3 (acname & Hst3 & Ht3).
  rewrite Hi2 in Hst3, Ht3. cbn in Hst3, Ht3, Hn2, Ht2. rewrite Hst3. cbn. rewrite Ht3, Ht2. split_and!.
  - do 3 right. apply elem_of_app. right. by left.
  - do 2 right. by left.
  - eapply notifications_grows; [|exact Hn2]. rewrite Ht2. set_solver.
  - by eexists.
Qed.
End rotation.
