(* ===== verification/Samples.v ===== *)
(** * A small cluster to run the controller against

    [Demo] answers every call the way a healthy cluster does, with a few
    switches; it stores the NeutronAPI and the image-probe Job.  It satisfies the
    laws the theorems ask of a cluster, which shows that they can hold, and lets
    whole reconciles be evaluated. *)

From S2P Require Import Prelude K8s Conditions Lib Reference Api GoMonad Pods External ImageProbe.
From S2P Require Import ExternalSecrets ServiceConfig Delete Init Inputs Rollout Reconcile.

Module Demo.

(** ** The NeutronAPI of config/samples *)

Definition no_tls : NeutronApiTLS.t :=
  NeutronApiTLS.mk (APIService.mk (GenericService.mk None) (GenericService.mk None)) (Ca.mk "")
    (GenericService.mk None).

Definition core_of (custom : string) (ca : string) : SpecCore.t :=
  SpecCore.mk 120 "neutron" "openstack" "neutron" "rabbitmq" (RabbitMqConfig.mk "" "" "rabbitmq")
    None "memcached" (Some 1%Z) "neutron-secret" "NeutronPassword" None false "ml2" ["ovn"]
    custom ∅ (ResourceRequirements.mk ∅ ∅) [] [] ∅
    (NeutronApiTLS.mk (NeutronApiTLS.API no_tls) (Ca.mk ca) (NeutronApiTLS.Ovn no_tls)) "" None None.

Definition fresh_status : Status.t := Status.mk 0 None None "" "" None "" 0 None None 0 0.

Definition sample (custom ca : string) : NeutronAPI.t :=
  NeutronAPI.mk "NeutronAPI" "neutron" "openstack" 1 None None [] (Spec.mk (core_of custom ca) "img")
    fresh_status.

Definition debug_config : string := "debug = true".

(** ** The cluster *)

Module World.
Record t := mk {
  stored : NeutronAPI.t;
  probe : option Job.t;
  ca_missing : bool;
  rolled : bool;
  transport_secret : string }.

Definition set_stored (i : NeutronAPI.t) (w : t) : t :=
  mk i (probe w) (ca_missing w) (rolled w) (transport_secret w).
Definition set_probe (j : option Job.t) (w : t) : t :=
  mk (stored w) j (ca_missing w) (rolled w) (transport_secret w).
End World.

Definition true_cond (t : CondType) : Condition.t :=
  Condition.mk t ConditionTrue InitReason SeverityNone "" 0.

Definition ready_deployment (rolled : bool) (d : Deployment.t) : Deployment.t :=
  Deployment.mk (Deployment.Name d) (Deployment.Namespace d) (Deployment.MatchLabels d)
    (Deployment.Replicas d) (Deployment.Template d) 1 1 (if rolled then 1 else 0).

Definition some_secret : Secret.t :=
  Secret.mk {[ "transport_url" := "rabbit://u:p@host/"; "quorumqueues" := "true";
               "NeutronPassword" := "12345678"; "AC_ID" := "id"; "AC_SECRET" := "secret" ]}.

(** The helpers fill the database in with its account and Secret. *)
Definition loaded_database (db : Database.t) : Database.t :=
  Database.mk (Database.DatabaseInstance db) (Database.DatabaseName db) (Database.CRName db)
    (Database.AccountName db) (Database.Namespace db) "loaded".

Definition answer (R : Type) (c : Call R) (w : World.t) : R * World.t :=
  match c in Call R return R * World.t with
  | GetNeutronAPI _ => (inr (World.stored w), w)
  | NewHelper _ => (None, w)
  | PatchInstance i => (None, World.set_stored i w)
  | DeleteObject _ _ => (Some not_found, w)
  | GetSecret _ _ => (inr some_secret, w)
  | VerifySecretFields nn _ _ => ("hash-of-" +:+ NamespacedName.Name nn, Result0, None, w)
  | EnsureSecrets ts env =>
      ((foldr (λ t env, <[Template.Name t := SetValue ("hash-of-" +:+ Template.Name t)]> env) env ts,
        None), w)
  | ReconcileRbac _ _ _ =>
      ([true_cond ServiceAccountReadyCondition; true_cond RoleReadyCondition;
        true_cond RoleBindingReadyCondition], Result0, None, w)
  | ManageSecretConsumerFinalizer _ _ _ => (None, w)
  | RemoveSecretConsumerFinalizer _ _ _ => (None, w)
  | PruneSecretConsumerFinalizers _ _ _ => (None, w)
  | FinalizeSecretRotation _ old current _ ready => (inr (if ready then current else old), w)
  | CreateOrUpdateTransportURL nn cfg _ =>
      (TransportURL.mk (NamespacedName.Name nn) (NamespacedName.Namespace nn)
         (RabbitMqConfig.Cluster cfg) (RabbitMqConfig.User cfg) (RabbitMqConfig.Vhost cfg)
         (World.transport_secret w) "ready", OperationResultNone, None, w)
  | GetTransportURLObject _ => (inl not_found, w)
  | GetMemcachedByName n _ => (inr (Memcached.mk n "" "ready"), w)
  | GetKeystoneAPI _ => (inr (KeystoneAPI.mk ""), w)
  | GetDBClusterByType _ _ => (inr (OVNDBCluster.mk ""), w)
  | KeystoneService_CreateOrPatch _ _ _ _ => ([], Result0, None, w)
  | KeystoneEndpoint_CreateOrPatch _ _ _ _ _ => ([], Result0, None, w)
  | GetKeystoneEndpointWithName n ns => (inr (KeystoneObject.mk n ns ["openstack.org/NeutronAPI"] ""), w)
  | GetKeystoneServiceWithName n ns => (inr (KeystoneObject.mk n ns [] ""), w)
  | UpdateKeystoneEndpoint _ => (None, w)
  | UpdateKeystoneService _ => (None, w)
  | EnsureServiceTopology _ _ _ _ => (inr None, w)
  | EnsureDeletedTopologyRef _ _ => (Result0, None, w)
  | GetNADWithName _ _ => (inl not_found, w)
  | VerifyNetworkStatusFromAnnotation _ _ _ => (inr (true, Some ∅), w)
  | ValidateCACertSecret _ => (if World.ca_missing w then inl not_found else inr "ca-hash", w)
  | ValidateCertSecrets _ _ => (inr "", w)
  | ValidateCertSecret _ _ => (inr "", w)
  | GetDatabaseByNameAndAccount n a ns => (inr (Database.mk "openstack" n n a ns ""), w)
  | Database_DeleteFinalizer _ => (None, w)
  | EnsureMariaDBAccount _ _ _ _ => (None, w)
  | Database_CreateOrPatchAll db => (loaded_database db, Result0, None, w)
  | WaitForDBCreatedWithTimeout db _ => (loaded_database db, Result0, None, w)
  | DeleteUnusedMariaDBAccountFinalizers _ _ _ => (None, w)
  | DoJob j t _ _ _ =>
      if String.eqb t imageProbeHash
      then (JobRun.mk Result0 None false "", World.set_probe (Some j) w)
      else (JobRun.mk Result0 None true "dbsync-hash", w)
  | GetJob _ => (match World.probe w with Some j => inr j | None => inl not_found end, w)
  | DeleteJob _ _ => (None, World.set_probe None w)
  | Service_CreateOrPatch svc => (svc, Result0, None, w)
  | Deployment_CreateOrPatch d _ => (ready_deployment (World.rolled w) d, Result0, None, w)
  | IsReadyForInput _ _ => (inr (World.rolled w), w)
  | c => (no_answer _ c, w)
  end.

#[export] Instance cluster : Cluster answer.
Proof.
  split.
  - intros ts env w env' w' H t Ht. cbn in H. injection H as <- <-.
    induction ts as [|t' ts IH]; [by apply not_elem_of_nil in Ht|]. simpl.
    apply lookup_insert_is_Some. destruct (decide (Template.Name t' = Template.Name t)) as [E|E].
    + by left.
    + right. split; [done|]. apply elem_of_cons in Ht as [->|Ht]; [done|]. by apply IH.
  - intros name ns rules w cs r e w' H. cbn in H. injection H as <- _ _ _. intros c Hc.
    rewrite !elem_of_cons, elem_of_nil in Hc. destruct Hc as [->|[->|[->|[]]]]; simpl; set_solver.
Qed.

#[export] Instance database : DatabaseHelper answer.
Proof.
  split.
  - intros db w db' w' H. cbn in H. injection H as <- _. by split; eexists.
  - intros db timeout w db' w' Hdb H. cbn in H. injection H as <- _. by split; eexists.
Qed.

#[export] Instance rotation : SecretRotation answer.
Proof. split. intros ns old cur f w r w' _ H. cbn in H. by injection H as <- _. Qed.

Definition nn : NamespacedName.t := NamespacedName.mk "neutron" "openstack".

(** The state a reconcile starts in, and one reconcile after another. *)
Definition start (w : World.t) : St.t World.t := St.mk (sample "" "") ∅ w [].

Definition run (w : World.t) : St.t World.t := (Reconcile answer nn (start w)).2.

Fixpoint run_n (n : nat) (w : World.t) : World.t :=
  match n with 0 => w | S n => run_n n (St.world (run w)) end.

Definition world (i : NeutronAPI.t) (rolled : bool) : World.t :=
  World.mk i None false rolled "rabbit-secret".

(** A new NeutronAPI is Ready after two reconciles on a healthy cluster. *)
Example ready_after_two :
  (let s := World.stored (run_n 2 (world (sample debug_config "") true)) in
   (IsReady s, Status.TransportURLSecret (NeutronAPI.Status s), Status.ReadyCount (NeutronAPI.Status s)))
  = (true, "rabbit-secret", 1%Z).
Proof. vm_compute. reflexivity. Qed.

(** While the Deployments have not rolled out, it is not. *)
Example not_ready_before_rollout :
  IsReady (World.stored (run_n 2 (world (sample debug_config "") false))) = false.
Proof. vm_compute. reflexivity. Qed.

End Demo.
