(* ===== verification/Guarantees.v ===== *)
(** * What a reconcile guarantees

    Theorems on the composed controller: which worker Deployments exist under
    which strategy, what precedes the creation of a Deployment, when and what
    [Reconcile] writes back. *)

From S2P Require Import Prelude RpcWorkers K8s Conditions Lib Reference Api GoMonad Pods External.
From S2P Require Import ImageProbe ExternalSecrets ServiceConfig Delete Init Inputs Rollout.
From S2P Require Import Reconcile Frame Rotation Samples.

(** ** Worker Deployments *)

(** A call that creates a Deployment which strategy and configuration ask for. *)
Definition wanted_worker (i : NeutronAPI.t) (wsgi : bool) (ev : event) : bool :=
  match ev with
  | Ev c _ =>
      match c with
      | Deployment_CreateOrPatch d _ =>
          wsgi && (bool_decide (Deployment.Name d = worker_name) ||
                   bool_decide (Deployment.Name d = rpc_name) && rpcEnabled i)
      | _ => true
      end
  end.

Section workers.
Context `{L : Lib} `{!LibLaws L} {W : Type} (handler : ∀ R, Call R → W → R * W).

Lemma frames_force_bind {R A B} b T q (o : option A) (k : A → M (St.t W) R B) :
  (∀ a, o = Some a → frames b T q (k a)) → frames b T q (force o ≫= k).
Proof.
  intros H s. unfold mbind, M_bind. destruct o as [a|]; simpl; [by apply H|apply frame_refl].
Qed.

Lemma frames_instance_bind {R B} b T q (k : NeutronAPI.t → M (St.t W) R B) s :
  frames b T q (k (St.inst s)) → frame b T q s ((instance ≫= k) s).2.
Proof. intros H. apply H. Qed.

(** ** Deleted Deployments *)

Definition deleted_deployment (i : NeutronAPI.t) (name : string) (tr : list event) : Prop :=
  ∃ r, Ev (DeleteObject KindDeployment (NamespacedName.mk name (NeutronAPI.Namespace i))) r ∈ tr ∧
       ok_or_gone r.

Lemma wpc_delete_deployment name s :
  wpc (delete_deployment handler name)
    (λ _ s', deleted_deployment (St.inst s) name (St.trace s') ∧
             frame true (λ _, true) (λ _, true) s s') s.
Proof.
  unfold delete_deployment. apply wpc_bind, wpc_instance, wpc_bind, wpc_call. intros r w _.
  destruct r as [e|]; simpl.
  - apply wpc_when; intros He; [done|]. apply negb_false_iff in He.
    split; [|by apply frame_call]. exists (Some e). split; [by left|exact He].
  - apply wpc_ret. split; [|by apply frame_call]. exists None. split; [by left|done].
Qed.

Lemma deleted_grows i name tr tr' :
  tr ⊆ tr' → deleted_deployment i name tr → deleted_deployment i name tr'.
Proof. intros H (r & ? & ?). exists r. auto. Qed.

(** What is left of the workers of the WSGI strategy under Eventlet. *)
Lemma wpc_remove_workers s :
  wpc (remove_workers handler)
    (λ _ s', (∀ n, n ∈ [rpc_name; worker_name] → deleted_deployment (St.inst s) n (St.trace s')) ∧
       Status.RPCReadyCount (NeutronAPI.Status (St.inst s')) = 0%Z ∧
       Status.WorkerReadyCount (NeutronAPI.Status (St.inst s')) = 0%Z ∧
       cond_of s' NeutronRPCReadyCondition = None ∧ cond_of s' NeutronWorkerReadyCondition = None) s.
Proof.
  unfold remove_workers. simpl. apply wpc_bind, wpc_bind.
  eapply wpc_mono; [apply wpc_delete_deployment|]. intros _ s1 [H1 Hf1].
  apply wpc_bind. eapply wpc_mono; [apply wpc_delete_deployment|]. intros _ s2 [H2 Hf2].
  apply wpc_ret. destruct (frame_inst _ _ _ _ _ Hf1) as [st1 Hi1]. rewrite Hi1 in H2.
  unfold wpc, wp, update_status, remove_cond, update_inst, modify, mbind, M_bind. cbn [fst snd].
  split_and!; [|done|done| |].
  - intros n Hn. rewrite !elem_of_cons, elem_of_nil in Hn. destruct Hn as [->|[->|[]]]; [|exact H2].
    eapply deleted_grows; [|exact H1]. apply (frame_trace _ _ _ _ _ Hf2).
  - rewrite cond_of_set, status_Remove, decide_False by done.
    unfold conds at 1. simpl. rewrite status_Remove. by rewrite decide_True.
  - rewrite cond_of_set, status_Remove. by rewrite decide_True.
Qed.

(** The Deployment [name] was applied with the configuration [h]. *)
Definition created (name h : string) (tr : list event) : Prop :=
  ∃ d r, Ev (Deployment_CreateOrPatch d (seconds 5)) r ∈ tr ∧
         Deployment.Name d = name ∧ carries_hash h d.

Lemma created_grows name h tr tr' : tr ⊆ tr' → created name h tr → created name h tr'.
Proof. intros H (d & r & ? & ?). exists d, r. auto. Qed.

Lemma wpc_created {A} t em rm d name h (k : Deployment.t → M (St.t W) RetVal A) s :
  Deployment.Name d = name → carries_hash h d →
  (∀ deploy, frames true (λ _, false) (λ _, true) (k deploy)) →
  wpc (deploy ← apply_deployment handler t em rm d; k deploy)
    (λ _ s', created name h (St.trace s')) s.
Proof.
  intros Hn Hh Hk. apply wpc_bind, wpc_apply. intros deploy w.
  eapply wpc_frames; [apply Hk|]. intros a s' Hf. eapply created_grows; [by eapply frame_trace|].
  eexists d, _. split; [by left|done].
Qed.

Lemma wpc_created_rpc annotations h topology mc s :
  wpc (deploy_rpc handler annotations h topology mc) (λ _ s', created rpc_name h (St.trace s')) s.
Proof.
  unfold deploy_rpc. apply wpc_skip; [frames|]. intros _ s1 _. apply wpc_skip; [frames|]. intros i s2 _.
  apply wpc_bind, wpc_force. intros d Hd. apply wpc_created.
  - exact (proj1 (proj2 (deployment_names _ _ _ _ _ _ true _)) Hd).
  - intros c Hc. eapply (deployments_env _ _ _ _ _ _ _ true); [right; by left|done].
  - intros deploy. unfold ready_for_input, report_rollout. frames.
Qed.

Lemma wpc_created_worker annotations h topology mc s :
  wpc (deploy_worker handler annotations h topology mc)
    (λ _ s', created worker_name h (St.trace s')) s.
Proof.
  unfold deploy_worker. apply wpc_skip; [frames|]. intros _ s1 _. apply wpc_skip; [frames|].
  intros i s2 _. apply wpc_bind, wpc_force. intros d Hd. apply wpc_created.
  - exact (proj2 (proj2 (deployment_names _ _ _ _ _ _ true _)) Hd).
  - intros c Hc. eapply (deployments_env _ _ _ _ _ _ _ true); [right; by right|done].
  - intros deploy. unfold ready_for_input, report_rollout. frames.
Qed.

Lemma wpc_rpc_disabled name s :
  wpc (delete_deployment handler name;; update_status (Status.set_RPCReadyCount 0);;
       mark_true NeutronRPCReadyCondition NeutronRPCDisabledMessage)
    (λ _ s', deleted_deployment (St.inst s) name (St.trace s') ∧
             cond_of s' NeutronRPCReadyCondition = Some ConditionTrue) s.
Proof.
  apply wpc_bind. eapply wpc_mono; [apply wpc_delete_deployment|]. intros _ s1 [H1 _].
  unfold wpc, wp, update_status, mark_true, update_inst, modify, mbind, M_bind. cbn [fst snd].
  split; [exact H1|]. rewrite cond_of_set, status_MarkTrue. by rewrite decide_True.
Qed.

Lemma wpc_wsgi_workers annotations h topology mc s :
  wpc (rollout_workers handler annotations h topology mc true)
    (λ _ s', created worker_name h (St.trace s') ∧
       if rpcEnabled (St.inst s) then created rpc_name h (St.trace s')
       else deleted_deployment (St.inst s) rpc_name (St.trace s') ∧
            cond_of s' NeutronRPCReadyCondition = Some ConditionTrue) s.
Proof.
  unfold rollout_workers, rollout_rpc. apply wpc_bind, wpc_bind, wpc_instance.
  assert (∀ s1, wpc (deploy_worker handler annotations h topology mc)
    (λ _ s', created worker_name h (St.trace s') ∧
             frame true (only NeutronRPCReadyCondition) settled s1 s') s1) as Hw.
  { intros s1. apply wpc_and; [apply wpc_created_worker|].
    eapply wpc_frames; [apply frames_deploy_worker|done]. }
  destruct (rpcEnabled (St.inst s)).
  - eapply wpc_mono; [apply wpc_created_rpc|]. intros u1 s1 H1.
    eapply wpc_mono; [apply Hw|]. intros u2 s2 [H2 Hf]. split; [done|].
    eapply created_grows; [by eapply frame_trace|done].
  - eapply wpc_mono; [apply wpc_rpc_disabled|]. intros u1 s1 [H1 H1'].
    eapply wpc_mono; [apply Hw|]. intros u2 s2 [H2 Hf]. split; [done|]. split.
    + eapply deleted_grows; [by eapply frame_trace|done].
    + destruct Hf as (_ & _ & Hc & _). by rewrite Hc.
Qed.

(** Blocks that apply one Deployment. *)
Lemma frames_apply T q t em rm d :
  (∀ r, q (Ev (Deployment_CreateOrPatch d (seconds 5)) r) = true) → T t = false →
  frames true T q (apply_deployment handler t em rm d).
Proof.
  intros Hq Ht. unfold apply_deployment, fail_cond, wait_cond.
  apply frames_bind; [by apply frames_call|]. intros [[deploy r] e]. destruct e; frames;
    by first [apply frames_error | apply frames_running].
Qed.

Lemma wanted_rpc i annotations h topology mc :
  rpcEnabled i = true →
  frames true (λ _, false) (wanted_worker i true) (deploy_rpc handler annotations h topology mc).
Proof.
  intros E. unfold deploy_rpc. apply frames_bind; [frames|]. intros _.
  apply frames_bind; [frames|]. intros i'. apply frames_force_bind. intros d Hd.
  apply frames_bind; [|intros; unfold ready_for_input, report_rollout; frames].
  apply frames_apply; [|done]. intros r. simpl.
  rewrite (proj1 (proj2 (deployment_names _ _ _ _ _ _ true _)) Hd), E.
  by rewrite (bool_decide_eq_true_2 (rpc_name = rpc_name)), orb_true_r.
Qed.

Lemma wanted_deploy_worker i annotations h topology mc :
  frames true (λ _, false) (wanted_worker i true) (deploy_worker handler annotations h topology mc).
Proof.
  unfold deploy_worker. apply frames_bind; [frames|]. intros _.
  apply frames_bind; [frames|]. intros i'. apply frames_force_bind. intros d Hd.
  apply frames_bind; [|intros; unfold ready_for_input, report_rollout; frames].
  apply frames_apply; [|done]. intros r. simpl.
  rewrite (proj2 (proj2 (deployment_names _ _ _ _ _ _ true _)) Hd).
  by rewrite (bool_decide_eq_true_2 (worker_name = worker_name)).
Qed.

Lemma wanted_rollout annotations h topology mc wsgi s :
  frame true (λ _, false) (wanted_worker (St.inst s) wsgi) s
    (rollout_workers handler annotations h topology mc wsgi s).2.
Proof.
  assert (frames true (λ _, false) (wanted_worker (St.inst s) false) (remove_workers handler)) as Hr.
  { unfold remove_workers, delete_deployment, fail_unless_not_found. frames. }
  destruct wsgi; [|apply Hr]. unfold rollout_workers.
  assert (frames true (λ _, false) (wanted_worker (St.inst s) true)
    (if rpcEnabled (St.inst s) then deploy_rpc handler annotations h topology mc
     else delete_deployment handler rpc_name;; update_status (Status.set_RPCReadyCount 0);;
          mark_true NeutronRPCReadyCondition NeutronRPCDisabledMessage)) as H1.
  { destruct (rpcEnabled (St.inst s)) eqn:E; [by apply wanted_rpc|].
    unfold delete_deployment, fail_unless_not_found. frames. }
  apply (frames_bind _ _ _ _ _ H1 (λ _, wanted_deploy_worker _ _ _ _ _)).
Qed.

(** C16: the worker Deployments follow the strategy.  Whatever the outcome,
    [rollout_workers] applies a neutron-worker Deployment only under WSGI and a
    neutron-rpc one only under WSGI with rpc_workers not 0.  When it goes on:
    under WSGI the worker Deployment was applied with the current hash, and the
    RPC one too, or, with rpc_workers = 0, the RPC Deployment was deleted (or was
    gone already) and its condition is true; under Eventlet both were deleted,
    the ready counts are 0 and both conditions are absent, so that they cannot
    hold the aggregate Ready condition back. *)
Theorem rollout_workers_spec annotations h topology mc wsgi s :
  let m := rollout_workers handler annotations h topology mc wsgi in
  let i := St.inst s in
  let s' := (m s).2 in
  (∃ evs, St.trace s' = evs ++ St.trace s ∧ forallb (wanted_worker i wsgi) evs = true) ∧
  ((m s).1 = Cont () →
   if wsgi then
     created worker_name h (St.trace s') ∧
     if rpcEnabled i then created rpc_name h (St.trace s')
     else deleted_deployment i rpc_name (St.trace s') ∧
          cond_of s' NeutronRPCReadyCondition = Some ConditionTrue
   else
     (∀ n, n ∈ [rpc_name; worker_name] → deleted_deployment i n (St.trace s')) ∧
     Status.RPCReadyCount (NeutronAPI.Status (St.inst s')) = 0%Z ∧
     Status.WorkerReadyCount (NeutronAPI.Status (St.inst s')) = 0%Z ∧
     cond_of s' NeutronRPCReadyCondition = None ∧ cond_of s' NeutronWorkerReadyCondition = None).
Proof.
  intros m i s'. split.
  - destruct (wanted_rollout annotations h topology mc wsgi s) as (_ & _ & _ & H). exact H.
  - intros Hc. destruct wsgi.
    + pose proof (wpc_wsgi_workers annotations h topology mc s) as H. unfold wpc, wp in H.
      fold m in H. by rewrite Hc in H.
    + pose proof (wpc_remove_workers s) as H. unfold wpc, wp in H.
      change (remove_workers handler) with m in H. by rewrite Hc in H.
Qed.

End workers.

(** ** Before a Deployment is created *)

Definition deploys (ev : event) : bool :=
  match ev with Ev c _ => match c with Deployment_CreateOrPatch _ _ => true | _ => false end end.

(** The current transport Secret carries the operator's consumer finalizer. *)
Definition transport_protected (i : NeutronAPI.t) (tr : list event) : Prop :=
  ∃ nn cfg owner tu op,
    Ev (CreateOrUpdateTransportURL nn cfg owner) (tu, op, None) ∈ tr ∧
    TransportURL.SecretName tu ≠ "" ∧
    Ev (ManageSecretConsumerFinalizer (NeutronAPI.Namespace i) (TransportURL.SecretName tu)
          TransportConsumerFinalizer) None ∈ tr.

(** The db-sync Job of the current spec has finished. *)
Definition db_synced (i : NeutronAPI.t) (tr : list event) `{L : Lib} : Prop :=
  ∃ labels annotations job preserve timeout hash run,
    DbSyncJob i labels annotations = Some job ∧
    Ev (DoJob job DbSyncHash preserve timeout hash) run ∈ tr ∧
    JobRun.result run = Result0 ∧ JobRun.err run = None.

(** A TLS Secret the spec names was not there. *)
Definition tls_missing (i : NeutronAPI.t) (tr : list event) : Prop :=
  let tls := SpecCore.TLS (NeutronAPI.core i) in
  let ns := NeutronAPI.Namespace i in
  ∃ e, IsNotFound e = true ∧
    (Ev (ValidateCACertSecret (NamespacedName.mk (Ca.CaBundleSecretName (NeutronApiTLS.CA tls)) ns))
        (inl e) ∈ tr ∨
     Ev (ValidateCertSecrets (NeutronApiTLS.API tls) ns) (inl e) ∈ tr ∨
     Ev (ValidateCertSecret (NeutronApiTLS.Ovn tls) ns) (inl e) ∈ tr).

Section order.
Context `{L : Lib} `{!LibLaws L} {W : Type} (handler : ∀ R, Call R → W → R * W).
Context `{!Cluster handler}.

(** The outcome of the initialisation that [reconcileNormal] takes for done. *)
Definition init_evidence (i : NeutronAPI.t) (tr : list event) : Prop :=
  db_synced i tr ∨ tls_missing i tr.

Lemma init_evidence_grows i tr tr' : tr ⊆ tr' → init_evidence i tr → init_evidence i tr'.
Proof.
  intros H [(l & a & j & p & t & h & r & ? & ? & ?)|(e & ? & [?|[?|?]])].
  - left. exists l, a, j, p, t, h, r. auto.
  - right. exists e. auto.
  - right. exists e. auto.
  - right. exists e. split; auto.
Qed.

(** [m] goes on with [P], or returns, and with [Result0] and no error only if
    there is evidence. *)
Definition until {A} (i : NeutronAPI.t) (m : M (St.t W) RetVal A) (P : A → St.t W → Prop)
    (s : St.t W) : Prop :=
  wp m (λ o s', match o with
                | Cont a => P a s'
                | Ret r => r = (Result0, None) → init_evidence i (St.trace s')
                | Panic => True
                end) s.

Lemma until_bind {A B} i (m : M (St.t W) RetVal A) (k : A → M (St.t W) RetVal B) P s :
  until i m (λ a s', until i (k a) P s') s → until i (m ≫= k) P s.
Proof. unfold until, wp, mbind, M_bind. by destruct (m s) as [[a|r|] s']. Qed.

Lemma until_mono {A} i (m : M (St.t W) RetVal A) (P P' : A → St.t W → Prop) s :
  until i m P s → (∀ a s', P a s' → P' a s') → until i m P' s.
Proof. unfold until, wp. destruct (m s) as [[a|r|] s']; simpl; auto. Qed.

Lemma until_when i c (body : M (St.t W) RetVal unit) P s :
  (c = true → until i body P s) → (c = false → P () s) → until i (when c body) P s.
Proof. intros H1 H2. destruct c; [by apply H1|by apply H2]. Qed.

Lemma until_ret {A} i (a : A) (P : A → St.t W → Prop) s : P a s → until i (mret a) P s.
Proof. done. Qed.

Lemma until_fail {A} i res err (P : A → St.t W → Prop) s : until i (return_ (res, Some err)) P s.
Proof. by intros [=]. Qed.

Lemma until_fail_cond {A} i t m res err (P : A → St.t W → Prop) s :
  until i (fail_cond t m res err) P s.
Proof. by intros [=]. Qed.

Lemma until_pending {A} i res (P : A → St.t W → Prop) s :
  pending res = true → until i (return_ (res, None)) P s.
Proof. intros H%bool_decide_eq_true_1. by intros [= ->]. Qed.

Lemma until_wait_cond {A} i t m args res (P : A → St.t W → Prop) s :
  pending res = true → until i (wait_cond t m args res) P s.
Proof. intros H%bool_decide_eq_true_1. by intros [= ->]. Qed.

(** A block that only goes on or panics. *)
Lemma until_skip {A} i (m : M (St.t W) RetVal A) (P : A → St.t W → Prop) s :
  frames false (λ _, false) (λ _, true) m →
  (∀ s r, (m s).1 ≠ Ret r) →
  (∀ a s', frame false (λ _, false) (λ _, true) s s' → P a s') → until i m P s.
Proof.
  intros Hf Hr HP. specialize (Hf s). specialize (Hr s). unfold until, wp.
  destruct (m s) as [[a|r|] s']; simpl in *; [auto| |done]. by destruct (Hr r).
Qed.

(** Once there is evidence, there is. *)
Lemma until_after {A} i (m : M (St.t W) RetVal A) s :
  frames false (λ _, false) (λ _, true) m → init_evidence i (St.trace s) →
  until i m (λ _ s', init_evidence i (St.trace s')) s.
Proof.
  intros Hf He. specialize (Hf s). unfold until, wp.
  assert (init_evidence i (St.trace (m s).2)) by (eapply init_evidence_grows; [by eapply frame_trace|done]).
  destruct (m s) as [[a|r|] s']; simpl in *; auto.
Qed.

Abbreviation any_frame := (frame false (λ _, false) (λ _, true)).
Abbreviation any_frames := (frames false (λ _, false) (λ _, true)).

Lemma until_frames {A} i (m : M (St.t W) RetVal A) (P : A → St.t W → Prop) s :
  any_frames m → until i m P s → until i m (λ a s', any_frame s s' ∧ P a s') s.
Proof.
  intros Hf. specialize (Hf s). unfold until, wp. destruct (m s) as [[a|r|] s']; simpl in *; auto.
Qed.

Lemma call_fn_no_ret {R R'} (f : M (St.t W) R' R') s (r : R) : (call_fn f s).1 ≠ Ret r.
Proof. unfold call_fn. by destruct (f s) as [[a|r'|] s']. Qed.

Lemma any_of_quiet {R A} T (m : M (St.t W) R A) : frames false T preparatory m → any_frames m.
Proof. by apply frames_weaken. Qed.

Lemma until_database i s : until i (init_database handler) (λ _ _, True) s.
Proof.
  unfold init_database. apply until_bind, until_skip.
  - unfold ensureDB. frames.
  - intros. apply call_fn_no_ret.
  - intros [[db r] err] s1 _. apply until_bind. destruct err as [e|]; [apply until_fail|].
    apply until_when; intros Hr; [by apply until_pending|]. by destruct db.
Qed.

(** The early returns of the TLS validation. *)
Lemma until_tls_input {A} i (c : Call (error + string)) (missing : error → M (St.t W) RetVal unit)
    (k : string → M (St.t W) RetVal A) P s :
  (∀ e tr, IsNotFound e = true → Ev c (inl e) ∈ tr → tls_missing i tr) →
  (∀ e, any_frames (missing e)) → (∀ e s r, (missing e s).1 ≠ Ret r) →
  (∀ hash s', any_frame s s' → until i (k hash) P s') →
  until i (answer ← call handler c; hash ← tls_input answer missing; k hash) P s.
Proof.
  intros Hm Hmf Hmr Hk. apply until_bind. unfold until at 1. apply wp_call. intros answer w _.
  apply until_bind. destruct answer as [e|hash]; [|by apply until_ret, Hk, frame_call].
  unfold tls_input. apply until_bind. destruct (IsNotFound e) eqn:He; simpl.
  - apply until_bind, until_skip; [apply Hmf|apply Hmr|]. intros u s' Hf _. right.
    apply (Hm e); [done|]. apply (frame_trace _ _ _ _ _ Hf). by left.
  - apply until_ret, until_fail_cond.
Qed.

Lemma until_put_hash {A} i key hash (k : M (St.t W) RetVal A) P s :
  (∀ s', any_frame s s' → until i k P s') → until i (put_hash key hash;; k) P s.
Proof.
  intros Hk. apply until_bind, until_skip; [unfold put_hash; frames| |auto].
  intros s' r. unfold put_hash. by destruct (bool_decide _).
Qed.

Lemma until_put_hash_last i key hash (P : unit → St.t W → Prop) s :
  (∀ s', any_frame s s' → P () s') → until i (put_hash key hash) P s.
Proof.
  intros Hk. apply until_skip; [unfold put_hash; frames| |by intros []; auto].
  intros s' r. unfold put_hash. by destruct (bool_decide _).
Qed.

Lemma until_tls i s :
  (∃ st, St.inst s = NeutronAPI.set_Status st i) →
  until i (validate_tls handler) (λ _ _, True) s.
Proof.
  intros [st Hi]. unfold validate_tls. apply until_bind. unfold until at 1. apply wp_instance.
  rewrite Hi. cbv zeta. cbn [NeutronAPI.core NeutronAPI.set_Status NeutronAPI.Spec NeutronAPI.Namespace].
  fold (NeutronAPI.core i).
  assert (∀ s, until i
    (answer ← call handler (ValidateCertSecrets (NeutronApiTLS.API (SpecCore.TLS (NeutronAPI.core i)))
               (NeutronAPI.Namespace i));
     hash ← tls_input answer (λ err, set_running TLSInputReadyCondition
               (condition_msg "TLSInputReadyWaitingMessage") [Error err]);
     put_hash "apiCertsHash" hash;;
     when (GenericService_Enabled (NeutronApiTLS.Ovn (SpecCore.TLS (NeutronAPI.core i))))
       (answer ← call handler (ValidateCertSecret (NeutronApiTLS.Ovn (SpecCore.TLS (NeutronAPI.core i)))
                  (NeutronAPI.Namespace i));
        ovnHash ← tls_input answer (λ err, set_running TLSInputReadyCondition
                    (condition_msg "TLSInputReadyWaitingMessage") [Error err]);
        put_hash "ovnCertsHash" ovnHash);;
     mark_true TLSInputReadyCondition (condition_msg "InputReadyMessage")) (λ _ _, True) s) as Hrest.
  { intros s1. apply until_tls_input; [intros e tr He Hev; exists e; auto|intros; frames|done|].
    intros hash s2 _. apply until_put_hash. intros s3 _. apply until_bind, until_when; intros _; [|done].
    apply until_tls_input; [intros e tr He Hev; exists e; auto|intros; frames|done|].
    intros h s4 _. by apply until_put_hash_last. }
  apply until_bind, until_when; intros _; [|apply Hrest].
  apply until_tls_input; [intros e tr He Hev; exists e; auto|intros; frames|done|].
  intros h s1 _. apply until_put_hash_last. intros s2 _. apply Hrest.
Qed.

Lemma until_hash i s : until i (hash_and_consume handler) (λ _ _, True) s.
Proof.
  unfold hash_and_consume. apply until_bind. unfold until at 1. apply wp_instance.
  apply until_bind, until_skip; [unfold createHashOfInputHashes; frames|intros; apply call_fn_no_ret|].
  intros [b err] s1 _. apply until_bind. destruct err as [e|]; [apply until_fail_cond|].
  apply until_ret, until_bind, until_when; intros _; [|done].
  apply until_bind. unfold until at 1. apply wp_call. intros [e|] w _; [apply until_fail_cond|done].
Qed.

Lemma until_db_sync i labels annotations s :
  (∃ st, St.inst s = NeutronAPI.set_Status st i) →
  until i (run_db_sync handler labels annotations) (λ _ s', init_evidence i (St.trace s')) s.
Proof.
  intros [st Hi]. unfold run_db_sync. apply until_bind. unfold until at 1. apply wp_instance.
  rewrite Hi. cbv zeta. apply until_bind. unfold until at 1.
  destruct (DbSyncJob (NeutronAPI.set_Status st i) labels annotations) as [j|] eqn:Hj; [|done].
  apply wp_ret, until_bind. unfold until at 1. apply wp_call. intros run w _.
  apply until_bind, until_when; intros Hp; [by apply until_wait_cond|].
  apply until_bind. destruct (JobRun.err run) as [e|] eqn:He; [apply until_fail_cond|]. apply until_ret.
  apply until_after; [unfold when; frames|]. left.
  apply bool_decide_eq_false_1, dec_stable in Hp.
  exists labels, annotations, j. do 4 eexists. split_and!; [exact Hj|by left|exact Hp|exact He].
Qed.

Lemma any_reconcileInit labels annotations tn nn :
  any_frames (reconcileInit handler labels annotations tn nn).
Proof. eapply any_of_quiet, initial_init. Qed.

(** What it takes for [reconcileInit] to report that it is done. *)
Lemma until_init i labels annotations tn nn s :
  (∃ st, St.inst s = NeutronAPI.set_Status st i) →
  until i (reconcileInit handler labels annotations tn nn)
    (λ _ s', init_evidence i (St.trace s')) s.
Proof.
  intros Hi. unfold reconcileInit.
  assert (∀ s1, any_frame s s1 → ∃ st, St.inst s1 = NeutronAPI.set_Status st i) as Hinst.
  { intros s1 Hf. destruct Hi as [st Hi], (frame_inst _ _ _ _ _ Hf) as [st1 Hi1].
    exists st1. by rewrite Hi1, Hi. }
  apply until_bind. eapply until_mono; [apply until_frames; [|apply until_database]|].
  { unfold init_database, ensureDB. frames. }
  intros db s1 [Hf1 _]. apply until_bind, until_skip; [|intros; apply call_fn_no_ret|].
  { apply frames_call_fn; eapply any_of_quiet, quiet_secrets. }
  intros err s2 Hf2. pose proof (frame_trans _ _ _ _ _ _ Hf1 Hf2) as Hf02.
  apply until_bind. destruct err as [e|]; [apply until_fail_cond|]. apply until_ret.
  apply until_bind. eapply until_mono; [apply until_frames; [|by apply until_tls, Hinst]|].
  { unfold validate_tls, tls_input, put_hash, fail_cond. frames. }
  intros _ s3 [Hf3 _]. pose proof (frame_trans _ _ _ _ _ _ Hf02 Hf3) as Hf03.
  apply until_bind. eapply until_mono; [apply until_frames; [|apply until_hash]|].
  { unfold hash_and_consume, createHashOfInputHashes, config_error, fail_cond. frames. }
  intros _ s4 [Hf4 _]. pose proof (frame_trans _ _ _ _ _ _ Hf03 Hf4) as Hf04.
  apply until_bind. eapply until_mono; [by apply until_db_sync, Hinst|].
  intros u5 s5 Hev. apply until_after; [|exact Hev].
  apply frames_bind; [eapply any_of_quiet, quiet_endpoints|]. intros eps.
  apply frames_bind; [frames|]. intros _.
  apply frames_bind; [eapply any_of_quiet, quiet_keystone|]. intros _. frames.
Qed.

Lemma wpc_init_update_upgrade annotations cur n s :
  wpc (init_update_upgrade handler annotations cur n)
    (λ _ s', init_evidence (St.inst s) (St.trace s')) s.
Proof.
  unfold init_update_upgrade. apply wpc_bind.
  assert (∃ st, St.inst s = NeutronAPI.set_Status st (St.inst s)) as Hi.
  { exists (NeutronAPI.Status (St.inst s)). by rewrite set_Status_id. }
  pose proof (until_init (St.inst s) serviceLabels annotations cur n s Hi) as H.
  unfold until, wpc, wp, call_fn in *.
  destruct (reconcileInit handler serviceLabels annotations cur n s) as [[r|r|] s1]; simpl in *; [| |done].
  - change (wpc (return_unless_done r;; r ← call_fn reconcileUpdate; return_unless_done r;;
       r ← call_fn reconcileUpgrade; return_unless_done r;; mret r.1)
      (λ _ s', init_evidence (St.inst s) (St.trace s')) s1).
    eapply wpc_frames; [|intros ? s' Hf; eapply init_evidence_grows; [by eapply frame_trace|exact H]].
    unfold return_unless_done, reconcileUpdate, reconcileUpgrade.
    instantiate (3 := true). instantiate (2 := λ _, true). instantiate (1 := λ _, true). frames.
  - destruct r as [res err]. unfold return_unless_done. simpl. destruct err as [e|]; [done|].
    destruct (pending res) eqn:Hp; [done|]. apply bool_decide_eq_false_1, dec_stable in Hp as ->.
    simpl. by apply H.
Qed.

(** Every new event selected by [sel] has [E] behind it. *)
Definition preceded (sel : event → bool) (E : list event → Prop) (tr0 : list event) (s : St.t W)
  : Prop :=
  ∀ l1 ev l2, St.trace s = l1 ++ ev :: l2 → tr0 `suffix_of` l2 → sel ev = true → E l2.

Lemma preceded_split (sel : event → bool) (E : list event → Prop) (evs tr0 l1 : list event) ev l2 tr1 :
  l1 ++ ev :: l2 = evs ++ tr1 → tr0 `suffix_of` tr1 → tr0 `suffix_of` l2 → sel ev = true →
  (∀ x, x ∈ evs → sel x = true → ∀ k, tr1 `suffix_of` k → E k) →
  (∀ l1, tr1 = l1 ++ ev :: l2 → E l2) → E l2.
Proof.
  intros H Hs1 Hs2 Hsel Hnew Hold. apply app_eq_inv in H as [(k & -> & He)|(k & -> & He)].
  - eapply Hold. exact He.
  - destruct k as [|x k]; [by apply (Hold [])|]. injection He as <- ->.
    eapply (Hnew ev); [set_solver|done|by exists k].
Qed.

Lemma preceded_none b T sel E (s s' : St.t W) :
  frame b T (λ ev, negb (sel ev)) s s' → preceded sel E (St.trace s) s'.
Proof.
  intros (_ & _ & _ & evs & Ht & Hq) l1 ev l2 Htr Hsuf Hsel. exfalso. rewrite Ht in Htr.
  pose proof (new_event_elem _ _ _ _ _ Htr Hsuf) as Hin. rewrite forallb_forall in Hq.
  apply list_elem_of_In, Hq in Hin. by rewrite Hsel in Hin.
Qed.

Lemma preceded_after b T sel (E : list event → Prop) (s s1 s' : St.t W) :
  (∀ tr tr', tr ⊆ tr' → E tr → E tr') →
  frame b T (λ ev, negb (sel ev)) s s1 → E (St.trace s1) →
  St.trace s1 `suffix_of` St.trace s' → preceded sel E (St.trace s) s'.
Proof.
  intros HE Hf H1 [evs Ht] l1 ev l2 Htr Hsuf Hsel. rewrite Ht in Htr. symmetry in Htr.
  eapply (preceded_split sel E evs (St.trace s)); [exact Htr| |done|done| |].
  - destruct Hf as (_ & _ & _ & evs1 & Ht1 & _). by exists evs1.
  - intros x _ _ k [e ->]. eapply HE; [|exact H1]. set_solver.
  - intros l Hl. eapply (preceded_none _ _ _ E s s1 Hf l ev l2); done.
Qed.

Lemma preceded_frame b T sel E tr0 (s s' : St.t W) :
  tr0 `suffix_of` St.trace s → preceded sel E tr0 s →
  frame b T (λ ev, negb (sel ev)) s s' → preceded sel E tr0 s'.
Proof.
  intros Hsuf0 H (_ & _ & _ & evs & Ht & Hq) l1 ev l2 Htr Hsuf Hsel. rewrite Ht in Htr.
  symmetry in Htr. eapply (preceded_split sel E evs tr0); [exact Htr|done|done|done| |].
  - intros x Hx Hsx. rewrite forallb_forall in Hq. apply list_elem_of_In, Hq in Hx.
    by rewrite Hsx in Hx.
  - intros l Hl. by eapply H.
Qed.

Lemma preparatory_not_deploys ev : preparatory ev = true → negb (deploys ev) = true.
Proof. destruct ev as [R c r]. by destruct c. Qed.

(** The messaging bus of the prepared inputs. *)
Lemma wpc_transport s :
  wpc (ensure_transport handler) (λ _ s', transport_protected (St.inst s) (St.trace s')) s.
Proof.
  unfold ensure_transport. apply wpc_bind, wpc_instance, wpc_bind. unfold wpc at 1.
  apply wp_call_fn. unfold transportURLCreateOrUpdate. apply wp_bind, wp_instance, wp_call.
  intros [[tu op] err] w _. apply wpc_bind. destruct err as [e|]; [done|].
  apply wpc_ret. cbv zeta. apply wpc_bind, wpc_when; intros Hne; [done|].
  apply bool_decide_eq_false_1 in Hne. apply wpc_bind. unfold wpc at 1. apply wp_update_status.
  apply wpc_bind, wpc_call. intros [e|] w' _; [done|].
  unfold fail_on. apply wpc_bind, wpc_ret, wpc_ret. do 5 eexists. split_and!; [|exact Hne|by left].
  right. by left.
Qed.

Lemma protected_grows i tr tr' : tr ⊆ tr' → transport_protected i tr → transport_protected i tr'.
Proof.
  intros H (nn & cfg & o & tu & op & ? & ? & ?). exists nn, cfg, o, tu, op. split_and!; auto.
Qed.

Lemma wpc_prepare s :
  wpc (prepare handler) (λ _ s', transport_protected (St.inst s) (St.trace s')) s.
Proof.
  unfold prepare. apply wpc_bind. eapply wpc_frames; [apply (quiet_rbac handler)|]. intros _ s1 Hf1.
  apply wpc_bind. unfold wpc at 1. apply wp_put_vars. apply wpc_bind.
  eapply wpc_mono; [apply wpc_transport|]. intros cur s2 H2.
  destruct (frame_inst _ _ _ _ _ Hf1) as [st1 Hi1].
  cbn [St.inst St.set_vars] in H2. rewrite Hi1 in H2.
  eapply (wpc_frames false (λ _, false) (λ _, true)).
  - eapply (any_of_quiet later_condition). unfold ensure_notifications, verify_transport_secret, verify_service_secret,
      ensure_memcached, network_annotations, transportURLCreateOrUpdate, fail_cond, wait_cond, fail_on.
    frames; try apply (quiet_external handler); try apply quiet_nads; apply quiet_verify;
      unfold input_waiting; frames.
  - intros a s' Hf. eapply protected_grows; [by eapply frame_trace|exact H2].
Qed.

(** What must be behind the creation of a Deployment. *)
Definition may_deploy (i : NeutronAPI.t) (tr : list event) : Prop :=
  transport_protected i tr ∧ init_evidence i tr.

Lemma may_deploy_grows i tr tr' : tr ⊆ tr' → may_deploy i tr → may_deploy i tr'.
Proof. intros H [? ?]. split; [by eapply protected_grows|by eapply init_evidence_grows]. Qed.

Abbreviation no_deploys := (frames false (λ _, false) (λ ev, negb (deploys ev))).

Lemma no_deploys_of_quiet {R A} T (m : M (St.t W) R A) :
  frames false T preparatory m → no_deploys m.
Proof. by apply frames_weaken; [..|apply preparatory_not_deploys]. Qed.

Lemma normal_deploys s :
  wp (reconcileNormal handler)
    (λ _ s', preceded deploys (may_deploy (St.inst s)) (St.trace s) s') s.
Proof.
  unfold reconcileNormal. apply wp_bind.
  pose proof (no_deploys_of_quiet _ _ (quiet_prepare handler) s) as Hf1.
  pose proof (wpc_prepare s) as H1. unfold wpc, wp in H1.
  unfold wp at 1. destruct (prepare handler s) as [[r|r|] s1]; simpl in *; [|by eapply preceded_none..].
  destruct r as [[[cur notif] mc] annotations]. apply wp_bind.
  pose proof (no_deploys_of_quiet _ _ (initial_init_update_upgrade handler annotations cur
    (TransportURL.SecretName <$> notif)) s1) as Hf2.
  pose proof (wpc_init_update_upgrade annotations cur (TransportURL.SecretName <$> notif) s1) as H2.
  unfold wpc, wp in H2. unfold wp at 1.
  destruct (init_update_upgrade _ _ _ _ s1) as [[r|r|] s2]; simpl in *;
    pose proof (frame_trans _ _ _ _ _ _ Hf1 Hf2) as Hf02; [|by eapply preceded_none..].
  destruct (frame_inst _ _ _ _ _ Hf1) as [st1 Hi1]. rewrite Hi1 in H2.
  eapply preceded_after; [apply may_deploy_grows|exact Hf02| |].
  - split; [|exact H2]. eapply protected_grows; [exact (frame_trace _ _ _ _ _ Hf2)|exact H1].
  - apply (grows_rollout handler).
Qed.

Lemma no_deploys_delete : no_deploys (delete_references handler).
Proof.
  unfold delete_references, release_database, release_keystone, release_topology, release_transport,
    prune_all, remove_consumer_finalizers, fail_unless_not_found, fail_on. frames.
  unfold live_transport_secrets, fail_unless_not_found. frames.
Qed.

Lemma body_deploys isNew s :
  wp (reconcile_body handler isNew)
    (λ _ s', preceded deploys (may_deploy (St.inst s)) (St.trace s) s') s.
Proof.
  unfold reconcile_body. apply wp_bind, wp_update_inst, wp_bind, wp_update_inst.
  apply wp_bind, wp_instance, wp_bind.
  cbn [St.set_inst St.inst NeutronAPI.set_Status set_conds NeutronAPI.DeletionTimestamp].
  assert (∀ s1, St.trace s1 = St.trace s →
    preceded deploys (may_deploy (St.inst s)) (St.trace s) s1) as Hsame.
  { intros s1 <-. apply (preceded_none false (λ _, false)), frame_refl. }
  destruct (bool_decide (is_Some (NeutronAPI.DeletionTimestamp (St.inst s)))).
  - apply wp_ret, wp_bind, wp_when; intros _; [by apply wp_return, Hsame|].
    apply wp_bind, wp_update_status, wp_bind, wp_update_status, wp_call_fn.
    unfold reconcileDelete. apply wp_bind. unfold wp at 1.
    match goal with |- context [delete_references handler ?s1] =>
      pose proof (no_deploys_delete s1) as Hf; destruct (delete_references handler s1) as [[u|r|] s2];
      simpl in *; exact (preceded_none _ _ _ _ _ _ Hf) end.
  - destruct (AddFinalizer _ _) as [fs added].
    apply wp_bind, wp_update_inst, wp_ret, wp_bind, wp_when; intros _; [by apply wp_return, Hsame|].
    apply wp_bind, wp_update_status, wp_bind, wp_update_status, wp_call_fn.
    match goal with |- wp _ _ ?s1 => eapply (wp_mono _ _ _ s1); [apply (normal_deploys s1)|] end.
    intros [r|r|] s' H; exact H.
Qed.

Lemma no_deploys_patch saved r :
  frames true (λ _, false) (λ ev, negb (deploys ev)) (patch_status handler saved r).
Proof.
  unfold patch_status. apply frames_bind; [intros s; by apply frame_conds|]. intros _.
  frames. by apply frames_set_cond.
Qed.

(** The body with its deferred patch. *)
Lemma deferred_deploys isNew saved s :
  wp (deferred (reconcile_body handler isNew) (patch_status handler saved))
    (λ _ s', St.trace s `suffix_of` St.trace s' ∧
             preceded deploys (may_deploy (St.inst s)) (St.trace s) s') s.
Proof.
  apply wp_deferred. pose proof (grows_body handler isNew s) as Hg.
  pose proof (body_deploys isNew s) as Hb. unfold wp at 1. unfold wp in Hb.
  assert (∀ r s1, St.trace s `suffix_of` St.trace s1 →
    preceded deploys (may_deploy (St.inst s)) (St.trace s) s1 →
    wp (patch_status handler saved r) (λ _ s', St.trace s `suffix_of` St.trace s' ∧
      preceded deploys (may_deploy (St.inst s)) (St.trace s) s') s1) as Hp.
  { intros r s1 H1 H2. split.
    - etrans; [exact H1|]. eapply grows_frames, no_deploys_patch.
    - eapply preceded_frame; [exact H1|exact H2|apply no_deploys_patch]. }
  destruct (reconcile_body handler isNew s) as [[r|r|] s1]; simpl in *; [by apply Hp..|done].
Qed.

(** From a state whose trace may hold earlier calls. *)
Lemma deploys_after_init nn s :
  preceded deploys (λ tr, ∃ i, Ev (GetNeutronAPI nn) (inr i) ∈ tr ∧ may_deploy i tr) (St.trace s)
    (Reconcile handler nn s).2.
Proof.
  set (E := λ tr, ∃ i, Ev (GetNeutronAPI nn) (inr i) ∈ tr ∧ may_deploy i tr).
  change (wp (Reconcile handler nn) (λ _ s', preceded deploys E (St.trace s) s') s).
  unfold Reconcile. apply wp_bind, wp_call. intros answer w _. apply wp_bind.
  destruct answer as [e|i].
  { destruct (IsNotFound e); apply wp_return; eapply (preceded_none false (λ _, false)), frame_call; done. }
  apply wp_ret, wp_bind, wp_update_inst, wp_bind, wp_call. intros err w' _. apply wp_bind.
  assert (∀ s1 : St.t W, St.trace s1 = [Ev (NewHelper (NeutronAPI.Name i)) err; Ev (GetNeutronAPI nn) (inr i)] ++ St.trace s →
    ∀ s' : St.t W, St.trace s1 `suffix_of` St.trace s' →
      preceded deploys (may_deploy i) (St.trace s1) s' → preceded deploys E (St.trace s) s') as Hlift.
  { intros s1 Hs1 s' [evs Hevs] H l1 ev l2 Htr Hsuf Hsel.
    assert (St.trace s1 `suffix_of` l2) as Hs2.
    { rewrite Hevs in Htr. symmetry in Htr.
      eapply (preceded_split deploys (λ l, St.trace s1 `suffix_of` l) evs (St.trace s));
        [exact Htr|rewrite Hs1; by eexists|done|done|done|].
      intros l Hl. exfalso. rewrite Hs1 in Hl. pose proof (new_event_elem _ _ _ _ _ Hl Hsuf) as Hin.
      rewrite !elem_of_cons, elem_of_nil in Hin. by destruct Hin as [->|[->|[]]]. }
    exists i. split; [|by eapply H]. destruct Hs2 as [k ->]. rewrite Hs1. set_solver. }
  destruct err as [e|].
  { apply wp_return. eapply (Hlift (St.mk i (St.vars s) w' _)); [done|done|].
    apply (preceded_none false (λ _, false) _ _ (St.mk i (St.vars s) w' _)), frame_refl. }
  apply wp_ret, wp_bind, wp_when; intros _; [apply wp_update_inst|];
    apply wp_bind, wp_instance; (eapply wp_mono; [apply deferred_deploys|]);
    intros o s' [H1 H2]; refine (Hlift _ _ s' H1 H2); reflexivity.
Qed.

(** C7: nothing is deployed on unprotected or uninitialised ground.  Whenever a
    reconcile, however it ends, applies a Deployment, then before that, in the
    same reconcile, the transport Secret in use was given the operator's consumer
    finalizer, and either the db-sync Job of the current spec had finished, or
    one of the TLS Secrets the spec names was missing. *)
Theorem Reconcile_deploys_after_init nn i0 vars w :
  preceded deploys (λ tr, ∃ i, Ev (GetNeutronAPI nn) (inr i) ∈ tr ∧ may_deploy i tr) []
    (Reconcile handler nn (St.mk i0 vars w [])).2.
Proof. apply (deploys_after_init nn (St.mk i0 vars w [])). Qed.

End order.

(** ** What Reconcile writes back *)

Section patch.
Context `{L : Lib} `{!LibLaws L} {W : Type} (handler : ∀ R, Call R → W → R * W).

(** How a [Reconcile] that returns ends: the NeutronAPI could not be read, the
    helper could not be made, or the instance was patched last. *)
Definition reconcile_ends (nn : NamespacedName.t) (s : St.t W) (r : RetVal) (s' : St.t W) : Prop :=
  (∃ e, St.trace s' = Ev (GetNeutronAPI nn) (inl e) :: St.trace s ∧
        r = (Result0, if IsNotFound e then None else Some e)) ∨
  (∃ i e, St.trace s' = Ev (NewHelper (NeutronAPI.Name i)) (Some e) ::
                        Ev (GetNeutronAPI nn) (inr i) :: St.trace s ∧
          r = (Result0, Some e)) ∨
  (∃ perr tr r0, St.trace s' = Ev (PatchInstance (St.inst s')) perr :: tr ∧
     r = (r0.1, match perr with Some e => Some e | None => r0.2 end)).

Lemma patch_last saved (r0 : RetVal) (Q : RetVal → St.t W → Prop) s :
  (∀ perr s' tr, St.trace s' = Ev (PatchInstance (St.inst s')) perr :: tr →
     tr = St.trace s →
     NeutronAPI.Finalizers (St.inst s') = NeutronAPI.Finalizers (St.inst s) →
     Q (r0.1, match perr with Some e => Some e | None => r0.2 end) s') →
  fn_spec (patch_status handler saved r0) Q s.
Proof.
  intros HQ. unfold fn_spec, patch_status. apply wp_bind, wp_update_inst, wp_bind, wp_instance.
  apply wp_bind. set (s1 := St.set_inst _ s).
  assert (∀ s2, St.trace s2 = St.trace s →
    NeutronAPI.Finalizers (St.inst s2) = NeutronAPI.Finalizers (St.inst s) →
    wp (i ← instance; err ← call handler (PatchInstance i);
        match err with Some err => mret (r0.1, Some err) | None => mret r0 end) (post Q) s2) as Hend.
  { intros s2 Ht Hf. apply wp_bind, wp_instance, wp_bind, wp_call. intros perr w _.
    specialize (HQ perr (St.mk (St.inst s2) (St.vars s2) w
      (Ev (PatchInstance (St.inst s2)) perr :: St.trace s2)) (St.trace s2) eq_refl Ht Hf).
    destruct perr; apply wp_ret; [exact HQ|]. by destruct r0. }
  apply wp_when; intros _; [|by apply Hend]. destruct (Mirror _ _); [apply wp_update_inst|apply wp_ret];
    by apply Hend.
Qed.

(** C10: [Reconcile] persists what it did.  A reconcile that returns either could
    not read the NeutronAPI (a missing one is not an error) or make its helper,
    and then did nothing else; or its last call patches the instance exactly as
    the reconcile left it, on every path, with an error of the patch replacing
    the result's. *)
Theorem Reconcile_patches nn s r s' :
  returns (Reconcile handler nn) s = Some (r, s') → reconcile_ends nn s r s'.
Proof.
  intros H.
  assert (wp (Reconcile handler nn) (λ o s', match o with
    | Cont r => reconcile_ends nn s r s' | Ret r => reconcile_ends nn s r s' | Panic => True end) s) as Hw.
  { unfold Reconcile. apply wp_bind, wp_call. intros answer w _. apply wp_bind. destruct answer as [e|i].
    { destruct (IsNotFound e) eqn:He; apply wp_return; left; exists e; by rewrite He. }
    apply wp_ret, wp_bind, wp_update_inst, wp_bind, wp_call. intros err w' _. apply wp_bind.
    destruct err as [e|]; [apply wp_return; right; left; by exists i, e|].
    assert (∀ isNew saved s1, wp (deferred (reconcile_body handler isNew) (patch_status handler saved))
      (λ o s', match o with
       | Cont r => reconcile_ends nn s r s' | Ret r => reconcile_ends nn s r s' | Panic => True end) s1) as Hd.
    { intros isNew saved s1. apply wp_deferred. unfold wp at 1.
      destruct (reconcile_body handler isNew s1) as [[r0|r0|] s2]; simpl; [..|done];
        (eapply wp_mono; [apply (patch_last saved r0 (reconcile_ends nn s))|]);
        [intros perr s3 tr Ht _ _; right; right; by exists perr, tr, r0|by intros [?|?|]
        |intros perr s3 tr Ht _ _; right; right; by exists perr, tr, r0|by intros [?|?|]]. }
    apply wp_ret, wp_bind, wp_when; intros _; [apply wp_update_inst|];
      apply wp_bind, wp_instance; apply Hd. }
  unfold returns, wp in *.
  destruct (Reconcile handler nn s) as [[r'|r'|] s'']; simpl in *; [injection H as <- <-; exact Hw..|done].
Qed.

Lemma body_first isNew s :
  NeutronAPI.DeletionTimestamp (St.inst s) = None →
  isNew = true ∨ GetFinalizer (NeutronAPI.Kind (St.inst s)) ∉ NeutronAPI.Finalizers (St.inst s) →
  wp (reconcile_body handler isNew) (λ o s', o = Ret (Result0, None) ∧ St.trace s' = St.trace s ∧
    GetFinalizer (NeutronAPI.Kind (St.inst s)) ∈ NeutronAPI.Finalizers (St.inst s')) s.
Proof.
  intros Hdel Hnew. unfold reconcile_body. apply wp_bind, wp_update_inst, wp_bind, wp_update_inst.
  apply wp_bind, wp_instance, wp_bind.
  cbn [St.set_inst St.inst NeutronAPI.set_Status set_conds NeutronAPI.DeletionTimestamp
       NeutronAPI.Finalizers NeutronAPI.Kind].
  rewrite Hdel, bool_decide_eq_false_2 by (by intros [? ?]).
  pose proof (AddFinalizer_changed (NeutronAPI.Finalizers (St.inst s))
    (GetFinalizer (NeutronAPI.Kind (St.inst s)))) as Hch.
  pose proof (AddFinalizer_elem (NeutronAPI.Finalizers (St.inst s))
    (GetFinalizer (NeutronAPI.Kind (St.inst s))) (GetFinalizer (NeutronAPI.Kind (St.inst s)))) as Hel.
  destruct (AddFinalizer _ _) as [fs added]. simpl in Hch, Hel.
  apply wp_bind, wp_update_inst, wp_ret, wp_bind, wp_when; intros Hadd.
  - apply wp_return. split_and!; [done|done|]. apply Hel. by right.
  - exfalso. apply orb_false_iff in Hadd as [-> ->]. destruct Hnew as [?|Hnew]; [done|].
    symmetry in Hch. by apply bool_decide_eq_false_1 in Hch.
Qed.

(** C11: the finalizer is persisted before anything is created.  A reconcile of a
    NeutronAPI that is new (no conditions yet) or that lacks the operator's
    finalizer, and is not being deleted, makes exactly three calls: it reads the
    NeutronAPI, makes its helper and patches the instance, which then carries the
    finalizer; it returns without a requeue. *)
Theorem Reconcile_finalizer_first nn s i w :
  handler _ (GetNeutronAPI nn) (St.world s) = (inr i, w) →
  (handler _ (NewHelper (NeutronAPI.Name i)) w).1 = None →
  NeutronAPI.DeletionTimestamp i = None →
  Status.Conditions (NeutronAPI.Status i) = None ∨
  GetFinalizer (NeutronAPI.Kind i) ∉ NeutronAPI.Finalizers i →
  ∃ perr s', returns (Reconcile handler nn) s = Some ((Result0, perr), s') ∧
    St.trace s' = [Ev (PatchInstance (St.inst s')) perr; Ev (NewHelper (NeutronAPI.Name i)) None;
                   Ev (GetNeutronAPI nn) (inr i)] ++ St.trace s ∧
    GetFinalizer (NeutronAPI.Kind i) ∈ NeutronAPI.Finalizers (St.inst s').
Proof.
  intros Hget Hhelp Hdel Hnew.
  assert (fn_spec (Reconcile handler nn) (λ r s', ∃ perr, r = (Result0, perr) ∧
    St.trace s' = [Ev (PatchInstance (St.inst s')) perr; Ev (NewHelper (NeutronAPI.Name i)) None;
                   Ev (GetNeutronAPI nn) (inr i)] ++ St.trace s ∧
    GetFinalizer (NeutronAPI.Kind i) ∈ NeutronAPI.Finalizers (St.inst s')) s) as H.
  2:{ apply fn_spec_returns in H as (r & s' & Hret & perr & -> & Ht & Hf). by exists perr, s'. }
  unfold fn_spec, Reconcile. apply wp_bind, wp_call. rewrite Hget. intros ? ? [= <- <-].
  apply wp_bind, wp_ret, wp_bind, wp_update_inst, wp_bind, wp_call. cbn [St.world St.set_inst].
  destruct (handler _ (NewHelper (NeutronAPI.Name i)) w) as [err w'] eqn:Hh. simpl in Hhelp. subst err.
  intros ? ? [= <- <-]. apply wp_bind, wp_ret.
  assert (∀ isNew saved s1,
    St.trace s1 = [Ev (NewHelper (NeutronAPI.Name i)) None; Ev (GetNeutronAPI nn) (inr i)] ++ St.trace s →
    NeutronAPI.Kind (St.inst s1) = NeutronAPI.Kind i →
    NeutronAPI.DeletionTimestamp (St.inst s1) = None →
    isNew = true ∨ GetFinalizer (NeutronAPI.Kind (St.inst s1)) ∉ NeutronAPI.Finalizers (St.inst s1) →
    fn_spec (deferred (reconcile_body handler isNew) (patch_status handler saved)) (λ r s', ∃ perr,
      r = (Result0, perr) ∧
      St.trace s' = [Ev (PatchInstance (St.inst s')) perr; Ev (NewHelper (NeutronAPI.Name i)) None;
                     Ev (GetNeutronAPI nn) (inr i)] ++ St.trace s ∧
      GetFinalizer (NeutronAPI.Kind i) ∈ NeutronAPI.Finalizers (St.inst s')) s1) as Hd.
  { intros isNew saved s1 Ht Hk Hd1 Hn1. apply wp_deferred.
    eapply wp_mono; [by apply body_first|]. intros o s2 (-> & Ht2 & Hf2). apply patch_last.
    intros perr s3 tr Ht3 -> Hf3. exists perr. split_and!; [by destruct perr| |].
    - by rewrite Ht3, Ht2, Ht.
    - rewrite Hf3. by rewrite <-Hk. }
  apply wp_bind, wp_when; intros Hcond; [apply wp_update_inst|]; apply wp_bind, wp_instance, Hd;
    try done.
  - left. exact Hcond.
  - right. apply bool_decide_eq_false_1 in Hcond. by destruct Hnew.
Qed.

End patch.

(** ** A missing TLS Secret *)

(** A run of the db-sync Job. *)
Definition syncs (ev : event) : bool :=
  match ev with Ev c _ => match c with DoJob _ t _ _ _ => String.eqb t DbSyncHash | _ => false end end.

(** A TLS Secret that is not there. *)
Definition tls_absent (ev : event) : bool :=
  match ev with
  | Ev c a =>
      match c in Call R return R → bool with
      | ValidateCACertSecret _ | ValidateCertSecrets _ _ | ValidateCertSecret _ _ =>
          λ a, match a with inl e => IsNotFound e | inr _ => false end
      | _ => λ _, false
      end a
  end.

(** The calls of [reconcileInit] that follow the TLS validation. *)
Definition completes_init (ev : event) : bool :=
  match ev with
  | Ev c _ =>
      match c with
      | DoJob _ t _ _ _ => String.eqb t DbSyncHash
      | ManageSecretConsumerFinalizer _ _ _ | Service_CreateOrPatch _
      | KeystoneService_CreateOrPatch _ _ _ _ | KeystoneEndpoint_CreateOrPatch _ _ _ _ _ => true
      | _ => false
      end
  end.

Definition init_condition (t : CondType) : bool :=
  match t with
  | ServiceConfigReadyCondition | DBSyncReadyCondition | CreateServiceReadyCondition
  | KeystoneServiceReadyCondition | KeystoneEndpointReadyCondition => true
  | _ => false
  end.

Section missing_tls.
Context `{L : Lib} `{!LibLaws L} {W : Type} (handler : ∀ R, Call R → W → R * W).

(** Up to the missing Secret: hashes and later conditions as they were, none of
    the later calls. *)
Abbreviation untouched := (frame true init_condition (λ ev, negb (completes_init ev))).
Abbreviation all_found := (frame false (λ _, false) (λ ev, negb (tls_absent ev))).
Abbreviation all_founds := (frames false (λ _, false) (λ ev, negb (tls_absent ev))).

Definition tls_false (s : St.t W) : Prop :=
  cond_of s TLSInputReadyCondition = Some ConditionFalse.

(** Some Secret was not there, and [o] is how the initialisation ended. *)
Definition cut_short {A} (o : outcome RetVal A) (s s' : St.t W) : Prop :=
  o = Ret (Result0, None) ∧ untouched s s' ∧ tls_false s'.

(** Inside the TLS validation. *)
Definition tls_run {A} (m : M (St.t W) RetVal A) (s : St.t W) : Prop :=
  wp m (λ o s', untouched s s' ∧ (all_found s s' ∨ cut_short o s s')) s.

Lemma tls_run_bind {A B} (m : M (St.t W) RetVal A) (k : A → M (St.t W) RetVal B) s :
  tls_run m s → (∀ a s', tls_run (k a) s') → tls_run (m ≫= k) s.
Proof.
  unfold tls_run. intros Hm Hk. apply wp_bind. eapply wp_mono; [exact Hm|].
  intros [a|r|] s1 (Hu & Hc); [|split; [done|];
    destruct Hc as [?|(Ho & Hc)]; [by left|by right; split; [by injection Ho as ->|]]..|].
  2: { split; [done|]. destruct Hc as [?|([=] & _)]. by left. }
  destruct Hc as [Hc|([=] & _)]. eapply wp_mono; [apply (Hk a s1)|].
  intros o s2 (Hu2 & Hc2). pose proof (frame_trans _ _ _ _ _ _ Hu Hu2).
  split; [done|]. destruct Hc2 as [Hc2|(-> & _ & Ht)]; [left; by eapply frame_trans|by right].
Qed.

Lemma tls_run_frames {A} (m : M (St.t W) RetVal A) s :
  frames true init_condition (λ ev, negb (completes_init ev)) m → all_founds m → tls_run m s.
Proof. intros H1 H2. split; [apply H1|left; apply H2]. Qed.

(** One validation: a missing Secret ends the initialisation. *)
Lemma tls_run_input (c : Call (error + string)) (missing : error → M (St.t W) RetVal unit)
    (k : string → M (St.t W) RetVal unit) s :
  (∀ a, completes_init (Ev c a) = false) →
  (∀ a, tls_absent (Ev c a) = match a with inl e => IsNotFound e | inr _ => false end) →
  (∀ e s, wp (missing e) (λ o s', o = Cont () ∧
            frame true init_condition (λ _, false) s s' ∧ tls_false s') s) →
  (∀ hash s', tls_run (k hash) s') →
  tls_run (answer ← call handler c; hash ← tls_input answer missing; k hash) s.
Proof.
  intros Hc Ha Hm Hk. apply wp_bind, wp_call. intros a w _.
  assert (untouched s (St.mk (St.inst s) (St.vars s) w (Ev c a :: St.trace s))) as Hu.
  { apply frame_call. by rewrite Hc. }
  destruct a as [e|hash].
  - unfold tls_input. apply wp_bind. destruct (IsNotFound e) eqn:He; cbn [when].
    + apply wp_bind, wp_bind. eapply wp_mono; [apply Hm|].
      intros o s1 (-> & Hf & Ht). apply wp_return.
      assert (untouched s s1).
      { eapply frame_trans; [exact Hu|]. eapply frame_weaken; [..|exact Hf]; done. }
      split; [done|]. by right.
    + apply wp_bind, wp_ret. unfold fail_cond. apply wp_bind, wp_update_inst, wp_return.
      split; [|left]; (eapply frame_trans; [apply (frame_call _ _ _ c (inl e) w)|]).
      * by rewrite Hc.
      * by refine (frames_error _ _ _ (R:=RetVal) _ _ _ _ _).
      * rewrite Ha. by apply negb_true_iff.
      * by refine (frames_error _ _ _ (R:=RetVal) _ _ _ _ _).
  - apply wp_bind, wp_ret. eapply wp_mono; [apply Hk|]. intros o s1 (Hu1 & Hc1).
    pose proof (frame_trans _ _ _ _ _ _ Hu Hu1). split; [done|].
    destruct Hc1 as [Hc1|(-> & _ & Ht)]; [left|by right].
    eapply frame_trans; [|exact Hc1]. apply (frame_call _ _ _ c (inr hash)). by rewrite Ha.
Qed.

Lemma missing_false {X} (t : X → M (St.t W) RetVal unit) e s r sv m a :
  t e = set_cond (FalseCondition TLSInputReadyCondition r sv m a) →
  wp (t e) (λ o s', o = Cont () ∧ frame true init_condition (λ _, false) s s' ∧ tls_false s') s.
Proof.
  intros ->. split; [done|]. split; [by refine (frames_false _ _ _ (R:=RetVal) _ _ _ _ _ _ _)|].
  unfold tls_false, cond_of, set_cond, update_inst, modify. cbn. unfold conds. cbn. by rewrite status_Set, FalseCondition_type, decide_True, FalseCondition_status.
Qed.

Lemma tls_run_validate s : tls_run (validate_tls handler) s.
Proof.
  assert (∀ key hash s, tls_run (put_hash (W:=W) key hash) s) as Hput.
  { intros. apply tls_run_frames; unfold put_hash; frames. }
  unfold validate_tls. apply tls_run_bind; [apply tls_run_frames; frames|]. intros i s0. cbv zeta.
  apply tls_run_bind.
  { unfold when. case_match; [|apply tls_run_frames; frames].
    apply tls_run_input; [done|done|intros; by eapply missing_false|auto]. }
  intros _ s1. apply tls_run_input; [done|done|intros; by eapply missing_false|].
  intros hash s2. apply tls_run_bind; [apply Hput|]. intros _ s3. apply tls_run_bind.
  { unfold when. case_match; [|apply tls_run_frames; frames].
    apply tls_run_input; [done|done|intros; by eapply missing_false|auto]. }
  intros _ s4. apply tls_run_frames; frames.
Qed.

(** Around the validation: if a Secret was not there, the initialisation was cut
    short. *)
Definition init_run {A} (m : M (St.t W) RetVal A) (s : St.t W) : Prop :=
  wp m (λ o s', all_found s s' ∨ cut_short o s s') s.

Lemma init_run_before {A B} (m : M (St.t W) RetVal A) (k : A → M (St.t W) RetVal B) s :
  frames true init_condition (λ ev, negb (completes_init ev)) m → all_founds m →
  (∀ a s', init_run (k a) s') → init_run (m ≫= k) s.
Proof.
  intros H1 H2 Hk. apply wp_bind. specialize (H1 s). specialize (H2 s). unfold wp.
  destruct (m s) as [[a|r|] s1]; simpl in *; [|by left..].
  eapply wp_mono; [apply (Hk a s1)|]. intros o s2 [Hc|(-> & Hu & Ht)];
    [left; by eapply frame_trans|right]. split; [done|]. split; [by eapply frame_trans|done].
Qed.

Lemma init_run_after {B} (m : M (St.t W) RetVal unit) (k : M (St.t W) RetVal B) s :
  tls_run m s → all_founds k → init_run (m;; k) s.
Proof.
  unfold tls_run. intros Hm Hk. apply wp_bind. eapply wp_mono; [exact Hm|].
  intros [a|r|] s1 [Hu [Hc|(Ho & Hc)]]; try discriminate Ho; [|by left| |by left].
  - left. eapply frame_trans; [exact Hc|apply Hk].
  - right. split; [by injection Ho as ->|exact Hc].
Qed.

Lemma all_found_keystone labels eps : all_founds (register_keystone handler labels eps).
Proof.
  unfold register_keystone, mirror_keystone. frames.
  all: by eapply frames_mirror.
Qed.

Lemma all_found_endpoints labels types eps : all_founds (expose_endpoints handler labels types eps).
Proof.
  revert eps. induction types as [|t types IH]; intros eps; simpl; [apply frames_ret|].
  unfold expose_endpoint, service_error, fail_cond, wait_cond. frames. apply IH.
Qed.

Lemma init_run_reconcileInit labels annotations tn nn s :
  init_run (reconcileInit handler labels annotations tn nn) s.
Proof.
  unfold reconcileInit.
  apply init_run_before; [unfold init_database, ensureDB; frames..|]. intros db s1.
  apply init_run_before.
  1,2: unfold generateServiceSecrets, template_parameters, service_inputs, notifications_parameter,
    application_credential, ovn_parameters, getTransportURL, IsWSGIEffective, try_; frames.
  intros err s2. destruct err as [e|].
  { apply wp_bind. unfold config_error, fail_cond. apply wp_bind, wp_update_inst, wp_return. left.
    by refine (frames_error _ _ _ (R:=RetVal) _ _ _ _ _). }
  apply init_run_before; [frames..|]. intros _ s3. apply init_run_after; [apply tls_run_validate|].
  unfold hash_and_consume, createHashOfInputHashes, run_db_sync, config_error, fail_cond, wait_cond.
  frames; first [apply all_found_endpoints|apply all_found_keystone].
Qed.

(** [init_update_upgrade] takes the early return for an initialisation that is
    done. *)
Lemma init_run_upgrade annotations cur n s :
  wp (init_update_upgrade handler annotations cur n)
    (λ o s', all_found s s' ∨ o = Cont Result0 ∧ untouched s s' ∧ tls_false s') s.
Proof.
  pose proof (init_run_reconcileInit serviceLabels annotations cur n s) as H.
  unfold init_update_upgrade. apply wp_bind. unfold init_run, wp, call_fn in *.
  assert (∀ r, all_founds (return_unless_done (W:=W) r;; r ← call_fn reconcileUpdate;
    return_unless_done r;; r ← call_fn reconcileUpgrade; return_unless_done r;; mret r.1)) as Hrest.
  { intros r. unfold return_unless_done, reconcileUpdate, reconcileUpgrade. frames. }
  destruct (reconcileInit handler serviceLabels annotations cur n s) as [[r|r|] s1]; simpl in *;
    destruct H as [H|(Ho & Hu & Ht)]; try discriminate Ho; [..|by left].
  - left. eapply frame_trans; [exact H|apply Hrest].
  - left. eapply frame_trans; [exact H|apply Hrest].
  - injection Ho as ->. by right.
Qed.

(** C39: a missing TLS Secret does not stop a reconcile.  Whatever the cluster
    answers, if a validation of a TLS Secret in the initialisation was answered
    "not found", then none of the later calls of [reconcileInit] was made (no
    db-sync Job, no consumer finalizer, no Service, no Keystone registration),
    the hashes of the status and the conditions those steps report are as they
    were and TLSInputReady is false; and yet the initialisation reports that it
    is done: [reconcileNormal] goes on, with the input hash that an earlier
    reconcile left in the status, and fails only if there is none. *)
Theorem missing_tls_ends_init (annotations : gmap string string) cur n (s : St.t W) :
  let '(o, s') := init_update_upgrade handler annotations cur n s in
  ∃ evs, St.trace s' = evs ++ St.trace s ∧
    (existsb tls_absent evs = true →
     o = Cont Result0 ∧
     forallb (λ ev, negb (completes_init ev)) evs = true ∧
     hashes s' = hashes s ∧
     (∀ t, init_condition t = true → cond_of s' t = cond_of s t) ∧
     cond_of s' TLSInputReadyCondition = Some ConditionFalse ∧
     (init_update_upgrade handler annotations cur n ≫= input_hash) s =
       (match map_read (hashes s) InputHashName with
        | Some hash => Cont hash
        | None => Ret (Result0, Some (Errorf "" ErrInvalidStatus " input hash for Neutron deployment"))
        end, s')).
Proof.
  destruct (init_update_upgrade handler annotations cur n s) as [o s'] eqn:Ei.
  assert (all_found s s' ∨ o = Cont Result0 ∧ untouched s s' ∧ tls_false s') as H.
  { pose proof (init_run_upgrade annotations cur n s) as H. unfold wp in H. by rewrite Ei in H. }
  destruct H as [(_ & _ & _ & evs & Htr & Hf)|(-> & (_ & Hh & Hc & evs & Htr & Hq) & Ht)];
    exists evs; (split; [exact Htr|]); intros Hex.
  - apply existsb_exists in Hex as (ev & Hev & Habs).
    rewrite forallb_forall in Hf. specialize (Hf ev Hev). by rewrite Habs in Hf.
  - split_and!; try done; [by apply Hh|]. unfold mbind, M_bind. rewrite Ei.
    unfold input_hash, mbind, M_bind, instance. cbn [fst snd]. fold (hashes s').
    rewrite (Hh eq_refl). by destruct (map_read _ _).
Qed.

End missing_tls.

(** The sample with a CA bundle that was there for two reconciles and is gone. *)
Definition ca_gone : Demo.World.t :=
  let w := Demo.run_n 2 (Demo.world (Demo.sample Demo.debug_config "ca-bundle") true) in
  Demo.World.mk (Demo.World.stored w) (Demo.World.probe w) true true "rabbit-secret".

(** On the sample cluster, once the CA bundle Secret is gone: no db-sync Job, the
    API Deployment is applied again and the reconcile returns no error; the
    TLSInputReady and DBSyncReady conditions keep Ready from being true. *)
Example missing_ca_still_deploys :
  let s := Demo.run ca_gone in
  fst <$> returns (Reconcile Demo.answer Demo.nn) (Demo.start ca_gone) = Some (Result0, None) ∧
  existsb deploys (St.trace s) = true ∧ existsb syncs (St.trace s) = false ∧
  cond_of s TLSInputReadyCondition = Some ConditionFalse ∧
  cond_of s DBSyncReadyCondition = Some ConditionUnknown ∧
  cond_of s DeploymentReadyCondition = Some ConditionTrue ∧
  IsReady (St.inst s) = false.
Proof. vm_compute. split_and!; reflexivity. Qed.
