(* ===== verification/Protocol.v ===== *)
(** * The protocol of a reconcile

    An abstract specification of the calls that a reconcile makes: in which
    stages it proceeds, which calls each stage may make, and at least and at most
    how many of them.  [Emits] shows that the blocks of the controller keep to
    their stages, [Refinement] that [Reconcile] implements the protocol. *)

From S2P Require Import Prelude K8s Conditions Lib Api GoMonad Pods External Delete Inputs.

(** ** What a call may touch *)

(** The call is on an object of the namespace [ns].  Objects that the API server
    returned itself, and a topology reference, carry their own namespace. *)
Definition confined (ns : string) (ev : event) : bool :=
  match ev with
  | Ev c _ =>
      match c with
      | DeleteObject _ nn | VerifySecretFields nn _ _ | CreateOrUpdateTransportURL nn _ _
      | GetTransportURLObject nn | ValidateCACertSecret nn | GetJob nn =>
          bool_decide (NamespacedName.Namespace nn = ns)
      | GetSecret _ ns' | ReconcileRbac _ ns' _ | ManageSecretConsumerFinalizer ns' _ _
      | RemoveSecretConsumerFinalizer ns' _ _ | PruneSecretConsumerFinalizers ns' _ _
      | FinalizeSecretRotation ns' _ _ _ _ | GetMemcachedByName _ ns' | GetKeystoneAPI ns'
      | GetDBClusterByType ns' _ | KeystoneService_CreateOrPatch _ ns' _ _
      | KeystoneEndpoint_CreateOrPatch _ ns' _ _ _ | GetKeystoneEndpointWithName _ ns'
      | GetKeystoneServiceWithName _ ns' | GetNADWithName _ ns' | ValidateCertSecrets _ ns'
      | ValidateCertSecret _ ns' | GetDatabaseByNameAndAccount _ _ ns'
      | EnsureMariaDBAccount _ ns' _ _ | DeleteUnusedMariaDBAccountFinalizers _ _ ns' =>
          bool_decide (ns' = ns)
      | EnsureSecrets ts _ => forallb (λ t, bool_decide (Template.Namespace t = ns)) ts
      | Database_CreateOrPatchAll db => bool_decide (Database.Namespace db = ns)
      | DoJob job _ _ _ _ => bool_decide (Job.Namespace job = ns)
      | Service_CreateOrPatch svc =>
          bool_decide (GenericServiceDetails.Namespace (KService.Details svc) = ns)
      | Deployment_CreateOrPatch d _ => bool_decide (Deployment.Namespace d = ns)
      | PatchInstance i => bool_decide (NeutronAPI.Namespace i = ns)
      | _ => true
      end
  end.

(** The labels of the pods of a Deployment or Service of that name. *)
Definition selected_by `{L : Lib} (name : string) : gmap string string := {[ AppSelector := name ]}.

(** A Deployment selects its own pods by its name, a Service the pods of the API
    Deployment, and the pods of a Job have no labels. *)
Definition selects `{L : Lib} (ev : event) : bool :=
  match ev with
  | Ev c _ =>
      match c with
      | Deployment_CreateOrPatch d _ =>
          bool_decide (Deployment.MatchLabels d = Some (selected_by (Deployment.Name d))) &&
          bool_decide (PodTemplateSpec.Labels (Deployment.Template d) = Deployment.MatchLabels d) &&
          bool_decide (Deployment.Name d ∈ [ServiceName; rpc_name; worker_name])
      | Service_CreateOrPatch svc =>
          bool_decide (GenericServiceDetails.Selector (KService.Details svc) = selected_by ServiceName)
      | DoJob job _ _ _ _ => bool_decide (PodTemplateSpec.Labels (Job.Template job) = None)
      | _ => true
      end
  end.

(** ** Stages *)

Inductive Stage :=
| Accounts | Messaging | Notifications | Inputs | Caching | Agents | Networks
| Databasing | Configuring | Certifying | Consuming | Syncing | Exposing | Registering
| Placing | Deciding | DeployingAPI | DeployingWorkers | ReleasingAccounts | Rotating | Pruning
| LeavingDatabase | LeavingEndpoint | LeavingService | LeavingTopology | LeavingMessaging
| LeavingPrune | LeavingCredentials.

(** The calls of a stage for the instance [i]. *)
Definition of_stage `{L : Lib} (i : NeutronAPI.t) (st : Stage) {R} (c : Call R) : bool :=
  match st, c with
  | Accounts, ReconcileRbac name _ _ => bool_decide (name = RbacResourceName i)
  | Messaging, CreateOrUpdateTransportURL nn _ _ =>
      bool_decide (NamespacedName.Name nn = transport_name i)
  | Messaging, ManageSecretConsumerFinalizer _ _ f => bool_decide (f = TransportConsumerFinalizer)
  | Notifications, CreateOrUpdateTransportURL nn _ _ =>
      bool_decide (NamespacedName.Name nn = notifications_transport_name)
  | Notifications, VerifySecretFields _ _ _ => true
  | Notifications, ManageSecretConsumerFinalizer _ _ f => bool_decide (f = TransportConsumerFinalizer)
  | Inputs, VerifySecretFields _ _ _ => true
  | Caching, GetMemcachedByName _ _ => true
  | Agents, (GetSecret _ _ | GetDBClusterByType _ _ | EnsureSecrets _ _ | DeleteObject KindSecret _) => true
  | Networks, GetNADWithName _ _ => true
  | Databasing, (EnsureMariaDBAccount _ _ _ _ | Database_CreateOrPatchAll _
                 | WaitForDBCreatedWithTimeout _ _) => true
  | Configuring, (GetKeystoneAPI _ | GetSecret _ _ | GetMemcachedByName _ _ | GetDBClusterByType _ _
                  | GetJob _ | DeleteJob _ _ | DoJob _ _ _ _ _ | EnsureSecrets _ _) => true
  | Certifying, (ValidateCACertSecret _ | ValidateCertSecrets _ _ | ValidateCertSecret _ _) => true
  | Consuming, ManageSecretConsumerFinalizer _ _ f => bool_decide (f = ACConsumerFinalizer)
  | Syncing, DoJob job _ _ _ _ => bool_decide (Job.Name job = NeutronAPI.Name i +:+ "-db-sync")
  | Exposing, Service_CreateOrPatch _ => true
  | Registering, (KeystoneService_CreateOrPatch _ _ _ _ | KeystoneEndpoint_CreateOrPatch _ _ _ _ _) => true
  | Placing, EnsureServiceTopology _ _ _ _ => true
  | Deciding, (GetJob _ | DeleteJob _ _ | DoJob _ _ _ _ _) => true
  | DeployingAPI, Deployment_CreateOrPatch d _ => bool_decide (Deployment.Name d = ServiceName)
  | DeployingAPI, (VerifyNetworkStatusFromAnnotation _ _ _ | IsReadyForInput _ _) => true
  | DeployingWorkers, Deployment_CreateOrPatch d _ =>
      bool_decide (Deployment.Name d ∈ [rpc_name; worker_name])
  | DeployingWorkers, DeleteObject KindDeployment nn =>
      bool_decide (NamespacedName.Name nn ∈ [rpc_name; worker_name])
  | DeployingWorkers, IsReadyForInput _ _ => true
  | ReleasingAccounts, DeleteUnusedMariaDBAccountFinalizers _ _ _ => true
  | Rotating, (FinalizeSecretRotation _ _ _ _ _ | RemoveSecretConsumerFinalizer _ _ _) => true
  | Rotating, DeleteObject KindTransportURL nn =>
      bool_decide (NamespacedName.Name nn = notifications_transport_name)
  | Pruning, PruneSecretConsumerFinalizers _ f _ =>
      bool_decide (f ∈ [TransportConsumerFinalizer; ACConsumerFinalizer])
  | LeavingDatabase, (GetDatabaseByNameAndAccount _ _ _ | Database_DeleteFinalizer _) => true
  | LeavingEndpoint, (GetKeystoneEndpointWithName _ _ | UpdateKeystoneEndpoint _) => true
  | LeavingService, (GetKeystoneServiceWithName _ _ | UpdateKeystoneService _) => true
  | LeavingTopology, EnsureDeletedTopologyRef _ _ => true
  | LeavingMessaging, GetTransportURLObject _ => true
  | LeavingMessaging, RemoveSecretConsumerFinalizer _ _ f => bool_decide (f = TransportConsumerFinalizer)
  | LeavingPrune, PruneSecretConsumerFinalizers _ _ keep => bool_decide (keep = [])
  | LeavingCredentials, RemoveSecretConsumerFinalizer _ _ f => bool_decide (f = ACConsumerFinalizer)
  | _, _ => false
  end.

Definition allows `{L : Lib} (i : NeutronAPI.t) (st : Stage) (ev : event) : bool :=
  match ev with
  | Ev c _ => of_stage i st c && confined (NeutronAPI.Namespace i) ev && selects ev
  end.

(** At least, when the reconcile goes on past the stage, and at most how many
    calls it makes. *)
Definition range (i : NeutronAPI.t) (st : Stage) : nat * nat :=
  match st with
  | Accounts => (1, 1)
  | Messaging => (2, 2)
  | Notifications => (0, 3)
  | Inputs => (1, 1)
  | Caching => (1, 1)
  | Agents => (2, 9)
  | Networks => let n := length (SpecCore.NetworkAttachments (NeutronAPI.core i)) in (n, n)
  | Databasing => (1, 3)
  | Configuring => (1, 11)
  | Certifying => (1, 3)
  | Consuming => (0, 1)
  | Syncing => (1, 1)
  | Exposing => (2, 2)
  | Registering => (2, 2)
  | Placing => (1, 1)
  | Deciding => (0, 2)
  | DeployingAPI => (1, 3)
  | DeployingWorkers => (2, 4)
  | ReleasingAccounts => (0, 1)
  | Rotating => (2, 4)
  | Pruning => (2, 2)
  | LeavingDatabase | LeavingEndpoint | LeavingService => (1, 2)
  | LeavingTopology => (1, 1)
  | LeavingMessaging => (3, 6)
  | LeavingPrune | LeavingCredentials => (2, 2)
  end.

(** ** Protocols *)

(** [Attempt p]: the caller may go on even if [p] stopped. *)
Inductive protocol :=
| Do (st : Stage)
| Then (p q : protocol)
| Attempt (p : protocol).

(** The calls [tr], oldest first, follow the protocol: to its end ([true]) or until
    it stops. *)
Fixpoint conforms `{L : Lib} (i : NeutronAPI.t) (p : protocol) (done : bool) (tr : list event) : Prop :=
  match p with
  | Do st =>
      forallb (allows i st) tr = true ∧ length tr ≤ (range i st).2 ∧
      (done = true → (range i st).1 ≤ length tr)
  | Then p q =>
      (∃ tr1 tr2, tr = tr1 ++ tr2 ∧ conforms i p true tr1 ∧ conforms i q done tr2) ∨
      (done = false ∧ conforms i p false tr)
  | Attempt p => conforms i p false tr
  end.

Fixpoint max_calls (i : NeutronAPI.t) (p : protocol) : nat :=
  match p with
  | Do st => (range i st).2
  | Then p q => max_calls i p + max_calls i q
  | Attempt p => max_calls i p
  end.

Fixpoint in_order (sts : list Stage) (last : protocol) : protocol :=
  match sts with [] => last | st :: sts => Then (Do st) (in_order sts last) end.

(** The initialisation may end early with a missing TLS Secret, and the rollout
    goes on without the rest of it. *)
Definition init_protocol : protocol :=
  in_order [Databasing; Configuring; Certifying; Consuming; Syncing; Exposing] (Do Registering).

Definition rollout_protocol : protocol :=
  in_order [Placing; Deciding; DeployingAPI; DeployingWorkers; ReleasingAccounts; Rotating] (Do Pruning).

Definition normal_protocol : protocol :=
  in_order [Accounts; Messaging; Notifications; Inputs; Inputs; Caching; Agents; Networks]
    (Then (Attempt init_protocol) rollout_protocol).

Definition delete_protocol : protocol :=
  in_order [LeavingDatabase; LeavingEndpoint; LeavingService; LeavingTopology; LeavingMessaging;
            LeavingPrune] (Do LeavingCredentials).

(** The protocol of an instance. *)
Definition protocol_of (i : NeutronAPI.t) : protocol :=
  match NeutronAPI.DeletionTimestamp i with Some _ => delete_protocol | None => normal_protocol end.

(** ** Properties of protocols *)

Section protocols.
Context `{L : Lib} (i : NeutronAPI.t).

Lemma conforms_stopped p b tr : conforms i p b tr → conforms i p false tr.
Proof.
  revert b tr. induction p as [st|p IHp q IHq|p IHp]; intros b tr; simpl; [|..|done].
  - intros (? & ? & _). by split_and!.
  - intros [(tr1 & tr2 & -> & H1 & H2)|[_ H]]; [|by right]. left. exists tr1, tr2. eauto.
Qed.

Lemma conforms_nil p : conforms i p false [].
Proof. induction p as [st|p IHp q IHq|p IHp]; simpl; [|by right|done]. split_and!; [done|simpl; lia|done]. Qed.

Lemma conforms_bound p b tr : conforms i p b tr → length tr ≤ max_calls i p.
Proof.
  revert b tr. induction p as [st|p IHp q IHq|p IHp]; intros b tr; simpl; [tauto|..|apply IHp].
  intros [(tr1 & tr2 & -> & H1%IHp & H2%IHq)|[_ H%IHp]]; rewrite ?length_app; lia.
Qed.

Lemma allows_confined st ev : allows i st ev = true → confined (NeutronAPI.Namespace i) ev = true.
Proof. destruct ev as [R c r]. intros [[_ H]%andb_prop _]%andb_prop. exact H. Qed.

Lemma allows_selects st ev : allows i st ev = true → selects ev = true.
Proof. destruct ev as [R c r]. intros [_ H]%andb_prop. exact H. Qed.

Lemma conforms_all p (q : event → bool) b tr :
  (∀ st ev, allows i st ev = true → q ev = true) → conforms i p b tr → forallb q tr = true.
Proof.
  intros Hq. revert b tr. induction p as [st|p IHp q' IHq|p IHp]; intros b tr; simpl.
  - intros (H & _). rewrite forallb_forall in *. eauto.
  - intros [(tr1 & tr2 & -> & H1%IHp & H2%IHq)|[_ H%IHp]]; [|done]. by rewrite forallb_app, H1, H2.
  - apply IHp.
Qed.

End protocols.
