(* ===== verification/Emits.v ===== *)
(** * What the blocks of a reconcile call

    [emits q r l h m]: [m] leaves the metadata and the spec of the instance alone
    (its finalizers apart), makes only calls that satisfy [q], at most [h] of
    them, at least [l] when it goes on and at least [r] when it returns.  The
    rules follow the program text, [emits] is the symbolic execution they make,
    and the blocks of the controller are shown to keep to the stages of
    [Protocol]. *)

From S2P Require Import Prelude RpcWorkers K8s Conditions Lib Api GoMonad Pods External.
From S2P Require Import ImageProbe ExternalSecrets ServiceConfig Delete Init Inputs Rollout.
From S2P Require Import Reconcile Protocol.

(** [j] is [i] but for its status and its finalizers. *)
Definition like (i j : NeutronAPI.t) : Prop :=
  ∃ st fs, j = NeutronAPI.set_Status st (NeutronAPI.set_Finalizers fs i).

Section emits.
Context `{L : Lib} {W : Type} (handler : ∀ R, Call R → W → R * W).
Context (i : NeutronAPI.t) (q : event → bool).

Definition emits {R A} (r l h : nat) (m : M (St.t W) R A) : Prop :=
  ∀ s, like i (St.inst s) →
    wp m (λ o s', like i (St.inst s') ∧
      ∃ evs, St.trace s' = evs ++ St.trace s ∧ forallb q evs = true ∧ length evs ≤ h ∧
             match o with Cont _ => l ≤ length evs | Ret _ => r ≤ length evs | Panic => True end) s.

(** A piece that makes no call and does not return. *)
Definition silent {R A} (m : M (St.t W) R A) : Prop :=
  ∀ s, like i (St.inst s) →
    wp m (λ o s', like i (St.inst s') ∧ St.trace s' = St.trace s ∧
                  match o with Ret _ => False | _ => True end) s.

(** ** Rules *)

Lemma emits_ret {R A} r h (a : A) : emits (R:=R) r 0 h (mret a).
Proof. intros s Hs. split; [done|]. exists []. split_and!; [done..|simpl; lia|simpl; lia]. Qed.

Lemma emits_return {R A} l h (x : R) : emits (A:=A) 0 l h (return_ x).
Proof. intros s Hs. split; [done|]. exists []. split_and!; [done..|simpl; lia|simpl; lia]. Qed.

Lemma emits_weaken {R A} r l h r' l' h' (m : M (St.t W) R A) :
  emits r l h m → r' ≤ r → l' ≤ l → h ≤ h' → emits r' l' h' m.
Proof.
  intros H Hr Hl Hh s Hs. eapply wp_mono; [exact (H s Hs)|].
  intros o s' (Hi & evs & Ht & Hq & Hn & Ho). split; [done|]. exists evs.
  split_and!; [done..|lia|]. destruct o; [lia|lia|done].
Qed.

Lemma emits_bind {R A B} r1 l1 h1 r2 l2 h2 (m : M (St.t W) R A) (k : A → M (St.t W) R B) :
  emits r1 l1 h1 m → (∀ a, emits r2 l2 h2 (k a)) →
  emits (r1 `min` (l1 + r2)) (l1 + l2) (h1 + h2) (m ≫= k).
Proof.
  intros Hm Hk s Hs. apply wp_bind. eapply wp_mono; [exact (Hm s Hs)|].
  intros [a|r|] s1 (Hi & evs & Ht & Hq & Hn & Ho).
  - eapply wp_mono; [exact (Hk a s1 Hi)|]. intros o s2 (Hi2 & evs2 & Ht2 & Hq2 & Hn2 & Ho2).
    split; [done|]. exists (evs2 ++ evs). rewrite Ht2, Ht, app_assoc, forallb_app, Hq, Hq2, length_app.
    split_and!; [done..|lia|]. destruct o; [lia|lia|done].
  - split; [done|]. exists evs. split_and!; [done..|lia|lia].
  - split; [done|]. exists evs. split_and!; [done..|lia|done].
Qed.

(** With the numbers of the goal as literals. *)
Lemma emits_block {R A B} r1 l1 h1 r l h (m : M (St.t W) R A) (k : A → M (St.t W) R B) :
  emits r1 l1 h1 m → (r <=? r1) = true → (h1 <=? h) = true →
  (∀ a, emits (r - l1) (l - l1) (h - h1) (k a)) → emits r l h (m ≫= k).
Proof.
  intros Hm Hr%Nat.leb_le Hh%Nat.leb_le Hk.
  eapply emits_weaken; [exact (emits_bind _ _ _ _ _ _ _ _ Hm Hk)|lia..].
Qed.

Lemma emits_bind_silent {R A B} r l h (m : M (St.t W) R A) (k : A → M (St.t W) R B) :
  silent m → (∀ a, emits r l h (k a)) → emits r l h (m ≫= k).
Proof.
  intros Hm Hk s Hs. apply wp_bind. eapply wp_mono; [exact (Hm s Hs)|].
  intros [a|x|] s1 (Hi & Ht & Ho); [|done|].
  - eapply wp_mono; [exact (Hk a s1 Hi)|]. intros o s2. by rewrite Ht.
  - split; [done|]. exists []. split_and!; [done..|simpl; lia|done].
Qed.

Lemma emits_silent {R A} r h (m : M (St.t W) R A) : silent m → emits r 0 h m.
Proof.
  intros Hm s Hs. eapply wp_mono; [exact (Hm s Hs)|]. intros o s' (Hi & Ht & Ho).
  split; [done|]. exists []. split_and!; [done..|simpl; lia|]. destruct o; [simpl; lia|done..].
Qed.

Lemma emits_bind_instance {R B} r l h (k : NeutronAPI.t → M (St.t W) R B) :
  (∀ st fs, emits r l h (k (NeutronAPI.set_Status st (NeutronAPI.set_Finalizers fs i)))) →
  emits r l h (instance ≫= k).
Proof. intros Hk s Hs. apply wp_bind, wp_instance. destruct Hs as (st & fs & Hi). rewrite Hi. apply Hk. by exists st, fs. Qed.

Lemma emits_bind_call {R A B} r l h (c : Call A) (k : A → M (St.t W) R B) :
  (∀ a, q (Ev c a) = true) → (∀ a, emits (pred r) (pred l) h (k a)) →
  emits r l (S h) (call handler c ≫= k).
Proof.
  intros Hq Hk s Hs. apply wp_bind, wp_call. intros a w _.
  eapply wp_mono; [exact (Hk a (St.mk (St.inst s) (St.vars s) w (Ev c a :: St.trace s)) Hs)|].
  intros o s' (Hi & evs & Ht & Hqs & Hn & Ho). split; [done|]. exists (evs ++ [Ev c a]).
  rewrite Ht, <-app_assoc, forallb_app, Hqs, length_app. simpl. rewrite Hq.
  split_and!; [done..|lia|]. destruct o; [lia|lia|done].
Qed.

Lemma emits_call {R A} r l h (c : Call A) :
  (∀ a, q (Ev c a) = true) → l ≤ 1 → emits (R:=R) r l (S h) (call handler c).
Proof.
  intros Hq Hl s Hs. apply wp_call. intros a w _. split; [done|]. exists [Ev c a]. simpl. rewrite Hq.
  split_and!; [done..|lia|done].
Qed.

Lemma emits_bind_ret {R A B} r l h (a : A) (k : A → M (St.t W) R B) :
  emits r l h (k a) → emits r l h (mret a ≫= k).
Proof. done. Qed.

Lemma emits_bind_return {R A B} l h (x : R) (k : A → M (St.t W) R B) :
  emits 0 l h (return_ x ≫= k).
Proof. apply (emits_return (A:=B)). Qed.

Lemma emits_bind_force {R A B} r l h (o : option A) (k : A → M (St.t W) R B) :
  (∀ a, o = Some a → emits r l h (k a)) → emits r l h (force o ≫= k).
Proof.
  intros Hk. destruct o as [a|]; [by apply Hk|]. intros s Hs. split; [done|]. exists [].
  split_and!; [done..|simpl; lia|done].
Qed.

Lemma emits_bind_assoc {R A B C} r l h (m : M (St.t W) R A) (k : A → M (St.t W) R B)
    (k' : B → M (St.t W) R C) :
  emits r l h (m ≫= λ a, k a ≫= k') → emits r l h ((m ≫= k) ≫= k').
Proof.
  intros H s Hs. specialize (H s Hs). unfold wp, mbind, M_bind in *. by destruct (m s) as [[a|x|] s1].
Qed.

Lemma emits_call_fn {R R'} r l h (f : M (St.t W) R' R') :
  emits l l h f → emits (R:=R) r l h (call_fn f).
Proof.
  intros H s Hs. apply wp_call_fn. eapply wp_mono; [exact (H s Hs)|].
  intros [a|x'|] s' (Hi & evs & Ht & Hq & Hn & Ho); (split; [done|]; exists evs; by split_and!).
Qed.

Lemma emits_block_fn {R R' B} l1 h1 r l h (f : M (St.t W) R' R') (k : R' → M (St.t W) R B) :
  emits l1 l1 h1 f → (h1 <=? h) = true →
  (∀ a, emits (r - l1) (l - l1) (h - h1) (k a)) → emits r l h (call_fn f ≫= k).
Proof.
  intros Hf Hh Hk. eapply (emits_block r l1 h1); [by apply emits_call_fn|by apply Nat.leb_le|done..].
Qed.

(** A piece that always returns. *)
Lemma emits_never {R A B} r1 h1 r l h (m : M (St.t W) R A) (k : A → M (St.t W) R B) :
  (∀ l', emits r1 l' h1 m) → (r <=? r1) = true → (h1 <=? h) = true → emits r l h (m ≫= k).
Proof.
  intros Hm Hr%Nat.leb_le Hh%Nat.leb_le s Hs. apply wp_bind.
  eapply wp_mono; [exact (Hm (S h) s Hs)|].
  intros [a|x|] s1 (Hi & evs & Ht & Hq & Hn & Ho); [lia|..]; (split; [done|]); exists evs;
    split_and!; (done || lia).
Qed.

(** ** Silent pieces *)

Lemma silent_update_inst {R} f : (∀ j, like i j → like i (f j)) → silent (R:=R) (update_inst f).
Proof. intros Hf s Hs. apply wp_update_inst. split_and!; [by apply Hf|done..]. Qed.

Lemma like_refl j : like j j.
Proof. exists (NeutronAPI.Status j), (NeutronAPI.Finalizers j). by destruct j. Qed.

Lemma like_status st j : like i j → like i (NeutronAPI.set_Status st j).
Proof. intros (? & fs & ->). by exists st, fs. Qed.

Lemma like_finalizers fs j : like i j → like i (NeutronAPI.set_Finalizers fs j).
Proof. intros (st & ? & ->). by exists st, fs. Qed.

Lemma silent_finalizers {R} fs : silent (R:=R) (update_inst (NeutronAPI.set_Finalizers fs)).
Proof. apply silent_update_inst. intros j. apply like_finalizers. Qed.

Lemma silent_update_status {R} f : silent (R:=R) (update_status f).
Proof. apply silent_update_inst. intros j. apply like_status. Qed.

Lemma silent_set_cond {R} c : silent (R:=R) (set_cond c).
Proof. apply silent_update_inst. intros j. apply like_status. Qed.

Lemma silent_set_error {R} t m a : silent (R:=R) (set_error t m a).
Proof. apply silent_set_cond. Qed.

Lemma silent_set_running {R} t m a : silent (R:=R) (set_running t m a).
Proof. apply silent_set_cond. Qed.

Lemma silent_mark_true {R} t m : silent (R:=R) (mark_true t m).
Proof. apply silent_update_inst. intros j. apply like_status. Qed.

Lemma silent_remove_cond {R} t : silent (R:=R) (remove_cond t).
Proof. apply silent_update_inst. intros j. apply like_status. Qed.

Lemma silent_rbac {R} c : silent (R:=R) (update_inst (λ i, RbacConditionsSet i c)).
Proof. apply silent_update_inst. intros j. apply like_status. Qed.

Lemma silent_put_vars {R} v : silent (R:=R) (put_vars v).
Proof. intros s Hs. by split_and!. Qed.

Lemma silent_put_var {R} k f : silent (R:=R) (put_var k f).
Proof. intros s Hs. by split_and!. Qed.

Lemma silent_get_vars {R} : silent (R:=R) get_vars.
Proof. intros s Hs. by split_and!. Qed.

Lemma silent_ret {R A} (a : A) : silent (R:=R) (mret a).
Proof. intros s Hs. by split_and!. Qed.

Lemma silent_force {R A} (o : option A) : silent (R:=R) (force o).
Proof. intros s Hs. destruct o; by split_and!. Qed.

Lemma silent_bind {R A B} (m : M (St.t W) R A) (k : A → M (St.t W) R B) :
  silent m → (∀ a, silent (k a)) → silent (m ≫= k).
Proof.
  intros Hm Hk s Hs. apply wp_bind. eapply wp_mono; [exact (Hm s Hs)|].
  intros [a|x|] s1 (Hi & Ht & Ho); [|done..]. eapply wp_mono; [exact (Hk a s1 Hi)|].
  intros o s2. by rewrite Ht.
Qed.

Lemma silent_when {R} c (m : M (St.t W) R unit) : silent m → silent (when c m).
Proof. intros H. destruct c; [done|apply silent_ret]. Qed.

Lemma silent_for_each {R X} (l : list X) (body : X → M (St.t W) R unit) :
  (∀ x, silent (body x)) → silent (for_each l body).
Proof.
  intros H. induction l as [|x l IH]; [apply silent_ret|]. by apply silent_bind.
Qed.

Lemma silent_write_hash {R} k v : silent (R:=R) (write_hash k v).
Proof.
  intros s Hs. unfold write_hash. apply wp_bind, wp_instance, wp_bind.
  destruct (map_write _ _ _) as [m|]; [|by split_and!].
  apply wp_ret, wp_update_status. split_and!; [by apply like_status|done..].
Qed.

End emits.

Create HintDb emits discriminated.
Create HintDb silent discriminated.
#[export] Hint Resolve silent_update_status silent_set_cond silent_set_error silent_set_running
  silent_mark_true silent_remove_cond silent_rbac silent_put_vars silent_put_var silent_get_vars
  silent_ret silent_write_hash silent_force silent_finalizers : silent.

Ltac silent :=
  cbv zeta;
  lazymatch goal with
  | |- silent _ (mbind _ _) => apply silent_bind; [silent|intros ?; silent]
  | |- silent _ (when _ _) => apply silent_when; silent
  | |- silent _ (for_each _ _) => apply silent_for_each; intros ?; silent
  | |- silent _ (match ?x with _ => _ end) => destruct x; silent
  | |- silent _ _ => solve [auto 1 with silent nocore]
  end.

(** A call that a stage allows. *)
Ltac allowed :=
  intros; cbn;
  repeat (rewrite bool_decide_eq_true_2 by (reflexivity || set_solver)); reflexivity.

(** One step of the symbolic execution; a call costs one of each number. *)
Ltac emits_step :=
  cbv zeta;
  lazymatch goal with
  | |- emits _ _ _ _ _ (mbind ?k ?m) =>
      lazymatch m with
      | mret _ => apply emits_bind_ret; cbv beta
      | return_ _ => apply emits_bind_return
      | instance => apply emits_bind_instance; intros ? ?
      | call _ _ => apply emits_bind_call; [try allowed|intros ?; cbn [pred]]
      | force _ => apply emits_bind_force; intros ? ?
      | mbind _ _ => apply emits_bind_assoc
      | when ?c _ =>
          first [apply emits_bind_silent; [solve [silent]|intros ?] | destruct c eqn:?; cbn [when]]
      | match ?x with _ => _ end => destruct x eqn:?
      | call_fn _ =>
          eapply emits_block_fn; [solve [eauto 3 with emits silent]|reflexivity|intros ?; cbn [Nat.sub]]
      | _ =>
          first [apply emits_bind_silent; [solve [silent]|intros ?]
                |eapply emits_never; [intros ?; solve [eauto 3 with emits]|reflexivity|reflexivity]
                |eapply emits_block;
                   [solve [eauto 3 with emits silent]|reflexivity|reflexivity|intros ?; cbn [Nat.sub]]]
      end
  | |- emits _ _ _ _ _ (mret _) => apply emits_ret
  | |- emits _ _ _ _ _ (return_ _) => apply emits_return
  | |- emits _ _ _ _ _ (call _ _) => apply emits_call; [try allowed|lia]
  | |- emits _ _ _ _ _ (when ?c _) => destruct c eqn:?; cbn [when]
  | |- emits _ _ _ _ _ (match ?x with _ => _ end) => destruct x eqn:?
  | |- emits _ _ _ _ _ (call_fn _) => apply emits_call_fn; solve [eauto 3 with emits silent]
  | |- emits _ _ _ _ _ _ => first [apply emits_silent; solve [silent] | solve [eauto 3 with emits silent]]
  end.

Ltac emits := repeat emits_step.

(** ** The blocks *)

Ltac unfold_returns :=
  unfold fail_cond, wait_cond, fail_on, fail_unless_not_found, return_unless_done, or_fail, try_,
    wrap_error.

Section blocks.
Context `{L : Lib} `{!LibLaws L} {W : Type} (handler : ∀ R, Call R → W → R * W).
Context (i : NeutronAPI.t).

Abbreviation keeps_to st r l h m := (emits i (allows i st) r l h m).

Lemma emits_rbac : keeps_to Accounts 0 1 1 (ensure_rbac handler).
Proof. unfold ensure_rbac. unfold_returns. emits. Qed.

Lemma emits_transport : keeps_to Messaging 0 2 2 (ensure_transport handler).
Proof.
  assert (∀ bus, keeps_to Messaging 1 1 1
    (transportURLCreateOrUpdate handler (NeutronAPI.Name i) bus)).
  { intros bus. unfold transportURLCreateOrUpdate. emits. }
  unfold ensure_transport. unfold_returns. emits.
Qed.

Lemma emits_verify st name fields waiting :
  st = Notifications ∨ st = Protocol.Inputs → silent i waiting →
  keeps_to st 0 1 1 (verify_secret handler name fields waiting).
Proof. intros [-> | ->] Hw; unfold verify_secret; unfold_returns; emits. Qed.

Lemma silent_input_waiting : silent (W:=W) i input_waiting.
Proof. unfold input_waiting. silent. Qed.

Hint Resolve silent_input_waiting : silent.

Lemma emits_notifications : keeps_to Notifications 0 0 3 (ensure_notifications handler).
Proof.
  assert (∀ bus, keeps_to Notifications 1 1 1 (transportURLCreateOrUpdate handler "notifications" bus)).
  { intros bus. unfold transportURLCreateOrUpdate. emits. }
  assert (∀ name, keeps_to Notifications 0 1 1
    (verify_secret handler name transportValidateFields input_waiting)).
  { intros name. apply emits_verify; [by left|silent]. }
  unfold ensure_notifications. unfold_returns. emits.
Qed.

Lemma emits_transport_secret cur :
  keeps_to Protocol.Inputs 0 1 1 (verify_transport_secret handler cur).
Proof.
  assert (∀ name fields, keeps_to Protocol.Inputs 0 1 1 (verify_secret handler name fields input_waiting)).
  { intros name fields. apply emits_verify; [by right|silent]. }
  unfold verify_transport_secret. emits.
Qed.

Lemma emits_service_secret : keeps_to Protocol.Inputs 0 1 1 (verify_service_secret handler).
Proof.
  assert (∀ name fields t m a, keeps_to Protocol.Inputs 0 1 1
    (verify_secret handler name fields (set_error t m a))).
  { intros name fields t m a. apply emits_verify; [by right|silent]. }
  unfold verify_service_secret. emits.
Qed.

Lemma emits_memcached : keeps_to Caching 0 1 1 (ensure_memcached handler).
Proof. unfold ensure_memcached. unfold_returns. emits. Qed.

(** *** The Secrets of the agents *)

Lemma emits_delete_and_return name what {A} l :
  keeps_to Agents 1 l 1 (delete_and_return handler name what (A:=A)).
Proof.
  assert (keeps_to Agents 1 1 1 (deleteExternalSecret handler name)).
  { unfold deleteExternalSecret. emits. }
  unfold delete_and_return. emits.
Qed.

Lemma emits_ensureExternalSecret name ts ps :
  keeps_to Agents 1 1 1 (ensureExternalSecret handler name ts ps).
Proof. unfold ensureExternalSecret. emits. Qed.

Lemma emits_getTransportURL st name :
  st = Agents ∨ st = Configuring → keeps_to st 0 0 1 (getTransportURL handler name).
Proof. intros [-> | ->]; unfold getTransportURL; emits. Qed.

Hint Resolve emits_delete_and_return emits_ensureExternalSecret emits_getTransportURL : emits.

Ltac agent := unfold_returns; emits.

Lemma emits_ensure_agents sb nb url quorum :
  keeps_to Agents 1 1 1 (ensureExternalOVNMetadataAgentSecret handler sb) ∧
  keeps_to Agents 1 1 1 (ensureExternalOVNAgentSecret handler nb sb) ∧
  keeps_to Agents 1 1 1 (ensureExternalSriovAgentSecret handler url quorum) ∧
  keeps_to Agents 1 1 1 (ensureExternalDhcpAgentSecret handler url quorum).
Proof.
  split_and!; unfold ensureExternalOVNMetadataAgentSecret, ensureExternalOVNAgentSecret,
    ensureExternalSriovAgentSecret, ensureExternalDhcpAgentSecret; emits.
Qed.

Lemma emits_ovn_agents :
  keeps_to Agents 1 1 2 (reconcileExternalOVNMetadataAgentSecret handler) ∧
  keeps_to Agents 1 1 3 (reconcileExternalOVNAgentSecret handler).
Proof.
  assert (∀ nb sb, keeps_to Agents 1 1 1 (ensureExternalOVNMetadataAgentSecret handler sb) ∧
    keeps_to Agents 1 1 1 (ensureExternalOVNAgentSecret handler nb sb)) as He.
  { intros nb sb. destruct (emits_ensure_agents sb nb "" true) as (? & ? & _). done. }
  pose proof (λ sb, proj1 (He "" sb)). pose proof (λ nb sb, proj2 (He nb sb)).
  split; unfold reconcileExternalOVNMetadataAgentSecret, reconcileExternalOVNAgentSecret; agent.
Qed.

Lemma emits_transport_agents cur :
  keeps_to Agents 1 1 2 (reconcileExternalSriovAgentSecret handler cur) ∧
  keeps_to Agents 2 2 2 (reconcileExternalDhcpAgentSecret handler cur).
Proof.
  pose proof (λ url quorum, proj1 (proj2 (proj2 (emits_ensure_agents "" "" url quorum)))).
  pose proof (λ url quorum, proj2 (proj2 (proj2 (emits_ensure_agents "" "" url quorum)))).
  split; unfold reconcileExternalSriovAgentSecret, reconcileExternalDhcpAgentSecret; agent.
Qed.

Lemma emits_agents cur : keeps_to Agents 0 2 9 (ensure_external handler cur).
Proof.
  destruct emits_ovn_agents as [? ?]. destruct (emits_transport_agents cur) as [? ?].
  assert (keeps_to Agents 1 1 4 (reconcileExternalSecrets handler cur)).
  { unfold reconcileExternalSecrets. agent. }
  assert (keeps_to Agents 1 1 5 (reconcileExternalOVNSecrets handler)).
  { unfold reconcileExternalOVNSecrets. agent. }
  unfold ensure_external. agent.
Qed.

(** *** Networks *)

Lemma emits_collect_nads names :
  keeps_to Networks 0 (length names) (length names) (collect_nads handler names).
Proof.
  induction names as [|name names IH]; [apply emits_ret|]. cbn [collect_nads length].
  unfold_returns. emits_step. emits_step. emits_step; [emits|].
  eapply emits_weaken; [eapply emits_bind; [exact IH|]|..].
  { intros ?. exact (emits_ret i _ 0 0 _). }
  all: lia.
Qed.

Lemma emits_networks :
  let n := length (SpecCore.NetworkAttachments (NeutronAPI.core i)) in
  keeps_to Networks 0 n n (network_annotations handler).
Proof.
  cbv zeta. unfold network_annotations. emits_step. cbv zeta.
  eapply emits_weaken; [eapply (emits_bind _ _ _ _ _ 0 0 0); [apply emits_collect_nads|]|..].
  { intros ?. emits. }
  all: change (NeutronAPI.core (NeutronAPI.set_Status st (NeutronAPI.set_Finalizers fs i)))
    with (NeutronAPI.core i); lia.
Qed.

(** *** Initialisation *)

Lemma emits_database : keeps_to Databasing 0 1 3 (init_database handler).
Proof.
  assert (keeps_to Databasing 1 1 3 (ensureDB handler)).
  { unfold ensureDB. emits. }
  unfold init_database. emits.
Qed.

Lemma emits_probe st labels annotations :
  st = Configuring ∨ st = Deciding → keeps_to st 0 0 2 (IsWSGIEffective handler labels annotations).
Proof. intros [-> | ->]; unfold IsWSGIEffective; emits. Qed.

Hint Resolve emits_probe : emits.

(** The parts of [generateServiceSecrets]. *)
Lemma emits_service_inputs name : keeps_to Configuring 1 3 4 (service_inputs handler name).
Proof. unfold service_inputs. unfold_returns. emits. Qed.

Lemma emits_configure db labels annotations tn nn :
  keeps_to Configuring 1 1 11 (generateServiceSecrets handler db labels annotations tn nn).
Proof.
  pose proof emits_service_inputs.
  assert (∀ name, keeps_to Configuring 0 0 1 (notifications_parameter handler name)).
  { intros name. unfold notifications_parameter. emits. }
  assert (keeps_to Configuring 0 0 1 (application_credential handler)).
  { unfold application_credential. emits. }
  assert (keeps_to Configuring 0 0 2 (ovn_parameters handler)).
  { unfold ovn_parameters. unfold_returns. emits. }
  unfold generateServiceSecrets, template_parameters. emits.
Qed.

Lemma emits_certificates : keeps_to Certifying 0 1 3 (validate_tls handler).
Proof. unfold validate_tls, tls_input, put_hash. unfold_returns. emits. Qed.

Lemma emits_consume : keeps_to Consuming 0 0 1 (hash_and_consume handler).
Proof.
  assert (emits (W:=W) i (allows i Consuming) 0 0 0 createHashOfInputHashes).
  { unfold createHashOfInputHashes. emits. }
  unfold hash_and_consume, config_error. unfold_returns. emits.
Qed.

Lemma DbSyncJob_meta j ls an job :
  DbSyncJob j ls an = Some job →
  Job.Name job = NeutronAPI.Name j +:+ "-db-sync" ∧ Job.Namespace job = NeutronAPI.Namespace j ∧
  PodTemplateSpec.Labels (Job.Template job) = None.
Proof. unfold DbSyncJob. destruct (GetVolumes _ _ _); [|done]. by intros [= <-]. Qed.

Lemma emits_sync labels annotations : keeps_to Syncing 0 1 1 (run_db_sync handler labels annotations).
Proof.
  unfold run_db_sync. unfold_returns. emits_step. emits_step.
  match goal with H : DbSyncJob _ _ _ = _ |- _ => apply DbSyncJob_meta in H as (Hn & Hns & Hl) end.
  emits.
Qed.

Lemma emits_register labels endpoints : keeps_to Registering 0 2 2 (register_keystone handler labels endpoints).
Proof. unfold register_keystone, mirror_keystone. unfold_returns. emits. Qed.

(** *** Services *)

Lemma annotate_details t svc : KService.Details (annotate_service t svc) = KService.Details svc.
Proof. unfold annotate_service. repeat case_match; by rewrite !AddAnnotation_details. Qed.

Lemma emits_expose t :
  keeps_to Exposing 0 1 1 (expose_endpoint handler serviceLabels t).
Proof.
  unfold expose_endpoint, service_error. unfold_returns. emits_step. cbv zeta.
  destruct (NewService _ _ _) as [err|svc] eqn:Hsvc; [emits|].
  apply NewService_selector in Hsvc as [Hsel Hns]. emits_step. emits_step; [|emits].
  intros a. cbn [allows of_stage confined selects]. rewrite annotate_details, Hsel, Hns. allowed.
Qed.

Lemma emits_exposes types urls :
  keeps_to Exposing 0 (length types) (length types) (expose_endpoints handler serviceLabels types urls).
Proof.
  revert urls. induction types as [|t types IH]; intros urls; [apply emits_ret|].
  exact (emits_bind _ _ _ _ _ _ _ _ _ _ (emits_expose t) (λ url, IH _)).
Qed.

(** *** The rollout *)

Lemma emits_topology : keeps_to Placing 0 1 1 (ensure_topology handler serviceLabels).
Proof. unfold ensure_topology. emits. Qed.

#[local] Arguments endpoint_certs : simpl never.

(** A Deployment of that name, in the namespace of the instance, that selects its
    own pods. *)
Definition named (name : string) (d : Deployment.t) : Prop :=
  Deployment.Name d = name ∧ Deployment.Namespace d = NeutronAPI.Namespace i ∧
  Deployment.MatchLabels d = Some (selected_by name) ∧
  PodTemplateSpec.Labels (Deployment.Template d) = Some (selected_by name).

Lemma applyPlacement_named j name an replicas cs vs t :
  NeutronAPI.Namespace j = NeutronAPI.Namespace i →
  named name (applyPlacement j (neutron_deployment j name (Some (selected_by name)) an replicas cs vs) t).
Proof.
  intros Hj. unfold named, applyPlacement.
  destruct (SpecCore.NodeSelector _), t; split_and!; simpl; rewrite ?ApplyTo_labels; done.
Qed.

Lemma builders_named j h an t mc wsgi d :
  NeutronAPI.Namespace j = NeutronAPI.Namespace i →
  (Deployment_ j h (Some serviceLabels) an t mc wsgi = Some (inr d) → named ServiceName d) ∧
  (RPCDeployment j h (Some (selected_by rpc_name)) an t mc = Some d → named rpc_name d) ∧
  (WorkerDeployment j h (Some (selected_by worker_name)) an t mc = Some d → named worker_name d).
Proof.
  intros Hj. split_and!.
  - unfold Deployment_. cbv zeta. destruct (GetVolumes _ _ _); [|done]. simpl.
    destruct (endpoint_certs _ _) as [|[? ?]]; [done|].
    destruct (ovn_service j); [|done]. simpl. intros [= <-]. by apply applyPlacement_named.
  - unfold RPCDeployment. destruct (workerVolumesAndMounts j mc) as [[? ?]|]; simpl; [|done].
    intros [= <-]. by apply applyPlacement_named.
  - unfold WorkerDeployment. destruct (workerVolumesAndMounts j mc) as [[? ?]|]; simpl; [|done].
    intros [= <-]. by apply applyPlacement_named.
Qed.

Lemma allows_deployment st name d t a :
  named name d → st = DeployingAPI ∧ name = ServiceName ∨
                 st = DeployingWorkers ∧ name ∈ [rpc_name; worker_name] →
  allows i st (Ev (Deployment_CreateOrPatch d t) a) = true.
Proof.
  intros (Hn & Hns & Hm & Hl) Hst. cbn [allows confined selects]. rewrite Hn, Hns, Hm, Hl.
  apply andb_true_intro. split; [apply andb_true_intro; split|repeat (apply andb_true_intro; split)].
  - destruct Hst as [[-> ->]|[-> Hin]]; cbn [of_stage]; rewrite Hn; by apply bool_decide_eq_true_2.
  - by apply bool_decide_eq_true_2.
  - by apply bool_decide_eq_true_2.
  - by apply bool_decide_eq_true_2.
  - apply bool_decide_eq_true_2. destruct Hst as [[-> ->]|[-> Hin]]; [by left|by right].
Qed.

Lemma emits_apply st name t em rm d :
  named name d → st = DeployingAPI ∧ name = ServiceName ∨
                 st = DeployingWorkers ∧ name ∈ [rpc_name; worker_name] →
  keeps_to st 0 1 1 (apply_deployment handler t em rm d).
Proof.
  intros Hd Hst. unfold apply_deployment. unfold_returns.
  apply emits_bind_call; [intros a; by eapply allows_deployment|]. intros a. cbn [pred]. emits.
Qed.

Lemma emits_ready st d h :
  st = DeployingAPI ∨ st = DeployingWorkers → keeps_to st 0 1 1 (ready_for_input handler d h).
Proof. intros [-> | ->]; unfold ready_for_input; emits. Qed.

Hint Resolve emits_apply emits_ready : emits.

Lemma emits_deploy_api an h t mc wsgi :
  keeps_to DeployingAPI 0 1 3 (deploy_api handler serviceLabels an h t mc wsgi).
Proof.
  assert (∀ d, keeps_to DeployingAPI 0 0 2 (check_api handler serviceLabels h d)).
  { intros d. unfold check_api, report_rollout. unfold_returns. emits. }
  unfold deploy_api. unfold_returns. emits_step. emits_step. emits_step; [emits|]. emits_step.
  eapply (emits_block _ _ 0 1 1); [|done|done|intros d'; emits].
  apply (emits_apply _ ServiceName); [|by left]. subst.
  match goal with E : Deployment_ _ _ _ _ _ _ _ = _ |- _ => by eapply builders_named, E end.
Qed.

Lemma emits_workers an h t mc wsgi :
  keeps_to DeployingWorkers 0 2 4 (rollout_workers handler an h t mc wsgi).
Proof.
  assert (∀ name, name ∈ [rpc_name; worker_name] →
    keeps_to DeployingWorkers 0 1 1 (delete_deployment handler name)) as Hdel.
  { intros name Hn. unfold delete_deployment. unfold_returns. emits. }
  pose proof (Hdel rpc_name ltac:(set_solver)). pose proof (Hdel worker_name ltac:(set_solver)).
  assert (keeps_to DeployingWorkers 0 1 2 (deploy_rpc handler an h t mc)).
  { unfold deploy_rpc, report_rollout. emits_step. emits_step. emits_step.
    eapply (emits_block _ _ 0 1 1); [|done|done|intros d'; emits].
    apply (emits_apply _ rpc_name); [|right; set_solver].
    match goal with E : RPCDeployment _ _ _ _ _ _ = _ |- _ => by eapply builders_named, E end. }
  assert (keeps_to DeployingWorkers 0 1 2 (deploy_worker handler an h t mc)).
  { unfold deploy_worker, report_rollout. emits_step. emits_step. emits_step.
    eapply (emits_block _ _ 0 1 1); [|done|done|intros d'; emits].
    apply (emits_apply _ worker_name); [|right; set_solver].
    match goal with E : WorkerDeployment _ _ _ _ _ _ = _ |- _ => by eapply builders_named, E end. }
  unfold rollout_workers. destruct wsgi.
  - assert (keeps_to DeployingWorkers 0 1 2 (rollout_rpc handler an h t mc)); [|emits].
    unfold rollout_rpc. emits.
  - unfold remove_workers. cbn [for_each]. emits.
Qed.

Lemma emits_release : keeps_to ReleasingAccounts 0 0 1 (release_accounts handler).
Proof. unfold release_accounts. unfold_returns. emits. Qed.

Lemma emits_rotate cur tu ready :
  keeps_to Rotating 0 2 4
    ((rotate_transport handler cur ready;; rotate_notifications handler tu ready);;
     rotate_credential handler ready).
Proof.
  assert (keeps_to Rotating 1 1 1 (transportURLDeleted handler notifications_transport_name)).
  { unfold transportURLDeleted. emits. }
  unfold rotate_transport, rotate_notifications, rotate_credential. unfold_returns. emits.
Qed.

Lemma emits_prune cur tu : keeps_to Pruning 0 2 2 (prune_finalizers handler cur tu).
Proof. unfold prune_finalizers. unfold_returns. emits. Qed.

(** *** Deletion *)

Lemma emits_leave_database : keeps_to LeavingDatabase 0 1 2 (release_database handler).
Proof. unfold release_database. unfold_returns. emits. Qed.

Lemma emits_leave_keystone :
  keeps_to LeavingEndpoint 0 1 2 (release_keystone handler
    (GetKeystoneEndpointWithName ServiceName (NeutronAPI.Namespace i)) UpdateKeystoneEndpoint) ∧
  keeps_to LeavingService 0 1 2 (release_keystone handler
    (GetKeystoneServiceWithName ServiceName (NeutronAPI.Namespace i)) UpdateKeystoneService).
Proof. split; unfold release_keystone; unfold_returns; emits. Qed.

Lemma emits_leave_topology : keeps_to LeavingTopology 0 1 1 (release_topology handler).
Proof. unfold release_topology. emits. Qed.

Lemma emits_leave_prune :
  let ns := NeutronAPI.Namespace i in
  keeps_to LeavingPrune 0 2 2 (prune_all handler ns TransportConsumerFinalizer;;
                               prune_all handler ns ACConsumerFinalizer).
Proof. cbv zeta. unfold prune_all. unfold_returns. emits. Qed.

Lemma emits_leave_messaging : keeps_to LeavingMessaging 0 3 6 (release_transport handler).
Proof.
  unfold release_transport, remove_consumer_finalizers. cbn [live_transport_secrets]. unfold_returns.
  emits_step. cbv zeta. destruct (Status.NotificationsTransportURLSecret _);
    repeat (progress cbn [app for_each] || emits_step).
Qed.

Lemma emits_leave_credentials s1 s2 :
  keeps_to LeavingCredentials 0 2 2
    (remove_consumer_finalizers handler (NeutronAPI.Namespace i) ACConsumerFinalizer [s1; s2]).
Proof. unfold remove_consumer_finalizers. cbn [for_each]. unfold_returns. emits. Qed.

End blocks.
