(* ===== verification/Refinement.v ===== *)
(** * [Reconcile] implements the protocol

    [refines i p m]: the calls of [m] follow the protocol [p], to its end when [m]
    goes on.  The blocks of [Emits] are the stages; the composition of the
    controller is the composition of the protocol. *)

From S2P Require Import Prelude RpcWorkers K8s Conditions Lib Api GoMonad Pods External.
From S2P Require Import ImageProbe ExternalSecrets ServiceConfig Delete Init Inputs Rollout.
From S2P Require Import Reconcile Protocol Emits.

Section refines.
Context `{L : Lib} {W : Type} (handler : ∀ R, Call R → W → R * W).
Context (i : NeutronAPI.t).

Definition goes_on {R A} (o : outcome R A) : bool := match o with Cont _ => true | _ => false end.

Definition refines {R A} (p : protocol) (m : M (St.t W) R A) : Prop :=
  ∀ s, like i (St.inst s) →
    wp m (λ o s', like i (St.inst s') ∧
      ∃ evs, St.trace s' = evs ++ St.trace s ∧ conforms i p (goes_on o) (reverse evs)) s.

Lemma refines_do {R A} st (m : M (St.t W) R A) :
  emits i (allows i st) 0 (range i st).1 (range i st).2 m → refines (Do st) m.
Proof.
  intros Hm s Hs. eapply wp_mono; [exact (Hm s Hs)|]. intros o s' (Hi & evs & Ht & Hq & Hh & Hl).
  split; [done|]. exists evs. split; [done|]. simpl. rewrite length_reverse. split_and!; [|done|].
  - rewrite forallb_forall in *. intros ev Hev. apply Hq. rewrite <-list_elem_of_In, elem_of_reverse in Hev.
    by apply list_elem_of_In.
  - by destruct o.
Qed.

Lemma refines_then {R A B} p q (m : M (St.t W) R A) (k : A → M (St.t W) R B) :
  refines p m → (∀ a, refines q (k a)) → refines (Then p q) (m ≫= k).
Proof.
  intros Hm Hk s Hs. apply wp_bind. eapply wp_mono; [exact (Hm s Hs)|].
  intros [a|x|] s1 (Hi & evs & Ht & Hc).
  - eapply wp_mono; [exact (Hk a s1 Hi)|]. intros o s2 (Hi2 & evs2 & Ht2 & Hc2).
    split; [done|]. exists (evs2 ++ evs). split; [by rewrite Ht2, Ht, app_assoc|].
    left. exists (reverse evs), (reverse evs2). by rewrite reverse_app.
  - split; [done|]. exists evs. split; [done|]. by right.
  - split; [done|]. exists evs. split; [done|]. by right.
Qed.

Lemma refines_call_fn {R R'} p (f : M (St.t W) R' R') :
  refines p f → refines (R:=R) (Attempt p) (call_fn f).
Proof.
  intros Hf s Hs. apply wp_call_fn. eapply wp_mono; [exact (Hf s Hs)|].
  intros o s' (Hi & evs & Ht & Hc).
  assert (conforms i p false (reverse evs)) as Hc' by by eapply conforms_stopped.
  destruct o; (split; [done|]); by exists evs.
Qed.

(** What makes no call does not change the protocol. *)
Lemma refines_quiet {R A B} p q (m : M (St.t W) R A) (k : A → M (St.t W) R B) :
  refines p m → (∀ a, emits i q 0 0 0 (k a)) → refines p (m ≫= k).
Proof.
  intros Hm Hk s Hs. apply wp_bind. eapply wp_mono; [exact (Hm s Hs)|].
  intros [a|x|] s1 (Hi & evs & Ht & Hc).
  - eapply wp_mono; [exact (Hk a s1 Hi)|]. intros o s2 (Hi2 & evs2 & Ht2 & _ & Hn & _).
    destruct evs2; [|simpl in Hn; lia].
    split; [done|]. exists evs. split; [by rewrite Ht2, Ht|].
    destruct o; [done|by eapply conforms_stopped..].
  - split; [done|]. by exists evs.
  - split; [done|]. by exists evs.
Qed.

Lemma refines_bind_silent {R A B} p (m : M (St.t W) R A) (k : A → M (St.t W) R B) :
  silent i m → (∀ a, refines p (k a)) → refines p (m ≫= k).
Proof.
  intros Hm Hk s Hs. apply wp_bind. eapply wp_mono; [exact (Hm s Hs)|].
  intros [a|x|] s1 (Hi & Ht & Ho); [|done|].
  - eapply wp_mono; [exact (Hk a s1 Hi)|]. intros o s2. by rewrite Ht.
  - split; [done|]. exists []. split; [done|]. apply conforms_nil.
Qed.

Lemma refines_bind_instance {R B} p (k : NeutronAPI.t → M (St.t W) R B) :
  (∀ st fs, refines p (k (NeutronAPI.set_Status st (NeutronAPI.set_Finalizers fs i)))) →
  refines p (instance ≫= k).
Proof.
  intros Hk s Hs. apply wp_bind, wp_instance. destruct Hs as (st & fs & Hi). rewrite Hi. apply Hk.
  by exists st, fs.
Qed.

Lemma refines_seq_assoc {R A B C} p (m1 : M (St.t W) R A) (m2 : M (St.t W) R B) (k : B → M (St.t W) R C) :
  refines p ((m1;; m2) ≫= k) → refines p (m1;; (m2 ≫= k)).
Proof.
  intros H s Hs. specialize (H s Hs). unfold wp, mbind, M_bind in *. by destruct (m1 s) as [[a|x|] s1].
Qed.

(** What returns without a call stops the protocol. *)
Lemma refines_stops {R A B} p q (m : M (St.t W) R A) (k : A → M (St.t W) R B) :
  (∀ l, emits i q 0 l 0 m) → refines p (m ≫= k).
Proof.
  intros Hm s Hs. apply wp_bind. eapply wp_mono; [exact (Hm 1 s Hs)|].
  intros [a|x|] s1 (Hi & evs & Ht & _ & Hn & Ho); [lia|..];
    (destruct evs; [|simpl in Hn; lia]; split; [done|]; exists []; split; [done|]; apply conforms_nil).
Qed.

Lemma refines_bind_force {R A B} p (o : option A) (k : A → M (St.t W) R B) :
  (∀ a, o = Some a → refines p (k a)) → refines p (force o ≫= k).
Proof.
  intros Hk. destruct o as [a|]; [by apply Hk|]. intros s Hs. split; [done|]. exists [].
  split; [done|]. apply conforms_nil.
Qed.

Lemma refines_bind_ret {R A B} p (a : A) (k : A → M (St.t W) R B) :
  refines p (k a) → refines p (mret a ≫= k).
Proof. done. Qed.

Lemma refines_bind_assoc {R A B C} p (m : M (St.t W) R A) (k : A → M (St.t W) R B)
    (k' : B → M (St.t W) R C) :
  refines p (m ≫= λ a, k a ≫= k') → refines p ((m ≫= k) ≫= k').
Proof.
  intros H s Hs. specialize (H s Hs). unfold wp, mbind, M_bind in *. by destruct (m s) as [[a|x|] s1].
Qed.

Lemma refines_return {R A} p (x : R) : refines (A:=A) p (return_ x).
Proof. intros s Hs. split; [done|]. exists []. split; [done|]. apply conforms_nil. Qed.

End refines.

(** Goes to the next stage; a check between two stages that stops. *)
Ltac next_stage lem := eapply refines_then; [apply refines_do; apply lem|intros ?].
Ltac quiet := eapply (refines_bind_silent _); [solve [silent]|intros ?].
Ltac stops := eapply (refines_stops _ _ (λ _, true)); intros ?; solve [unfold_returns; emits].

(** ** The composition *)

Section controller.
Context `{L : Lib} `{!LibLaws L} {W : Type} (handler : ∀ R, Call R → W → R * W).
Context (i : NeutronAPI.t).

Lemma init_refines an cur notif :
  refines i init_protocol (reconcileInit handler serviceLabels an cur notif).
Proof.
  unfold reconcileInit, init_protocol, in_order.
  next_stage (emits_database handler i).
  eapply refines_then; [apply refines_do, emits_call_fn, (emits_configure handler i)|intros err].
  destruct err as [err|]; [unfold config_error; stops|]. quiet.
  next_stage (emits_certificates handler i). next_stage (emits_consume handler i).
  next_stage (emits_sync handler i).
  eapply refines_then; [apply refines_do, (emits_exposes handler i)|intros urls]. quiet.
  eapply (refines_quiet _ _ (λ _, true)); [apply refines_do, (emits_register handler i)|intros ?; emits].
Qed.

Lemma rotation_refines cur notif {A} (k : M (St.t W) RetVal A) :
  (emits i (λ _, true) 0 0 0 k) →
  refines i (Then (Do Rotating) (Do Pruning)) (rotate_credentials handler cur notif;; k).
Proof.
  intros Hk. apply (refines_quiet _ _ (λ _, true)); [|done]. unfold rotate_credentials.
  apply refines_bind_instance. intros st fs. cbv zeta. do 2 apply refines_seq_assoc.
  eapply refines_then; [apply refines_do, (emits_rotate handler i)|intros _].
  apply refines_do, (emits_prune handler i).
Qed.

Lemma rollout_refines notif cur an mc (r : Result) :
  refines i rollout_protocol
    (inputHash ← input_hash r;
     topology ← ensure_topology handler serviceLabels;
     wsgi ← call_fn (IsWSGIEffective handler (Some serviceLabels) (Some an));
     deploy_api handler serviceLabels an inputHash topology mc wsgi;;
     rollout_workers handler an inputHash topology mc wsgi;;
     release_accounts handler;;
     rotate_credentials handler cur notif;;
     report_ready;;
     mret (Result0, None) : M (St.t W) RetVal RetVal).
Proof.
  unfold input_hash, rollout_protocol, in_order.
  apply refines_bind_assoc, refines_bind_instance. intros st fs.
  destruct (map_read _ _) as [h|]; [|stops]. apply refines_bind_ret.
  next_stage (emits_topology handler i).
  eapply refines_then.
  { apply refines_do, emits_call_fn, (emits_probe handler i). by right. }
  intros wsgi. next_stage (emits_deploy_api handler i). next_stage (emits_workers handler i).
  next_stage (emits_release handler i). apply rotation_refines.
  unfold report_ready. emits.
Qed.

Lemma normal_refines : refines i normal_protocol (reconcileNormal handler).
Proof.
  unfold reconcileNormal, prepare, normal_protocol, in_order.
  apply refines_bind_assoc. next_stage (emits_rbac handler i). apply refines_bind_assoc. quiet.
  apply refines_bind_assoc. next_stage (emits_transport handler i).
  apply refines_bind_assoc. next_stage (emits_notifications handler i).
  apply refines_bind_assoc. next_stage (emits_transport_secret handler i).
  apply refines_bind_assoc. next_stage (emits_service_secret handler i).
  apply refines_bind_assoc. next_stage (emits_memcached handler i).
  apply refines_bind_assoc. next_stage (emits_agents handler i).
  apply refines_bind_assoc. next_stage (emits_networks handler i). apply refines_bind_ret.
  eapply refines_then; [|intros r; apply rollout_refines].
  unfold init_update_upgrade. apply (refines_quiet _ _ (λ _, true)).
  { apply refines_call_fn, init_refines. }
  intros r. unfold return_unless_done. destruct r as [res [err|]]; cbn [fst snd]; [emits|].
  destruct (pending res) eqn:Hp; cbn [when]; [emits|].
  assert (emits (W:=W) i (λ _, true) 0 0 0 reconcileUpdate) by apply emits_ret.
  assert (emits (W:=W) i (λ _, true) 0 0 0 reconcileUpgrade) by apply emits_ret.
  emits.
Qed.

Lemma delete_refines : refines i delete_protocol (reconcileDelete handler).
Proof.
  unfold reconcileDelete. apply (refines_quiet _ _ (λ _, true)).
  - unfold delete_references, delete_protocol, in_order. apply refines_bind_instance.
    intros st fs. cbv zeta. next_stage (emits_leave_database handler i).
    next_stage (emits_leave_keystone handler i). next_stage (emits_leave_keystone handler i).
    next_stage (emits_leave_topology handler i). next_stage (emits_leave_messaging handler i).
    apply refines_seq_assoc. next_stage (emits_leave_prune handler i).
    apply refines_do, (emits_leave_credentials handler i).
  - intros u. apply emits_bind_silent; [|intros v; apply emits_ret].
    apply silent_update_inst. intros j. apply like_finalizers.
Qed.

(** The body under the deferred patch. *)
Lemma body_refines isNew : refines i (Attempt (protocol_of i)) (reconcile_body handler isNew).
Proof.
  unfold reconcile_body. cbv zeta.
  do 2 (eapply (refines_bind_silent _); [apply silent_update_inst; intros j; apply like_status|intros _]).
  apply refines_bind_instance. intros st fs. unfold protocol_of.
  change (NeutronAPI.DeletionTimestamp (NeutronAPI.set_Status st (NeutronAPI.set_Finalizers fs i)))
    with (NeutronAPI.DeletionTimestamp i).
  eapply (refines_bind_silent _); [silent|]. intros added.
  destruct (added || isNew); [apply (refines_stops _ _ (λ _, true)); intros l; apply emits_return|].
  cbn [when]. apply refines_bind_ret. do 2 quiet.
  destruct (NeutronAPI.DeletionTimestamp i) as [t|].
  - rewrite bool_decide_eq_true_2 by done. apply refines_call_fn, delete_refines.
  - rewrite bool_decide_eq_false_2 by (intros [? [=]]). apply refines_call_fn, normal_refines.
Qed.

End controller.

(** ** The abstract reconcile *)

Section reconcile.
Context `{L : Lib} `{!LibLaws L} {W : Type} (handler : ∀ R, Call R → W → R * W).

(** The calls of a reconcile of [nn], oldest first: the NeutronAPI cannot be read;
    or its helper cannot be made; or the protocol of what was read, stopped or to
    its end, and then the patch of that NeutronAPI ([panicked]: or nothing). *)
Inductive follows (nn : NamespacedName.t) (panicked : bool) : list event → Prop :=
| follows_unread e : follows nn panicked [Ev (GetNeutronAPI nn) (inl e)]
| follows_no_helper i e :
    follows nn panicked [Ev (GetNeutronAPI nn) (inr i); Ev (NewHelper (NeutronAPI.Name i)) (Some e)]
| follows_protocol i i' r body done :
    conforms i (protocol_of i) done body → like i i' →
    follows nn panicked
      ([Ev (GetNeutronAPI nn) (inr i); Ev (NewHelper (NeutronAPI.Name i)) None] ++ body ++
       if panicked then [] else [Ev (PatchInstance i') r]).

Definition panics {R A} (o : outcome R A) : bool := match o with Panic => true | _ => false end.

(** The patch is the last call. *)
Lemma patch_status_calls i saved r s :
  like i (St.inst s) →
  wp (patch_status handler saved r) (λ o s', ∃ i' perr,
    like i i' ∧ panics o = false ∧ St.trace s' = Ev (PatchInstance i') perr :: St.trace s) s.
Proof.
  intros Hs. unfold patch_status. apply wp_bind, wp_update_inst, wp_bind, wp_instance, wp_bind.
  apply wp_when; intros _; [destruct (Mirror _ _); [apply wp_update_inst|apply wp_ret]|];
    apply wp_bind, wp_instance, wp_bind, wp_call; intros [e|] w _; apply wp_ret; simpl;
    (eexists _, _; split; [|done]; repeat apply like_status; exact Hs).
Qed.

Definition in_protocol (nn : NamespacedName.t) {R A} (s : St.t W) (o : outcome R A) (s' : St.t W) : Prop :=
  ∃ evs, St.trace s' = evs ++ St.trace s ∧ follows nn (panics o) (reverse evs).

Lemma Reconcile_in_protocol nn s :
  in_protocol nn s (Reconcile handler nn s).1 (Reconcile handler nn s).2.
Proof.
  change (wp (Reconcile handler nn) (in_protocol nn s) s).
  unfold Reconcile. apply wp_bind, wp_call. intros answer w _. apply wp_bind.
  destruct answer as [e|i].
  { assert (∀ r : RetVal, in_protocol nn s (Ret (A:=RetVal) r)
      (St.mk (St.inst s) (St.vars s) w (Ev (GetNeutronAPI nn) (inl e) :: St.trace s))) as He.
    { intros r. exists [Ev (GetNeutronAPI nn) (inl e)]. split; [done|constructor]. }
    destruct (IsNotFound e); apply wp_return; apply He. }
  apply wp_ret, wp_bind, wp_update_inst, wp_bind, wp_call. intros err w' _. apply wp_bind.
  destruct err as [e|].
  { apply wp_return. exists [Ev (NewHelper (NeutronAPI.Name i)) (Some e); Ev (GetNeutronAPI nn) (inr i)].
    split; [done|constructor]. }
  apply wp_ret. cbv zeta. set (s0 := St.mk _ _ w' _).
  assert (∀ isNew saved s1, like i (St.inst s1) → St.trace s1 = St.trace s0 →
    wp (deferred (reconcile_body handler isNew) (patch_status handler saved)) (in_protocol nn s) s1) as Hd.
  { intros isNew saved s1 Hs1 Ht1. apply wp_deferred.
    eapply wp_mono; [exact (body_refines handler i isNew s1 Hs1)|]. intros o s2 (Hi & evs & Ht & Hc).
    assert (∀ r o' s3, (∃ i' perr, like i i' ∧ panics o' = false ∧
        St.trace s3 = Ev (PatchInstance i') perr :: St.trace s2) →
        in_protocol nn s (R:=r) (A:=r) o' s3) as Hend.
    { intros r o' s3 (i' & perr & Hl & Ho & Ht3). unfold in_protocol. rewrite Ho.
      exists ((Ev (PatchInstance i') perr :: evs) ++ [Ev (NewHelper (NeutronAPI.Name i)) None; Ev (GetNeutronAPI nn) (inr i)]).
      split; [by rewrite Ht3, Ht, Ht1, <-!app_assoc|]. rewrite reverse_app, (reverse_cons evs).
      by apply (follows_protocol nn false i i' perr (reverse evs) false). }
    destruct o as [r|r|].
    - eapply wp_mono; [by apply patch_status_calls|]. intros o' s3. apply Hend.
    - eapply wp_mono; [by apply patch_status_calls|]. intros o' s3. apply Hend.
    - exists (evs ++ [Ev (NewHelper (NeutronAPI.Name i)) None; Ev (GetNeutronAPI nn) (inr i)]).
      split; [by rewrite Ht, Ht1, <-app_assoc|]. rewrite reverse_app.
      pose proof (like_refl i) as Hl.
      pose proof (follows_protocol nn true i i None (reverse evs) false Hc Hl) as Hf.
      by rewrite app_nil_r in Hf. }
  pose proof (like_refl i) as Hl.
  apply wp_bind, wp_when; intros _; [apply wp_update_inst|]; apply wp_bind, wp_instance; apply Hd; try done.
  by apply like_status.
Qed.
Lemma forallb_reverse {A} (q : A → bool) l : forallb q (reverse l) = forallb q l.
Proof.
  induction l as [|x l IH]; [done|]. rewrite reverse_cons, forallb_app, IH. simpl.
  by rewrite andb_true_r, andb_comm.
Qed.

Lemma allows_reads_nothing i st ev : allows i st ev = true → bool_decide (instance_read ev = None) = true.
Proof. destruct ev as [R c r]. by destruct st, c. Qed.

(** It is read once. *)
Lemma follows_read nn b tr i :
  follows nn b tr → Ev (GetNeutronAPI nn) (inr i) ∈ tr →
  ∃ tr', tr = Ev (GetNeutronAPI nn) (inr i) :: tr'.
Proof.
  intros Hf Hin. assert (∀ ev ev', ev = ev' → instance_read ev = instance_read ev') as Heq by by intros ?? ->.
  destruct Hf as [e|j e|j i' r body d Hc Hl].
  - apply list_elem_of_singleton, Heq in Hin. done.
  - apply elem_of_cons in Hin as [H|H]; [apply Heq in H as [= ->]; by eexists|].
    by apply list_elem_of_singleton, Heq in H.
  - apply elem_of_cons in Hin as [H|H]; [apply Heq in H as [= ->]; by eexists|].
    apply elem_of_cons in H as [H|H]; [by apply Heq in H|].
    apply elem_of_app in H as [H|H].
    + pose proof (conforms_all _ _ _ _ _ (allows_reads_nothing j) Hc) as Hr.
      rewrite forallb_forall in Hr. apply list_elem_of_In, Hr in H. done.
    + destruct b; [by apply elem_of_nil in H|]. by apply list_elem_of_singleton, Heq in H.
Qed.

(** What every call of every stage satisfies, every call of a reconcile does. *)
Lemma follows_all (q : event → bool) nn b tr :
  (∀ r, q (Ev (GetNeutronAPI nn) r) = true) → (∀ name r, q (Ev (NewHelper name) r) = true) →
  (∀ i st ev, Ev (GetNeutronAPI nn) (inr i) ∈ tr → allows i st ev = true → q ev = true) →
  (∀ i i' r, Ev (GetNeutronAPI nn) (inr i) ∈ tr → like i i' → q (Ev (PatchInstance i') r) = true) →
  follows nn b tr → forallb q tr = true.
Proof.
  intros Hg Hn Hi Hp Hf.
  destruct Hf as [e|i e|i i' r body d Hc Hl]; simpl; rewrite ?Hg, ?Hn; [done..|]. simpl.
  rewrite forallb_app. apply andb_true_intro. split.
  - eapply conforms_all; [|exact Hc]. intros st ev. apply Hi. by left.
  - destruct b; [done|]. simpl. rewrite (Hp i i' r); [done|by left|done].
Qed.

(** The networks that the NeutronAPI asks for, as far as it was read. *)
Definition attachments_read (tr : list event) : nat :=
  match tr with
  | Ev c r :: _ =>
      match c in Call R return R → nat with
      | GetNeutronAPI _ => λ r,
          match r with inr i => length (SpecCore.NetworkAttachments (NeutronAPI.core i)) | inl _ => 0 end
      | _ => λ _, 0
      end r
  | [] => 0
  end.

Lemma protocol_max i : max_calls i (protocol_of i) ≤ 58 + length (SpecCore.NetworkAttachments (NeutronAPI.core i)).
Proof. unfold protocol_of. destruct (NeutronAPI.DeletionTimestamp i); simpl; lia. Qed.

Lemma follows_bound nn b tr : follows nn b tr → length tr ≤ 61 + attachments_read tr.
Proof.
  intros [e|i e|i i' r body d Hc Hl]; simpl; [lia|lia|]. apply conforms_bound in Hc.
  pose proof (protocol_max i). rewrite length_app. destruct b; simpl; lia.
Qed.

End reconcile.

(** ** The theorems *)

(** C4: [Reconcile] implements the protocol, whatever the cluster answers: it reads
    the NeutronAPI, makes the helper, goes through the stages of a deletion, or of
    provisioning, initialisation and rollout, in their order and with the calls
    and the numbers of calls that each stage allows; it may stop in any stage, but
    only a stage that was completed is followed by another, save that an
    initialisation that stopped may be followed by the rollout; and the patch of
    the NeutronAPI it read is the last call of every reconcile that has a
    helper. *)
Theorem Reconcile_refines_protocol `{L : Lib} `{!LibLaws L} {W : Type}
    (handler : ∀ R, Call R → W → R * W) nn (s : St.t W) :
  let '(o, s') := Reconcile handler nn s in
  ∃ evs, St.trace s' = evs ++ St.trace s ∧ follows nn (panics o) (reverse evs).
Proof.
  pose proof (Reconcile_in_protocol handler nn s) as H. by destruct (Reconcile handler nn s) as [o s'].
Qed.

(** C13: A reconcile terminates after at most 61 calls and one per network
    attachment that the NeutronAPI asks for, whatever the cluster answers. *)
Theorem Reconcile_bound `{L : Lib} `{!LibLaws L} {W : Type}
    (handler : ∀ R, Call R → W → R * W) nn i0 vars w :
  let tr := St.trace (Reconcile handler nn (St.mk i0 vars w [])).2 in
  length tr ≤ 61 + attachments_read (reverse tr).
Proof.
  cbv zeta. destruct (Reconcile_in_protocol handler nn (St.mk i0 vars w [])) as (evs & Ht & Hf).
  rewrite Ht, app_nil_r, <-length_reverse. by eapply follows_bound.
Qed.

(** C12: A reconcile works in the namespace of the NeutronAPI: every call that
    names an object to read, write or delete names one of that namespace, objects
    that the API server returned itself and the topology reference apart. *)
Theorem Reconcile_namespace `{L : Lib} `{!LibLaws L} {W : Type}
    (handler : ∀ R, Call R → W → R * W) nn i0 vars w i :
  let tr := St.trace (Reconcile handler nn (St.mk i0 vars w [])).2 in
  Ev (GetNeutronAPI nn) (inr i) ∈ tr →
  forallb (confined (NeutronAPI.Namespace i)) tr = true.
Proof.
  cbv zeta. destruct (Reconcile_in_protocol handler nn (St.mk i0 vars w [])) as (evs & Ht & Hf).
  rewrite Ht, app_nil_r. intros Hin. rewrite <-forallb_reverse.
  assert (∀ j, Ev (GetNeutronAPI nn) (inr j) ∈ reverse evs → j = i) as Hj.
  { intros j [tr Hj]%(follows_read _ _ _ _ Hf).
    apply elem_of_reverse in Hin. apply (follows_read _ _ _ _ Hf) in Hin as [tr' Hi].
    rewrite Hj in Hi. apply (f_equal (λ l, head l ≫= instance_read)) in Hi. by injection Hi. }
  eapply follows_all; [done|done|..|exact Hf].
  - intros j st ev ->%Hj. apply allows_confined.
  - intros j i' r ->%Hj (st & fs & ->). by apply bool_decide_eq_true_2.
Qed.

(** C24: Pods are selected by the workload they belong to: every Deployment that a
    reconcile applies is one of neutron, neutron-rpc and neutron-worker and selects
    the pods of its own template, by its own name; the Services select the pods of
    the API Deployment only; and the pods of the db-sync and probe Jobs are
    selected by none. *)
Theorem Reconcile_selectors `{L : Lib} `{!LibLaws L} {W : Type}
    (handler : ∀ R, Call R → W → R * W) nn i0 vars w :
  forallb selects (St.trace (Reconcile handler nn (St.mk i0 vars w [])).2) = true.
Proof.
  destruct (Reconcile_in_protocol handler nn (St.mk i0 vars w [])) as (evs & Ht & Hf).
  rewrite Ht, app_nil_r, <-forallb_reverse. eapply follows_all; [done|done|..|exact Hf].
  - intros i st ev _. apply allows_selects.
  - done.
Qed.
