(* ===== verification/Healthy.v ===== *)
(** * A healthy cluster

    What a cluster answers when nothing is wrong with it, and the judgement
    [goes]: on such a cluster a piece of the controller goes on, with fewer
    conditions that may not be true than before. *)

From S2P Require Import Prelude RpcWorkers K8s Conditions Lib Api GoMonad Pods External.
From S2P Require Import ImageProbe ExternalSecrets ServiceConfig Delete Init Inputs Rollout.
From S2P Require Import Reconcile Safety Protocol Emits.

(** ** Good answers *)

Section good.
Context `{L : Lib} (i : NeutronAPI.t).

(** The Secret of a TransportURL is its own. *)
Definition own_secret (name : string) : Prop :=
  name ≠ "" ∧ name ≠ SpecCore.Secret (NeutronAPI.core i) ∧
  name ≠ SpecCore.Auth_ApplicationCredentialSecret (NeutronAPI.core i).

(** A Secret has the keys that the operator needs of it. *)
Definition complete_secret (name : string) (s : Secret.t) : Prop :=
  (name = SpecCore.Auth_ApplicationCredentialSecret (NeutronAPI.core i) →
   ∃ id secret, Secret.Data s !! ACIDSecretKey = Some id ∧ id ≠ "" ∧
                Secret.Data s !! ACSecretSecretKey = Some secret ∧ secret ≠ "") ∧
  (own_secret name → is_Some (Secret.Data s !! "transport_url")).

(** The conditions that a Keystone object reports mirror to one that is true. *)
Definition mirrors_true (cs : list Condition.t) (t : CondType) : Prop :=
  ∃ c, Mirror cs t = Some c ∧ Condition.Status c = ConditionTrue.

(** The Deployment exists as it was applied, and its pods are ready. *)
Definition rolled_out_as (d d' : Deployment.t) : Prop :=
  observed d' = true ∧ Deployment_IsReady d' = true.

Definition found_or_gone {A} (r : error + A) : Prop :=
  match r with inl e => IsNotFound e = true | inr _ => True end.

(** The answer of a cluster on which every object exists, is complete and is
    ready; nothing is asked of the answers that the code does not depend on. *)
Definition good {R} (c : Call R) (r : R) : Prop :=
  match c in Call R return R → Prop with
  | NewHelper _ | PatchInstance _ => λ r, r = None
  | DeleteObject _ _ | UpdateKeystoneEndpoint _ | UpdateKeystoneService _ => λ r, ok_or_gone r
  | GetDatabaseByNameAndAccount _ _ _ | GetKeystoneEndpointWithName _ _
  | GetKeystoneServiceWithName _ _ | GetTransportURLObject _ => λ r, found_or_gone r
  | Database_DeleteFinalizer _ => λ r, r = None
  | EnsureDeletedTopologyRef _ _ => λ r, ∃ res, r = (res, None)
  | GetSecret name _ => λ r, ∃ s, r = inr s ∧ complete_secret name s
  | VerifySecretFields _ _ _ => λ r, ∃ h, r = (h, Result0, None)
  | EnsureSecrets ts _ => λ r, ∃ env, r = (env, None) ∧ ∀ t, t ∈ ts → is_Some (env !! Template.Name t)
  | ReconcileRbac _ _ _ => λ r, ∃ cs, r = (cs, Result0, None) ∧
      (∀ c, c ∈ cs → Condition.Status c = ConditionTrue) ∧
      ∀ t, t ∈ [ServiceAccountReadyCondition; RoleReadyCondition; RoleBindingReadyCondition] →
           t ∈ Condition.Type_ <$> cs
  | ManageSecretConsumerFinalizer _ _ _ | RemoveSecretConsumerFinalizer _ _ _
  | PruneSecretConsumerFinalizers _ _ _ => λ r, r = None
  | FinalizeSecretRotation _ _ _ _ _ => λ r, ∃ s, r = inr s
  | CreateOrUpdateTransportURL _ _ _ => λ r, ∃ tu o, r = (tu, o, None) ∧
      TransportURL_IsReady tu = true ∧ own_secret (TransportURL.SecretName tu)
  | GetMemcachedByName _ _ => λ r, ∃ mc, r = inr mc ∧ Memcached_IsReady mc = true
  | GetKeystoneAPI _ => λ r, ∃ k, r = inr k ∧
      (∃ url, KeystoneAPI_GetEndpoint k EndpointInternal = inr url) ∧
      (∃ url, KeystoneAPI_GetEndpoint k EndpointPublic = inr url)
  | GetDBClusterByType _ _ => λ r, ∃ c, r = inr c ∧ ∃ e, OVN_GetInternalEndpoint c = inr e
  | KeystoneService_CreateOrPatch _ _ _ _ => λ r, ∃ cs, r = (cs, Result0, None) ∧
      mirrors_true cs KeystoneServiceReadyCondition
  | KeystoneEndpoint_CreateOrPatch _ _ _ _ _ => λ r, ∃ cs, r = (cs, Result0, None) ∧
      mirrors_true cs KeystoneEndpointReadyCondition
  | EnsureServiceTopology _ _ _ _ => λ r, ∃ t, r = inr t
  | GetNADWithName name _ => λ r, name ∈ SpecCore.NetworkAttachments (NeutronAPI.core i) → ∃ n, r = inr n
  | VerifyNetworkStatusFromAnnotation _ _ _ => λ r, ∃ m, r = inr (true, m)
  | ValidateCACertSecret _ | ValidateCertSecrets _ _ | ValidateCertSecret _ _ => λ r, ∃ h, r = inr h
  | EnsureMariaDBAccount _ _ _ _ => λ r, r = None
  | Database_CreateOrPatchAll _ => λ r, ∃ db, r = (db, Result0, None)
  | WaitForDBCreatedWithTimeout _ _ => λ r, ∃ db, r = (db, Result0, None) ∧ db_loaded db
  | DeleteUnusedMariaDBAccountFinalizers _ _ _ => λ r, r = None
  | DoJob _ _ _ _ _ => λ r, JobRun.result r = Result0 ∧ JobRun.err r = None
  | Service_CreateOrPatch _ => λ r, ∃ svc, r = (svc, Result0, None) ∧
      ∀ url proto path, ∃ u, Service_GetAPIEndpoint svc url proto path = inr u
  | Deployment_CreateOrPatch d _ => λ r, ∃ d', r = (d', Result0, None) ∧ rolled_out_as d d'
  | IsReadyForInput _ _ => λ r, r = inr true
  | _ => λ _, True
  end r.

(** What the libraries can build of the spec. *)
Class Wellformed : Prop := {
  wf_volumes : volumes_convert i;
  wf_certs : ∃ p, endpoint_certs (NeutronApiTLS.API (SpecCore.TLS (NeutronAPI.core i)))
                    [EndpointInternal; EndpointPublic] = inr p;
  wf_services : ∀ t port, ∃ svc,
    NewService (service_details i serviceLabels t port) 5
      (RoutedOverrideSpec.OverrideSpec (service_override i t)) = inr svc;
  wf_hash : ∀ env, ∃ h, ObjectHash env = inr h;
  wf_networks : ∀ nads, ∃ a, EnsureNetworksAnnotation nads = inr a;
}.

End good.

(** ** The judgement *)

Section goes.
Context `{L : Lib} `{!LibLaws L} {W : Type} (handler : ∀ R, Call R → W → R * W).
Context (i : NeutronAPI.t) (I : W → Prop).

(** In the states of the cluster that satisfy [I], which they keep, every answer
    for the instance [i] is good. *)
Definition healthy : Prop :=
  ∀ R (c : Call R) w, I w → good i c (handler R c w).1 ∧ I (handler R c w).2.

(** The instance, whose conditions and finalizer are there. *)
Definition initialised (j : NeutronAPI.t) : Prop :=
  Status.Conditions (NeutronAPI.Status j) ≠ None ∧
  GetFinalizer (NeutronAPI.Kind j) ∈ NeutronAPI.Finalizers j.

Definition live (j : NeutronAPI.t) : Prop := like i j ∧ initialised j.

Lemma live_status st j :
  Status.Conditions st ≠ None → live j → live (NeutronAPI.set_Status st j).
Proof. intros Hst [Hi [_ Hf]]. split; [by apply like_status|]. by split. Qed.

(** The conditions that may not be true satisfy [U]; with [b], the input hash is
    recorded. *)
Definition fit (b : bool) (U : CondType → Prop) (s : St.t W) : Prop :=
  live (St.inst s) ∧ is_Some (hashes s) ∧
  (b = true → is_Some (map_read (hashes s) InputHashName)) ∧ I (St.world s) ∧
  ∀ t st, cond_status (conds (St.inst s)) t = Some st → st = ConditionTrue ∨ U t.

Definition goes {R A} (b : bool) (U : CondType → Prop) (b' : bool) (U' : CondType → Prop)
    (m : M (St.t W) R A) (P : A → Prop) (Pr : R → Prop) : Prop :=
  ∀ s, fit b U s →
    wp m (λ o s', match o with
                  | Cont a => fit b' U' s' ∧ P a
                  | Ret r => fit b' U' s' ∧ Pr r
                  | Panic => False
                  end) s.

Definition never {R} : R → Prop := λ _, False.

Lemma fit_weaken b U b' U' s :
  fit b U s → (b' = true → b = true) → (∀ t, U t → U' t) → fit b' U' s.
Proof.
  intros (Hi & Hh & Hb & HI & Hc) Hb' HU. split_and!; [done|done|auto|done|].
  intros t st Ht. destruct (Hc t st Ht); auto.
Qed.

Lemma goes_weaken {R A} b U b1 U1 b' U' (m : M (St.t W) R A) P Pr :
  goes b U b1 U1 m P Pr → (b' = true → b1 = true) → (∀ t, U1 t → U' t) → goes b U b' U' m P Pr.
Proof.
  intros Hm Hb HU s Hs. eapply wp_mono; [exact (Hm s Hs)|].
  intros [a|r|] s'; [..|done]; intros [H ?]; (split; [by eapply fit_weaken|done]).
Qed.

(** Rules for the end of a piece. *)
Lemma goes_ret {R A} b U b' U' (a : A) (P : A → Prop) (Pr : R → Prop) :
  (b' = true → b = true) → (∀ t, U t → U' t) → P a → goes b U b' U' (mret a) P Pr.
Proof. intros Hb HU Ha s Hs. split; [by eapply fit_weaken|done]. Qed.

Lemma goes_return {R A} b U b' U' (r : R) (P : A → Prop) (Pr : R → Prop) :
  (b' = true → b = true) → (∀ t, U t → U' t) → Pr r → goes b U b' U' (return_ r) P Pr.
Proof. intros Hb HU Ha s Hs. split; [by eapply fit_weaken|done]. Qed.

Lemma goes_unit {R A} b U b' U' (m : M (St.t W) R A) P Pr :
  goes b U b' U' (m ≫= mret) P Pr → goes b U b' U' m P Pr.
Proof.
  intros H s Hs. specialize (H s Hs). unfold wp, mbind, M_bind in *. by destruct (m s) as [[a|r|] s'].
Qed.

(** Rules for the next step. *)
Lemma goes_bind {R A B} b U b1 U1 b' U' (m : M (St.t W) R A) (k : A → M (St.t W) R B) P Q Pr :
  goes b U b1 U1 m P never → (∀ a, P a → goes b1 U1 b' U' (k a) Q Pr) →
  goes b U b' U' (m ≫= k) Q Pr.
Proof.
  intros Hm Hk s Hs. apply wp_bind. eapply wp_mono; [exact (Hm s Hs)|].
  intros [a|r|] s' H; [|by destruct H as [_ []]|done]. destruct H as [H Ha]. by apply (Hk a Ha).
Qed.

Lemma goes_bind_same {R A B} b U (m : M (St.t W) R A) (k : A → M (St.t W) R B) P Q Pr :
  goes b U b U m P Pr → (∀ a, P a → goes b U b U (k a) Q Pr) → goes b U b U (m ≫= k) Q Pr.
Proof.
  intros Hm Hk s Hs. apply wp_bind. eapply wp_mono; [exact (Hm s Hs)|].
  intros [a|r|] s' H; [|done..]. destruct H as [H Ha]. by apply (Hk a Ha).
Qed.

Lemma goes_bind_ret {R A B} b U b' U' (a : A) (k : A → M (St.t W) R B) Q Pr :
  goes b U b' U' (k a) Q Pr → goes b U b' U' (mret a ≫= k) Q Pr.
Proof. done. Qed.

Lemma goes_bind_return {R A B} b U b' U' (r : R) (k : A → M (St.t W) R B) (Q : B → Prop) (Pr : R → Prop) :
  (b' = true → b = true) → (∀ t, U t → U' t) → Pr r → goes b U b' U' (return_ r ≫= k) Q Pr.
Proof. apply (goes_return (A:=B)). Qed.

Lemma goes_bind_assoc {R A B C} b U b' U' (m : M (St.t W) R A) (k : A → M (St.t W) R B)
    (k' : B → M (St.t W) R C) Q Pr :
  goes b U b' U' (m ≫= λ a, k a ≫= k') Q Pr → goes b U b' U' ((m ≫= k) ≫= k') Q Pr.
Proof.
  intros H s Hs. specialize (H s Hs). unfold wp, mbind, M_bind in *. by destruct (m s) as [[a|x|] s1].
Qed.

Lemma goes_bind_instance {R B} b U b' U' (k : NeutronAPI.t → M (St.t W) R B) Q Pr :
  (∀ st fs, goes b U b' U' (k (NeutronAPI.set_Status st (NeutronAPI.set_Finalizers fs i))) Q Pr) →
  goes b U b' U' (instance ≫= k) Q Pr.
Proof.
  intros Hk s Hs. apply wp_bind, wp_instance. destruct Hs as (((st & fs & Hi) & Hl) & Hs). rewrite Hi.
  apply Hk. split; [split; [by exists st, fs|exact Hl]|exact Hs].
Qed.

Lemma goes_bind_call {R A B} b U b' U' (c : Call A) (k : A → M (St.t W) R B) Q Pr :
  healthy → (∀ a, good i c a → goes b U b' U' (k a) Q Pr) →
  goes b U b' U' (call handler c ≫= k) Q Pr.
Proof.
  intros Hh Hk s (Hi & Hhash & Hb & HI & Hc). apply wp_bind, wp_call. intros a w Ha.
  destruct (Hh A c (St.world s) HI) as [Hg Hw]. rewrite Ha in Hg, Hw. by apply Hk.
Qed.

Lemma goes_bind_force {R A B} b U b' U' (o : option A) (k : A → M (St.t W) R B) Q Pr :
  is_Some o → (∀ a, o = Some a → goes b U b' U' (k a) Q Pr) → goes b U b' U' (force o ≫= k) Q Pr.
Proof. intros [a ->] Hk. by apply Hk. Qed.

Lemma goes_bind_call_fn {R R' B} b U b1 U1 b' U' (f : M (St.t W) R' R') (k : R' → M (St.t W) R B) P Q Pr :
  goes b U b1 U1 f P P → (∀ a, P a → goes b1 U1 b' U' (k a) Q Pr) →
  goes b U b' U' (call_fn f ≫= k) Q Pr.
Proof.
  intros Hf Hk s Hs. apply wp_bind, wp_call_fn. eapply wp_mono; [exact (Hf s Hs)|].
  intros [a|r|] s' H; [..|done]; destruct H as [H Ha]; by apply (Hk _ Ha).
Qed.

Lemma goes_bind_get_vars {R B} b U b' U' (k : gmap string Setter → M (St.t W) R B) Q Pr :
  (∀ env, goes b U b' U' (k env) Q Pr) → goes b U b' U' (get_vars ≫= k) Q Pr.
Proof. intros Hk s Hs. by apply Hk. Qed.

Lemma goes_bind_put_vars {R B} b U b' U' v (k : () → M (St.t W) R B) Q Pr :
  goes b U b' U' (k ()) Q Pr → goes b U b' U' (put_vars v ≫= k) Q Pr.
Proof. intros Hk s Hs. apply Hk. exact Hs. Qed.

Lemma goes_bind_put_var {R B} b U b' U' key f (k : () → M (St.t W) R B) Q Pr :
  goes b U b' U' (k ()) Q Pr → goes b U b' U' (put_var key f ≫= k) Q Pr.
Proof. intros Hk s Hs. apply Hk. exact Hs. Qed.

(** *** The status *)

Lemma goes_bind_status {R B} b U b' U' f (k : () → M (St.t W) R B) Q Pr :
  (∀ st, Status.Conditions (f st) = Status.Conditions st ∧
         (is_Some (Status.Hash st) → is_Some (Status.Hash (f st))) ∧
         (b = true → Status.Hash (f st) = Status.Hash st)) →
  goes b U b' U' (k ()) Q Pr → goes b U b' U' (update_status f ≫= k) Q Pr.
Proof.
  intros Hf Hk s (Hi & Hh & Hb & HI & Hc). apply wp_bind, wp_update_status, Hk.
  destruct (Hf (NeutronAPI.Status (St.inst s))) as (H1 & H2 & H3). split_and!.
  - apply live_status; [|done]. rewrite H1. apply Hi.
  - by apply H2.
  - intros E. unfold hashes in *. simpl. rewrite H3 by done. by apply Hb.
  - exact HI.
  - intros t st. unfold conds in *. simpl. rewrite H1. apply Hc.
Qed.

(** The conditions change to [cs], which is as good but for the types of [U1]. *)
Lemma goes_bind_conds {R B} b U U1 b' U' (cs : NeutronAPI.t → Conditions) (k : () → M (St.t W) R B) Q Pr :
  (∀ j t st, cond_status (cs j) t = Some st → st = ConditionTrue ∨ U1 t ∨
             cond_status (conds j) t = Some st ∧ (U t → U1 t)) →
  goes b U1 b' U' (k ()) Q Pr →
  goes b U b' U' (update_inst (λ j, set_conds (cs j) j) ≫= k) Q Pr.
Proof.
  intros Hcs Hk s (Hi & Hh & Hb & HI & Hc). apply wp_bind, wp_update_inst, Hk. split_and!; [by apply live_status|done|done|done|].
  intros t st Ht. destruct (Hcs (St.inst s) t st Ht) as [->|[?|[Hj HU]]]; [by left|by right|].
  destruct (Hc t st Hj); [by left|right; auto].
Qed.

Definition without (t : CondType) (U : CondType → Prop) : CondType → Prop := λ t', U t' ∧ t' ≠ t.

Lemma goes_bind_mark_true {R B} b U b' U' t m (k : () → M (St.t W) R B) Q Pr :
  goes b (without t U) b' U' (k ()) Q Pr → goes b U b' U' (mark_true t m ≫= k) Q Pr.
Proof.
  intros Hk. eapply goes_bind_conds; [|exact Hk]. intros j t' st. rewrite status_MarkTrue.
  case_decide; [intros [= <-]; by left|]. intros Hst. right. right. split; [done|]. by split.
Qed.

Lemma goes_bind_set_true {R B} b U b' U' c (k : () → M (St.t W) R B) Q Pr :
  Condition.Status c = ConditionTrue →
  goes b (without (Condition.Type_ c) U) b' U' (k ()) Q Pr → goes b U b' U' (set_cond c ≫= k) Q Pr.
Proof.
  intros Hc Hk. eapply goes_bind_conds; [|exact Hk]. intros j t' st. rewrite status_Set, Hc.
  case_decide; [intros [= <-]; by left|]. intros Hst. right. right. split; [done|]. by split.
Qed.

Lemma goes_bind_remove {R B} b U b' U' t (k : () → M (St.t W) R B) Q Pr :
  goes b (without t U) b' U' (k ()) Q Pr → goes b U b' U' (remove_cond t ≫= k) Q Pr.
Proof.
  intros Hk. eapply goes_bind_conds; [|exact Hk]. intros j t' st. rewrite status_Remove.
  case_decide; [done|]. intros Hst. right. right. split; [done|]. by split.
Qed.

Definition along (t : CondType) (U : CondType → Prop) : CondType → Prop := λ t', U t' ∨ t' = t.

Lemma goes_bind_running {R B} b U b' U' t m a (k : () → M (St.t W) R B) Q Pr :
  goes b (along t U) b' U' (k ()) Q Pr → goes b U b' U' (set_running t m a ≫= k) Q Pr.
Proof.
  intros Hk. eapply goes_bind_conds; [|exact Hk]. intros j t' st. rewrite status_Set, FalseCondition_type.
  case_decide; [intros [= <-]; right; left; by right|]. intros Hst. right. right. split; [done|]. by left.
Qed.

(** *** The hashes *)

Lemma goes_bind_write_hash {R B} b U b' U' key v (k : () → M (St.t W) R B) Q Pr :
  goes b U b' U' (k ()) Q Pr → goes b U b' U' (write_hash key v ≫= k) Q Pr.
Proof.
  intros Hk s (Hi & Hh & Hb & HI & Hc). apply wp_bind, wp_write_hash; [done|]. intros h Hw. apply Hk.
  split_and!; [apply live_status; [apply Hi|done]|..|exact HI|exact Hc]; change (hashes (with_hashes h s)) with h.
  - destruct (hashes s); [|done]. simpl in Hw. injection Hw as <-. by eexists.
  - intros E. destruct (decide (key = InputHashName)) as [->|Hne].
    + rewrite (map_read_write _ _ _ _ Hw). by eexists.
    + rewrite (map_read_write_ne _ _ _ _ _ Hne Hw). by apply Hb.
Qed.

(** A piece and what comes after it. *)
Lemma goes_then {R A B} b U b1 U1 (m : M (St.t W) R A) (k : A → M (St.t W) R B) P Q s :
  goes b U b1 U1 m P never → fit b U s →
  (∀ a s', P a → fit b1 U1 s' → wp (k a) Q s') → wp (m ≫= k) Q s.
Proof.
  intros Hm Hs Hk. apply wp_bind. eapply wp_mono; [exact (Hm s Hs)|].
  intros [a|r|] s' H; [|by destruct H as [_ []]|done]. destruct H as [H Ha]. by apply Hk.
Qed.

End goes.
