(* ===== verification/Convergence.v ===== *)
(** * Convergence

    On a healthy cluster ([Healthy]) one reconcile of an initialised NeutronAPI
    goes through to the end and leaves it Ready. *)

From S2P Require Import Prelude RpcWorkers K8s Conditions Lib Api GoMonad Pods External.
From S2P Require Import ImageProbe ExternalSecrets ServiceConfig Delete Init Inputs Rollout.
From S2P Require Import Reconcile Safety Protocol Emits Healthy.

(** ** Symbolic execution on a healthy cluster *)

Create HintDb goes discriminated.

(** Takes a good answer apart and runs the program on it. *)
Ltac good_answer H :=
  cbn [good] in H;
  repeat match type of H with
         | ∃ _, _ => let x := fresh "x" in destruct H as [x H]
         end;
  lazymatch type of H with
  | False => destruct H
  | never _ => destruct H
  | _ = _ ∧ _ => let Ha := fresh "Ha" in destruct H as [Ha H]; subst
  | _ = _ => subst
  | _ => idtac
  end; cbv beta iota.

Ltac next_answer :=
  let a := fresh "a" in let Hgood := fresh "Hgood" in intros a Hgood; good_answer Hgood.

(** A guard that a good answer decides. *)
Ltac known :=
  symmetry; first [apply bool_decide_eq_false_2; unfold own_secret in *; tauto
                  |apply negb_false_iff; tauto].

Lemma pending_Result0 : pending Result0 = false.
Proof. apply bool_decide_eq_false_2. tauto. Qed.

(** [∀ t, U t → U' t], both with types left out one by one or as a list. *)
Ltac left_out :=
  unfold without, along; intros t ?; rewrite ?not_elem_of_cons in *; pose proof (not_elem_of_nil t); tauto.

Ltac weaker := solve [done | left_out | unfold without, along, never in *; naive_solver].

(** An update of the status that keeps the conditions and the hashes. *)
Ltac keeps_hashes :=
  intros ?; split; [by repeat case_match|];
  first [split; [by repeat case_match|by repeat case_match]
        |split; [by intros ?; apply map_delete_is_Some|discriminate]].

Ltac go_step :=
  cbv zeta; rewrite ?pending_Result0;
  lazymatch goal with
  | |- goes _ _ _ _ _ _ (mbind ?k ?m) _ _ =>
      lazymatch m with
      | mret _ => apply goes_bind_ret; cbv beta
      | return_ _ => apply goes_bind_return; [done|weaker|try weaker]
      | mbind _ _ => apply goes_bind_assoc
      | instance => apply goes_bind_instance; intros ? ?
      | call _ _ =>
          apply goes_bind_call;
            [assumption|next_answer]
      | force _ => let H := fresh in apply goes_bind_force; [solve [by eexists|eauto 2 with goes]|intros ? H; try (injection H as <-)]
      | get_vars => apply goes_bind_get_vars; intros ?
      | put_vars _ => apply goes_bind_put_vars
      | put_var _ _ => apply goes_bind_put_var
      | update_status _ => apply goes_bind_status; [try keeps_hashes|]
      | mark_true _ _ => apply goes_bind_mark_true
      | set_running _ _ _ => apply goes_bind_running
      | remove_cond _ => apply goes_bind_remove
      | write_hash _ _ => apply goes_bind_write_hash
      | when true _ => cbn [when]
      | when false _ => cbn [when]
      | when ?c _ => first [match goal with H : c = _ |- _ => rewrite H end | replace c with false by known | destruct c eqn:?]; cbn [when]
      | match ?x with _ => _ end => match goal with H : x = _ |- _ => rewrite H | _ => destruct x eqn:? end
      | call_fn _ => eapply goes_bind_call_fn; [solve [eauto 3 with goes]|next_answer]
      | _ =>
          first [eapply goes_bind; [solve [eauto 3 with goes]|next_answer]
                |eapply goes_bind_same; [solve [eauto 3 with goes]|next_answer]]
      end
  | |- goes _ _ _ _ _ _ (mret _) _ _ => apply goes_ret; [done|weaker|try weaker]
  | |- goes _ _ _ _ _ _ (return_ _) _ _ => apply goes_return; [done|weaker|try weaker]
  | |- goes _ _ _ _ _ _ (match ?x with _ => _ end) _ _ =>
      match goal with H : x = _ |- _ => rewrite H | _ => destruct x eqn:? end
  | |- goes _ _ _ _ _ _ _ _ _ => apply goes_unit
  end.

Ltac go := repeat go_step.

(** The types that [reconcileInit] leaves true. *)
Abbreviation done_init :=
  [DBReadyCondition; MariaDBAccountReadyCondition; TLSInputReadyCondition; ServiceConfigReadyCondition;
   DBSyncReadyCondition; CreateServiceReadyCondition; KeystoneServiceReadyCondition;
   KeystoneEndpointReadyCondition].

Section blocks.
Context `{L : Lib} `{!LibLaws L} {W : Type} (handler : ∀ R, Call R → W → R * W).
Context (i : NeutronAPI.t) (I : W → Prop) (Hhealthy : healthy handler i I).

Abbreviation goes_on := (goes (W:=W) i I).
Abbreviation anything := (λ _, True).

(** ** The inputs *)

Lemma goes_conditions {R} b U cs :
  (∀ c, c ∈ cs → Condition.Status c = ConditionTrue) →
  goes_on b U b (λ t, U t ∧ t ∉ Condition.Type_ <$> cs)
    (for_each cs (λ c, update_inst (λ i, RbacConditionsSet i c))) anything (never (R:=R)).
Proof.
  revert U. induction cs as [|c cs IH]; intros U Hcs.
  - apply goes_ret; [done| |done]. intros t Ht. split; [done|]. by apply not_elem_of_nil.
  - eapply (goes_bind_set_true _ _ _ _ _ _ c); [apply Hcs; by left|].
    eapply goes_unit, goes_bind; [apply IH; intros c' ?; apply Hcs; by right|].
    intros u _. apply goes_ret; [done| |done]. intros t [[Ht Hne] Hnin]. split; [done|].
    rewrite fmap_cons, not_elem_of_cons. done.
Qed.

Lemma goes_rbac b U :
  goes_on b U b (without ServiceAccountReadyCondition (without RoleReadyCondition
                  (without RoleBindingReadyCondition U)))
    (ensure_rbac handler) anything never.
Proof.
  unfold ensure_rbac, return_unless_done. go_step. go_step. destruct Hgood as [Htrue Htypes].
  eapply goes_bind; [by apply goes_conditions|]. intros u _. cbn [fst snd].
  rewrite pending_Result0. apply goes_ret; [done| |done]. intros t [Ht Hnin]. unfold without.
  split_and!; [done|..]; intros ->; apply Hnin, Htypes; set_solver.
Qed.

Lemma goes_url b U name cfg :
  goes_on b U b U (transportURLCreateOrUpdate handler name cfg)
    (λ r, ∃ tu o, r = (tu, o, None) ∧ TransportURL_IsReady tu = true ∧ own_secret i (TransportURL.SecretName tu))
    (λ r, ∃ tu o, r = (tu, o, None) ∧ TransportURL_IsReady tu = true ∧ own_secret i (TransportURL.SecretName tu)).
Proof. unfold transportURLCreateOrUpdate. go. Qed.

Hint Resolve goes_url : goes.

Lemma goes_transport b U : goes_on b U b U (ensure_transport handler) (own_secret i) never.
Proof.
  unfold ensure_transport, fail_on. go.
Qed.

Lemma goes_verify b U name fields waiting :
  goes_on b U b U (verify_secret handler name fields waiting) anything never.
Proof. unfold verify_secret. go. Qed.

Hint Resolve goes_verify : goes.

Lemma goes_transport_secret b U name :
  goes_on b U b (without RabbitMqTransportURLReadyCondition U) (verify_transport_secret handler name) anything never.
Proof. unfold verify_transport_secret. go. Qed.

Lemma goes_service_secret b U :
  goes_on b U b (without InputReadyCondition U) (verify_service_secret handler) anything never.
Proof. unfold verify_service_secret. go. Qed.

Lemma goes_memcached b U :
  goes_on b U b (without MemcachedReadyCondition U) (ensure_memcached handler) anything never.
Proof. unfold ensure_memcached. go. Qed.

Lemma goes_notifications b U :
  goes_on b U b (without NotificationBusInstanceReadyCondition U) (ensure_notifications handler)
    (λ o, ∀ tu, o = Some tu → own_secret i (TransportURL.SecretName tu)) never.
Proof.
  unfold ensure_notifications, fail_on. go.
Qed.

(** ** The agents *)

Abbreviation no_error := (λ e : option error, e = None).

Lemma goes_deleteExternalSecret U name :
  goes_on false U false U (deleteExternalSecret handler name) no_error no_error.
Proof.
  unfold deleteExternalSecret. do 2 go_step. destruct a as [e|]; unfold ok_or_gone in Hgood; cbn in Hgood; go.
Qed.

Hint Resolve goes_deleteExternalSecret : goes.

Lemma goes_delete_and_return U name what {A} :
  goes_on false U false U (delete_and_return handler name what (A:=A)) never no_error.
Proof. unfold delete_and_return. go. Qed.

Lemma goes_ensureExternalSecret U name ts ps :
  goes_on false U false U (ensureExternalSecret handler name ts ps) no_error no_error.
Proof.
  unfold ensureExternalSecret. do 4 go_step.
  destruct (Hgood (external_template (NeutronAPI.set_Status st (NeutronAPI.set_Finalizers fs i)) name ts ps))
    as [f Hf]; [by left|]. cbn in Hf. go.
Qed.

Hint Resolve goes_delete_and_return goes_ensureExternalSecret : goes.

Lemma goes_getTransportURL b U name :
  goes_on b U b U (getTransportURL handler name) anything anything.
Proof. unfold getTransportURL. go. Qed.

Lemma goes_ensure_agents U sb nb url quorum :
  goes_on false U false U (ensureExternalOVNMetadataAgentSecret handler sb) no_error no_error ∧
  goes_on false U false U (ensureExternalOVNAgentSecret handler nb sb) no_error no_error ∧
  goes_on false U false U (ensureExternalSriovAgentSecret handler url quorum) no_error no_error ∧
  goes_on false U false U (ensureExternalDhcpAgentSecret handler url quorum) no_error no_error.
Proof.
  split_and!; unfold ensureExternalOVNMetadataAgentSecret, ensureExternalOVNAgentSecret,
    ensureExternalSriovAgentSecret, ensureExternalDhcpAgentSecret; go.
Qed.

Hint Resolve goes_getTransportURL : goes.

Lemma goes_ovn_agents U :
  goes_on false U false U (reconcileExternalOVNMetadataAgentSecret handler) no_error no_error ∧
  goes_on false U false U (reconcileExternalOVNAgentSecret handler) no_error no_error.
Proof.
  pose proof (λ sb nb, proj1 (goes_ensure_agents U sb nb "" true)).
  pose proof (λ sb nb, proj1 (proj2 (goes_ensure_agents U sb nb "" true))).
  split; unfold reconcileExternalOVNMetadataAgentSecret, reconcileExternalOVNAgentSecret, wrap_error; go.
Qed.

Lemma goes_transport_agents U cur :
  goes_on false U false U (reconcileExternalSriovAgentSecret handler cur) no_error no_error ∧
  goes_on false U false U (reconcileExternalDhcpAgentSecret handler cur) no_error no_error.
Proof.
  pose proof (λ url q, proj1 (proj2 (proj2 (goes_ensure_agents U "" "" url q)))).
  pose proof (λ url q, proj2 (proj2 (proj2 (goes_ensure_agents U "" "" url q)))).
  split; unfold reconcileExternalSriovAgentSecret, reconcileExternalDhcpAgentSecret, wrap_error; go.
Qed.

Lemma goes_agents U cur :
  goes_on false U false (without NeutronExternalConfigsReady U) (ensure_external handler cur) anything never.
Proof.
  destruct (goes_ovn_agents U) as [? ?]. destruct (goes_transport_agents U cur) as [? ?].
  assert (goes_on false U false U (reconcileExternalSecrets handler cur) no_error no_error).
  { unfold reconcileExternalSecrets, wrap_error. go. }
  assert (goes_on false U false U (reconcileExternalOVNSecrets handler) no_error no_error).
  { unfold reconcileExternalOVNSecrets, wrap_error. go. }
  unfold ensure_external. go.
Qed.

(** ** Networks *)

Lemma goes_collect_nads b U names :
  names ⊆ SpecCore.NetworkAttachments (NeutronAPI.core i) →
  goes_on b U b U (collect_nads handler names) anything never.
Proof.
  induction names as [|name names IH]; cbn [collect_nads]; intros Hn; [go|].
  do 2 go_step. destruct Hgood as [n ->]; [apply Hn; by left|].
  assert (names ⊆ SpecCore.NetworkAttachments (NeutronAPI.core i)) by (intros x ?; apply Hn; by right). go.
Qed.

Lemma goes_networks b U : Wellformed i → goes_on b U b U (network_annotations handler) anything never.
Proof.
  intros Hwf. unfold network_annotations. go_step.
  eapply goes_bind; [by apply goes_collect_nads|]. intros nads _. cbv zeta.
  destruct (wf_networks i nads) as [an ->]. go.
Qed.

(** ** Initialisation *)

Lemma goes_database b U :
  goes_on b U b (without DBReadyCondition (without MariaDBAccountReadyCondition U))
    (init_database handler) db_loaded never.
Proof.
  assert (goes_on b U b (without DBReadyCondition (without MariaDBAccountReadyCondition U)) (ensureDB handler)
    (λ r, ∃ db, r = (Some db, Result0, None) ∧ db_loaded db)
    (λ r, ∃ db, r = (Some db, Result0, None) ∧ db_loaded db)).
  { unfold ensureDB. go. all: by eexists. }
  unfold init_database. go.
Qed.

Lemma goes_probe b U labels annotations :
  goes_on b U b U (IsWSGIEffective handler labels annotations) anything anything.
Proof. unfold IsWSGIEffective. go. Qed.

Hint Resolve goes_probe : goes.

(** The transport URL of a Secret that has one. *)
Lemma goes_own_url b U name :
  own_secret i name →
  goes_on b U b U (getTransportURL handler (Some name)) (λ r, ∃ u, r = inr u) (λ r, ∃ u, r = inr u).
Proof.
  intros Hn. unfold getTransportURL. go_step. rewrite bool_decide_eq_false_2 by apply Hn. do 2 go_step.
  destruct Hgood as [_ [url Hurl]]; [done|]. rewrite Hurl. go.
Qed.

Lemma goes_service_inputs b U name :
  own_secret i name → goes_on b U b U (service_inputs handler name) anything never.
Proof.
  intros Hn. pose proof (goes_own_url b U name Hn). unfold service_inputs, try_.
  do 2 go_step. destruct Hgood as [[u1 H1] [u2 H2]]. go_step. rewrite H1. go_step. rewrite H2. go.
Qed.

Lemma goes_application_credential b U : goes_on b U b U (application_credential handler) anything never.
Proof.
  unfold application_credential. go_step. cbv zeta. case_bool_decide as Hac; [|go].
  go_step. destruct Hgood as [Hgood _]. destruct (Hgood eq_refl) as (id & secret & H1 & H2 & H3 & H4).
  rewrite H1, H3. rewrite !bool_decide_eq_false_2 by done. go.
Qed.

Lemma goes_ovn_parameters b U : goes_on b U b U (ovn_parameters handler) anything never.
Proof.
  unfold ovn_parameters, try_. go.
Qed.

Lemma goes_notifications_parameter b U name :
  (∀ n, name = Some n → own_secret i n) →
  goes_on b U b U (notifications_parameter handler name) anything never.
Proof.
  intros Hn. unfold notifications_parameter. destruct name as [name|].
  - pose proof (goes_own_url b U name (Hn _ eq_refl)). go.
  - assert (goes_on b U b U (getTransportURL handler None)
      (λ r, r = inl errTransportURLSecretNameNilOrEmpty) (λ r, r = inl errTransportURLSecretNameNilOrEmpty)).
    { unfold getTransportURL. go. }
    go_step. rewrite errors_Is_refl. go.
Qed.

Lemma goes_configure b U db labels annotations tn nn :
  db_loaded db → own_secret i tn → (∀ n, nn = Some n → own_secret i n) →
  goes_on b U b U (generateServiceSecrets handler db labels annotations tn nn) no_error no_error.
Proof.
  intros [[account Haccount] [secret Hsecret]] Htn Hnn.
  pose proof (goes_service_inputs b U tn Htn).
  pose proof (goes_notifications_parameter b U nn Hnn).
  pose proof (goes_application_credential b U). pose proof (goes_ovn_parameters b U).
  assert (goes_on b U b U (template_parameters handler db labels annotations tn nn) anything never).
  { unfold template_parameters. rewrite Haccount, Hsecret. go. }
  unfold generateServiceSecrets. go.
Qed.

Lemma goes_certificates b U :
  goes_on b U b (without TLSInputReadyCondition U) (validate_tls handler) anything never.
Proof. unfold validate_tls, tls_input, put_hash. go. Qed.

Lemma goes_consume U : Wellformed i →
  goes_on false U true (without ServiceConfigReadyCondition U) (hash_and_consume handler) anything never.
Proof.
  intros Hwf. assert (goes_on false U true U createHashOfInputHashes
    (λ r, ∃ c, r = (c, None)) (λ r, ∃ c, r = (c, None))).
  { intros s (Hi & Hh & _ & HI & Hc). unfold createHashOfInputHashes.
    apply wp_bind, wp_instance, wp_bind, wp_get_vars. cbv zeta.
    destruct (wf_hash i (MergeEnvs [] (St.vars s))) as [h ->].
    destruct (SetHash _ _ _) as [m changed] eqn:E. apply SetHash_spec in E.
    apply wp_bind. destruct changed.
    - apply wp_update_status, wp_ret. split; [|by eexists]. destruct E as (E1 & E2 & _).
      split_and!; [apply live_status; [apply Hi|done]|done|intros _; by exists h|exact HI|exact Hc].
    - apply wp_ret. split; [|by eexists]. split_and!; [done|done|intros _; by exists h|exact HI|exact Hc]. }
  unfold hash_and_consume, config_error. go.
Qed.

(** The volumes of the instance convert whatever its status. *)
Lemma wf_job st fs labels annotations : Wellformed i →
  is_Some (DbSyncJob (NeutronAPI.set_Status st (NeutronAPI.set_Finalizers fs i)) labels annotations).
Proof. intros Hwf. apply job_Some, (wf_volumes i). Qed.

Hint Resolve wf_job : goes.

Lemma goes_sync b U labels annotations : Wellformed i →
  goes_on b U b (without DBSyncReadyCondition U) (run_db_sync handler labels annotations) anything never.
Proof.
  intros Hwf. unfold run_db_sync. do 3 go_step.
  rewrite Ha. go.
Qed.

(** ** Services and Keystone *)

Lemma wf_service st fs t port : Wellformed i →
  let j := NeutronAPI.set_Status st (NeutronAPI.set_Finalizers fs i) in
  ∃ svc, NewService (service_details j serviceLabels t port) 5
           (RoutedOverrideSpec.OverrideSpec (service_override j t)) = inr svc.
Proof. intros Hwf. apply (wf_services i t port). Qed.

Lemma goes_expose_endpoint b U t : Wellformed i →
  goes_on b U b U (expose_endpoint handler serviceLabels t) anything never.
Proof.
  intros Hwf. unfold expose_endpoint, service_error. go_step. cbv zeta.
  destruct (wf_service st fs t (default 0%Z (neutronEndpoints !! t)) Hwf) as [svc Hsvc]. go.
  match goal with H : Service_GetAPIEndpoint _ ?u ?p ?x = inl _, H' : ∀ _ _ _, _ |- _ =>
    destruct (H' u p x); congruence end.
Qed.

Hint Resolve goes_expose_endpoint : goes.

Lemma goes_expose_endpoints b U types urls : Wellformed i →
  goes_on b U b U (expose_endpoints handler serviceLabels types urls) anything never.
Proof.
  intros Hwf. revert urls. induction types as [|t types IH]; intros urls; cbn [expose_endpoints]; go.
Qed.

Lemma goes_mirror b U t cs :
  mirrors_true cs t →
  goes_on b U b (without t U) (mirror_keystone t (cs, Result0, None)) anything never.
Proof.
  intros (c & Hc & Htrue). unfold mirror_keystone. rewrite Hc. go_step.
  eapply (goes_bind_set_true _ _ _ _ _ _ c); [done|]. rewrite (Mirror_type _ _ _ Hc). go.
Qed.

Lemma goes_register_keystone b U urls :
  goes_on b U b (without KeystoneServiceReadyCondition (without KeystoneEndpointReadyCondition U))
    (register_keystone handler serviceLabels urls) anything never.
Proof.
  unfold register_keystone. do 2 go_step. eapply goes_bind; [by apply goes_mirror|]. intros u _. go_step.
  eapply goes_weaken; [by apply goes_mirror|done|weaker].
Qed.

(** ** reconcileInit *)

Lemma goes_reconcileInit U annotations tn nn :
  Wellformed i → own_secret i tn → (∀ n, nn = Some n → own_secret i n) →
  goes_on false U true (λ t, U t ∧ t ∉ done_init)
    (reconcileInit handler serviceLabels annotations tn nn) (λ r, r = (Result0, None)) (λ r, r = (Result0, None)).
Proof.
  intros Hwf Htn Hnn.
  pose proof (λ U db l a Hdb, goes_configure false U db l a tn nn Hdb Htn Hnn).
  pose proof (λ b U l a, goes_sync b U l a Hwf). pose proof (λ b U l a, goes_expose_endpoints b U l a Hwf).
  pose proof (λ U, goes_consume U Hwf).
  pose proof goes_database. pose proof goes_certificates. pose proof goes_register_keystone.
  unfold reconcileInit, config_error. go.
Qed.

(** ** Rollout *)

Lemma goes_input_hash U r : goes_on true U true U (input_hash r) anything never.
Proof.
  intros s (Hi & Hh & Hb & HI & Hc). unfold input_hash. apply wp_bind, wp_instance.
  destruct (Hb eq_refl) as [h Hread]. unfold hashes in Hread. rewrite Hread. by apply wp_ret.
Qed.

Lemma goes_topology b U labels :
  goes_on b U b (λ t, U t ∧ (t = TopologyReadyCondition → SpecCore.TopologyRef (NeutronAPI.core i) = None))
    (ensure_topology handler labels) anything never.
Proof.
  unfold ensure_topology. go.
Qed.

Lemma goes_apply b U t em rm d :
  goes_on b U b U (apply_deployment handler t em rm d)
    (λ d', observed d' = true ∧ Deployment_IsReady d' = true) never.
Proof. unfold apply_deployment. go. Qed.

Hint Resolve goes_apply : goes.

Lemma goes_ready b U d h : goes_on b U b U (ready_for_input handler d h) (λ r, r = true) never.
Proof. unfold ready_for_input. go. Qed.

Hint Resolve goes_ready : goes.

Lemma goes_check_api b U labels h d :
  Deployment_IsReady d = true →
  goes_on b U b (without NetworkAttachmentsReadyCondition (without DeploymentReadyCondition U))
    (check_api handler labels h d) anything never.
Proof.
  intros Hd. unfold check_api, report_rollout. rewrite Hd. go.
Qed.

Hint Resolve goes_check_api : goes.

Lemma wf_deployment st fs h ls an t mc wsgi : Wellformed i →
  ∃ d, Deployment_ (NeutronAPI.set_Status st (NeutronAPI.set_Finalizers fs i)) h ls an t mc wsgi = Some (inr d).
Proof.
  intros Hwf. destruct (wf_certs i) as [[cv cm] Hc].
  destruct (deployment_Some (NeutronAPI.set_Status st (NeutronAPI.set_Finalizers fs i)) h ls an t mc wsgi)
    as [d Hd]; [apply (wf_volumes i)|]. rewrite Hd. revert Hd. unfold Deployment_. cbv zeta.
  change (SpecCore.TLS (NeutronAPI.core (NeutronAPI.set_Status st (NeutronAPI.set_Finalizers fs i))))
    with (SpecCore.TLS (NeutronAPI.core i)).
  rewrite Hc. destruct (GetVolumes _ _ _); [|discriminate]. cbn [mbind option_bind].
  destruct (ovn_service _); [|discriminate]. intros [= <-]. by eexists.
Qed.

Lemma goes_deploy_api b U annotations h t mc wsgi : Wellformed i →
  goes_on b U b (without NetworkAttachmentsReadyCondition (without DeploymentReadyCondition U))
    (deploy_api handler serviceLabels annotations h t mc wsgi) anything never.
Proof.
  intros Hwf. unfold deploy_api. go_step.
  destruct (wf_deployment st fs h (Some serviceLabels) (Some annotations) t mc wsgi Hwf) as [d ->]. go.
Qed.

Lemma wf_rpc st fs h ls an t mc : Wellformed i →
  is_Some (RPCDeployment (NeutronAPI.set_Status st (NeutronAPI.set_Finalizers fs i)) h ls an t mc).
Proof. intros Hwf. apply rpc_Some, (wf_volumes i). Qed.

Lemma wf_worker st fs h ls an t mc : Wellformed i →
  is_Some (WorkerDeployment (NeutronAPI.set_Status st (NeutronAPI.set_Finalizers fs i)) h ls an t mc).
Proof. intros Hwf. apply worker_Some, (wf_volumes i). Qed.

Lemma goes_delete_deployment b U name : goes_on b U b U (delete_deployment handler name) anything never.
Proof.
  unfold delete_deployment, fail_unless_not_found. do 2 go_step.
  destruct a as [e|]; unfold ok_or_gone in Hgood; cbn in Hgood; go.
Qed.

Hint Resolve goes_delete_deployment wf_rpc wf_worker : goes.

Lemma goes_rollout_workers b U annotations h t mc wsgi : Wellformed i →
  goes_on b U b (without NeutronRPCReadyCondition (without NeutronWorkerReadyCondition U))
    (rollout_workers handler annotations h t mc wsgi) anything never.
Proof.
  intros Hwf. destruct wsgi; cbn [rollout_workers].
  - unfold rollout_rpc, deploy_rpc, deploy_worker, report_rollout. go.
  - unfold remove_workers, for_each. go.
Qed.

Lemma goes_release b U : goes_on b U b U (release_accounts handler) anything never.
Proof. unfold release_accounts, fail_on. go. Qed.

Lemma goes_deleted b U name :
  goes_on b U b U (transportURLDeleted handler name) no_error no_error.
Proof.
  unfold transportURLDeleted. do 2 go_step. destruct a as [e|]; unfold ok_or_gone in Hgood; cbn in Hgood; go.
Qed.

Hint Resolve goes_deleted : goes.

Lemma goes_rotate b U cur tu : goes_on b U b U (rotate_credentials handler cur tu) anything never.
Proof.
  assert (∀ g, goes_on b U b U (rotate_transport handler cur g) anything never).
  { intros g. unfold rotate_transport, or_fail. go. }
  assert (∀ g, goes_on b U b U (rotate_notifications handler tu g) anything never).
  { intros g. unfold rotate_notifications, or_fail, fail_on. go. }
  assert (∀ g, goes_on b U b U (rotate_credential handler g) anything never).
  { intros g. unfold rotate_credential, or_fail. go. }
  unfold rotate_credentials, prune_finalizers, fail_on. go.
Qed.

End blocks.

(** The blocks a reconcile is composed of. *)
#[export] Hint Resolve goes_rbac goes_transport goes_notifications goes_transport_secret
  goes_service_secret goes_memcached goes_agents goes_networks goes_reconcileInit
  goes_input_hash goes_topology goes_probe goes_deploy_api goes_rollout_workers goes_release
  goes_rotate : goes.
