(* ===== verification/Liveness.v ===== *)
(** * A healthy cluster makes the NeutronAPI Ready

    The blocks of [Convergence] composed: one reconcile of an initialised
    NeutronAPI on a healthy cluster goes through to the end and patches it Ready;
    from any NeutronAPI two reconciles are enough.  The reconcile of a deletion
    goes through as well. *)

From S2P Require Import Prelude RpcWorkers K8s Conditions Lib Api GoMonad Pods External.
From S2P Require Import ImageProbe ExternalSecrets ServiceConfig Delete Init Inputs Rollout.
From S2P Require Import Reconcile Safety Protocol Emits Healthy Convergence.

Section liveness.
Context `{L : Lib} `{!LibLaws L} {W : Type} (handler : ∀ R, Call R → W → R * W).
Context (i : NeutronAPI.t) (I : W → Prop) (Hhealthy : healthy handler i I) (Hwf : Wellformed i).

(** The types that a reconcile leaves true, or without a condition. *)
Definition settled (t : CondType) : Prop :=
  t ∈ [DBReadyCondition; DBSyncReadyCondition; CreateServiceReadyCondition;
       RabbitMqTransportURLReadyCondition; MemcachedReadyCondition; InputReadyCondition;
       ServiceConfigReadyCondition; DeploymentReadyCondition; KeystoneServiceReadyCondition;
       KeystoneEndpointReadyCondition; NetworkAttachmentsReadyCondition;
       ServiceAccountReadyCondition; RoleReadyCondition; RoleBindingReadyCondition;
       NotificationBusInstanceReadyCondition; NeutronExternalConfigsReady;
       TLSInputReadyCondition; MariaDBAccountReadyCondition; NeutronRPCReadyCondition;
       NeutronWorkerReadyCondition] ∨
  t = TopologyReadyCondition ∧ SpecCore.TopologyRef (NeutronAPI.core i) ≠ None.

Abbreviation done_inputs :=
  [RabbitMqTransportURLReadyCondition; MemcachedReadyCondition; InputReadyCondition;
   ServiceAccountReadyCondition; RoleReadyCondition; RoleBindingReadyCondition;
   NotificationBusInstanceReadyCondition; NeutronExternalConfigsReady].

Lemma goes_prepare U :
  goes (W:=W) i I false U false (λ t, U t ∧ t ∉ done_inputs) (prepare handler)
    (λ r, own_secret i r.1.1.1 ∧
          ∀ n, TransportURL.SecretName <$> r.1.1.2 = Some n → own_secret i n) never.
Proof.
  unfold prepare. go. cbn [fst snd]. split; [done|]. intros n Hn. destruct a1 as [tu|]; [|done].
  injection Hn as <-. by apply Hgood1.
Qed.

Lemma goes_init U annotations tn nn :
  own_secret i tn → (∀ n, nn = Some n → own_secret i n) →
  goes (W:=W) i I false U true (λ t, U t ∧ t ∉ done_init)
    (init_update_upgrade handler annotations tn nn) (λ _, True) never.
Proof.
  intros Htn Hnn.
  unfold init_update_upgrade. go_step.
  change (call_fn reconcileUpdate) with (mret (Result0, None) : M (St.t W) RetVal RetVal).
  change (call_fn reconcileUpgrade) with (mret (Result0, None) : M (St.t W) RetVal RetVal).
  unfold return_unless_done. cbn [fst snd]. go.
Qed.

(** The instance is Ready and so are all the conditions it has. *)
Definition all_true (cs : Conditions) : Prop :=
  cond_status cs ReadyCondition = Some ConditionTrue ∧
  ∀ t st, cond_status cs t = Some st → st = ConditionTrue.

(** What is left to be true when a reconcile starts. *)
Definition pending_type (t : CondType) : Prop := t = ReadyCondition ∨ settled t.

Lemma normal_ready (s : St.t W) :
  fit i I false pending_type s →
  wp (reconcileNormal handler) (λ o s', o = Cont (Result0, None) ∧ live i (St.inst s') ∧
    I (St.world s') ∧ all_true (conds (St.inst s'))) s.
Proof.
  intros Hs. unfold reconcileNormal.
  eapply goes_then; [apply goes_prepare|exact Hs|]. intros [[[cur tu] mc] an] s1 [Hcur Htu] H1.
  eapply goes_then; [by apply goes_init|exact H1|]. intros r s2 _ H2.
  eapply goes_then; [apply goes_input_hash|exact H2|]. intros h s3 _ H3.
  eapply goes_then; [by apply goes_topology|exact H3|]. intros topology s4 _ H4.
  eapply goes_then; [eapply goes_unit, goes_bind_call_fn; [eapply goes_probe, Hhealthy|]|exact H4|].
  { intros a _. apply goes_ret; [intros Hb; exact Hb|intros t Ht; exact Ht|exact Logic.I]. }
  intros wsgi s5 _ H5.
  eapply goes_then; [by apply goes_deploy_api|exact H5|]. intros u s6 _ H6.
  eapply goes_then; [by apply goes_rollout_workers|exact H6|]. intros u0 s7 _ H7.
  eapply goes_then; [by apply goes_release|exact H7|]. intros u1 s8 _ H8.
  eapply goes_then; [by apply goes_rotate|exact H8|]. intros u2 s9 _ H9.
  assert (fit i I true (λ t, t = ReadyCondition) s9) as (Hi & _ & _ & HI & Hc).
  { eapply fit_weaken; [exact H9|done|]. intros t Ht. unfold without, pending_type, settled in Ht.
    rewrite ?not_elem_of_cons, ?elem_of_cons in Ht. pose proof (not_elem_of_nil t). tauto. }
  unfold report_ready. apply wp_bind, wp_bind, wp_instance, wp_when; intros Ha.
  - apply wp_update_inst, wp_ret. split_and!; [done|by apply live_status|done|].
    change (all_true (MarkTrue (conds (St.inst s9)) ReadyCondition (condition_msg "ReadyMessage"))).
    split; [by rewrite status_MarkTrue, decide_True|]. intros t st. rewrite status_MarkTrue.
    case_decide; [by intros [= <-]|]. intros Ht. destruct (Hc t st Ht); congruence.
  - exfalso. revert Ha. apply eq_true_false_abs, AllSubConditionIsTrue_spec.
    intros t st Hne Ht. by destruct (Hc t st Ht).
Qed.

(** ** Reconcile *)

(** The conditions of the instance that are not true are those that a reconcile
    sets. *)
Definition startable (j : NeutronAPI.t) : Prop :=
  ∀ t st, cond_status (conds j) t = Some st → st = ConditionTrue ∨ pending_type t.

Lemma initial_pending t : t ∈ Condition.Type_ <$> initial_conditions → pending_type t.
Proof.
  unfold initial_conditions, unknown. rewrite !fmap_cons, !UnknownCondition_type.
  unfold pending_type, settled. rewrite !elem_of_cons. cbn [fmap list_fmap]. pose proof (not_elem_of_nil t). tauto.
Qed.

Lemma startable_init cs t st :
  (∀ t st, cond_status cs t = Some st → st = ConditionTrue ∨ pending_type t) →
  cond_status (Init cs (CreateList initial_conditions)) t = Some st → st = ConditionTrue ∨ pending_type t.
Proof.
  intros Hcs Ht. destruct (decide (t ∈ Condition.Type_ <$> initial_conditions)) as [Hin|Hnin].
  - right. by apply initial_pending.
  - by apply (Hcs t), (status_Init_other _ initial_conditions).
Qed.

(** What the body of a reconcile comes to. *)
Definition advanced (ready : Prop) (s : St.t W) : Prop :=
  live i (St.inst s) ∧ I (St.world s) ∧ startable (St.inst s) ∧
  (ready → all_true (conds (St.inst s))).

Lemma body_advances isNew (s : St.t W) :
  NeutronAPI.DeletionTimestamp i = None → like i (St.inst s) → I (St.world s) → startable (St.inst s) →
  wp (reconcile_body handler isNew) (λ o s', (o = Cont (Result0, None) ∨ o = Ret (Result0, None)) ∧
    advanced (isNew = false ∧ GetFinalizer (NeutronAPI.Kind i) ∈ NeutronAPI.Finalizers (St.inst s)) s') s.
Proof.
  intros Hdel Hi HI Hst.
  assert (NeutronAPI.DeletionTimestamp (St.inst s) = None) as Hdel' by (by destruct Hi as (? & ? & ->)).
  assert (NeutronAPI.Kind (St.inst s) = NeutronAPI.Kind i) as Hk by (by destruct Hi as (? & ? & ->)).
  unfold reconcile_body. apply wp_bind, wp_update_inst, wp_bind, wp_update_inst, wp_bind, wp_instance, wp_bind.
  cbn [St.set_inst St.inst NeutronAPI.set_Status set_conds NeutronAPI.DeletionTimestamp
       NeutronAPI.Finalizers NeutronAPI.Kind].
  rewrite Hdel', Hk. rewrite bool_decide_eq_false_2 by apply is_Some_None.
  pose proof (AddFinalizer_changed (NeutronAPI.Finalizers (St.inst s)) (GetFinalizer (NeutronAPI.Kind i))) as Hch.
  pose proof (AddFinalizer_elem (NeutronAPI.Finalizers (St.inst s)) (GetFinalizer (NeutronAPI.Kind i))) as Hel.
  destruct (AddFinalizer _ _) as [fs added]. simpl in Hch, Hel.
  apply wp_bind, wp_update_inst, wp_ret, wp_bind, wp_when; intros Hnew.
  - apply wp_return. split; [by right|]. split_and!; [|done| |].
    + split; [by apply like_finalizers, like_status, like_status|]. split; [done|]. simpl. rewrite Hk. apply Hel. by right.
    + intros t st Ht. by eapply startable_init.
    + intros [-> Hin]. rewrite Hch in Hnew. by rewrite bool_decide_eq_false_2 in Hnew by tauto.
  - apply wp_bind, wp_update_status, wp_bind, wp_update_status, wp_call_fn.
    apply orb_false_iff in Hnew as [Hadded ->]. rewrite Hch in Hadded.
    apply bool_decide_eq_false_1 in Hadded.
    eapply wp_mono; [apply normal_ready|].
    + split_and!.
      * split; [by apply like_status, like_status, like_finalizers, like_status, like_status|].
        split; [done|]. simpl. rewrite Hk. apply Hel. by right.
      * unfold hashes. simpl. destruct (Status.Hash _); by eexists.
      * done.
      * exact HI.
      * intros t st Ht. by eapply startable_init.
    + intros o s' (-> & Hl & HI' & Htrue & Hall). split; [by left|]. split_and!; [done|done| |done].
      intros t st Ht. left. by apply (Hall t).
Qed.

(** The last call of the reconcile stores the instance, which is Ready when
    [ready]. *)
Definition stored (ready : Prop) (r : RetVal) (s : St.t W) : Prop :=
  r = (Result0, None) ∧ advanced ready s ∧ (ready → IsReady (St.inst s) = true) ∧
  ∃ tr w, St.trace s = Ev (PatchInstance (St.inst s)) None :: tr ∧ I w ∧
          handler _ (PatchInstance (St.inst s)) w = (None, St.world s).

Lemma store_instance ready (s s2 : St.t W) :
  advanced ready s → live i (St.inst s2) → St.world s2 = St.world s →
  (∀ t, t ≠ ReadyCondition → cond_status (conds (St.inst s2)) t = cond_status (conds (St.inst s)) t) →
  (ready → cond_status (conds (St.inst s2)) ReadyCondition = Some ConditionTrue) →
  wp (i ← instance; err ← call handler (PatchInstance i);
      match err with Some err => mret ((Result0, None : option error).1, Some err)
                   | None => mret (Result0, None) end) (post (stored ready)) s2.
Proof.
  intros (Hl & HI & Hst & Hready) Hl2 Hw2 Hc2 Hr2.
  apply wp_bind, wp_instance, wp_bind, wp_call. intros err w Hcall.
  rewrite Hw2 in Hcall. destruct (Hhealthy _ (PatchInstance (St.inst s2)) _ HI) as [Hg Hw].
  rewrite Hcall in Hg, Hw. cbn in Hg. subst err. apply wp_ret. split; [done|]. split_and!.
  - split_and!; [done|done| |].
    + intros t st Ht. destruct (decide (t = ReadyCondition)) as [->|Hne]; [right; by left|].
      cbn in Ht. rewrite Hc2 in Ht by done. by apply Hst.
    + intros H. destruct (Hready H) as [_ Hall]. split; [by apply Hr2|]. cbn. intros t st.
      destruct (decide (t = ReadyCondition)) as [->|Hne]; [rewrite Hr2 by done; congruence|].
      rewrite Hc2 by done. apply Hall.
  - intros H. by apply IsTrue_spec, Hr2.
  - by eexists _, (St.world s).
Qed.

(** The deferred patch. *)
Lemma patch_stores ready saved (s : St.t W) :
  advanced ready s → fn_spec (patch_status handler saved (Result0, None)) (stored ready) s.
Proof.
  intros Ha. pose proof Ha as (Hl & _ & _ & Hready). unfold fn_spec, patch_status.
  apply wp_bind, wp_update_inst, wp_bind, wp_instance, wp_bind. set (s1 := St.set_inst _ s).
  assert (∀ t, cond_status (conds (St.inst s1)) t = cond_status (conds (St.inst s)) t) as Hc
    by (intros t; apply status_Restore).
  assert (live i (St.inst s1)) as Hl1 by (by apply live_status).
  assert (ready → cond_status (conds (St.inst s1)) ReadyCondition = Some ConditionTrue) as Hr1
    by (intros H; rewrite Hc; by apply Hready).
  apply wp_when; intros Hunk; [|by apply (store_instance _ s)].
  destruct (Mirror (conds (St.inst s1)) ReadyCondition) as [c|] eqn:Hm;
    [|by apply wp_ret, (store_instance _ s)].
  apply wp_update_inst, (store_instance _ s); [done|by apply live_status|done| |].
  - intros t Hne. change (cond_status (Set_ (conds (St.inst s1)) c) t = cond_status (conds (St.inst s)) t).
    rewrite status_Set, decide_False by (rewrite (Mirror_type _ _ _ Hm); congruence). apply Hc.
  - intros H. destruct (IsUnknown_not_true _ _ Hunk (Hr1 H)).
Qed.

(** The start of a reconcile: the NeutronAPI is read, and gets conditions when it
    has none. *)
Definition with_conditions (j : NeutronAPI.t) : NeutronAPI.t :=
  if bool_decide (Status.Conditions (NeutronAPI.Status j) = None)
  then NeutronAPI.set_Status (Status.set_Conditions (Some []) (NeutronAPI.Status j)) j else j.

Lemma wp_read nn j (Q : outcome RetVal RetVal → St.t W → Prop) (s : St.t W) :
  I (St.world s) → (handler _ (GetNeutronAPI nn) (St.world s)).1 = inr j →
  (∀ s1, I (St.world s1) → St.inst s1 = with_conditions j →
     wp (deferred (reconcile_body handler (bool_decide (Status.Conditions (NeutronAPI.Status j) = None)))
           (patch_status handler (conds (St.inst s1)))) Q s1) →
  wp (Reconcile handler nn) Q s.
Proof.
  intros HI Hget Hrest. unfold Reconcile. apply wp_bind, wp_call. intros answer w Ha.
  destruct (Hhealthy _ (GetNeutronAPI nn) _ HI) as [_ Hw]. rewrite Ha in Hget, Hw. cbn in Hget, Hw. subst answer.
  apply wp_bind, wp_ret, wp_bind, wp_update_inst, wp_bind, wp_call. intros err w' Hh. cbn in Hh.
  destruct (Hhealthy _ (NewHelper (NeutronAPI.Name j)) _ Hw) as [Hg Hw']. rewrite Hh in Hg, Hw'. cbn in Hg, Hw'. subst err.
  apply wp_bind. unfold fail_on. apply wp_ret, wp_bind, wp_when; intros Hnew.
  - apply wp_update_status, wp_bind, wp_instance, Hrest; [done|]. unfold with_conditions. by rewrite Hnew.
  - apply wp_bind, wp_instance, Hrest; [done|]. unfold with_conditions. by rewrite Hnew.
Qed.

(** One reconcile. *)
Lemma reconcile_stores nn j (s : St.t W) :
  NeutronAPI.DeletionTimestamp i = None → I (St.world s) →
  (handler _ (GetNeutronAPI nn) (St.world s)).1 = inr j → like i j → startable j →
  fn_spec (Reconcile handler nn) (stored (initialised j)) s.
Proof.
  intros Hdel HI Hget Hj Hst. apply (wp_read nn j); [done..|]. intros s1 HI1 Hi1. apply wp_deferred.
  assert (like i (St.inst s1) ∧ startable (St.inst s1) ∧
    NeutronAPI.Finalizers (St.inst s1) = NeutronAPI.Finalizers j) as (Hl & Hst1 & Hf).
  { rewrite Hi1. unfold with_conditions. case_bool_decide as Hc; [|done].
    split_and!; [by apply like_status| |done]. intros t st Ht. apply (Hst t). unfold conds. by rewrite Hc. }
  assert (NeutronAPI.Kind i = NeutronAPI.Kind j) as Hk by (by destruct Hj as (? & ? & ->)).
  eapply wp_mono; [by apply body_advances|]. intros o s' [Ho Ha].
  assert (advanced (initialised j) s') as Hadv.
  { destruct Ha as (?&?&?&Hr). split_and!; [done..|]. intros [Hc Hin]. apply Hr.
    by rewrite bool_decide_eq_false_2, Hf, Hk. }
  destruct Ho as [->| ->]; exact (patch_stores _ _ _ Hadv).
Qed.

(** ** Reconcile after reconcile *)

(** [n] reconciles from the cluster [w]: what each returned, and the state after
    the last; the NeutronAPI a reconcile starts with is not used. *)
Fixpoint reconciles (nn : NamespacedName.t) (i0 : NeutronAPI.t) (n : nat) (w : W)
  : option (list RetVal * NeutronAPI.t * W) :=
  match n with
  | 0 => Some ([], i0, w)
  | S n =>
      '(r, s) ← returns (Reconcile handler nn) (St.mk i0 ∅ w []);
      '(rs, i', w') ← reconciles nn (St.inst s) n (St.world s);
      Some (r :: rs, i', w')
  end.

Lemma reconciles_ready nn n i0 j w :
  NeutronAPI.DeletionTimestamp i = None →
  (∀ p w, I w → (handler _ (GetNeutronAPI nn) (handler _ (PatchInstance p) w).2).1 = inr p) →
  I w → (handler _ (GetNeutronAPI nn) w).1 = inr j → like i j → startable j →
  (initialised j ∧ 0 < n ∨ 1 < n) →
  ∃ p w', reconciles nn i0 n w = Some (replicate n (Result0, None), p, w') ∧
          (handler _ (GetNeutronAPI nn) w').1 = inr p ∧ IsReady p = true.
Proof.
  intros Hdel Hstore. revert i0 j w. induction n as [|n IH]; intros i0 j w HI Hget Hj Hst Hn; [lia|].
  destruct (proj1 (fn_spec_returns _ _ _) (reconcile_stores nn j (St.mk i0 ∅ w []) Hdel HI Hget Hj Hst))
    as (r & s & Hr & -> & ([Hl Hinit] & HI' & Hst' & _) & Hready & tr & w0 & _ & Hw0 & Hp).
  cbn [reconciles]. rewrite Hr. cbn [mbind option_bind].
  assert ((handler _ (GetNeutronAPI nn) (St.world s)).1 = inr (St.inst s)) as Hget'.
  { specialize (Hstore (St.inst s) w0 Hw0). by rewrite Hp in Hstore. }
  destruct n as [|n].
  - exists (St.inst s), (St.world s). split_and!; [done..|]. destruct Hn as [[Hin _]|]; [by apply Hready|lia].
  - destruct (IH (St.inst s) (St.inst s) (St.world s)) as (p & w' & -> & H); [done..|left; split; [done|lia]|].
    by exists p, w'.
Qed.

(** C5: a NeutronAPI becomes Ready on a healthy cluster and stays so.  The
    cluster answers every call as [good] says, in the states [I] that it keeps,
    and hands back the NeutronAPI that was patched last.  From a NeutronAPI that
    is not being deleted, whose pods the libraries can build and whose untrue
    conditions are among those a reconcile sets, no reconcile fails, panics or
    asks for a requeue, and after two of them, or one if the conditions and the
    finalizer are there already, the stored NeutronAPI is Ready. *)
Theorem healthy_cluster_ready nn n i0 w :
  NeutronAPI.DeletionTimestamp i = None → startable i →
  (∀ p w, I w → (handler _ (GetNeutronAPI nn) (handler _ (PatchInstance p) w).2).1 = inr p) →
  I w → (handler _ (GetNeutronAPI nn) w).1 = inr i →
  (initialised i ∧ 0 < n ∨ 1 < n) →
  ∃ p w', reconciles nn i0 n w = Some (replicate n (Result0, None), p, w') ∧
          (handler _ (GetNeutronAPI nn) w').1 = inr p ∧ IsReady p = true.
Proof.
  intros Hdel Hst Hstore HI Hget Hn.
  pose proof (like_refl i). by apply (reconciles_ready nn n i0 i w).
Qed.

(** ** Deletion *)

Lemma goes_gone {A} b U (r : error + A) e :
  found_or_gone r → r = inl e →
  goes (W:=W) i I b U b U (fail_unless_not_found (Some e)) (λ _, True) never.
Proof. intros Hr ->. cbn in Hr. cbn [fail_unless_not_found]. rewrite Hr. cbn [negb when]. go. Qed.

Lemma goes_ok_or_gone b U err :
  ok_or_gone err → goes (W:=W) i I b U b U (fail_unless_not_found err) (λ _, True) never.
Proof.
  intros He. destruct err as [e|]; cbn in *; [rewrite He; cbn [negb when]; go|go].
Qed.

Lemma goes_release_database b U :
  goes (W:=W) i I b U b U (release_database handler) (λ _, True) never.
Proof.
  unfold release_database, fail_on. do 2 go_step. destruct a as [e|db] eqn:E; [by eapply goes_gone|go].
Qed.

Lemma goes_release_keystone b U get update :
  (∀ r, good i get r → found_or_gone r) → (∀ o r, good i (update o) r → ok_or_gone r) →
  goes (W:=W) i I b U b U (release_keystone handler get update) (λ _, True) never.
Proof.
  intros Hget Hup. unfold release_keystone. go_step. eapply goes_bind_call; [exact Hhealthy|].
  intros r Hr%Hget. destruct r as [e|o] eqn:E; [by eapply goes_gone|].
  destruct (RemoveFinalizer _ _) as [rest removed]. destruct removed; cbn [when]; [|go].
  eapply goes_bind_call; [exact Hhealthy|]. intros err He%Hup. by apply goes_ok_or_gone.
Qed.

Lemma goes_live b U ns names :
  goes (W:=W) i I b U b U (live_transport_secrets handler ns names) (λ _, True) never.
Proof.
  induction names as [|name names IH]; cbn [live_transport_secrets]; [go|].
  go_step. destruct a as [e|tu] eqn:E; [|go].
  eapply goes_bind; [by eapply goes_gone|]. by intros _ _.
Qed.

Lemma goes_remove b U ns f secrets :
  goes (W:=W) i I b U b U (remove_consumer_finalizers handler ns f secrets) (λ _, True) never.
Proof.
  unfold remove_consumer_finalizers, fail_on. induction secrets as [|x secrets IH]; cbn [for_each]; go.
Qed.

Lemma goes_references b U : goes (W:=W) i I b U b U (delete_references handler) (λ _, True) never.
Proof.
  pose proof (goes_release_database b U). pose proof (goes_live b U). pose proof (goes_remove b U).
  assert (goes (W:=W) i I b U b U (release_topology handler) (λ _, True) never).
  { unfold release_topology. go. }
  assert (goes (W:=W) i I b U b U (release_transport handler) (λ _, True) never).
  { unfold release_transport. go. }
  assert (∀ ns, goes (W:=W) i I b U b U
    (release_keystone handler (GetKeystoneEndpointWithName ServiceName ns) UpdateKeystoneEndpoint)
    (λ _, True) never) by (intros ns; by apply goes_release_keystone).
  assert (∀ ns, goes (W:=W) i I b U b U
    (release_keystone handler (GetKeystoneServiceWithName ServiceName ns) UpdateKeystoneService)
    (λ _, True) never) by (intros ns; by apply goes_release_keystone).
  unfold delete_references, prune_all, fail_on. go.
Qed.

Definition own_finalizer_gone (s : St.t W) : Prop :=
  ∀ f, f ∈ NeutronAPI.Finalizers (St.inst s) ↔
       f ∈ NeutronAPI.Finalizers i ∧ f ≠ GetFinalizer (NeutronAPI.Kind i).

Lemma delete_ends (s : St.t W) :
  fit i I false (λ _, True) s →
  wp (reconcileDelete handler) (λ o s', o = Cont (Result0, None) ∧ I (St.world s') ∧
    all_released (St.inst s) (St.trace s') ∧
    NeutronAPI.Finalizers (St.inst s') =
      (RemoveFinalizer (NeutronAPI.Finalizers (St.inst s)) (GetFinalizer (NeutronAPI.Kind (St.inst s)))).1) s.
Proof.
  intros Hs. unfold reconcileDelete. apply wp_bind.
  pose proof (goes_references false (λ _, True) s Hs) as Hgo. pose proof (seg_references handler s) as Hseg.
  unfold wp at 1 in Hgo. unfold seg, wp at 1 in Hseg. unfold wp at 1.
  destruct (delete_references handler s) as [[u|r|] s1]; cbn [fst snd] in *;
    [|by destruct Hgo as [_ []]|done].
  destruct Hgo as [(_ & _ & _ & HI & _) _]. destruct Hseg as (Hi & _ & Hrel).
  apply wp_bind, wp_update_inst, wp_ret. rewrite Hi. by split_and!.
Qed.

Lemma body_deletes (s : St.t W) :
  St.inst s = i → NeutronAPI.DeletionTimestamp i ≠ None → initialised i → I (St.world s) →
  wp (reconcile_body handler false) (λ o s', o = Cont (Result0, None) ∧ I (St.world s') ∧
    all_released i (St.trace s') ∧ own_finalizer_gone s') s.
Proof.
  intros Hi Hdel [Hc Hf] HI. unfold reconcile_body.
  apply wp_bind, wp_update_inst, wp_bind, wp_update_inst, wp_bind, wp_instance, wp_bind.
  cbn [St.set_inst St.inst NeutronAPI.set_Status set_conds NeutronAPI.DeletionTimestamp].
  rewrite Hi, bool_decide_eq_true_2 by (by apply not_eq_None_Some).
  apply wp_ret, wp_bind. cbn [orb when]. apply wp_ret, wp_bind, wp_update_status, wp_bind, wp_update_status, wp_call_fn.
  eapply wp_mono; [apply delete_ends|].
  - split_and!.
    + split; [apply like_status, like_status, like_status, like_status, like_refl|]. by split.
    + unfold hashes. simpl. destruct (Status.Hash _); by eexists.
    + done.
    + exact HI.
    + by right.
  - intros o s' (-> & HI' & Hr & Hfs). split_and!; [done|done|exact Hr|].
    intros f. rewrite Hfs. apply RemoveFinalizer_elem.
Qed.

Lemma patch_ends saved r (s : St.t W) :
  I (St.world s) →
  fn_spec (patch_status handler saved r) (λ r' s', r' = r ∧
    (∃ st, St.inst s' = NeutronAPI.set_Status st (St.inst s)) ∧
    St.trace s' = Ev (PatchInstance (St.inst s')) None :: St.trace s) s.
Proof.
  intros HI. unfold fn_spec, patch_status.
  assert (∀ s2, St.world s2 = St.world s → St.trace s2 = St.trace s →
    (∃ st, St.inst s2 = NeutronAPI.set_Status st (St.inst s)) →
    wp (i ← instance; err ← call handler (PatchInstance i);
        match err with Some err => mret (r.1, Some err) | None => mret r end)
      (post (λ r' s', r' = r ∧ (∃ st, St.inst s' = NeutronAPI.set_Status st (St.inst s)) ∧
         St.trace s' = Ev (PatchInstance (St.inst s')) None :: St.trace s)) s2) as Hend.
  { intros s2 Hw2 Ht2 Hi2. apply wp_bind, wp_instance, wp_bind, wp_call. intros err w Hcall.
    rewrite Hw2 in Hcall. destruct (Hhealthy _ (PatchInstance (St.inst s2)) _ HI) as [Hg _].
    rewrite Hcall in Hg. cbn in Hg. subst err. apply wp_ret. by rewrite <-Ht2. }
  apply wp_bind, wp_update_inst, wp_bind, wp_instance, wp_bind, wp_when; intros _.
  - destruct (Mirror _ _) as [c|]; [apply wp_update_inst|apply wp_ret]; apply Hend; [done|done|by eexists..].
  - apply Hend; [done|done|by eexists].
Qed.

(** C9: a deletion goes through on a healthy cluster.  One reconcile of a
    NeutronAPI that is being deleted and has its conditions and its finalizer
    returns without an error or a requeue, after every reference the operator
    holds on other objects was released, and its last call stores the NeutronAPI
    without the operator's finalizer and with all its other finalizers. *)
Theorem healthy_cluster_deletes nn (s : St.t W) :
  NeutronAPI.DeletionTimestamp i ≠ None → initialised i →
  I (St.world s) → (handler _ (GetNeutronAPI nn) (St.world s)).1 = inr i →
  ∃ s' tr, returns (Reconcile handler nn) s = Some ((Result0, None), s') ∧
    St.trace s' = Ev (PatchInstance (St.inst s')) None :: tr ∧ all_released i tr ∧
    own_finalizer_gone s'.
Proof.
  intros Hdel Hinit HI Hget.
  assert (fn_spec (Reconcile handler nn) (λ r s', r = (Result0, None) ∧ ∃ tr,
    St.trace s' = Ev (PatchInstance (St.inst s')) None :: tr ∧ all_released i tr ∧ own_finalizer_gone s') s)
    as H; [|apply fn_spec_returns in H as (r & s' & Hr & -> & tr & H); by exists s', tr].
  apply (wp_read nn i); [done..|]. intros s1 HI1 Hi1. apply wp_deferred.
  unfold with_conditions in Hi1. rewrite bool_decide_eq_false_2 in * by apply Hinit.
  eapply wp_mono; [by apply body_deletes|].
  intros o s2 (-> & HI2 & Hrel & Hgone). eapply fn_spec_mono; [by apply patch_ends|].
  intros r s' (-> & [st Hi'] & Htr). split; [done|]. exists (St.trace s2). split_and!; [done|done|].
  intros f. rewrite Hi'. apply Hgone.
Qed.

End liveness.
