(* ===== verification/Lease.v ===== *)
(** * The lease of the transport Secret

    The consumer finalizer on a transport Secret is a lease: while it is there,
    RabbitMQ keeps the credential alive.  Reconciles overlap with rotations, fail
    half-way and are repeated, so the lease is a property of sequences of
    reconciles: [Lease.step] interleaves them with whatever else happens in the
    cluster, and the theorem says that the Secret which the last applied
    Deployments were configured with is leased in every reachable state. *)

From S2P Require Import Prelude RpcWorkers K8s Conditions Lib Reference Api GoMonad Pods External.
From S2P Require Import ImageProbe ExternalSecrets ServiceConfig Delete Init Inputs Rollout.
From S2P Require Import Reconcile Frame Rotation Samples Replay Guarantees.

(** A call that may take the transport finalizer off the Secret [x] of [ns]. *)
Definition removes (ns x : string) (ev : event) : bool :=
  match ev with
  | Ev c _ =>
      match c with
      | RemoveSecretConsumerFinalizer ns' y f =>
          bool_decide (ns' = ns) && bool_decide (y = x) && bool_decide (f = TransportConsumerFinalizer)
      | PruneSecretConsumerFinalizers ns' f keep =>
          bool_decide (ns' = ns) && bool_decide (f = TransportConsumerFinalizer) &&
          bool_decide (x ∉ keep)
      | FinalizeSecretRotation ns' old cur f ready =>
          ready && bool_decide (ns' = ns) && bool_decide (f = TransportConsumerFinalizer) &&
          bool_decide (old = x) && bool_decide (old ≠ cur)
      | _ => false
      end
  end.

(** Neither a Deployment nor a finalizer call that removes. *)
Definition calm (ev : event) : bool :=
  match ev with
  | Ev c _ =>
      match c with
      | RemoveSecretConsumerFinalizer _ _ _ | PruneSecretConsumerFinalizers _ _ _
      | FinalizeSecretRotation _ _ _ _ _ | Deployment_CreateOrPatch _ _ => false
      | _ => true
      end
  end.

(** No removing call, but possibly a Deployment. *)
Definition no_removal (ev : event) : bool := calm ev || deploys ev.

Definition spares (ns x : string) (ev : event) : bool := negb (removes ns x ev).

Lemma no_removal_spares ns x ev : no_removal ev = true → spares ns x ev = true.
Proof. destruct ev as [R c r]. by destruct c. Qed.

Lemma calm_no_removal ev : calm ev = true → no_removal ev = true.
Proof. unfold no_removal. by intros ->. Qed.

Lemma preparatory_calm ev : preparatory ev = true → calm ev = true.
Proof. destruct ev as [R c r]. by destruct c. Qed.

(** A successful call that puts the finalizer on the Secret [x] of [ns]. *)
Definition grants (ns x : string) (ev : event) : bool :=
  match ev with
  | Ev c r =>
      match c in Call R return R → bool with
      | ManageSecretConsumerFinalizer ns' y f => λ r,
          bool_decide (ns' = ns) && bool_decide (y = x) &&
          bool_decide (f = TransportConsumerFinalizer) && bool_decide (r = None)
      | _ => λ _, false
      end r
  end.

(** The namespace and Secret of the messaging bus: what the first TransportURL of
    the trace (latest call first) came back with. *)
Definition transport_url (ev : event) : option (string * string) :=
  match ev with
  | Ev c r =>
      match c in Call R return R → option (string * string) with
      | CreateOrUpdateTransportURL nn _ _ =>
          λ r, Some (NamespacedName.Namespace nn, TransportURL.SecretName r.1.1)
      | _ => λ _, None
      end r
  end.

Fixpoint messaging_secret (tr : list event) : option (string * string) :=
  match tr with
  | [] => None
  | ev :: tr =>
      match messaging_secret tr with
      | Some x => Some x
      | None => transport_url ev
      end
  end.

Lemma messaging_app evs tr v :
  messaging_secret tr = Some v → messaging_secret (evs ++ tr) = Some v.
Proof. intros H. induction evs as [|ev evs IH]; simpl; [done|]. by rewrite IH. Qed.

Lemma messaging_none evs tr :
  messaging_secret tr = None → (∀ ev, ev ∈ evs → transport_url ev = None) →
  messaging_secret (evs ++ tr) = None.
Proof.
  intros Ht H. induction evs as [|ev evs IH]; simpl; [done|].
  rewrite IH; [apply H; by left|]. intros e He. apply H. by right.
Qed.

(** ** The finalizers in the cluster *)

Section laws.
Context {W : Type} (handler : ∀ R, Call R → W → R * W).

(** [leased w ns x]: the Secret [x] of [ns] carries the transport finalizer.
    [ManageSecretConsumerFinalizer] puts it there; [removes] lists the calls
    that can take it off. *)
Class SecretFinalizers (leased : W → string → string → Prop) : Prop := {
  manage_leases ns x w w' :
    handler _ (ManageSecretConsumerFinalizer ns x TransportConsumerFinalizer) w = (None, w') →
    leased w' ns x;
  call_leases A (c : Call A) a w w' ns x :
    handler A c w = (a, w') → removes ns x (Ev c a) = false → leased w ns x → leased w' ns x;
}.

Context (leased : W → string → string → Prop) `{!SecretFinalizers leased}.

Lemma replay_leased w0 tr w ns x :
  replay handler w0 tr w → forallb (spares ns x) tr = true →
  leased w0 ns x ∨ existsb (grants ns x) tr = true → leased w ns x.
Proof.
  intros Hr. induction Hr as [|A c a tr w w' Hr IH Hc]; simpl.
  - by intros _ [H|H].
  - intros [H1 H2]%andb_prop Hor. apply negb_true_iff in H1.
    destruct Hor as [H|[H|H]%orb_prop].
    + eapply call_leases; [exact Hc|exact H1|]. apply IH; [done|by left].
    + destruct c; try discriminate H. simpl in H. repeat apply andb_prop in H as [H ?].
      repeat match goal with H : bool_decide _ = true |- _ => apply bool_decide_eq_true in H end.
      subst. by eapply manage_leases.
    + eapply call_leases; [exact Hc|exact H1|]. apply IH; [done|by right].
Qed.
End laws.

(** ** One reconcile *)

(** A reconcile that applies no Deployment takes no finalizer off; one that does
    has put the finalizer on the messaging Secret, and spares it. *)
Definition orderly (tr : list event) : Prop :=
  (existsb deploys tr = false → forallb no_removal tr = true) ∧
  (existsb deploys tr = true →
   ∃ ns x, messaging_secret tr = Some (ns, x) ∧ existsb (grants ns x) tr = true ∧
           forallb (spares ns x) tr = true).

Lemma forallb_impl {A} (p p' : A → bool) l :
  (∀ x, p x = true → p' x = true) → forallb p l = true → forallb p' l = true.
Proof. rewrite !forallb_forall. auto. Qed.

Lemma calm_orderly tr : forallb calm tr = true → orderly tr.
Proof.
  intros H. split; [intros _; by eapply forallb_impl, H; apply calm_no_removal|].
  intros Hd. apply existsb_exists in Hd as ([R c r] & Hin & Hd). rewrite forallb_forall in H.
  specialize (H _ Hin). by destruct c.
Qed.

(** The messaging Secret is known and protected. *)
Definition granted (ns x : string) (tr : list event) : Prop :=
  messaging_secret tr = Some (ns, x) ∧ existsb (grants ns x) tr = true.

Lemma granted_app ns x evs tr : granted ns x tr → granted ns x (evs ++ tr).
Proof.
  intros [H1 H2]. split; [by apply messaging_app|]. by rewrite existsb_app, H2, orb_true_r.
Qed.

Lemma granted_orderly ns x tr : granted ns x tr → forallb no_removal tr = true → orderly tr.
Proof.
  intros [H1 H2] H. split; [done|]. intros _. exists ns, x. split_and!; [done..|].
  eapply forallb_impl, H. apply no_removal_spares.
Qed.

Lemma deployed_orderly ns x tr :
  granted ns x tr → existsb deploys tr = true → forallb (spares ns x) tr = true → orderly tr.
Proof. intros [Hm Hg] Hd Hs. split; [congruence|]. intros _. by exists ns, x. Qed.

Section lease.
Context `{L : Lib} `{!LibLaws L} {W : Type} (handler : ∀ R, Call R → W → R * W).
Context `{!Cluster handler}.

(** [ends m P s]: where [m] goes on, [P]; where it ends the reconcile, an orderly
    trace. *)
Definition ends {A} (m : M (St.t W) RetVal A) (P : A → St.t W → Prop) (s : St.t W) : Prop :=
  wp m (λ o s', match o with Cont a => P a s' | _ => orderly (St.trace s') end) s.

Lemma ends_bind {A B} (m : M (St.t W) RetVal A) (k : A → M (St.t W) RetVal B) P s :
  ends m (λ a s', ends (k a) P s') s → ends (m ≫= k) P s.
Proof.
  unfold ends, wp, mbind, M_bind. by destruct (m s) as [[a|r|] s'].
Qed.

Lemma ends_frames {A} b T q (m : M (St.t W) RetVal A) (P : A → St.t W → Prop) s :
  frames b T q m → (∀ s', frame b T q s s' → orderly (St.trace s')) →
  wpc m (λ a s', frame b T q s s' → P a s') s → ends m P s.
Proof.
  intros Hf Ho Hc. specialize (Hf s). unfold ends, wpc, wp in *.
  destruct (m s) as [[a|r|] s']; simpl in *; auto.
Qed.

(** *** The inputs *)

(** No Deployment and no removal so far. *)
Definition calmed (s : St.t W) : Prop := forallb calm (St.trace s) = true.

Lemma frame_calmed b T q s s' :
  (∀ ev, q ev = true → calm ev = true) → frame b T q s s' → calmed s → calmed s'.
Proof.
  intros Hq (_ & _ & _ & evs & Ht & He) Hs. unfold calmed. rewrite Ht, forallb_app, Hs, andb_true_r.
  by eapply forallb_impl, He.
Qed.

(** The recorded notifications Secret is not the messaging Secret, unless it is
    the current one of its own bus. *)
Definition harmless (cur : string) (notif : option TransportURL.t) (s : St.t W) : Prop :=
  recorded_notifications s = Some cur → ∃ tu, notif = Some tu ∧ TransportURL.SecretName tu = cur.

(** What is known once the inputs are there; [r0] is the notifications Secret
    that the status recorded at the beginning. *)
Definition secured (r0 : option string) (cur : string) (notif : option TransportURL.t)
    (s : St.t W) : Prop :=
  cur ≠ "" ∧ granted (NeutronAPI.Namespace (St.inst s)) cur (St.trace s) ∧
  (r0 ≠ Some cur → harmless cur notif s).

Lemma secured_frame b T q r0 cur notif s s' :
  frame b T q s s' → recorded_notifications s' = recorded_notifications s →
  secured r0 cur notif s → secured r0 cur notif s'.
Proof.
  intros ([st Hi] & _ & _ & evs & Ht & _) Hr (Hne & Hg & Hh). split_and!; [done|..].
  - rewrite Hi, Ht. by apply granted_app.
  - unfold harmless. rewrite Hr. exact Hh.
Qed.

Definition same_record (r : option string) (s : St.t W) : Prop := recorded_notifications s = r.

#[local] Instance same_record_steady r : Steady handler (same_record r).
Proof.
  split; [done..|]. intros st s (Hn & _) Hs. unfold same_record, recorded_notifications in *.
  simpl. congruence.
Qed.

(** A piece of the controller that is preparatory and leaves the record alone. *)
Lemma lease_quiet {A} b T (m : M (St.t W) RetVal A) r0 cur notif s :
  frames b T preparatory m → (∀ r, keeps (same_record r) m) →
  calmed s → secured r0 cur notif s → ends m (λ _ s', calmed s' ∧ secured r0 cur notif s') s.
Proof.
  intros Hf Hk Hs Hsec. eapply ends_frames; [exact Hf| |].
  - intros s' H. apply calm_orderly. by eapply frame_calmed; [apply preparatory_calm|..].
  - specialize (Hk (recorded_notifications s) s eq_refl). unfold wpc, wp.
    destruct (m s) as [[a|r|] s']; simpl in *; [|done..]. intros H. split.
    + by eapply frame_calmed; [apply preparatory_calm|..].
    + by eapply secured_frame.
Qed.

Lemma ends_rbac s :
  calmed s → messaging_secret (St.trace s) = None →
  ends (ensure_rbac handler) (λ _ s', calmed s' ∧ messaging_secret (St.trace s') = None ∧
    recorded_notifications s' = recorded_notifications s) s.
Proof.
  intros Hs Hm. pose (q := λ ev, calm ev && bool_decide (transport_url ev = None)).
  assert (frames false (λ _, false) q (ensure_rbac handler)) as Hf
    by (unfold ensure_rbac, return_unless_done; frames; by apply frames_rbac).
  assert (∀ ev, q ev = true → calm ev = true) as Hq by (by intros ev [? _]%andb_prop).
  eapply ends_frames; [exact Hf| |].
  - intros s' H. apply calm_orderly. by eapply frame_calmed.
  - pose proof (steady_rbac handler (same_record (recorded_notifications s)) s eq_refl) as Hr.
    unfold wpc, wp. destruct (ensure_rbac handler s) as [[a|r|] s']; simpl in *; [|done..].
    intros H. split_and!; [by eapply frame_calmed| |done].
    destruct H as (_ & _ & _ & evs & -> & He). apply messaging_none; [done|]. intros ev Hev.
    rewrite forallb_forall in He. apply list_elem_of_In, He, andb_prop in Hev as [_ Hev].
    by apply bool_decide_eq_true in Hev.
Qed.

Lemma ends_transport s :
  calmed s → messaging_secret (St.trace s) = None →
  ends (ensure_transport handler) (λ cur s', calmed s' ∧ cur ≠ "" ∧
    granted (NeutronAPI.Namespace (St.inst s')) cur (St.trace s') ∧
    recorded_notifications s' = recorded_notifications s) s.
Proof.
  unfold calmed. intros Hs Hm. unfold ensure_transport, transportURLCreateOrUpdate.
  apply ends_bind. unfold ends at 1. apply wp_instance, ends_bind. unfold ends at 1.
  apply wp_call_fn, wp_bind, wp_instance, wp_call. intros [[tu op] err] w _.
  apply ends_bind. destruct err as [e|]; [by apply calm_orderly|]. unfold ends at 1. apply wp_ret.
  cbv zeta. apply ends_bind. unfold ends at 1. apply wp_when; [by intros _; apply calm_orderly|].
  intros Hne%bool_decide_eq_false_1. apply ends_bind. unfold ends at 1. apply wp_update_status.
  apply ends_bind. unfold ends at 1. apply wp_call. intros e w' _. apply ends_bind.
  destruct e as [e|]; [by apply calm_orderly|]. unfold ends, fail_on. apply wp_ret, wp_ret.
  split_and!; [done|done| |simpl; by case_match].
  unfold granted. simpl. rewrite Hm. split; [done|]. by rewrite !bool_decide_eq_true_2.
Qed.

(** The notifications block records nothing but the Secret of its own bus. *)
Lemma wpc_notifications_record s :
  wpc (ensure_notifications handler) (λ notif s',
    recorded_notifications s' = recorded_notifications s ∨
    ∃ tu, notif = Some tu ∧ recorded_notifications s' = Some (TransportURL.SecretName tu)) s.
Proof.
  set (r := recorded_notifications s).
  assert (same_record r s) as Hs by done. clearbody r.
  unfold ensure_notifications. apply wpc_bind, wpc_instance. cbv zeta.
  match goal with |- wpc (match ?o with _ => _ end) _ _ => destruct o as [bus|] end.
  2:{ apply wpc_bind. unfold wpc at 1. apply wp_update_inst. apply wpc_ret. left. exact Hs. }
  unfold transportURLCreateOrUpdate. apply wpc_bind. unfold wpc at 1.
  apply wp_call_fn, wp_bind, wp_instance, wp_call. intros [[tu op] err] w _.
  apply wpc_bind. destruct err as [e|]; [done|]. apply wpc_ret.
  apply wpc_bind, wpc_when; intros _; [done|]. apply wpc_bind.
  eapply (wpc_mono _ (λ _, same_record r)).
  { match goal with |- wpc ?m _ ?s1 => assert (keeps (same_record r) m) as Hk;
      [pose proof (same_record_steady r); apply (steady_verify handler _); unfold input_waiting; steady
      |specialize (Hk s1 Hs); unfold wpc, wp; by destruct (m s1) as [[?|?|] ?]] end. }
  intros hash s1 Hs1. apply wpc_bind. unfold wpc at 1. apply wp_update_status.
  apply wpc_bind, wpc_call. intros [e|] w' _; [done|]. unfold fail_on, put_var, mark_true.
  apply wpc_bind, wpc_ret, wpc_bind. unfold wpc at 1. apply wp_modify.
  apply wpc_bind. unfold wpc at 1. apply wp_update_inst. apply wpc_ret.
  unfold recorded_notifications. simpl. case_match; [|left; exact Hs1].
  right. by exists tu.
Qed.

Lemma quiet_notifications : frames false later_condition preparatory (ensure_notifications handler).
Proof.
  unfold ensure_notifications, transportURLCreateOrUpdate, fail_cond, wait_cond, fail_on.
  frames; apply quiet_verify; unfold input_waiting; frames.
Qed.

Lemma ends_notifications cur s :
  calmed s → cur ≠ "" → granted (NeutronAPI.Namespace (St.inst s)) cur (St.trace s) →
  ends (ensure_notifications handler)
    (λ notif s', calmed s' ∧ secured (recorded_notifications s) cur notif s') s.
Proof.
  intros Hs Hne Hg. eapply ends_frames; [apply quiet_notifications| |].
  - intros s' H. apply calm_orderly. by eapply frame_calmed; [apply preparatory_calm|..].
  - eapply wpc_mono; [apply wpc_notifications_record|]. intros notif s' Hr Hf. split.
    { by eapply frame_calmed; [apply preparatory_calm|..]. }
    destruct Hf as ([st Hi] & _ & _ & evs & Ht & _). split_and!; [done|..].
    + rewrite Hi, Ht. by apply granted_app.
    + intros Hr0 Hc. destruct Hr as [Hr|(tu & -> & Hr)]; [congruence|]. exists tu. split; [done|congruence].
Qed.

(** The next piece is quiet, and so far nothing was deployed. *)
Lemma ends_quiet_bind {A B} b T (m : M (St.t W) RetVal A) (k : A → M (St.t W) RetVal B) P
    r0 cur notif s :
  frames b T preparatory m → (∀ r, keeps (same_record r) m) →
  calmed s → secured r0 cur notif s →
  (∀ a s', calmed s' → secured r0 cur notif s' → ends (k a) P s') → ends (m ≫= k) P s.
Proof.
  intros Hf Hk Hs Hsec Hn. apply ends_bind.
  eapply wp_mono; [by eapply (lease_quiet _ _ m)|]. intros [a|r|] s'; [|done..]. intros [? ?]. by apply Hn.
Qed.

Lemma record_verify r name fields waiting :
  keeps (same_record r) waiting → keeps (same_record r) (verify_secret handler name fields waiting).
Proof. apply (steady_verify handler _). Qed.

Lemma secrets_quiet cur :
  frames false later_condition preparatory (verify_transport_secret handler cur) ∧
  frames false later_condition preparatory (verify_service_secret handler) ∧
  ∀ r, keeps (same_record r) (verify_transport_secret handler cur) ∧
       keeps (same_record r) (verify_service_secret handler).
Proof.
  unfold verify_transport_secret, verify_service_secret, input_waiting.
  split_and!; [frames; apply quiet_verify; frames..|]. intros r.
  pose proof (same_record_steady r) as Hst. split; steady; apply record_verify; steady.
Qed.

Lemma memcached_quiet : frames false later_condition preparatory (ensure_memcached handler).
Proof. unfold ensure_memcached, fail_cond, wait_cond. frames. Qed.

Lemma networks_quiet : frames false later_condition preparatory (network_annotations handler).
Proof. unfold network_annotations. frames. apply quiet_nads. Qed.

Lemma ends_prepare s :
  calmed s → messaging_secret (St.trace s) = None →
  ends (prepare handler) (λ '(cur, notif, _, _) s',
    calmed s' ∧ secured (recorded_notifications s) cur notif s') s.
Proof.
  intros Hs Hm. unfold prepare. apply ends_bind.
  eapply wp_mono; [by apply ends_rbac|]. intros [a|r|] s1; [|done..]. intros (H1 & Hm1 & Hr1).
  apply ends_bind. unfold ends at 1. apply wp_put_vars. apply ends_bind.
  eapply wp_mono; [by apply ends_transport|]. intros [cur|r|] s2; [|done..].
  intros (H2 & Hne & Hg & Hr2). apply ends_bind.
  eapply wp_mono; [by apply (ends_notifications cur)|]. intros [notif|r|] s3; [|done..].
  change (recorded_notifications (St.set_vars ∅ s1)) with (recorded_notifications s1) in Hr2.
  rewrite Hr2, Hr1. intros [H3 Hsec]. destruct (secrets_quiet cur) as (Hf1 & Hf2 & Hk).
  eapply ends_quiet_bind; [exact Hf1|apply Hk|done|exact Hsec|]. intros _ s4 H4 Hs4.
  eapply ends_quiet_bind; [exact Hf2|apply Hk|done|exact Hs4|]. intros _ s5 H5 Hs5.
  eapply ends_quiet_bind; [apply memcached_quiet|intros; by apply (steady_memcached handler _)|done|exact Hs5|].
  intros mc s6 H6 Hs6.
  eapply ends_quiet_bind; [apply quiet_external|intros; by apply (steady_external handler _)|done|exact Hs6|].
  intros _ s7 H7 Hs7.
  eapply ends_quiet_bind; [apply networks_quiet|intros; by apply (steady_networks handler _)|done|exact Hs7|].
  intros annotations s8 H8 Hs8. by unfold ends; apply wp_ret.
Qed.

(** *** The rollout *)

(** Deployments may have been applied; nothing was removed. *)
Definition unremoved (s : St.t W) : Prop := forallb no_removal (St.trace s) = true.

Lemma frame_unremoved b T q s s' :
  (∀ ev, q ev = true → no_removal ev = true) → frame b T q s s' → unremoved s → unremoved s'.
Proof.
  intros Hq (_ & _ & _ & evs & Ht & He) Hs. unfold unremoved. rewrite Ht, forallb_app, Hs, andb_true_r.
  by eapply forallb_impl, He.
Qed.

Lemma lease_rollout {A} T q (m : M (St.t W) RetVal A) (D : St.t W → Prop) r0 cur notif s :
  frames true T q m → (∀ ev, q ev = true → no_removal ev = true) →
  (∀ r, keeps (same_record r) m) → wpc m (λ _ s', frame true T q s s' → D s') s →
  unremoved s → secured r0 cur notif s →
  ends m (λ _ s', unremoved s' ∧ secured r0 cur notif s' ∧ D s') s.
Proof.
  intros Hf Hq Hk HD Hs Hsec. eapply ends_frames; [exact Hf|..].
  - intros s' H. eapply granted_orderly; [|by eapply frame_unremoved].
    destruct Hsec as (_ & Hg & _), H as (_ & _ & _ & evs & -> & _). by apply granted_app.
  - specialize (Hk (recorded_notifications s) s eq_refl). unfold wpc, wp in *.
    destruct (m s) as [[a|r|] s']; simpl in *; [|done..]. intros H.
    split_and!; [by eapply frame_unremoved|by eapply secured_frame|by apply HD].
Qed.

Lemma deploy_api_deploys labels annotations h t mc wsgi s :
  wpc (deploy_api handler labels annotations h t mc wsgi)
    (λ _ s', existsb deploys (St.trace s') = true) s.
Proof.
  unfold deploy_api. apply wpc_bind, wpc_instance, wpc_bind, wpc_force. intros d Hd.
  apply wpc_bind. destruct d as [e|d]; [done|]. apply wpc_ret, wpc_bind.
  apply wpc_apply. intros deploy w.
  eapply (wpc_frames true (λ _, false) (λ _, true));
    [unfold check_api, ready_for_input, report_rollout, fail_cond; frames|].
  intros _ s' (_ & _ & _ & evs & Ht & _). rewrite Ht, existsb_app. apply orb_true_intro. by right.
Qed.
(** *** The rotation *)

Lemma spares_finalize ns x ns' old cur f ready r :
  (old = x → old = cur) →
  spares ns x (Ev (FinalizeSecretRotation ns' old cur f ready) r) = true.
Proof.
  intros Hx. unfold spares, removes. destruct (decide (old = x)) as [E|E].
  - rewrite (bool_decide_eq_false_2 (old ≠ cur)); [by rewrite andb_false_r|]. auto.
  - rewrite (bool_decide_eq_false_2 (old = x)) by done. by rewrite andb_false_r.
Qed.

Lemma spares_ac ns x ns' old cur ready r :
  spares ns x (Ev (FinalizeSecretRotation ns' old cur ACConsumerFinalizer ready) r) = true.
Proof.
  unfold spares, removes. rewrite (bool_decide_eq_false_2 (_ = TransportConsumerFinalizer)) by done.
  by rewrite andb_false_r.
Qed.

Lemma spares_prune ns x ns' f keep r :
  x ∈ keep → spares ns x (Ev (PruneSecretConsumerFinalizers ns' f keep) r) = true.
Proof.
  intros Hx. unfold spares, removes. rewrite (bool_decide_eq_false_2 (x ∉ keep)) by auto.
  by rewrite andb_false_r.
Qed.

Lemma spares_prune_ac ns x ns' keep r :
  spares ns x (Ev (PruneSecretConsumerFinalizers ns' ACConsumerFinalizer keep) r) = true.
Proof.
  unfold spares, removes. rewrite (bool_decide_eq_false_2 (_ = TransportConsumerFinalizer)) by done.
  by rewrite andb_false_r.
Qed.

Lemma spares_remove ns x ns' y f r :
  y ≠ x → spares ns x (Ev (RemoveSecretConsumerFinalizer ns' y f) r) = true.
Proof.
  intros Hx. unfold spares, removes. rewrite (bool_decide_eq_false_2 (y = x)) by done.
  by rewrite andb_false_r.
Qed.

Lemma frame_bind_at {R A B} b T q (m : M (St.t W) R A) (k : A → M (St.t W) R B) s :
  frame b T q s (m s).2 →
  (∀ a s', m s = (Cont a, s') → frame b T q s' (k a s').2) → frame b T q s ((m ≫= k) s).2.
Proof.
  unfold mbind, M_bind. intros Hm Hk.
  destruct (m s) as [[a|r|] s']; simpl in *; [|done..]. eapply frame_trans; [exact Hm|by apply Hk].
Qed.

Section rotation.
Context (ns cur : string).
Abbreviation sparing := (frames false (λ _, false) (spares ns cur)).

Lemma transport_spares ready : sparing (rotate_transport handler cur ready).
Proof.
  unfold rotate_transport, or_fail. apply frames_bind; [apply frames_instance|]. intros i.
  apply frames_bind; [apply frames_call; intros r; apply spares_finalize; auto|]. intros a. frames.
Qed.

Lemma transport_record r ready : keeps (same_record r) (rotate_transport handler cur ready).
Proof.
  pose proof (same_record_steady r) as Hst. unfold rotate_transport, or_fail. steady.
  by intros s Hs.
Qed.

Lemma notifications_spare notif ready s :
  cur ≠ "" → harmless cur notif s →
  frame false (λ _, false) (spares ns cur) s (rotate_notifications handler notif ready s).2.
Proof.
  intros Hne Hh. unfold rotate_notifications. apply frames_instance_bind. cbv zeta.
  fold (recorded_notifications s). unfold harmless in Hh. destruct notif as [tu|].
  - apply frames_bind; [|intros a; unfold or_fail; frames]. apply frames_call. intros a.
    apply spares_finalize. intros Hc. destruct (recorded_notifications s) as [old|]; simpl in *; [|done].
    subst old. destruct (Hh eq_refl) as (tu' & [= <-] & ->). done.
  - destruct (recorded_notifications s) as [old|]; [|frames]. apply frames_when.
    apply frames_bind; [apply frames_call|intros a; unfold fail_on, transportURLDeleted; frames].
    intros a. apply spares_remove. intros ->. by destruct (Hh eq_refl) as (tu' & ? & _).
Qed.

Lemma credential_prune_spares notif ready :
  sparing (rotate_credential handler ready;; prune_finalizers handler cur notif).
Proof.
  unfold rotate_credential, prune_finalizers, or_fail, fail_on. apply frames_bind.
  - apply frames_bind; [apply frames_instance|]. intros i.
    apply frames_bind; [apply frames_call; intros r; apply spares_ac|]. intros a. frames.
  - intros _. apply frames_bind; [apply frames_instance|]. intros i. cbv zeta.
    apply frames_bind; [apply frames_call; intros r; apply spares_prune; right; by left|].
    intros a. apply frames_bind; [frames|]. intros _.
    apply frames_bind; [apply frames_call; intros r; apply spares_prune_ac|]. intros b. frames.
Qed.

(** The rotation spares the messaging Secret in use. *)
Lemma rotate_spares notif s :
  cur ≠ "" → harmless cur notif s →
  frame false (λ _, false) (spares ns cur) s (rotate_credentials handler cur notif s).2.
Proof.
  intros Hne Hh. unfold rotate_credentials. unfold mbind at 1, M_bind at 1. cbn. cbv zeta.
  apply frame_bind_at; [apply transport_spares|]. intros u1 s1 H1. apply frame_bind_at.
  - apply notifications_spare; [done|]. unfold harmless.
    pose proof (transport_record (recorded_notifications s)
      (CredentialRotationGuardReady true (conds (St.inst s))) s eq_refl) as Hr.
    rewrite H1 in Hr. unfold same_record in Hr. simpl in Hr. by rewrite Hr.
  - intros u2 s2 _. apply credential_prune_spares.
Qed.
End rotation.

(** *** The whole reconcile *)

Lemma spares_frame_orderly b T ns cur s s' :
  granted ns cur (St.trace s) → existsb deploys (St.trace s) = true → unremoved s →
  frame b T (spares ns cur) s s' → orderly (St.trace s').
Proof.
  intros Hg Hd Hu (_ & _ & _ & evs & -> & He). apply (deployed_orderly ns cur).
  - by apply granted_app.
  - by rewrite existsb_app, Hd, orb_true_r.
  - rewrite forallb_app, He. eapply forallb_impl, Hu. apply no_removal_spares.
Qed.

(** The recorded notifications Secret is not the messaging Secret of the trace. *)
Definition apart (r0 : option string) (tr : list event) : Prop :=
  ∀ ns x, messaging_secret tr = Some (ns, x) → r0 ≠ Some x.

Abbreviation settles r0 := (λ _ s', apart r0 (St.trace s') → orderly (St.trace s')).

Lemma wp_ends_bind {A B} (m : M (St.t W) RetVal A) (k : A → M (St.t W) RetVal B) P r0 s :
  ends m P s → (∀ a s', P a s' → wp (k a) (settles r0) s') → wp (m ≫= k) (settles r0) s.
Proof.
  unfold ends, wp, mbind, M_bind. intros Hm Hk. destruct (m s) as [[a|r|] s']; simpl in *; auto.
Qed.

(** The rotation and the end of the reconcile. *)
Lemma rotate_orderly r0 cur notif s :
  unremoved s → secured r0 cur notif s → existsb deploys (St.trace s) = true →
  wp (rotate_credentials handler cur notif;; report_ready;;
      (mret (Result0, None) : M (St.t W) RetVal RetVal)) (settles r0) s.
Proof.
  intros Hu (Hne & Hg & Hh) Hd.
  set (m := rotate_credentials handler cur notif;; report_ready;;
            (mret (Result0, None) : M (St.t W) RetVal RetVal)).
  assert (grows m) as Hgrow.
  { unfold m, report_ready. apply grows_bind; [eapply grows_frames, frames_rotate|]. intros u.
    eapply (grows_frames true (λ _, false) settled). frames. }
  unfold wp. intros Hap. destruct (Hgrow s) as [evs Ht].
  assert (r0 ≠ Some cur) as Hr0.
  { eapply Hap. rewrite Ht. apply messaging_app, Hg. }
  eapply spares_frame_orderly; [exact Hg|done|done|]. unfold m. apply frame_bind_at.
  - apply rotate_spares; [done|by apply Hh].
  - intros u s' _. apply frames_bind; [unfold report_ready; frames|intros; apply frames_ret].
Qed.

(** The rollout takes no finalizer off. *)
Abbreviation removes_nothing := (frames true (λ _, false) no_removal).

Lemma deploy_api_quiet labels annotations h t mc wsgi :
  removes_nothing (deploy_api handler labels annotations h t mc wsgi).
Proof.
  unfold deploy_api, check_api, apply_deployment, ready_for_input, report_rollout, fail_cond, wait_cond.
  frames.
Qed.

Lemma workers_quiet annotations h t mc wsgi :
  removes_nothing (rollout_workers handler annotations h t mc wsgi).
Proof.
  unfold rollout_workers, rollout_rpc, deploy_rpc, deploy_worker, remove_workers, delete_deployment,
    apply_deployment, ready_for_input, report_rollout, fail_cond, wait_cond, fail_unless_not_found.
  frames.
Qed.

Lemma accounts_quiet : removes_nothing (release_accounts handler).
Proof. unfold release_accounts, fail_on. frames. Qed.

Lemma wpc_deploys {A} b T q (m : M (St.t W) RetVal A) s :
  existsb deploys (St.trace s) = true →
  wpc m (λ _ s', frame b T q s s' → existsb deploys (St.trace s') = true) s.
Proof.
  intros Hd. unfold wpc, wp. destruct (m s) as [[a|r|] s']; [|done..].
  intros (_ & _ & _ & evs & Ht & _). simpl in *. by rewrite Ht, existsb_app, Hd, orb_true_r.
Qed.

Lemma normal_orderly s :
  calmed s → messaging_secret (St.trace s) = None →
  wp (reconcileNormal handler) (settles (recorded_notifications s)) s.
Proof.
  intros Hs Hm. unfold reconcileNormal. eapply wp_ends_bind; [by apply ends_prepare|].
  intros [[[cur notif] mc] annotations] s1 [H1 Hsec1]. cbv beta iota.
  eapply wp_ends_bind; [eapply lease_quiet;
    [apply initial_init_update_upgrade|intros; by apply (steady_init_update_upgrade handler _)|done|exact Hsec1]|].
  intros r s2 [H2 Hsec2].
  eapply wp_ends_bind; [eapply lease_quiet;
    [apply quiet_input_hash|intros; by apply steady_input_hash|done|exact Hsec2]|].
  intros h s3 [H3 Hsec3].
  eapply wp_ends_bind; [eapply lease_quiet;
    [apply topology_frames|intros; by apply (steady_topology handler _)|done|exact Hsec3]|].
  intros topology s4 [H4 Hsec4].
  eapply wp_ends_bind; [eapply lease_quiet; [apply frames_call_fn, probe_frames
    |intros; apply keeps_call_fn; by apply (steady_IsWSGI handler _)|done|exact Hsec4]|].
  intros wsgi s5 [H5 Hsec5].
  assert (unremoved s5) as U5 by (eapply forallb_impl, H5; apply calm_no_removal).
  eapply wp_ends_bind; [eapply (lease_rollout _ no_removal); [apply deploy_api_quiet|done
    |intros; by apply (steady_deploy_api handler _)| |exact U5|exact Hsec5]|].
  { eapply wpc_mono; [apply deploy_api_deploys|]. intros a s' Hd _. exact Hd. }
  intros u6 s6 (U6 & Hsec6 & Hd6).
  eapply wp_ends_bind; [eapply (lease_rollout _ no_removal); [apply workers_quiet|done
    |intros; by apply (steady_workers handler _)|apply wpc_deploys, Hd6|exact U6|exact Hsec6]|].
  intros u7 s7 (U7 & Hsec7 & Hd7).
  eapply wp_ends_bind; [eapply (lease_rollout _ no_removal); [apply accounts_quiet|done
    |intros; by apply (steady_accounts handler _)|apply wpc_deploys, Hd7|exact U7|exact Hsec7]|].
  intros u8 s8 (U8 & Hsec8 & Hd8). by apply (rotate_orderly _ _ _ _ U8).
Qed.

Lemma orderly_calm_app evs tr : forallb calm evs = true → orderly tr → orderly (evs ++ tr).
Proof.
  intros He [H1 H2].
  assert (existsb deploys evs = false) as Hd.
  { destruct (existsb deploys evs) eqn:E; [|done].
    apply existsb_exists in E as ([R c r] & Hin & Hd). rewrite forallb_forall in He.
    specialize (He _ Hin). by destruct c. }
  split; rewrite existsb_app, Hd; simpl.
  - intros E. rewrite forallb_app, H1 by done.
    rewrite (forallb_impl _ no_removal evs calm_no_removal He). done.
  - intros E. destruct (H2 E) as (ns & x & Hm & Hg & Hs). exists ns, x. split_and!.
    + by apply messaging_app.
    + by rewrite existsb_app, Hg, orb_true_r.
    + rewrite forallb_app, Hs, andb_true_r. eapply forallb_impl, He. intros ev Hev.
      by apply no_removal_spares, calm_no_removal.
Qed.

Lemma apart_app r0 evs tr : apart r0 (evs ++ tr) → apart r0 tr.
Proof. intros H ns x Hx. eapply H, messaging_app, Hx. Qed.

Lemma body_orderly isNew s :
  calmed s → messaging_secret (St.trace s) = None → NeutronAPI.DeletionTimestamp (St.inst s) = None →
  wp (reconcile_body handler isNew) (settles (recorded_notifications s)) s.
Proof.
  intros Hs Hm Hdel. unfold reconcile_body. apply wp_bind, wp_update_inst, wp_bind, wp_update_inst.
  apply wp_bind, wp_instance, wp_bind.
  cbn [St.set_inst St.inst NeutronAPI.set_Status set_conds NeutronAPI.DeletionTimestamp].
  rewrite Hdel. rewrite bool_decide_eq_false_2 by (by intros [? ?]).
  destruct (AddFinalizer _ _) as [fs added].
  apply wp_bind, wp_update_inst, wp_ret, wp_bind, wp_when; intros _.
  { apply wp_return. intros _. by apply calm_orderly. }
  apply wp_bind, wp_update_status, wp_bind, wp_update_status, wp_call_fn.
  eapply wp_mono; [by apply normal_orderly|]. intros [r|r|] s' H; exact H.
Qed.

Lemma grows_deferred (body : M (St.t W) RetVal RetVal) d :
  grows body → (∀ r, grows (d r)) → grows (deferred body d).
Proof.
  intros Hb Hd s. specialize (Hb s). unfold deferred.
  destruct (body s) as [[r|r|] s']; simpl in *; [etrans; [exact Hb|apply Hd]..|done].
Qed.

Lemma patch_settles r0 saved r s :
  (apart r0 (St.trace s) → orderly (St.trace s)) →
  wp (patch_status handler saved r) (settles r0) s.
Proof.
  intros Ho. assert (frames false (λ _, false) calm (patch_status handler saved r)) as Hf.
  { unfold patch_status. apply frames_bind; [intros s'; by apply frame_conds|]. intros _.
    frames. by apply frames_set_cond. }
  destruct (Hf s) as (_ & _ & _ & evs & Ht & He). unfold wp. rewrite Ht. intros Ha.
  apply orderly_calm_app; [done|]. eapply Ho, apart_app, Ha.
Qed.
End lease.

(** ** Sequences of reconciles *)

(** The NeutronAPIs that a reconcile read. *)
Definition instances_read (tr : list event) : list NeutronAPI.t := omap instance_read tr.

Definition deletes (tr : list event) : bool :=
  existsb (λ i, bool_decide (is_Some (NeutronAPI.DeletionTimestamp i))) (instances_read tr).

(** The notifications Secret that the status records is not the one of the
    messaging bus: RabbitMQ gives every TransportURL a Secret of its own, and the
    buses have different TransportURLs unless the NeutronAPI is named
    "notifications". *)
Definition buses_apart (tr : list event) : Prop :=
  ∀ i, i ∈ instances_read tr →
       apart (Status.NotificationsTransportURLSecret (NeutronAPI.Status i)) tr.

(** The Secret that the Deployments use after a reconcile with that trace: the
    messaging Secret when it applied one, the one from before when it did not,
    and none from the deletion on. *)
Definition lease_after (lease : option (string * string)) (tr : list event)
  : option (string * string) :=
  if deletes tr then None else if existsb deploys tr then messaging_secret tr else lease.

Section sequences.
Context `{L : Lib} `{!LibLaws L} {W : Type} (handler : ∀ R, Call R → W → R * W).
Context `{!Cluster handler} (leased : W → string → string → Prop).
Context `{!SecretFinalizers handler leased}.

Abbreviation settles r0 := (λ _ s', apart r0 (St.trace s') → orderly (St.trace s')).

(** A cluster and the Secret its Deployments were last applied with change when a
    reconcile runs from beginning to end, and when anything else happens that
    leaves the consumer finalizers alone: new TransportURLs and Secrets, changes
    of the spec, pods that come and go. *)
Inductive step : W * option (string * string) → W * option (string * string) → Prop :=
| step_reconcile nn i0 vars w lease :
    let s' := (Reconcile handler nn (St.mk i0 vars w [])).2 in
    buses_apart (St.trace s') →
    step (w, lease) (St.world s', lease_after lease (St.trace s'))
| step_other w w' lease :
    (∀ ns x, leased w ns x → leased w' ns x) → step (w, lease) (w', lease).

(** The body and the deferred patch, for the NeutronAPI [i] that was read. *)
Lemma attempt_orderly isNew i saved s :
  (∃ nn, St.trace s = [Ev (NewHelper (NeutronAPI.Name i)) None; Ev (GetNeutronAPI nn) (inr i)]) →
  NeutronAPI.DeletionTimestamp (St.inst s) = NeutronAPI.DeletionTimestamp i →
  recorded_notifications s = Status.NotificationsTransportURLSecret (NeutronAPI.Status i) →
  wp (deferred (reconcile_body handler isNew) (patch_status handler saved))
    (λ _ s', buses_apart (St.trace s') → deletes (St.trace s') = false → orderly (St.trace s')) s.
Proof.
  intros [nn Ht] Hdel Hrec. set (m := deferred _ _).
  assert (grows m) as Hg.
  { apply grows_deferred; [apply (grows_body handler)|intros r; eapply grows_frames, frames_patch]. }
  assert (i ∈ instances_read (St.trace (m s).2)) as Hin.
  { destruct (Hg s) as [evs ->]. rewrite Ht. apply list_elem_of_omap.
    exists (Ev (GetNeutronAPI nn) (inr i)). split; [|done]. apply elem_of_app. right. right. by left. }
  unfold wp. intros Hap Hd.
  assert (NeutronAPI.DeletionTimestamp i = None) as Hnone.
  { destruct (NeutronAPI.DeletionTimestamp i) eqn:E; [|done]. exfalso.
    unfold deletes in Hd. rewrite <-not_true_iff_false in Hd. apply Hd, existsb_exists.
    exists i. split; [by apply list_elem_of_In|]. by rewrite E. }
  specialize (Hap i Hin). revert Hap. rewrite <-Hrec.
  change (wp m (settles (recorded_notifications s)) s).
  apply wp_deferred. rewrite Hnone in Hdel. eapply wp_mono.
  { apply body_orderly; [by unfold calmed; rewrite Ht|by rewrite Ht|done]. }
  intros [r|r|] s' H; [by apply patch_settles..|exact H].
Qed.

(** Every reconcile of a NeutronAPI that is not being deleted is orderly. *)
Lemma Reconcile_orderly nn i0 vars w :
  let tr := St.trace (Reconcile handler nn (St.mk i0 vars w [])).2 in
  buses_apart tr → deletes tr = false → orderly tr.
Proof.
  set (Q := λ tr, buses_apart tr → deletes tr = false → orderly tr).
  cbv zeta. fold (Q (St.trace (Reconcile handler nn (St.mk i0 vars w [])).2)).
  change (wp (Reconcile handler nn) (λ _ s', Q (St.trace s')) (St.mk i0 vars w [])).
  unfold Reconcile. apply wp_bind, wp_call. intros answer w1 _. apply wp_bind.
  destruct answer as [e|i].
  { destruct (IsNotFound e); apply wp_return; intros _ _; by apply calm_orderly. }
  apply wp_ret, wp_bind, wp_update_inst, wp_bind, wp_call. intros err w2 _. apply wp_bind.
  destruct err as [e|]; [apply wp_return; intros _ _; by apply calm_orderly|].
  apply wp_ret, wp_bind, wp_when; intros _; [apply wp_update_inst|]; apply wp_bind, wp_instance;
    apply (attempt_orderly _ i); by try eexists.
Qed.

Definition lease_held (st : W * option (string * string)) : Prop :=
  ∀ ns x, st.2 = Some (ns, x) → leased st.1 ns x.

Lemma step_holds st st' : step st st' → lease_held st → lease_held st'.
Proof.
  intros Hstep Hl. destruct Hstep as [nn i0 vars w lease s' Hap|w w' lease Hw].
  2:{ intros ns x Hx. by apply Hw, Hl. }
  intros ns x. cbn [fst snd]. unfold lease_after.
  destruct (deletes (St.trace s')) eqn:Hd; [done|].
  destruct (Reconcile_orderly nn i0 vars w Hap Hd) as [Ho1 Ho2]. fold s' in Ho1, Ho2.
  pose proof (Reconcile_replays handler w nn i0 vars) as Hr. unfold replayed in Hr. fold s' in Hr.
  destruct (existsb deploys (St.trace s')); intros Hx.
  - destruct (Ho2 eq_refl) as (ns' & x' & Hm & Hg & Hs). rewrite Hm in Hx. injection Hx as <- <-.
    eapply replay_leased; [done|exact Hr|exact Hs|by right].
  - eapply replay_leased; [done|exact Hr| |left; by apply Hl].
    eapply forallb_impl, Ho1; [apply no_removal_spares|done].
Qed.

(** C2: the transport credential in use is never given up.  In every state that is
    reachable by reconciles, however each of them ends, interleaved with changes of
    the cluster and the spec that leave the consumer finalizers alone, the
    messaging Secret of the reconcile that last applied a Deployment carries the
    operator's consumer finalizer, until the NeutronAPI is deleted: neither a
    rotation nor its pruning nor a reconcile that failed in between takes it
    off.  Two things are asked of the cluster: the changes in between leave the
    consumer finalizers on, and the buses stay apart ([buses_apart]): in every
    reconcile, the notifications Secret that the NeutronAPI read records is not the
    Secret of its messaging bus.  That excludes the case in which both buses use one
    TransportURL, as for a NeutronAPI named "notifications"; there the theorem
    fails, as [Leases.shared_secret_loses_lease] shows. *)
Theorem transport_lease_held w0 st ns x :
  rtc step (w0, None) st → st.2 = Some (ns, x) → leased st.1 ns x.
Proof.
  intros Hr. enough (lease_held st) by auto.
  assert (lease_held (w0, None)) as H0 by done. induction Hr; [done|]. by eauto using step_holds.
Qed.
End sequences.

(** ** A cluster that keeps the finalizers

    [Demo] with the set of Secrets that carry the transport finalizer; the
    finalizer calls work on it as the library documents them. *)
Module Leases.

Record world := mk { demo : Demo.World.t; finalizers : gset (string * string) }.

Definition update {R} (c : Call R) (fs : gset (string * string)) : gset (string * string) :=
  match c with
  | ManageSecretConsumerFinalizer ns x f =>
      if bool_decide (f = TransportConsumerFinalizer) then fs ∪ {[(ns, x)]} else fs
  | RemoveSecretConsumerFinalizer ns x f =>
      if bool_decide (f = TransportConsumerFinalizer) then fs ∖ {[(ns, x)]} else fs
  | PruneSecretConsumerFinalizers ns f keep =>
      if bool_decide (f = TransportConsumerFinalizer)
      then filter (λ p, p.1 ≠ ns ∨ p.2 ∈ keep) fs else fs
  | FinalizeSecretRotation ns old cur f ready =>
      if ready && bool_decide (f = TransportConsumerFinalizer) && bool_decide (old ≠ cur)
      then fs ∖ {[(ns, old)]} else fs
  | _ => fs
  end.

Definition answer (R : Type) (c : Call R) (w : world) : R * world :=
  let '(a, d) := Demo.answer R c (demo w) in (a, mk d (update c (finalizers w))).

Definition leased (w : world) (ns x : string) : Prop := (ns, x) ∈ finalizers w.

#[export] Instance cluster : Cluster answer.
Proof.
  destruct Demo.cluster as [Hs Hr]. split.
  - intros ts env w env' w' H. unfold answer in H. destruct (Demo.answer _ _ _) eqn:E.
    injection H as -> <-. by eapply Hs.
  - intros name ns rules w cs r e w' H. unfold answer in H. destruct (Demo.answer _ _ _) eqn:E.
    injection H as -> <-. by eapply Hr.
Qed.

Lemma answer_finalizers R (c : Call R) w a w' :
  answer R c w = (a, w') → finalizers w' = update c (finalizers w).
Proof. unfold answer. destruct (Demo.answer _ _ _). by intros [= _ <-]. Qed.

#[export] Instance finalizer_laws : SecretFinalizers answer leased.
Proof.
  split.
  - intros ns x w w' H. unfold leased. rewrite (answer_finalizers _ _ _ _ _ H). simpl. set_solver.
  - intros A c a w w' ns x H Hr Hl. unfold leased in *. rewrite (answer_finalizers _ _ _ _ _ H).
    destruct c; try exact Hl; simpl in Hr |- *.
    all: repeat (case_bool_decide || (match goal with b : bool |- _ => destruct b end));
      simpl in *; try discriminate; set_solver.
Qed.

(** The cluster with the transport Secret [x], and a reconcile in it. *)
Definition set_secret (x : string) (rolled : bool) (w : world) : world :=
  mk (Demo.World.mk (Demo.World.stored (demo w)) (Demo.World.probe (demo w))
        (Demo.World.ca_missing (demo w)) rolled x) (finalizers w).

Definition reconcile (w : world) : St.t world :=
  (Reconcile answer Demo.nn (St.mk (Demo.sample "" "") ∅ w [])).2.

Definition initial : world := mk (Demo.world (Demo.sample Demo.debug_config "") true) ∅.

(** Two reconciles with the Secret [x], whose Deployments do or do not roll out. *)
Definition settle (x : string) (rolled : bool) (w : world) : world :=
  St.world (reconcile (St.world (reconcile (set_secret x rolled w)))).

(** Whether the Secret [x] is leased, and the one the status records. *)
Definition has (x : string) (w : world) : bool := bool_decide (("openstack", x) ∈ finalizers w).

Definition recorded (w : world) : string :=
  Status.TransportURLSecret (NeutronAPI.Status (Demo.World.stored (demo w))).

(** A credential between two rotations is given up early.  The pruning at the
    end of a reconcile is not guarded by the rollout: when the messaging Secret
    goes from A to B and, while the Deployments with B still roll out, on to C,
    the reconcile that applies the Deployments with C takes the consumer
    finalizer off B although pods may already run with it.  A and C stay leased,
    and so does B until then. *)
Theorem rapid_rotation_prunes :
  let a := settle "A" true initial in
  let b := settle "B" false a in
  let c := settle "C" false b in
  recorded a = "A" ∧ has "A" a = true ∧
  existsb deploys (St.trace (reconcile (set_secret "B" false a))) = true ∧
  recorded b = "A" ∧ has "A" b = true ∧ has "B" b = true ∧
  recorded c = "A" ∧ has "A" c = true ∧ has "B" c = false ∧ has "C" c = true.
Proof. vm_compute. split_and!; reflexivity. Qed.

(** A NeutronAPI named "notifications": the TransportURLs of its two buses have
    the same name, and so the same Secret. *)
Definition bus_spec (bus : option RabbitMqConfig.t) : Spec.t :=
  Spec.mk
    (SpecCore.mk 120 "neutron" "openstack" "neutron" "rabbitmq" (RabbitMqConfig.mk "" "" "rabbitmq")
       bus "memcached" (Some 1%Z) "neutron-secret" "NeutronPassword" None false "ml2" ["ovn"]
       Demo.debug_config ∅ (ResourceRequirements.mk ∅ ∅) [] [] ∅ Demo.no_tls "" None None) "img".

Definition set_bus (bus : option RabbitMqConfig.t) (w : world) : world :=
  mk (Demo.World.set_stored (NeutronAPI.set_Spec (bus_spec bus) (Demo.World.stored (demo w)))
        (demo w)) (finalizers w).

Definition two_buses : world :=
  mk (Demo.world (NeutronAPI.mk "NeutronAPI" "notifications" "openstack" 1 None None []
        (bus_spec (Some (RabbitMqConfig.mk "" "" "rabbitmq"))) Demo.fresh_status) true) ∅.

(** The side condition of [transport_lease_held] is needed.  Here both buses use
    the Secret A.  When the notifications bus is switched off, the next reconcile
    applies the Deployments with A and then, as they have rolled out, removes the
    consumer finalizer of the recorded notifications Secret, which is A. *)
Lemma shared_secret_loses_lease :
  let w := set_bus None (settle "A" true two_buses) in
  let tr := St.trace (reconcile w) in
  recorded w = "A" ∧ has "A" w = true ∧
  existsb deploys tr = true ∧ messaging_secret tr = Some ("openstack", "A") ∧
  ¬ buses_apart tr ∧
  has "A" (St.world (reconcile w)) = false.
Proof.
  cbv zeta. split_and!; [vm_compute; reflexivity..| |vm_compute; reflexivity].
  intros H.
  refine (H (Demo.World.stored (demo (set_bus None (settle "A" true two_buses))))
            _ "openstack" "A" _ _); [|vm_compute; reflexivity..].
  apply head_Some_elem_of. vm_compute. reflexivity.
Qed.
End Leases.
