(* ===== verification/Readiness.v ===== *)
(** * Ready means rolled out

    A reconcile that reports the NeutronAPI Ready and returns no error has, in that
    same reconcile, seen the db-sync Job finished and every Deployment of the
    strategy in force rolled out with the configuration it recorded. *)

From S2P Require Import Prelude RpcWorkers K8s Conditions Lib Api GoMonad Pods External.
From S2P Require Import ImageProbe ExternalSecrets ServiceConfig Delete Init Inputs Rollout.
From S2P Require Import Reconcile Frame Rotation Guarantees.

Section ready.
Context `{L : Lib} `{!LibLaws L} {W : Type} (handler : ∀ R, Call R → W → R * W).
Context `{!Cluster handler}.

(** A sub-condition holds the Ready condition back. *)
Definition blocked (s : St.t W) : Prop :=
  ∃ t st, t ≠ ReadyCondition ∧ cond_of s t = Some st ∧ st ≠ ConditionTrue.

(** [m] goes on with [P], or returns; without an error only if a sub-condition is
    not true. *)
Definition unless {A} (m : M (St.t W) RetVal A) (P : A → St.t W → Prop) (s : St.t W) : Prop :=
  wp m (λ o s', match o with
                | Cont a => P a s'
                | Ret r => r.2 = None → blocked s'
                | Panic => True
                end) s.

Lemma unless_bind {A B} (m : M (St.t W) RetVal A) (k : A → M (St.t W) RetVal B) P s :
  unless m (λ a s', unless (k a) P s') s → unless (m ≫= k) P s.
Proof. unfold unless, wp, mbind, M_bind. by destruct (m s) as [[a|r|] s']. Qed.

Lemma unless_mono {A} (m : M (St.t W) RetVal A) (P P' : A → St.t W → Prop) s :
  unless m P s → (∀ a s', P a s' → P' a s') → unless m P' s.
Proof. unfold unless, wp. destruct (m s) as [[a|r|] s']; simpl; auto. Qed.

Lemma unless_and {A} (m : M (St.t W) RetVal A) (P P' : A → St.t W → Prop) s :
  unless m P s → wpc m P' s → unless m (λ a s', P a s' ∧ P' a s') s.
Proof. unfold unless, wpc, wp. destruct (m s) as [[a|r|] s']; simpl; auto. Qed.

Lemma unless_when c (body : M (St.t W) RetVal unit) P s :
  (c = true → unless body P s) → (c = false → P () s) → unless (when c body) P s.
Proof. intros H1 H2. destruct c; [by apply H1|by apply H2]. Qed.

(** A step that leaves a condition alone which is not true. *)
Lemma unless_step {A} b T q t st (m : M (St.t W) RetVal A) (P : A → St.t W → Prop) s :
  frames b T q m → T t = true → t ≠ ReadyCondition →
  cond_of s t = Some st → st ≠ ConditionTrue →
  wpc m P s → unless m (λ a s', frame b T q s s' ∧ P a s') s.
Proof.
  intros Hm HT Ht Hst Hne HP. specialize (Hm s). unfold unless, wpc, wp in *.
  destruct (m s) as [[a|r|] s']; simpl in *; [by split| |done]. intros _. exists t, st.
  destruct Hm as (_ & _ & Hc & _). by rewrite Hc.
Qed.

(** ** Steps that only return errors *)

Definition fails {A} (m : M (St.t W) RetVal A) : Prop := ∀ s r, (m s).1 = Ret r → r.2 ≠ None.

Lemma fails_bind {A B} (m : M (St.t W) RetVal A) (k : A → M (St.t W) RetVal B) :
  fails m → (∀ a, fails (k a)) → fails (m ≫= k).
Proof.
  intros Hm Hk s r. unfold mbind, M_bind. specialize (Hm s). destruct (m s) as [[a|r'|] s']; simpl.
  - apply Hk.
  - intros [= <-]. by apply Hm.
  - done.
Qed.

Lemma fails_pure {A} (m : M (St.t W) RetVal A) : (∀ s r, (m s).1 ≠ Ret r) → fails m.
Proof. intros H s r Hr. by destruct (H s r). Qed.

Lemma fails_error {A} res e : fails (return_ (A:=A) (res, Some e)).
Proof. by intros s r [= <-]. Qed.

Lemma fails_call {A} (c : Call A) : fails (call handler c).
Proof. apply fails_pure. intros s r. unfold call. by destruct (handler A c (St.world s)). Qed.

Lemma fails_call_fn {R} (f : M (St.t W) R R) : fails (call_fn f).
Proof. apply fails_pure. intros s r. apply call_fn_no_ret. Qed.

Lemma fails_force {A} (o : option A) : fails (force o).
Proof. apply fails_pure. by destruct o. Qed.

Lemma fails_when c (m : M (St.t W) RetVal unit) : fails m → fails (when c m).
Proof. intros H. destruct c; [done|by apply fails_pure]. Qed.

Lemma fails_unless {A} (m : M (St.t W) RetVal A) (P : A → St.t W → Prop) s :
  fails m → wpc m P s → unless m P s.
Proof.
  intros Hf. specialize (Hf s). unfold unless, wpc, wp. destruct (m s) as [[a|r|] s']; simpl; auto.
  intros _ Hr. by destruct (Hf r).
Qed.
End ready.

Ltac fails :=
  repeat (cbv zeta; lazymatch goal with
    | |- fails (mbind _ _) => apply fails_bind; [|intros ?]
    | |- fails (return_ (_, Some _)) => apply fails_error
    | |- fails (call _ _) => apply fails_call
    | |- fails (call_fn _) => apply fails_call_fn
    | |- fails (when _ _) => apply fails_when
    | |- fails (force _) => apply fails_force
    | |- fails (let '_ := ?x in _) => destruct x
    | |- fails (match ?x with _ => _ end) => destruct x
    | |- fails _ => apply fails_pure; done
    end).

Section steps.
Context `{L : Lib} `{!LibLaws L} {W : Type} (handler : ∀ R, Call R → W → R * W).
Context `{!Cluster handler}.

Lemma fails_remove_workers : fails (remove_workers handler).
Proof. unfold remove_workers. simpl. unfold delete_deployment, fail_unless_not_found. fails. Qed.

Lemma fails_delete name : fails (delete_deployment handler name).
Proof. unfold delete_deployment, fail_unless_not_found. fails. Qed.

Lemma fails_check_api labels h deploy : fails (check_api handler labels h deploy).
Proof. unfold check_api, report_rollout, ready_for_input, fail_cond. fails. Qed.

Lemma fails_ready deploy h : fails (ready_for_input handler deploy h).
Proof. unfold ready_for_input. fails. Qed.

(** Applying a Deployment returns without an error only while it is pending. *)
Lemma unless_apply t em rm d (P : Deployment.t → St.t W → Prop) s :
  t ≠ ReadyCondition →
  wpc (apply_deployment handler t em rm d) P s →
  unless (apply_deployment handler t em rm d) P s.
Proof.
  intros Ht. unfold apply_deployment, unless, wpc, wp, mbind, M_bind, call.
  destruct (handler _ _ _) as [[[deploy res] [e|]] w]; [done|]. cbn [fst snd].
  destruct (pending res); [|done]. intros _ _. exists t, ConditionFalse.
  split_and!; [done| |done]. apply cond_of_false.
Qed.

Lemma unless_with {A} (m : M (St.t W) RetVal A) (P : A → St.t W → Prop) s :
  unless m (λ _ _, True) s → wpc m P s → unless m P s.
Proof. unfold unless, wpc, wp. destruct (m s) as [[a|r|] s']; simpl; auto. Qed.

Lemma unless_skip {A B} (m : M (St.t W) RetVal A) (k : A → M (St.t W) RetVal B) P s :
  fails m → (∀ a s', unless (k a) P s') → unless (m ≫= k) P s.
Proof.
  intros Hm Hk. apply unless_bind, fails_unless; [done|]. unfold wpc, wp.
  destruct (m s) as [[a|r|] s']; simpl; auto.
Qed.

Lemma unless_fails {A} (m : M (St.t W) RetVal A) s : fails m → unless m (λ _ _, True) s.
Proof. intros H. apply fails_unless; [done|apply wpc_true]. Qed.

(** Applying and checking a Deployment. *)
Lemma unless_deploy t em rm d (check : Deployment.t → M (St.t W) RetVal unit) s :
  t ≠ ReadyCondition → (∀ deploy, fails (check deploy)) →
  unless (deploy ← apply_deployment handler t em rm d; when (observed deploy) (check deploy))
    (λ _ _, True) s.
Proof.
  intros Ht Hc. apply unless_bind. apply unless_apply; [done|]. eapply wpc_mono; [apply wpc_true|].
  intros deploy s' _. by apply unless_fails, fails_when.
Qed.

Lemma unless_deploy_api labels annotations h topology mc wsgi s :
  gate DeploymentReadyCondition ServiceName h s →
  unless (deploy_api handler labels annotations h topology mc wsgi)
    (λ _ s', gate DeploymentReadyCondition ServiceName h s') s.
Proof.
  intros Hg. apply unless_with; [|by apply wpc_deploy_api]. unfold deploy_api.
  apply unless_skip; [fails|]. intros i s1. apply unless_skip; [fails|].
  intros def s2. apply unless_skip; [unfold fail_cond; fails|]. intros d s3.
  apply unless_deploy; [done|]. intros. apply fails_check_api.
Qed.

Lemma unless_deploy_rpc annotations h topology mc s :
  unless (deploy_rpc handler annotations h topology mc) (λ _ _, True) s.
Proof.
  unfold deploy_rpc. apply unless_skip; [fails|]. intros _ s1. apply unless_skip; [fails|].
  intros i s2. apply unless_skip; [fails|]. intros d s3.
  apply unless_deploy; [done|]. intros deploy. unfold report_rollout. fails. apply fails_ready.
Qed.

Lemma unless_deploy_worker annotations h topology mc s :
  unless (deploy_worker handler annotations h topology mc) (λ _ _, True) s.
Proof.
  unfold deploy_worker. apply unless_skip; [fails|]. intros _ s1. apply unless_skip; [fails|].
  intros i s2. apply unless_skip; [fails|]. intros d s3.
  apply unless_deploy; [done|]. intros deploy. unfold report_rollout. fails. apply fails_ready.
Qed.

Lemma unless_rollout_workers annotations h topology mc wsgi s :
  gate DeploymentReadyCondition ServiceName h s →
  unless (rollout_workers handler annotations h topology mc wsgi)
    (λ _ s', gates (St.inst s) h wsgi s') s.
Proof.
  intros Hg. apply unless_with; [|by apply wpc_rollout_workers]. unfold rollout_workers.
  destruct wsgi; [|apply unless_fails, fails_remove_workers].
  apply unless_bind. unfold rollout_rpc. apply unless_skip; [fails|]. intros i s1.
  assert (∀ (m : M (St.t W) RetVal unit) s, unless m (λ _ _, True) s →
    unless m (λ _ s', unless (deploy_worker handler annotations h topology mc) (λ _ _, True) s') s) as Hn.
  { intros m s' H. eapply unless_mono; [exact H|]. intros. apply unless_deploy_worker. }
  destruct (rpcEnabled i); apply Hn; [apply unless_deploy_rpc|].
  apply unless_fails. fails. apply fails_delete.
Qed.
End steps.

(** ** The db-sync Job *)

Section sync.
Context `{L : Lib} `{!LibLaws L} {W : Type} (handler : ∀ R, Call R → W → R * W).
Context `{!Cluster handler}.

(** The DBSyncReady condition is there, and true only if the Job has finished. *)
Definition sync_gate (i : NeutronAPI.t) (s : St.t W) : Prop :=
  ∃ st, cond_of s DBSyncReadyCondition = Some st ∧ (st = ConditionTrue → db_synced i (St.trace s)).

Lemma synced_grows i tr tr' : tr ⊆ tr' → db_synced i tr → db_synced i tr'.
Proof. intros H (l & a & j & p & t & h & r & ? & ? & ?). exists l, a, j, p, t, h, r. auto. Qed.

Lemma sync_gate_frame b T q i s s' :
  frame b T q s s' → T DBSyncReadyCondition = true → sync_gate i s → sync_gate i s'.
Proof.
  intros Hf Ht (st & Hst & Hr). exists st. split.
  - destruct Hf as (_ & _ & Hc & _). by rewrite Hc.
  - intros E. eapply synced_grows; [by eapply frame_trace|auto].
Qed.

(** The instance up to its status. *)
Definition is_inst (i : NeutronAPI.t) (s : St.t W) : Prop :=
  ∃ st, St.inst s = NeutronAPI.set_Status st i.

Lemma is_inst_frame b T q i s s' : frame b T q s s' → is_inst i s → is_inst i s'.
Proof. intros [[st' H'] _] [st H]. exists st'. by rewrite H', H. Qed.

Lemma gate_bind {R A B} b T q i (m : M (St.t W) R A) (k : A → M (St.t W) R B) s :
  frames b T q m → T DBSyncReadyCondition = true → is_inst i s → sync_gate i s →
  (∀ a s', is_inst i s' → sync_gate i s' → wp (k a) (λ _ s', sync_gate i s') s') →
  wp (m ≫= k) (λ _ s', sync_gate i s') s.
Proof.
  intros Hm HT Hi Hg Hk. apply wp_bind. specialize (Hm s). unfold wp.
  pose proof (sync_gate_frame _ _ _ _ _ _ Hm HT Hg) as Hg'. pose proof (is_inst_frame _ _ _ _ _ _ Hm Hi).
  destruct (m s) as [[a|r|] s']; simpl in *; [by apply Hk|done..].
Qed.

Lemma wp_gate_frames {R A} b T q i (m : M (St.t W) R A) s :
  frames b T q m → T DBSyncReadyCondition = true → sync_gate i s → wp m (λ _ s', sync_gate i s') s.
Proof. intros Hm HT Hg. exact (sync_gate_frame _ _ _ _ _ _ (Hm s) HT Hg). Qed.

Lemma sync_false i (s : St.t W) r sv m a :
  sync_gate i (St.set_inst (set_conds (Set_ (conds (St.inst s))
    (FalseCondition DBSyncReadyCondition r sv m a)) (St.inst s)) s).
Proof. exists ConditionFalse. split; [apply cond_of_false|done]. Qed.

Lemma gate_db_sync i labels annotations s :
  is_inst i s → sync_gate i s →
  wp (run_db_sync handler labels annotations) (λ _ s', sync_gate i s') s.
Proof.
  intros [st Hi] Hg. unfold run_db_sync. apply wp_bind, wp_instance. rewrite Hi. cbv zeta. apply wp_bind.
  destruct (DbSyncJob (NeutronAPI.set_Status st i) labels annotations) as [j|] eqn:Hj; [|done].
  apply wp_ret, wp_bind, wp_call. intros run w _. apply wp_bind, wp_when; intros Hp.
  { apply wp_bind, wp_update_inst, wp_return, sync_false. }
  apply bool_decide_eq_false_1, dec_stable in Hp. apply wp_bind.
  destruct (JobRun.err run) as [e|] eqn:He; [apply wp_bind, wp_update_inst, wp_return, sync_false|].
  apply wp_ret. match goal with |- wp _ _ ?s' =>
    assert (db_synced i (St.trace s')) as Hd by
      (exists labels, annotations, j; do 4 eexists; split_and!; [exact Hj|by left|exact Hp|exact He]);
    assert (sync_gate i s') as Hg' by
      (eapply (sync_gate_frame true (λ _, true)); [apply frame_one_call|done|exact Hg]);
    assert (frames false (only DBSyncReadyCondition) (λ _, true)
      (when (JobRun.HasChanged run) (write_hash DbSyncHash (JobRun.Hash run)) : M (St.t W) RetVal unit))
      as Hw by frames; specialize (Hw s') end.
  apply wp_bind. unfold wp at 1.
  pose proof (synced_grows i _ _ (frame_trace _ _ _ _ _ Hw) Hd) as Hd'.
  pose proof (sync_gate_frame _ _ _ _ _ _ Hw eq_refl Hg') as Hg''.
  destruct (when _ _ _) as [[u|r|] s2]; simpl in *; [|done..].
  apply wp_update_inst. exists ConditionTrue. split; [|done].
  rewrite cond_of_set, status_MarkTrue. by rewrite decide_True.
Qed.

Lemma only_later t : only DBSyncReadyCondition t = true → later_condition t = true.
Proof. unfold only. intros <-%bool_decide_eq_true_1. done. Qed.

Lemma gate_of_quiet {R A} (m : M (St.t W) R A) :
  frames false later_condition preparatory m →
  frames false (only DBSyncReadyCondition) (λ _, true) m.
Proof. by apply frames_weaken; [|apply only_later|]. Qed.

Lemma gate_init i labels annotations tn nn s :
  is_inst i s → sync_gate i s →
  wp (reconcileInit handler labels annotations tn nn) (λ _ s', sync_gate i s') s.
Proof.
  intros Hi Hg. unfold reconcileInit.
  eapply (gate_bind false (only DBSyncReadyCondition) (λ _, true)); [|done|exact Hi|exact Hg|].
  { unfold init_database, ensureDB. frames. }
  intros db s1 Hi1 Hg1.
  eapply (gate_bind false (only DBSyncReadyCondition) (λ _, true)); [|done|exact Hi1|exact Hg1|].
  { apply frames_call_fn, gate_of_quiet, (quiet_secrets handler). }
  intros err s2 Hi2 Hg2.
  eapply (gate_bind false (only DBSyncReadyCondition) (λ _, true)); [|done|exact Hi2|exact Hg2|].
  { unfold config_error, fail_cond. frames. }
  intros u3 s3 Hi3 Hg3.
  eapply (gate_bind false (only DBSyncReadyCondition) (λ _, true)); [|done|exact Hi3|exact Hg3|].
  { unfold validate_tls, tls_input, put_hash, fail_cond. frames. }
  intros u4 s4 Hi4 Hg4.
  eapply (gate_bind false (only DBSyncReadyCondition) (λ _, true)); [|done|exact Hi4|exact Hg4|].
  { unfold hash_and_consume, createHashOfInputHashes, config_error, fail_cond. frames. }
  intros u5 s5 Hi5 Hg5. apply wp_bind. pose proof (gate_db_sync i (Some labels) (Some annotations) s5 Hi5 Hg5) as Hd.
  unfold wp in Hd. unfold wp at 1. destruct (run_db_sync _ _ _ s5) as [[u|r|] s6]; simpl in *; [|done..].
  eapply (wp_gate_frames false (only DBSyncReadyCondition) (λ _, true)); [|done|exact Hd].
  apply frames_bind; [apply gate_of_quiet, (quiet_endpoints handler)|]. intros eps.
  apply frames_bind; [frames|]. intros _.
  apply frames_bind; [apply gate_of_quiet, (quiet_keystone handler)|]. intros _. frames.
Qed.

Lemma gate_init_update_upgrade i annotations cur n s :
  is_inst i s → sync_gate i s →
  wp (init_update_upgrade handler annotations cur n) (λ _ s', sync_gate i s') s.
Proof.
  intros Hi Hg. unfold init_update_upgrade. apply wp_bind. unfold wp at 1, call_fn.
  pose proof (gate_init i serviceLabels annotations cur n s Hi Hg) as H. unfold wp in H.
  destruct (reconcileInit _ _ _ _ _ s) as [[r|r|] s1]; simpl in *; [..|done];
    (eapply (wp_gate_frames false (only DBSyncReadyCondition) (λ _, true)); [|done|exact H];
     unfold return_unless_done, reconcileUpdate, reconcileUpgrade; frames; by apply frames_pure).
Qed.
End sync.

(** ** The whole reconcile *)

Section readiness.
Context `{L : Lib} `{!LibLaws L} {W : Type} (handler : ∀ R, Call R → W → R * W).
Context `{!Cluster handler}.

(** No sub-condition holds the Ready condition back. *)
Definition unblocked (s : St.t W) : Prop :=
  ∀ t st, t ≠ ReadyCondition → cond_of s t = Some st → st = ConditionTrue.

(** What a Ready NeutronAPI stands for. *)
Definition ready_evidence (i : NeutronAPI.t) (s : St.t W) : Prop :=
  ∃ h wsgi, map_read (hashes s) InputHashName = Some h ∧ strategy i wsgi (St.trace s) ∧
            rollout_done i h wsgi (St.trace s) ∧ db_synced i (St.trace s).

Lemma blocked_unblocked s : blocked s → unblocked s → False.
Proof. intros (t & st & Ht & Hst & Hne) H. by apply Hne, (H t). Qed.

(** The conditions but the overall one. *)
Definition sub_condition (t : CondType) : bool :=
  match t with ReadyCondition => false | _ => true end.

Lemma sub_conditions t : t ≠ ReadyCondition → sub_condition t = true.
Proof. by destruct t. Qed.

Lemma gate_unblocked t name h s :
  gate t name h s → t ≠ ReadyCondition → unblocked s → rolled_out name h (St.trace s).
Proof. intros (st & Hst & Hr) Ht Hu. apply Hr. by eapply Hu. Qed.

(** Gates that stand where no sub-condition is false are passed. *)
Lemma evidence_of_gates i h wsgi s :
  map_read (hashes s) InputHashName = Some h → strategy i wsgi (St.trace s) →
  gates i h wsgi s → sync_gate i s → unblocked s → ready_evidence i s.
Proof.
  intros Hh Hs [Hd Hw] (st & Hst & Hy) Hu. exists h, wsgi. split_and!; [done|done| |].
  - split; [by eapply gate_unblocked|]. intros E. destruct (Hw E) as [Hk Hr].
    split; [by eapply gate_unblocked|]. intros E'. eapply gate_unblocked; [by apply Hr|done|done].
  - apply Hy. by apply (Hu DBSyncReadyCondition).
Qed.

Lemma gates_frame b T q i h wsgi (s s' : St.t W) :
  frame b T q s s' → (∀ t, t ≠ ReadyCondition → T t = true) → gates i h wsgi s → gates i h wsgi s'.
Proof.
  intros Hf HT [Hd Hw]. split; [by eapply gate_frame; [exact Hf|apply HT|]|].
  intros E. destruct (Hw E) as [Hk Hr]. split; [by eapply gate_frame; [exact Hf|apply HT|]|].
  intros E'. eapply gate_frame; [exact Hf|by apply HT|by apply Hr].
Qed.

(** What the end of a reconcile says about the Ready condition. *)
Definition reported (i : NeutronAPI.t) (s : St.t W) : Prop :=
  (cond_of s ReadyCondition = Some ConditionTrue → unblocked s) ∧
  (unblocked s → ready_evidence i s).

(** The last step may set the Ready condition. *)
Lemma wp_report_ready (s : St.t W) :
  cond_of s ReadyCondition ≠ Some ConditionTrue →
  wp (report_ready;; (mret (Result0, None) : M (St.t W) RetVal RetVal))
    (λ _ s', frame true sub_condition (λ ev, negb (is_lookup ev)) s s' ∧
             (cond_of s' ReadyCondition = Some ConditionTrue → unblocked s')) s.
Proof.
  intros Hr. unfold report_ready. apply wp_bind, wp_bind, wp_instance, wp_when; intros Ha.
  - apply wp_update_inst, wp_ret. split.
    + apply frame_conds. intros t Ht. rewrite status_MarkTrue, decide_False; [done|]. by intros <-.
    + intros _ t st Ht. rewrite cond_of_set, status_MarkTrue, decide_False by congruence.
      by apply AllSubConditionIsTrue_spec.
  - apply wp_ret. split; [apply frame_refl|done].
Qed.

(** From the rotation on: whatever the outcome, the gates stand. *)
Lemma wp_finish cur notif h wsgi i s :
  cond_of s ReadyCondition ≠ Some ConditionTrue →
  map_read (hashes s) InputHashName = Some h → strategy i wsgi (St.trace s) →
  gates i h wsgi s → sync_gate i s →
  wp (release_accounts handler;; rotate_credentials handler cur notif;; report_ready;;
      (mret (Result0, None) : M (St.t W) RetVal RetVal)) (λ _ s', reported i s') s.
Proof.
  intros Hr Hh Hs Hg Hy.
  assert (∀ s', frame true sub_condition (λ ev, negb (is_lookup ev)) s s' →
    (cond_of s' ReadyCondition = Some ConditionTrue → unblocked s') → reported i s') as Hend.
  { intros s' Hf Hu. split; [exact Hu|]. intros Hu'. eapply evidence_of_gates; [| | | |exact Hu'].
    - destruct Hf as (_ & -> & _); [exact Hh|done].
    - destruct Hf as (_ & _ & _ & evs & -> & Hq). by apply strategy_grows.
    - by eapply gates_frame; [exact Hf|apply sub_conditions|].
    - by eapply sync_gate_frame. }
  assert (∀ s', frame true (λ _, true) (λ ev, negb (is_lookup ev)) s s' → reported i s') as Hkept.
  { intros s' Hf. apply Hend; [by eapply frame_weaken; [..|exact Hf]|]. intros H.
    destruct Hf as (_ & _ & Hc & _). by rewrite Hc in H. }
  apply wp_bind. pose proof (frames_release_accounts handler s) as H1.
  eapply (frame_weaken true true _ (λ _, true) _ (λ ev, negb (is_lookup ev))) in H1;
    [|done|done|apply settled_no_lookup].
  unfold wp at 1. destruct (release_accounts handler s) as [[u|r|] s1]; simpl in *; [|by apply Hkept..].
  apply wp_bind. pose proof (frame_trans _ _ _ _ _ _ H1 (frames_rotate handler cur notif s1)) as H2.
  unfold wp at 1. destruct (rotate_credentials handler cur notif s1) as [[u'|r|] s2]; simpl in *;
    [|by apply Hkept..].
  assert (cond_of s2 ReadyCondition ≠ Some ConditionTrue) as Hr2.
  { destruct H2 as (_ & _ & Hc & _). by rewrite Hc. }
  pose proof (wp_report_ready s2 Hr2) as Hw. eapply wp_mono; [exact Hw|].
  intros o s3 [Hf3 Hu3]. apply Hend; [|exact Hu3]. eapply frame_trans; [|exact Hf3].
  by eapply frame_weaken; [..|exact H2].
Qed.

(** A return that came with no error where a sub-condition was not true. *)
Lemma reported_blocked i s :
  cond_of s ReadyCondition ≠ Some ConditionTrue → blocked s → reported i s.
Proof. intros Hr Hb. split; [done|]. intros Hu. destruct (blocked_unblocked s Hb Hu). Qed.

Definition ends (i : NeutronAPI.t) (o : outcome RetVal RetVal) (s : St.t W) : Prop :=
  match o with
  | Cont r | Ret r => r.2 = None → reported i s
  | Panic => True
  end.

(** One step before the gates stand. *)
Lemma ends_step {A} b T q i (m : M (St.t W) RetVal A) (k : A → M (St.t W) RetVal RetVal)
    (P : A → St.t W → Prop) s :
  frames b T q m → T ReadyCondition = true → cond_of s ReadyCondition ≠ Some ConditionTrue →
  unless m P s →
  (∀ a s', frame b T q s s' → cond_of s' ReadyCondition ≠ Some ConditionTrue → P a s' →
     wp (k a) (ends i) s') →
  wp (m ≫= k) (ends i) s.
Proof.
  intros Hm HT Hr Hu Hk. apply wp_bind. specialize (Hm s).
  assert (cond_of (m s).2 ReadyCondition ≠ Some ConditionTrue) as Hr'.
  { destruct Hm as (_ & _ & Hc & _). by rewrite Hc. }
  unfold unless, wp in Hu. unfold wp at 1. destruct (m s) as [[a|r|] s']; simpl in *; [by apply Hk| |done].
  intros He. by apply reported_blocked, Hu.
Qed.

(** A step that leaves the conditions of the rollout alone. *)
Lemma ends_quiet {A} b T q st i (m : M (St.t W) RetVal A) (k : A → M (St.t W) RetVal RetVal)
    (P : A → St.t W → Prop) s :
  frames b T q m → (∀ t, rollout_condition t = true → T t = true) →
  cond_of s ReadyCondition ≠ Some ConditionTrue →
  cond_of s DeploymentReadyCondition = Some st → st ≠ ConditionTrue →
  wpc m P s →
  (∀ a s', frame b T q s s' → cond_of s' ReadyCondition ≠ Some ConditionTrue →
     cond_of s' DeploymentReadyCondition = Some st → P a s' → wp (k a) (ends i) s') →
  wp (m ≫= k) (ends i) s.
Proof.
  intros Hm HT Hr Hst Hne HP Hk. eapply ends_step; [exact Hm|by apply HT|exact Hr| |].
  - eapply (unless_step b T q DeploymentReadyCondition st); [exact Hm|by apply HT|done|exact Hst|exact Hne|exact HP].
  - intros a s' Hf Hr' [_ Ha]. apply Hk; [done|done| |done].
    destruct Hf as (_ & _ & Hc & _). rewrite Hc; [exact Hst|by apply HT].
Qed.

(** From the input hash on. *)
Lemma ends_rollout i cur notif mc annotations r s st :
  is_inst i s → cond_of s ReadyCondition ≠ Some ConditionTrue →
  cond_of s DeploymentReadyCondition = Some st → st ≠ ConditionTrue → sync_gate i s →
  wp (inputHash ← input_hash r;
      topology ← ensure_topology handler serviceLabels;
      wsgi ← call_fn (IsWSGIEffective handler (Some serviceLabels) (Some annotations));
      deploy_api handler serviceLabels annotations inputHash topology mc wsgi;;
      rollout_workers handler annotations inputHash topology mc wsgi;;
      release_accounts handler;;
      rotate_credentials handler cur notif;;
      report_ready;;
      (mret (Result0, None) : M (St.t W) RetVal RetVal)) (ends i) s.
Proof.
  intros Hi Hr Hst Hne Hy.
  eapply ends_quiet; [apply quiet_input_hash|apply rollout_later|exact Hr|exact Hst|exact Hne
    |apply wpc_input_hash|]. intros h s1 _ _ _ [Hh ->].
  eapply ends_quiet; [apply topology_frames|apply rollout_later|exact Hr|exact Hst|exact Hne
    |apply wpc_true|]. intros topology s2 Hf2 Hr2 Hst2 _.
  eapply (ends_quiet _ _ _ _ _ _ _ (λ wsgi s', strategy (St.inst s2) wsgi (St.trace s')));
    [apply frames_call_fn, probe_frames|apply rollout_later|exact Hr2|exact Hst2|exact Hne| |].
  { eapply wp_call_spec; [apply strategy_spec|]. done. }
  intros wsgi s3 Hf3 Hr3 Hst3 Hs3.
  eapply ends_step; [apply frames_deploy_api|done|exact Hr3| |].
  { apply unless_deploy_api. exists st. by split. }
  intros u4 s4 Hf4 Hr4 Hg4.
  eapply ends_step; [apply frames_rollout_workers|done|exact Hr4|by apply unless_rollout_workers|].
  intros u5 s5 Hf5 Hr5 Hg5.
  assert (is_inst i s4) as [st4 Hi4].
  { eapply is_inst_frame; [exact Hf4|]. eapply is_inst_frame; [exact Hf3|]. by eapply is_inst_frame. }
  destruct (is_inst_frame _ _ _ _ _ _ Hf2 Hi) as [st2 Hi2]. rewrite Hi2 in Hs3. rewrite Hi4 in Hg5.
  eapply wp_mono; [eapply (wp_finish cur notif h wsgi i s5); [exact Hr5| | |exact Hg5|]|].
  - destruct Hf2 as (_ & Hh2 & _), Hf3 as (_ & Hh3 & _), Hf4 as (_ & Hh4 & _), Hf5 as (_ & Hh5 & _).
    by rewrite Hh5, Hh4, Hh3, Hh2.
  - eapply strategy_frame; [exact Hf5|]. eapply strategy_frame; [exact Hf4|exact Hs3].
  - eapply sync_gate_frame; [exact Hf5|done|]. eapply sync_gate_frame; [exact Hf4|done|].
    eapply sync_gate_frame; [exact Hf3|done|]. by eapply sync_gate_frame.
  - intros [?|?|] s' H; [by intros _..|done].
Qed.

Lemma ends_normal s st st' :
  cond_of s ReadyCondition ≠ Some ConditionTrue →
  cond_of s DeploymentReadyCondition = Some st → st ≠ ConditionTrue →
  cond_of s DBSyncReadyCondition = Some st' → st' ≠ ConditionTrue →
  wp (reconcileNormal handler) (ends (St.inst s)) s.
Proof.
  intros Hr Hst Hne Hst' Hne'. unfold reconcileNormal.
  assert (is_inst (St.inst s) s) as Hi.
  { exists (NeutronAPI.Status (St.inst s)). by rewrite set_Status_id. }
  assert (sync_gate (St.inst s) s) as Hy by (exists st'; by split).
  eapply ends_quiet; [apply (quiet_prepare handler)|apply rollout_later|exact Hr|exact Hst|exact Hne
    |apply wpc_true|].
  intros [[[cur notif] mc] annotations] s1 Hf1 Hr1 Hst1 _.
  pose proof (is_inst_frame _ _ _ _ _ _ Hf1 Hi) as Hi1.
  pose proof (sync_gate_frame _ _ _ _ _ _ Hf1 eq_refl Hy) as Hy1.
  eapply (ends_quiet _ _ _ _ _ _ _ (λ _ s', sync_gate (St.inst s) s'));
    [apply (initial_init_update_upgrade handler)|done|exact Hr1|exact Hst1|exact Hne| |].
  { eapply wp_mono; [by apply gate_init_update_upgrade|]. by intros [?|?|] ? ?. }
  intros r s2 Hf2 Hr2 Hst2 Hy2. eapply ends_rollout; [by eapply is_inst_frame|done..].
Qed.

(** ** Reconcile *)

Lemma delete_conditions s :
  wp (reconcileDelete handler) (λ _ s', ∀ t, cond_of s' t = cond_of s t) s.
Proof.
  assert (frames true (λ _, true) (λ _, true) (delete_references handler)) as Hf.
  { unfold delete_references, release_database, release_keystone, release_topology, release_transport,
      prune_all, remove_consumer_finalizers, fail_on, fail_unless_not_found. frames.
    simpl. unfold fail_unless_not_found. frames. }
  unfold reconcileDelete. apply wp_bind. destruct (Hf s) as (_ & _ & Hc & _). unfold wp.
  destruct (delete_references handler s) as [[u|r|] s1]; simpl in *; intros t; by apply Hc.
Qed.

Definition body_ends (i : NeutronAPI.t) (r : RetVal) (s : St.t W) : Prop :=
  r.2 = None → reported i s ∧ (unblocked s → NeutronAPI.DeletionTimestamp i = None).

Lemma body_blocked i r (s : St.t W) (cs : Conditions) :
  (∀ t, cond_of s t = cond_status (Init cs (CreateList initial_conditions)) t) → body_ends i r s.
Proof.
  intros Hc _. assert (blocked s) as Hb.
  { exists DeploymentReadyCondition, ConditionUnknown. split_and!; [done| |done].
    rewrite Hc. apply init_deployment_unknown. }
  split; [|intros Hu; destruct (blocked_unblocked s Hb Hu)].
  apply reported_blocked; [|done]. rewrite Hc.
  rewrite (init_unknown cs ReadyCondition (condition_msg "ReadyInitMessage")); [done|by left].
Qed.

Lemma body_reported isNew s :
  wp (reconcile_body handler isNew) (λ o s', match o with
    | Cont r | Ret r => body_ends (St.inst s) r s' | Panic => True end) s.
Proof.
  unfold reconcile_body. apply wp_bind, wp_update_inst, wp_bind, wp_update_inst.
  apply wp_bind, wp_instance, wp_bind.
  cbn [St.set_inst St.inst NeutronAPI.set_Status set_conds NeutronAPI.DeletionTimestamp].
  set (cs := conds (St.inst s)).
  destruct (bool_decide (is_Some (NeutronAPI.DeletionTimestamp (St.inst s)))) eqn:Hd.
  - apply wp_ret, wp_bind, wp_when; intros _; [by apply wp_return, (body_blocked _ _ _ cs)|].
    apply wp_bind, wp_update_status, wp_bind, wp_update_status, wp_call_fn.
    eapply wp_mono; [apply delete_conditions|]. intros [r|r|] s' H; [..|done];
      by apply (body_blocked _ _ _ cs).
  - apply bool_decide_eq_false_1, eq_None_not_Some in Hd.
    destruct (AddFinalizer _ _) as [fs added].
    apply wp_bind, wp_update_inst, wp_ret, wp_bind, wp_when; intros _;
      [by apply wp_return, (body_blocked _ _ _ cs)|].
    apply wp_bind, wp_update_status, wp_bind, wp_update_status, wp_call_fn.
    match goal with |- wp _ _ ?s1 => pose proof (ends_normal s1 ConditionUnknown ConditionUnknown) as H end.
    eapply wp_mono; [apply H|].
    + unfold cond_of, conds. simpl. rewrite (init_unknown _ _ (condition_msg "ReadyInitMessage")); [done|by left].
    + apply init_deployment_unknown.
    + done.
    + apply (init_unknown _ _ (condition_msg "DBSyncReadyInitMessage")). right. right. by left.
    + done.
    + intros [r|r|] s' Hs'; [..|done]; intros Hr; (split; [exact (Hs' Hr)|by intros _]).
Qed.

(** What a patched instance that is Ready stands for. *)
Definition ready_means (nn : NamespacedName.t) (p : NeutronAPI.t) (tr : list event) : Prop :=
  ∃ i h wsgi,
    Ev (GetNeutronAPI nn) (inr i) ∈ tr ∧ NeutronAPI.DeletionTimestamp i = None ∧
    (∀ t st, t ≠ ReadyCondition → cond_status (conds p) t = Some st → st = ConditionTrue) ∧
    map_read (Status.Hash (NeutronAPI.Status p)) InputHashName = Some h ∧
    db_synced i tr ∧ strategy i wsgi tr ∧ rollout_done i h wsgi tr.

Definition patched (nn : NamespacedName.t) (r : RetVal) (s : St.t W) : Prop :=
  ∀ p perr tr, r.2 = None → St.trace s = Ev (PatchInstance p) perr :: tr → IsReady p = true →
    ready_means nn p tr.

Lemma patch_reported nn saved r i s :
  Ev (GetNeutronAPI nn) (inr i) ∈ St.trace s → body_ends i r s →
  fn_spec (patch_status handler saved r) (patched nn) s.
Proof.
  intros Hget Hb. unfold fn_spec, patch_status. apply wp_bind, wp_update_inst, wp_bind, wp_instance, wp_bind.
  set (s1 := St.set_inst _ s).
  assert (∀ t, cond_of s1 t = cond_of s t) as Hc1 by (intros t; apply status_Restore).
  assert (∀ s2, St.trace s2 = St.trace s → hashes s2 = hashes s →
    (∀ t, t ≠ ReadyCondition → cond_of s2 t = cond_of s t) →
    (r.2 = None → cond_of s2 ReadyCondition = Some ConditionTrue → unblocked s) →
    wp (i ← instance; err ← call handler (PatchInstance i);
        match err with Some err => mret (r.1, Some err) | None => mret r end) (post (patched nn)) s2) as Hend.
  { intros s2 Ht Hh Hc Hu. apply wp_bind, wp_instance, wp_bind, wp_call. intros err w _.
    destruct err as [e|]; apply wp_ret; intros p perr tr Hr Htr Hp; [done|].
    injection Htr as <- _ <-. apply IsTrue_spec in Hp. destruct (Hb Hr) as [[_ He] Hdel].
    pose proof (Hu Hr Hp) as Hub. destruct (He Hub) as (h & wsgi & H1 & H2 & H3 & H4).
    exists i, h, wsgi. rewrite Ht. split_and!; [done|by apply Hdel| |by rewrite <-H1, <-Hh|done..].
    intros t st Hne Hst. apply (Hub t); [done|]. rewrite <-Hc by done. exact Hst. }
  apply wp_when; intros Hunk.
  - destruct (Mirror (conds (St.inst s1)) ReadyCondition) as [c|] eqn:Hm.
    + apply wp_update_inst, Hend; [done|done| |].
      * intros t Hne. rewrite cond_of_set, status_Set, decide_False; [apply Hc1|].
        rewrite (Mirror_type _ _ _ Hm). congruence.
      * rewrite cond_of_set, status_Set, decide_True by apply (Mirror_type _ _ _ Hm).
        intros _ [= Hst] t st Hne Ht. eapply (Mirror_true _ _ Hm Hst t); [done|].
        by rewrite <-Ht, <-Hc1.
    + apply wp_ret, Hend; [done|done|intros; apply Hc1|].
      intros _ H. exfalso. by eapply IsUnknown_not_true.
  - apply Hend; [done|done|intros; apply Hc1|]. intros Hr H. destruct (Hb Hr) as [[Hu _] _].
    apply Hu. by rewrite <-Hc1.
Qed.

(** C3: Ready is honest.  Take a reconcile that returns without an error and
    patches a NeutronAPI that is Ready.  Then in that reconcile, the NeutronAPI
    was read and is not being deleted, every condition it reports is true, the
    db-sync Job of its spec has finished, and the API Deployment and, under the
    WSGI strategy that the latest probe look-up gives, the worker Deployments
    were applied with the input hash it records, observed and found ready for
    exactly that hash. *)
Theorem Reconcile_ready_honest nn i0 vars w res s' p perr tr :
  returns (Reconcile handler nn) (St.mk i0 vars w []) = Some ((res, None), s') →
  St.trace s' = Ev (PatchInstance p) perr :: tr → IsReady p = true → ready_means nn p tr.
Proof.
  intros Hret. set (s := St.mk i0 vars w []) in *.
  assert (wp (Reconcile handler nn) (λ o s', match o with
    | Cont r | Ret r => patched nn r s' | Panic => True end) s) as H.
  2:{ unfold returns, wp in *. destruct (Reconcile handler nn s) as [[r|r|] s2]; simpl in *; [..|done];
        injection Hret as -> <-; by apply H. }
  unfold Reconcile. apply wp_bind, wp_call. intros answer w1 _. apply wp_bind. destruct answer as [e|i].
  { destruct (IsNotFound e); apply wp_return; by intros p' perr' tr' _ [=]. }
  apply wp_ret, wp_bind, wp_update_inst, wp_bind, wp_call. intros err w2 _. apply wp_bind.
  destruct err as [e|]; [apply wp_return; by intros p' perr' tr' [=]|]. apply wp_ret, wp_bind.
  assert (∀ isNew saved s1, is_inst i s1 → Ev (GetNeutronAPI nn) (inr i) ∈ St.trace s1 →
    wp (deferred (reconcile_body handler isNew) (patch_status handler saved)) (λ o s', match o with
      | Cont r | Ret r => patched nn r s' | Panic => True end) s1) as Hd.
  { intros isNew saved s1 [st Hi] Hin. apply wp_deferred.
    pose proof (body_reported isNew s1) as Hb. pose proof (grows_body handler isNew s1) as [evs Hg].
    rewrite Hi in Hb. unfold wp in Hb. unfold wp at 1.
    assert (Ev (GetNeutronAPI nn) (inr i) ∈ St.trace (reconcile_body handler isNew s1).2) as Hin'
      by (rewrite Hg; set_solver).
    destruct (reconcile_body handler isNew s1) as [[r|r|] s2]; simpl in *; [..|done];
      (eapply wp_mono; [apply (patch_reported nn saved r i s2 Hin' Hb)|]; by intros [?|?|] ? ?). }
  apply wp_when; intros _; [apply wp_update_inst|]; apply wp_bind, wp_instance, Hd;
    try (right; by left); eexists; first [reflexivity|symmetry; apply set_Status_id].
Qed.
End readiness.
