(* ===== verification/Witnesses.v ===== *)
(** * The theorems at concrete inputs

    Each theorem that has hypotheses is applied here at the reference library
    ([Reference]), the sample cluster ([Samples]) and concrete objects, with its
    hypotheses discharged by evaluation. *)

From S2P Require Import Prelude GoStrings RpcWorkers K8s Conditions Lib Reference Api Webhook.
From S2P Require Import GoMonad Pods External ImageProbe ExternalSecrets ServiceConfig Delete.
From S2P Require Import Init Inputs Rollout Reconcile Watches Frame Safety Rotation Endpoints.
From S2P Require Import Samples Guarantees Readiness.

Import Demo.

(** ** Objects *)

Definition defaults : NeutronAPIDefaults.t := NeutronAPIDefaults.mk "img" 120.

Definition the_sample : NeutronAPI.t := sample debug_config "".

(** The sample with the WSGI annotation. *)
Definition wsgi_sample : NeutronAPI.t :=
  NeutronAPI.mk "NeutronAPI" "neutron" "openstack" 1 None (Some {[ NeutronWSGILabel := "true" ]}) []
    (NeutronAPI.Spec the_sample) fresh_status.

(** A NeutronAPI whose status has a hash map. *)
Definition with_map : NeutronAPI.t :=
  NeutronAPI.set_Status (Status.set_Hash (Some ∅) fresh_status) the_sample.

Definition at_ (i : NeutronAPI.t) (w : World.t) : St.t World.t := St.mk i ∅ w [].

Definition mc : Memcached.t := Memcached.mk "memcached" "" "ready".

(** ** Webhook *)

Lemma NeutronAPI_Default_witness :
  Spec.ContainerImage (NeutronAPI.Spec (NeutronAPI_Default defaults the_sample)) ≠ "" ∧
  NeutronAPI_Default defaults (NeutronAPI_Default defaults the_sample) =
    NeutronAPI_Default defaults the_sample.
Proof.
  destruct (NeutronAPI_Default_spec defaults the_sample) as (_ & _ & _ & _ & _ & (H1 & _) & H2);
    [discriminate|discriminate|]. split; [exact H1|exact H2].
Defined.

Lemma ValidateCreate_witness :
  (NeutronAPI_ValidateCreate the_sample).2 = None ↔
  spec_valid (NeutronAPI.core the_sample) ∧
  ValidateTopologyRef (SpecCore.TopologyRef (NeutronAPI.core the_sample))
    (basePath0 ++ ["topologyRef"]) "openstack" = [].
Proof. exact (proj1 (ValidateCreate_accepts the_sample)). Defined.

Lemma ValidateUpdate_witness :
  ∃ old, ObjNeutronAPI (Some the_sample) = ObjNeutronAPI (Some old) ∧
    (validateDeprecatedFieldsUpdate (NeutronAPI.core the_sample) (NeutronAPI.core old) basePath0).2 = [] ∧
    (NeutronAPI_ValidateCreate the_sample).2 = None.
Proof.
  apply (proj1 (ValidateUpdate_accepts the_sample (ObjNeutronAPI (Some the_sample)))).
  vm_compute. reflexivity.
Defined.

(** ** Pods *)

(** What a builder returns on a concrete input, by evaluation. *)
Ltac built H := exfalso; revert H; vm_compute; discriminate.

Lemma Deployment_containers_witness :
  ∃ d httpd,
    Deployment_ the_sample "hash" (Some serviceLabels) None None mc true = Some (inr d) ∧
    PodSpec.Containers (PodTemplateSpec.Spec (Deployment.Template d)) = [httpd] ∧
    NoDup (paths (Container.VolumeMounts httpd)).
Proof.
  destruct (Deployment_ the_sample "hash" (Some serviceLabels) None None mc true)
    as [[e|d]|] eqn:H; [built H| |built H].
  destruct (Deployment_containers _ _ _ _ _ _ _ _ H) as (cv & cm & ovn & _ & _ & httpd & Hc & _ & Hn & _).
  exists d, httpd. split; [reflexivity|]. split; [exact Hc|exact Hn].
Defined.

Lemma workloads_mounts_closed_witness :
  ∃ d, RPCDeployment the_sample "hash" (Some serviceLabels) None None mc = Some d ∧
       mounts_closed (PodTemplateSpec.Spec (Deployment.Template d)).
Proof.
  destruct (RPCDeployment the_sample "hash" (Some serviceLabels) None None mc) as [d|] eqn:H; [|built H].
  exists d. split; [reflexivity|].
  refine (proj1 (proj2 (workloads_mounts_closed the_sample "hash" (Some serviceLabels) None None mc _))
            d H).
  intros exv vol m Hexv. apply not_elem_of_nil in Hexv. destruct Hexv.
Defined.

Lemma deployments_config_env_witness :
  ∃ d, WorkerDeployment the_sample "hash" (Some serviceLabels) None None mc = Some d ∧
    ∀ c, c ∈ PodSpec.Containers (PodTemplateSpec.Spec (Deployment.Template d)) →
      EnvVar.mk "CONFIG_HASH" "hash" ∈ Container.Env c.
Proof.
  destruct (WorkerDeployment the_sample "hash" (Some serviceLabels) None None mc) as [d|] eqn:H; [|built H].
  exists d. split; [reflexivity|]. intros c Hc.
  refine (proj1 (deployments_config_env the_sample "hash" (Some serviceLabels) None None mc d true
                   _ c Hc)).
  right. right. exact H.
Defined.

Lemma deployments_panic_iff_witness :
  is_Some (Deployment_ the_sample "hash" (Some serviceLabels) None None mc false).
Proof.
  apply (proj1 (deployments_panic_iff the_sample "hash" (Some serviceLabels) None None mc false)).
  intros exv vol v Hexv. apply not_elem_of_nil in Hexv. destruct Hexv.
Defined.

(** ** The image probe *)

(** An image that still ships neutron-server. *)
Definition ships (image : string) : bool := true.

Definition probe_held : Probe.Held.t :=
  Probe.Held.mk (ImageProbeJob wsgi_sample None None) false false.

Definition clear : Probe.Weather.t := Probe.Weather.clear.

Lemma probe_started_reachable :
  Probe.reachable ships None None wsgi_sample (wsgi_sample, Some probe_held).
Proof.
  eapply rtc_l; [|apply rtc_refl].
  eapply (Probe.step_reconcile _ _ _ clear _ _ true (Some probe_held)). vm_compute. reflexivity.
Qed.

Lemma probe_finished_reachable :
  Probe.reachable ships None None wsgi_sample (wsgi_sample, Some (Probe.finish ships probe_held)).
Proof.
  eapply rtc_r; [exact probe_started_reachable|].
  apply Probe.step_finish. intros [H|H]; vm_compute in H; discriminate.
Qed.

Lemma Probe_sound_witness :
  Probe.decide_strategy None None clear (wsgi_sample, Some (Probe.finish ships probe_held)) =
    Some (false, Some (Probe.finish ships probe_held)) ∧
  ships "img" = true.
Proof.
  assert (Probe.decide_strategy None None clear
    (wsgi_sample, Some (Probe.finish ships probe_held)) =
    Some (false, Some (Probe.finish ships probe_held))) as H by (vm_compute; reflexivity).
  split; [exact H|].
  destruct (Probe.Probe_sound ships None None clear wsgi_sample wsgi_sample _ false _
    probe_finished_reachable eq_refl H) as [Hs _].
  destruct (Hs eq_refl) as [Hi|(r & [= <-] & Hd)]; [exact Hi|]. vm_compute in Hd. discriminate.
Defined.

(** The image changes while the probe of the old one runs. *)
Definition moved_sample : NeutronAPI.t := Probe.set_image "img2" wsgi_sample.

Lemma Probe_progress_witness :
  ∃ b1 w1 b2 r,
    Probe.decide_strategy None None clear (moved_sample, Some probe_held) = Some (b1, w1) ∧
    Probe.decide_strategy None None clear (moved_sample, Probe.settle w1) = Some (b2, Some r) ∧
    Probe.job_image (Probe.Held.job r) = Some "img2".
Proof.
  destruct (Probe.Probe_progress ships None None wsgi_sample moved_sample (Some probe_held))
    as (b1 & w1 & b2 & r & H1 & H2 & H3 & _).
  - eapply rtc_r; [exact probe_started_reachable|]. apply Probe.step_image.
  - vm_compute. reflexivity.
  - exists b1, w1, b2, r. split; [exact H1|]. split; [exact H2|exact H3].
Defined.

(** ** Secrets and hashes *)

Lemma reconcileExternalSecrets_witness :
  ∃ s', returns (reconcileExternalSecrets answer "rabbit-secret") (at_ with_map (world with_map true)) =
          Some (None, s') ∧
        framed [getSriovAgentSecretName with_map; getDhcpAgentSecretName with_map]
          (at_ with_map (world with_map true)) s'.
Proof.
  destruct (reconcileExternalSecrets_spec answer (cluster_secrets answer) "rabbit-secret"
    (at_ with_map (world with_map true))) as (err & s' & H & Hf & _); [vm_compute; by eexists|].
  exists s'. split; [|exact Hf]. rewrite H.
  assert (fst <$> Some (err, s') = Some None) as Herr by (rewrite <-H; vm_compute; reflexivity).
  injection Herr as ->. reflexivity.
Defined.

Lemma reconcileExternalOVNSecrets_witness :
  ∃ s', returns (reconcileExternalOVNSecrets answer) (at_ with_map (world with_map true)) =
          Some (None, s') ∧
        framed [getMetadataAgentSecretName with_map; getOVNAgentSecretName with_map]
          (at_ with_map (world with_map true)) s'.
Proof.
  destruct (reconcileExternalOVNSecrets_spec answer (cluster_secrets answer)
    (at_ with_map (world with_map true))) as (err & s' & H & Hf & _); [vm_compute; by eexists|].
  exists s'. split; [|exact Hf]. rewrite H.
  assert (fst <$> Some (err, s') = Some None) as Herr by (rewrite <-H; vm_compute; reflexivity).
  injection Herr as ->. reflexivity.
Defined.

(** The Secrets of the sample, from a database that was just created. *)
Lemma generateServiceSecrets_witness :
  ∃ err s',
    returns (generateServiceSecrets answer (loaded_database (new_database the_sample)) None None
               "rabbit-secret" None) (at_ the_sample (world the_sample true)) = Some (err, s') ∧
    err = None ∧
    ∃ p (s1 : St.t World.t), parameters_ok the_sample (loaded_database (new_database the_sample)) "rabbit-secret"
              None p s1.
Proof.
  destruct (generateServiceSecrets_spec answer (loaded_database (new_database the_sample)) None None
    "rabbit-secret" None (at_ the_sample (world the_sample true))) as (err & s' & H & Hs).
  - split; eexists; reflexivity.
  - exists err, s'. split; [exact H|].
    assert (fst <$> Some (err, s') = Some None) as Herr by (rewrite <-H; vm_compute; reflexivity).
    injection Herr as ->. split; [reflexivity|].
    destruct Hs as (p & env & env' & s1 & Hp & _). exists p, s1. exact Hp.
Defined.

Definition sample_db : Database.t := new_database the_sample.

Lemma config_mounts_served_witness :
  ∃ volumes m t,
    GetVolumes "neutron" [] NeutronAPIPropagation = Some volumes ∧ m ∈ config_mounts false ∧
    t ∈ [config_template the_sample sample_db ∅; httpd_template the_sample ∅] ∧
    VolumeMount.SubPath m ∈ template_keys t.
Proof.
  destruct (GetVolumes "neutron" [] NeutronAPIPropagation) as [volumes|] eqn:H; [|built H].
  destruct (config_mounts false) as [|m ms] eqn:Hm; [built Hm|].
  destruct (config_mounts_served the_sample sample_db ∅ [] NeutronAPIPropagation volumes m)
    as (t & H1 & _ & H2); [exact H| |].
  { left. change (policyOverwrite the_sample) with false. rewrite Hm. by left. }
  exists volumes, m, t. split; [reflexivity|]. split; [by left|]. split; [exact H1|exact H2].
Defined.

Lemma createHashOfInputHashes_witness :
  ∃ changed err s',
    returns createHashOfInputHashes (at_ with_map (world with_map true)) =
      Some ((changed, err), s') ∧
    St.trace s' = [].
Proof.
  destruct (createHashOfInputHashes_spec (at_ with_map (world with_map true)))
    as (changed & err & s' & H & Ht & _).
  exists changed, err, s'. split; [exact H|exact Ht].
Defined.

(** ** Deletion *)

Definition deleted_sample : NeutronAPI.t :=
  NeutronAPI.mk "NeutronAPI" "neutron" "openstack" 1 (Some 7%Z) None ["openstack.org/neutronapi"]
    (NeutronAPI.Spec the_sample) fresh_status.

Lemma reconcileDelete_witness :
  ∃ s', returns (reconcileDelete answer) (at_ deleted_sample (world deleted_sample true)) =
          Some ((Result0, None), s') ∧
        all_released deleted_sample (St.trace s').
Proof.
  destruct (reconcileDelete_spec answer (at_ deleted_sample (world deleted_sample true)))
    as (res & err & s' & H & Hr).
  assert ((λ r, snd (fst r)) <$> Some ((res, err), s') = Some None) as Herr
    by (rewrite <-H; vm_compute; reflexivity).
  injection Herr as ->. destruct Hr as (-> & Hr & _). exists s'. split; [exact H|exact Hr].
Defined.

(** ** Reconciles *)

(** The sample after two reconciles, with a rotated transport Secret. *)
Definition rotated : World.t :=
  let w := run_n 2 (world the_sample true) in
  World.mk (World.stored w) (World.probe w) false true "rabbit-secret-2".

Lemma Reconcile_rotation_witness :
  existsb (gives_up (World.stored rotated)) (St.trace (run rotated)) = true ∧
  honest nn [] (run rotated).
Proof.
  split; [vm_compute; reflexivity|].
  exact (Reconcile_rotation_honest answer nn _ _ _).
Defined.

(** The initialisation of a sample whose CA bundle Secret is missing. *)
Definition bundled : St.t World.t :=
  at_ (NeutronAPI.set_Status (Status.set_Hash (Some {[ InputHashName := "old" ]}) fresh_status)
         (sample debug_config "ca-bundle"))
      (World.mk (sample debug_config "ca-bundle") None true true "rabbit-secret").

Lemma missing_tls_witness :
  existsb tls_absent (St.trace (init_update_upgrade answer ∅ "rabbit-secret" None bundled).2) = true ∧
  (init_update_upgrade answer ∅ "rabbit-secret" None ≫= input_hash) bundled =
    (Cont "old", (init_update_upgrade answer ∅ "rabbit-secret" None bundled).2).
Proof.
  assert (existsb tls_absent
    (St.trace (init_update_upgrade answer ∅ "rabbit-secret" None bundled).2) = true) as Habs
    by (vm_compute; reflexivity).
  split; [exact Habs|].
  pose proof (missing_tls_ends_init answer ∅ "rabbit-secret" None bundled) as H. revert H Habs.
  destruct (init_update_upgrade answer ∅ "rabbit-secret" None bundled) as [o s'].
  intros (evs & Ht & H) Habs. cbn [snd] in *.
  rewrite Ht, app_nil_r in Habs. destruct (H Habs) as (_ & _ & _ & _ & _ & Hin). exact Hin.
Defined.

Lemma Reconcile_deploys_witness :
  existsb deploys (St.trace (run rotated)) = true ∧
  preceded deploys (λ tr, ∃ i, Ev (GetNeutronAPI nn) (inr i) ∈ tr ∧ may_deploy i tr) [] (run rotated).
Proof.
  split; [vm_compute; reflexivity|].
  exact (Reconcile_deploys_after_init answer nn _ _ _).
Defined.

Lemma rollout_workers_witness :
  let m := rollout_workers answer ∅ "hash" None mc false in
  (m (at_ with_map (world with_map true))).1 = Cont () ∧
  (∀ n, n ∈ [rpc_name; worker_name] →
     deleted_deployment with_map n (St.trace (m (at_ with_map (world with_map true))).2)).
Proof.
  intros m. assert ((m (at_ with_map (world with_map true))).1 = Cont ()) as H
    by (vm_compute; reflexivity).
  split; [exact H|].
  exact (proj1 (proj2 (rollout_workers_spec answer ∅ "hash" None mc false
    (at_ with_map (world with_map true))) H)).
Defined.

Definition is_some {A} (o : option A) : bool := match o with Some _ => true | None => false end.

Lemma Reconcile_patches_witness :
  ∃ r s', returns (Reconcile answer nn) (start rotated) = Some (r, s') ∧
          reconcile_ends nn (start rotated) r s'.
Proof.
  assert (is_some (returns (Reconcile answer nn) (start rotated)) = true) as Hs
    by (vm_compute; reflexivity).
  destruct (returns (Reconcile answer nn) (start rotated)) as [[r s']|] eqn:H; [|discriminate Hs].
  exists r, s'. split; [reflexivity|]. exact (Reconcile_patches answer nn _ _ _ H).
Defined.

Lemma Reconcile_finalizer_witness :
  ∃ perr s', returns (Reconcile answer nn) (start (world the_sample true)) = Some ((Result0, perr), s') ∧
    length (St.trace s') = 3 ∧
    GetFinalizer "NeutronAPI" ∈ NeutronAPI.Finalizers (St.inst s').
Proof.
  destruct (Reconcile_finalizer_first answer nn (start (world the_sample true)) the_sample
    (world the_sample true)) as (perr & s' & H & Ht & Hf);
    [reflexivity|reflexivity|reflexivity|left; reflexivity|].
  exists perr, s'. split; [exact H|]. split; [rewrite Ht; reflexivity|exact Hf].
Defined.

Lemma no_extra i svc : SpecCore.ExtraMounts (NeutronAPI.core i) = [] → extra_converts i svc.
Proof. intros H exv vol v Hexv. rewrite H in Hexv. by apply not_elem_of_nil in Hexv. Qed.

(** The sample cluster, with an empty list of extra mounts in what it stores. *)
Definition plain_answer (R : Type) (c : Call R) (w : World.t) : R * World.t :=
  match c in Call R return R * World.t with
  | GetNeutronAPI _ => (inr the_sample, w)
  | c => answer _ c w
  end.

#[local] Instance plain_cluster : Cluster plain_answer.
Proof. split; [apply (cluster_secrets answer)|apply (cluster_rbac answer)]. Qed.

#[local] Instance plain_database : DatabaseHelper plain_answer.
Proof. split; [apply (database_created answer)|apply (database_waited answer)]. Qed.

Lemma Reconcile_returns_witness :
  ∃ r s', returns (Reconcile plain_answer nn) (start (world the_sample true)) = Some (r, s').
Proof.
  destruct (Reconcile_returns plain_answer nn (start (world the_sample true))) as (r & s' & H & _).
  - intros i w w' Hget. injection Hget as <- _. split; apply no_extra; reflexivity.
  - exists r, s'. exact H.
Defined.

Lemma Reconcile_ready_witness :
  let w := run_n 1 (world the_sample true) in
  ∃ s' p tr, returns (Reconcile answer nn) (start w) = Some ((Result0, None), s') ∧
    St.trace s' = Ev (PatchInstance p) None :: tr ∧ ready_means nn p tr.
Proof.
  intros w.
  assert (match returns (Reconcile answer nn) (start w) with
          | Some ((r, e), s') =>
              bool_decide (r = Result0) && bool_decide (e = None) &&
              match St.trace s' with
              | Ev (PatchInstance p) None :: _ => IsReady p
              | _ => false
              end
          | None => false
          end = true) as H by (vm_compute; reflexivity).
  destruct (returns (Reconcile answer nn) (start w)) as [[[r e] s']|] eqn:Hret; [|discriminate H].
  apply andb_prop in H as [H Hp]. apply andb_prop in H as [Hr He].
  apply bool_decide_eq_true_1 in Hr as ->. apply bool_decide_eq_true_1 in He as ->.
  destruct (St.trace s') as [|ev tr] eqn:Ht; [discriminate Hp|].
  destruct ev as [R c a]. destruct c; try discriminate Hp. destruct a; [discriminate Hp|].
  match goal with i : NeutronAPI.t |- _ => exists s', i, tr end.
  split; [reflexivity|]. split; [exact Ht|].
  exact (Reconcile_ready_honest answer nn _ _ _ _ _ _ _ _ Hret Ht Hp).
Defined.

Lemma expose_endpoints_witness :
  endpoint_types [EndpointPublic; EndpointInternal] = [EndpointInternal; EndpointPublic].
Proof.
  refine (proj1 (expose_endpoints_spec answer serviceLabels [EndpointPublic; EndpointInternal]
    (start (world the_sample true)) _)).
  vm_compute. first [reflexivity|apply perm_swap].
Defined.

Lemma rotate_credentials_witness :
  (rotate_credentials answer "rabbit-secret-2" None (at_ the_sample (world the_sample true))).1 =
    Cont () ∧
  wpc (rotate_credentials answer "rabbit-secret-2" None) (λ _ s',
    Ev (FinalizeSecretRotation "openstack" "" "rabbit-secret-2" TransportConsumerFinalizer true)
       (inr (Status.TransportURLSecret (NeutronAPI.Status (St.inst s')))) ∈ St.trace s')
    (at_ the_sample (world the_sample true)).
Proof.
  split; [vm_compute; reflexivity|].
  eapply wpc_mono; [apply (rotate_credentials_spec answer "rabbit-secret-2" None
    (at_ the_sample (world the_sample true)))|]. intros u s' (H & _). exact H.
Defined.

(** ** Watches *)

(** A manager that remembers its indexes, and a cache that uses them. *)
Definition registry : Type := string → option (NeutronAPI.t → list string).

Definition register (field : string) (f : NeutronAPI.t → list string) (m : registry)
  : option error * registry :=
  (None, λ field', if bool_decide (field' = field) then Some f else m field').

Definition complete (b : Builder.t) (m : registry) : option error * registry := (None, m).

#[local] Instance registry_laws : ManagerLaws register complete (λ m, m).
Proof.
  split.
  - intros field f m m' [= <-]. rewrite bool_decide_eq_true_2 by done. split; [done|].
    intros field' Hne. by rewrite bool_decide_eq_false_2.
  - by intros b m m' [= <-].
Qed.

Definition indexes : registry := (SetupWithManager register complete (λ _, None)).2.

Definition cache (R : Type) (c : Call R) (w : list NeutronAPI.t) : R * list NeutronAPI.t :=
  match c in Call R return R * list NeutronAPI.t with
  | ListNeutronAPI (FieldEquals field v ns) =>
      (match indexes field with
       | Some index => inr (filter (λ i, NeutronAPI.Namespace i = ns ∧ v ∈ index i) w)
       | None => inl not_found
       end, w)
  | ListNeutronAPI (InNamespace ns) => (inr (filter (λ i, NeutronAPI.Namespace i = ns) w), w)
  | c => (no_answer _ c, w)
  end.

#[local] Instance cache_laws : CacheLaws cache indexes (λ w, w).
Proof.
  split.
  - intros field v ns w l w' H. cbn [cache] in H. destruct (indexes field) as [index|] eqn:Hx; [|done].
    injection H as <- <-. split; [done|]. exists index. split; [done|]. intros i.
    rewrite list_elem_of_filter. tauto.
  - intros ns w l w' H i. cbn in H. injection H as <- _. rewrite list_elem_of_filter. tauto.
Qed.

Lemma findObjectsForSrc_witness :
  request the_sample ∈
    (findObjectsForSrc cache (NamespacedName.mk "neutron-secret" "openstack") [the_sample]).1.
Proof.
  apply (findObjectsForSrc_spec register complete (λ m, m) (λ _, None) indexes cache (λ w, w)
    (NamespacedName.mk "neutron-secret" "openstack") [the_sample]).
  - reflexivity.
  - discriminate.
  - intros field w Hf. unfold allWatchFields in Hf. rewrite !elem_of_cons, elem_of_nil in Hf.
    destruct Hf as [->|[->|[->|[->|[->|[->|[->|[]]]]]]]]; eexists _, w; reflexivity.
  - exists the_sample. split; [by left|]. split; [reflexivity|]. split; [reflexivity|]. left. reflexivity.
Defined.

Lemma namespace_watches_witness :
  request the_sample ∈
    (memcachedNamespaceMapFunc cache (NamespacedName.mk "memcached" "openstack") [the_sample]).1.
Proof.
  apply (proj1 (namespace_watches_spec cache indexes (λ w, w)
    (NamespacedName.mk "memcached" "openstack") [the_sample] (request the_sample))).
  split; [by eexists|]. exists the_sample. split; [by left|].
  split; [reflexivity|]. split; reflexivity.
Defined.
