(* ===== verification/Witnesses2.v ===== *)
(** * The theorems on start-up, leases and the protocol at concrete inputs *)

From S2P Require Import Prelude Slices K8s Conditions Lib Reference Api GoMonad Pods External.
From S2P Require Import ImageProbe Delete Init Inputs Rollout Reconcile Watches Main Startup.
From S2P Require Import Samples Safety Guarantees Lease Protocol Emits Refinement Healthy Liveness.

Import Demo.

(** ** Start-up *)

Definition some_flags : Flags.t :=
  Flags.mk ":8443" ":8081" false true "/webhook-certs" "tls.crt" "tls.key" "/metrics-certs" "tls.crt"
    "tls.key" "" 9443 false.

(** The growth of slices of closures: the double of a small capacity. *)
Definition runtime_growslice (old n : nat) : nat := Nat.max n (2 * old).

(** A process whose calls all succeed. *)
Definition started : outcome Z Z * MainSt.t unit :=
  main (λ _ w, (None, w)) (λ _ _ w, (None, w)) (λ _ w, (None, w)) (λ _ d, d) "" runtime_growslice
    some_flags "" (initial ()).

Lemma servers_tls_witness :
  ∃ o wopts,
    (NewManager o, None) ∈ MainSt.trace started.2 ∧
    contents (MainSt.heap started.2) (Options.WebhookTLSOpts o) = Some wopts ∧
    Config.GetCertificate (apply_opts wopts (Config.mk 0 [] None)) =
      Some (CertWatcher.mk "/webhook-certs/tls.crt" "/webhook-certs/tls.key").
Proof.
  assert (∃ o, (NewManager o, None) ∈ MainSt.trace started.2) as [o Ho].
  { eexists. apply (list_elem_of_lookup_2 _ 9). vm_compute. reflexivity. }
  exists o.
  assert (returns (main (λ _ w, (None, w)) (λ _ _ w, (None, w)) (λ _ w, (None, w)) (λ _ d, d) ""
    runtime_growslice some_flags "") (initial ()) = Some (0%Z, started.2)) as Hr by (vm_compute; reflexivity).
  destruct (servers_tls (λ _ w, (None, w)) (λ _ _ w, (None, w)) (λ _ w, (None, w)) (λ _ d, d) ""
    runtime_growslice some_flags "" () 0%Z started.2 o None (Config.mk 0 [] None)) as [H _];
    [by split|exact Hr|exact Ho|].
  destruct (contents _ _) as [wopts|] eqn:E; [|discriminate H].
  exists wopts. split; [exact Ho|]. split; [reflexivity|].
  apply (f_equal (λ x, match x with Some c => Config.GetCertificate c | None => None end)) in H.
  exact H.
Defined.

(** ** Leases *)

Lemma buses_apart_unset tr :
  forallb (λ i, bool_decide (Status.NotificationsTransportURLSecret (NeutronAPI.Status i) = None))
    (instances_read tr) = true → buses_apart tr.
Proof.
  intros H i Hi ns x _. rewrite forallb_forall in H. apply list_elem_of_In, H, bool_decide_eq_true_1 in Hi.
  by rewrite Hi.
Qed.

#[local] Existing Instances Leases.cluster Leases.finalizer_laws.

Lemma lease_step w lease :
  buses_apart (St.trace (Leases.reconcile w)) →
  step Leases.answer Leases.leased (w, lease)
    (St.world (Leases.reconcile w), lease_after lease (St.trace (Leases.reconcile w))).
Proof. apply (step_reconcile Leases.answer Leases.leased nn (sample "" "") ∅ w lease). Qed.

(** Two reconciles with the messaging Secret A. *)
Definition first_cluster : Leases.world := Leases.set_secret "A" true Leases.initial.
Abbreviation second_cluster := (St.world (Leases.reconcile first_cluster)).

Lemma first_apart : buses_apart (St.trace (Leases.reconcile first_cluster)).
Proof. apply buses_apart_unset. vm_compute. reflexivity. Qed.

Lemma second_apart : buses_apart (St.trace (Leases.reconcile second_cluster)).
Proof. apply buses_apart_unset. vm_compute. reflexivity. Qed.

Lemma second_lease lease :
  lease_after lease (St.trace (Leases.reconcile second_cluster)) = Some ("openstack", "A").
Proof. vm_compute. reflexivity. Qed.

Lemma transport_lease_held_witness :
  Leases.leased (St.world (Leases.reconcile second_cluster)) "openstack" "A".
Proof.
  assert (∀ w lease, rtc (step Leases.answer Leases.leased) (first_cluster, None) (w, lease) →
    lease = Some ("openstack", "A") → Leases.leased w "openstack" "A") as Hheld.
  { intros w lease Hr Hl.
    exact (transport_lease_held Leases.answer Leases.leased first_cluster (w, lease) _ _ Hr Hl). }
  refine (Hheld _ _ _ (second_lease _)).
  exact (rtc_l _ _ _ _ (lease_step _ _ first_apart) (rtc_once _ _ (lease_step _ _ second_apart))).
Defined.

(** ** The protocol *)

(** A reconcile of the sample once it is initialised, to its end. *)
Definition initialised : NeutronAPI.t :=
  NeutronAPI.set_Finalizers ["openstack.org/NeutronAPI"]
    (NeutronAPI.set_Status (Status.set_Conditions (Some []) fresh_status) (sample debug_config "")).

Definition sample_world : World.t := world initialised true.

Abbreviation sample_run := (Reconcile answer nn (St.mk (sample "" "") ∅ sample_world [])).

Example sample_calls : length (St.trace sample_run.2) = 50.
Proof. vm_compute. reflexivity. Qed.

Lemma sample_read : Ev (GetNeutronAPI nn) (inr initialised) ∈ St.trace sample_run.2.
Proof. apply (list_elem_of_lookup_2 _ 49). vm_compute. reflexivity. Qed.

Lemma Reconcile_namespace_witness : forallb (confined "openstack") (St.trace sample_run.2) = true.
Proof.
  exact (Reconcile_namespace answer nn (sample "" "") ∅ sample_world initialised sample_read).
Defined.

Lemma Reconcile_bound_witness :
  length (St.trace sample_run.2) ≤ 61 + attachments_read (reverse (St.trace sample_run.2)).
Proof. exact (Reconcile_bound answer nn (sample "" "") ∅ sample_world). Defined.

Lemma Reconcile_selectors_witness : forallb selects (St.trace sample_run.2) = true.
Proof. exact (Reconcile_selectors answer nn (sample "" "") ∅ sample_world). Defined.

Lemma Reconcile_protocol_witness :
  ∃ o evs, St.trace sample_run.2 = evs ∧ follows nn (panics (R:=RetVal) (A:=RetVal) o) (reverse evs).
Proof.
  pose proof (Reconcile_refines_protocol answer nn (St.mk (sample "" "") ∅ sample_world [])) as H.
  destruct sample_run as [o s']. destruct H as (evs & Ht & Hf). rewrite app_nil_r in Ht.
  exists o, evs. split; [exact Ht|exact Hf].
Defined.

(** ** A healthy cluster *)

(** The Deployments roll out, and the messaging bus has a Secret of its own. *)
Definition all_well (w : World.t) : Prop :=
  World.rolled w = true ∧ World.ca_missing w = false ∧ World.transport_secret w = "rabbit-secret".

Abbreviation fresh := (sample debug_config "").

Lemma some_secret_complete name : complete_secret fresh name some_secret.
Proof.
  split.
  - intros _. by exists "id", "secret".
  - intros _. by eexists.
Qed.

Lemma demo_healthy : healthy answer fresh all_well.
Proof.
  intros R c w Hw. pose proof Hw as (Hr & Hc & Ht). destruct c; cbn; (split; [|try done]); try done.
  all: try (by repeat eexists).
  - eexists. split; [done|]. by apply (cluster_secrets answer templates env w _ w).
  - eexists. split; [done|]. cbn. split; [|set_solver]. intros c Hin.
    rewrite !elem_of_cons, elem_of_nil in Hin. by destruct Hin as [->|[->|[->|[]]]].
  - do 2 eexists. split; [done|]. split; [done|]. cbn. rewrite Ht. done.
  - by intros ?%not_elem_of_nil.
  - rewrite Hc. by eexists.
  - by destruct (type =? imageProbeHash)%string.
  - by destruct (type =? imageProbeHash)%string.
  - eexists. split; [done|]. unfold ready_deployment. rewrite Hr. done.
  - by rewrite Hr.
Qed.

Lemma fresh_wellformed : Wellformed fresh.
Proof.
  split.
  - split; intros exv vol v H; by apply not_elem_of_nil in H.
  - by eexists.
  - intros t port. by eexists.
  - intros env. by eexists.
  - intros nads. by eexists.
Qed.

Lemma healthy_cluster_ready_witness :
  ∃ p w', reconciles answer nn fresh 2 (world fresh true) =
            Some (replicate 2 (Result0, None), p, w') ∧
          (answer _ (GetNeutronAPI nn) w').1 = inr p ∧ IsReady p = true.
Proof.
  apply (healthy_cluster_ready answer fresh all_well demo_healthy fresh_wellformed nn 2 fresh (world fresh true)).
  - reflexivity.
  - intros t st H. discriminate H.
  - intros p w _. reflexivity.
  - repeat split.
  - reflexivity.
  - right. lia.
Defined.

(** The sample while it is being deleted. *)
Definition deleting : NeutronAPI.t :=
  NeutronAPI.mk "NeutronAPI" "neutron" "openstack" 1 (Some 7%Z) None
    ["openstack.org/NeutronAPI"; "other"] (NeutronAPI.Spec fresh)
    (Status.set_Conditions (Some []) fresh_status).

Lemma healthy_cluster_deletes_witness :
  ∃ s' tr, returns (Reconcile answer nn) (start (world deleting true)) = Some ((Result0, None), s') ∧
    St.trace s' = Ev (PatchInstance (St.inst s')) None :: tr ∧ all_released deleting tr ∧
    own_finalizer_gone deleting s'.
Proof.
  apply (healthy_cluster_deletes answer deleting all_well demo_healthy nn (start (world deleting true))).
  - discriminate.
  - split; [discriminate|by left].
  - repeat split.
  - reflexivity.
Defined.
